(* ===== verification/_CoqProject ===== *)
-Q . S2P
Prelude.v
GoTime.v
Strconv.v
Job.v
StorageI.v
Memory.v
MemoryInv.v
MemoryFlow.v
MemoryQueue.v
MemoryHistory.v
MemoryLife.v
MemoryProps.v
StorageSpec.v
Retry.v
Handler.v
Json.v
Engine.v
EngineProps.v
EngineControl.v
Recurring.v
ConfigFile.v
Api.v
OpenApi.v
Routes.v
Startup.v
Cli.v
ApiProps.v
RoutesProps.v
Turns.v
AppProps.v
RedisServer.v
RedisCodec.v
Redis.v
RedisTyped.v
RedisRun.v
RedisSpec.v
RedisFlow.v
RedisProps.v
PgServer.v
PgSql.v
Postgres.v
PgRun.v
PgSpec.v
PgIsolation.v
PgInvariant.v
PgStatements.v
PgSafe.v
PgAtomic.v
PgFlow.v
PgProps.v
