(* ===== verification/Prelude.v ===== *)
(** * GFire: a verification development of the background job service

    GFire (module github.com/hrodrig/gfire) accepts jobs over HTTP, keeps them in
    a storage backend and runs them on a pool of workers, with retries, delayed
    and recurring jobs, continuations, cancellation and recovery of the jobs of
    dead servers.  This library models the code under [src/internal] and proves
    what makes it correct; paths below are relative to that directory.

    ** The parts of the program and the files that model them

    The HTTP API ([api/]) turns requests into calls of the storage and of the
    engine.  The engine ([engine/]) runs loops beside each other: workers take
    tickets from the storage, run handlers through a middleware pipeline and
    settle the job; a scheduler promotes due jobs; a coordinator sends heartbeats
    and requeues orphans; a cleanup forgets old jobs; a recurring manager enqueues
    on cron ticks.  They share nothing but the storage and three maps of the
    engine (counts, cancel functions, contexts).  A backend implements the
    interface of [storage/storage.go].

    - [Prelude]: 64-bit integers with wrap-around, byte slices (nil or bytes), the
      errors of [storage/errors/errors.go] and [errors.Is], contexts, and the
      monad of all stateful code: [M S A] maps the number of calls made so far to
      the process environment and a state to the new ones and to [Ok], [Err]
      (a returned error), [Panic] (recoverable) or [Fatal] (a throw of the run
      time).  Tactics ([run], [cases]) and the hint databases [gfire], [gfire_rw].
    - [GoTime]: instants and durations, RFC 3339, and the class [Env], the answers
      a process gets from outside: clock, UUIDs (distinct, non-empty), random
      source, and the order in which a [range] visits a map (any permutation).
      All theorems hold for every such environment.
    - [Job]: [job/job.go], [job/types.go], [job/recurring.go].
    - [Strconv]: decimal numerals, printed and read back.
    - [StorageI]: the interface [Storage] as a class of operations.
    - [Memory]: [storage/memory/memory.go], one definition per method over the
      record of its maps.  Each method runs under one mutex, so that it is one
      atomic step; [Dequeue], which releases the mutex to sleep, is a sequence of
      scans with the steps of other callers in between, given as a list of
      awakenings.
    - [MemoryInv], [MemoryFlow], [MemoryQueue], [MemoryHistory], [MemoryLife],
      [MemoryProps]: the transition system of any interleaving of callers, its
      invariants (consistent maps and locks; conservation of dispatches; the place
      each state names) and the theorems on the backend.
    - [StorageSpec]: the contract of a backend as the engine and the API use it,
      over an abstract view (each job with its history, and its continuations),
      and the proof that [Memory] keeps it.
    - [RedisServer]: what the Redis backend talks to.  A server is a parameter: a
      state, the answer to each command and the laws of the documentation over its
      key space; the network may cut a batch of commands anywhere, and other clients
      may do anything between two commands.  An executable server shows that the laws
      can be met.
    - [RedisCodec]: [storage/redis/keys.go], [storage/redis/codec.go].
    - [Redis]: the other files of [storage/redis/], one definition per method, the
      four Lua scripts command by command.
    - [RedisTyped]: which kind of value each family of keys holds, and that every
      operation keeps it under any faults and any clients that keep it too.
    - [RedisRun], [RedisSpec], [RedisFlow]: runs without faults and other clients as
      functions of the key space; the representation of jobs; the proof that [Redis]
      keeps the contract of [StorageSpec]; queues.
    - [RedisProps]: the theorems on the backend.
    - [PgServer]: the tables of [storage/postgres/migrations/] and the server behind
      the Postgres backend: statements that take effect at one instant under READ
      COMMITTED, transactions with their row locks, a network that may break at any
      call, and other sessions that may commit anything the locks allow between two
      statements.  Input functions of types, collation and the order in which a query
      visits a table are parameters with the laws of the documentation.
    - [PgSql]: every SQL statement of [storage/postgres/*.go] as a function of the
      tables, with its checks, its writes and its locks.
    - [Postgres]: the methods of [storage/postgres/], one definition each.
    - [PgIsolation], [PgInvariant], [PgStatements], [PgSafe]: what the locks of a
      transaction protect; the invariant of the tables; every statement and every
      operation keeps it among other sessions.
    - [PgAtomic]: transactions that lock before they read take effect at one instant.
    - [PgRun], [PgSpec], [PgFlow]: runs without faults and other sessions; the proof that
      [Postgres] keeps the contract of [StorageSpec]; dispatch and promotion.
    - [PgProps]: the theorems on the backend.
    - [Retry]: [engine/retry.go], [engine/config.go].
    - [Handler]: [handler/handler.go] and [middleware/].
    - [Json]: what the program relies on of [encoding/json], as a class, with an
      executable instance that shows it can be met.
    - [Engine], [EngineProps], [EngineControl]: [engine/engine.go],
      [engine/worker.go], [engine/continuations.go], [engine/coordinator.go].
    - [Recurring]: [engine/recurring.go] and [job/cronexpr.go].
    - [ConfigFile]: [config/] (its definitions are in the module [Doc]).
    - [Api], [ApiProps]: [api/], one definition per handler and the middleware.
    - [OpenApi]: the document of [api/openapi.go], as a value.
    - [Routes], [RoutesProps]: the table of [api/server.go] over the patterns of the
      multiplexer of net/http; [api/metrics.go]; health and version.
    - [Startup]: [config/load.go] over the viper library (a class); [app/startup.go];
      [RunServer] of [app/run.go] as a computation on the process (what it wrote, its
      engine, its HTTP server, its storage), given what ends its wait.
    - [Cli]: [cli/], one definition per command, on the terminal it prints to.
    - [Turns]: the actions on a running engine, from the requests of the API to the turns of
      every loop, and what none of them touches.
    - [AppProps]: the theorems on the process and the commands.

    ** What the theorems show

    In-memory backend: for every interleaving of calls the maps stay consistent
    and nothing panics but a listing with a negative offset, the release of an unknown
    lock and a scan that meets a removed job ([reachable_safe]); histories only grow,
    each call appending what its kind may under its guard
    ([history_refinement]); for callers that keep the discipline
    of the engine each job is in the one place its state names and no scan crashes
    ([lifecycle_refinement]); a job is dispatched as often as it was enqueued, less
    the slots it still holds ([dispatch_conservation]); transitions are atomic and
    exclusive, with the whole state after them given ([apply_state_cas]); queues are
    first in, first out, in order of priority; a sleeping [Dequeue] wakes up, and each way
    it can end is given ([dequeue_returns]); promotion, expiry, idempotency keys and locks
    do what they promise.  Two more theorems show what the discipline is for: a
    deleted job that waits in a queue is still dispatched, and crashes the process
    when it has expired meanwhile.

    Redis backend, whatever the network and the other clients do: keys keep their
    kinds ([redis_well_typed]), a transition is one compare-and-set
    ([redis_apply_state_atomic]), a lock is its owner's alone.  Without faults and
    other clients, and under live contexts: jobs are read back as they were written, leave
    a queue in order, and go from its front to the state their outcome asks for
    ([redis_runs_front], by the same contract as in memory).  Three theorems show what can go wrong: a job
    lost between the halves of [Dequeue], two jobs for one idempotency key, an outcome
    that is not recorded because its context is done.

    Postgres backend, whatever the network and the other sessions do: the tables stay
    consistent ([pg_consistent]); a transition is one compare-and-set
    ([pg_apply_state_atomic]); a job is dispatched once ([pg_dispatch_exclusive]); a lock
    has one owner; the cleanup takes exactly the succeeded, failed and deleted jobs that
    are old enough.  Without faults and other sessions, and under live contexts: the oldest
    job goes from its queue to the state its outcome asks for when the database accepts
    that outcome ([pg_runs_front], by the same contract again), due jobs are promoted,
    with all that changes in the tables ([pg_promotes_due]), jobs are read back.  Four theorems show
    what is lost: the order of the queues, a long result, the deletion of a scheduled job,
    and the guard of [Requeue] in a race.

    Engine, for every backend that keeps the contract: a job whose handler
    returned, failed, panicked or was cancelled is settled as the outcome asks, under a
    context and with an outcome the backend accepts,
    with the continuations that match and nothing else ([settle_outcome]); a whole ticket
    is processed to its end on a backend that accepts every context, beside a handler that
    leaves the job alone ([process_ticket_settles]); over the in-memory backend a worker's turn runs the
    front of the first open queue ([worker_turn_runs_front]); [CancelJob], [Start], the stale sweep, the orphan
    scan, the merge of arguments, the bounds of the retry delay (with the two
    attempts at which it overflows) and the normalisation of the configuration.

    Recurring manager: reloading reconciles; a held lock excludes a callback; a
    released one does not.  API: authentication, the effect of the enqueue
    endpoints, deduplication of client retries, listings; each operation of the OpenAPI
    document is served by the handler it names, and any other request by none
    ([routes_served]); a request changes nothing without the token
    ([unauthorized_changes_nothing]); the OpenAPI document lists exactly the routes;
    /metrics reports the state ([metrics_exact]).  Configuration: the handler registry,
    agreement of validation and opening, no secret in the logs.

    Process: a class of actions ([turn]) covers the requests of the API and the turns of
    every loop of the engine; none of them stops the engine or touches its run context,
    from which it follows how [RunServer] ends for each cause ([run_server_ends]).
    Commands: what [gfire job cancel] does to the server it calls, through the routes and
    the middleware, down to the context of the job ([cli_cancel]), and that commands over the in-memory backend see an
    empty store ([cli_memory_sees_nothing]).

    ** Bounds, fuel and conventions

    A field or variable of type [int], [int64] or [time.Duration] is a [Z]; an
    operation on one that can overflow is followed by [wrap64].  Counters of the
    backend wrap.  Instants are unbounded.  Loops over slices are structural;
    [ctx_lookup] follows the chain of parents of a context with the number of
    contexts as fuel, more than any chain has; trimming a string uses its length.
    Loops that wait are one turn each, or take the list of their awakenings, and
    the theorems say what the list must hold for the call to return.  The loop of
    [Redis.Dequeue], which starts again when a popped job is gone, has one turn per
    entry waiting at the call and one per awakening as fuel: every turn uses one up,
    and [Dequeue_run] shows that it suffices.

    ** Not modelled

    [Open] and [Close] of the Postgres backend, and with [FlushDB] of the Redis backend
    (the client libraries); what viper reads and decodes; the command tree and the flags
    (cobra), the columns of tables (tabwriter), the indentation of JSON; listening and the
    connections of net/http, response headers, escapes in the path of a request; delivery of
    signals; [WriteArgsFile] and [WaitUntilIdle], which only tests use; the log of the
    engine.  Of Redis: the
    error of INCRBY past 64 bits, and keys that appear or vanish while a counter scan
    goes on.  Of Postgres: the text of the server's own error messages beyond a phrase,
    waiting for a lock and deadlocks (a statement comes to its instant or fails),
    instants outside the range of timestamptz, sequences and counters past 64 bits; a
    turn of [Postgres.Dequeue] uses up one awakening.  Of the environment: memory exhaustion, and panics
    inside third-party code.  The Go scheduler appears as the freedom to
    interleave atomic steps; data races below them are excluded by the mutexes,
    which are not modelled except for the one [Dequeue] mishandles. *)

From stdpp Require Export base tactics option list list_numbers gmap fin_maps
  fin_map_dom strings pretty sorting relations.
From Stdlib Require Export ZArith Lia.
From Stdlib Require Export Ascii.

Declare Scope go_scope.
Delimit Scope go_scope with go.

Open Scope Z_scope.

(** ** Machine integers

    Go's [int], [int64] and [time.Duration] are 64-bit two's complement
    integers.  A value is a [Z]; every arithmetic operation the source performs
    on one is followed by [wrap64]. *)
Definition wrap64 (z : Z) : Z := (z + 2 ^ 63) mod 2 ^ 64 - 2 ^ 63.

Definition int64_ok (z : Z) : Prop := - 2 ^ 63 <= z < 2 ^ 63.

Definition add64 (a b : Z) : Z := wrap64 (a + b).
Definition sub64 (a b : Z) : Z := wrap64 (a - b).
Definition mul64 (a b : Z) : Z := wrap64 (a * b).

#[global] Arguments wrap64 : simpl never.
#[global] Arguments add64 : simpl never.
#[global] Arguments sub64 : simpl never.
#[global] Arguments mul64 : simpl never.

(** ** Byte slices

    A Go [[]byte] is nil or a sequence of bytes; [len(nil)] is 0. *)
Abbreviation bytes := (option string) (only parsing).

Definition blen (b : bytes) : Z :=
  match b with Some s => Z.of_nat (String.length s) | None => 0 end.

(** [append([]byte(nil), b...)]: a copy, nil when [b] has no byte. *)
Definition bclone (b : bytes) : bytes :=
  match b with Some EmptyString | None => None | Some s => Some s end.

(** [b[:n]] for [0 <= n <= len(b)]. *)
Definition bprefix (n : Z) (b : bytes) : bytes :=
  match b with Some s => Some (String.substring 0 (Z.to_nat n) s) | None => None end.

#[global] Arguments blen : simpl never.
#[global] Arguments bclone : simpl never.
#[global] Arguments bprefix : simpl never.

(** Text the program produces itself: ASCII without NUL. *)
Fixpoint plain_text (s : string) : bool :=
  match s with
  | EmptyString => true
  | String c s => ((0 <? nat_of_ascii c) && (nat_of_ascii c <? 128))%nat && plain_text s
  end.

(** ** Errors

    The sentinel errors of the program and of the [context] package, an error
    that is only a text, and [fmt.Errorf("...%w...", ...)], which keeps the
    wrapped error for [errors.Is]. *)
Inductive error :=
  | ErrNotFound
  | ErrStateConflict
  | ErrQueueEmpty
  | ErrAlreadyExists
  | ErrLockNotHeld
  | ErrTerminalState
  | ErrNotRunning
  | ErrNotProcessing
  | ContextCanceled
  | ContextDeadlineExceeded
  | RedisNil                               (** [goredis.Nil] *)
  | PgxErrNoRows                           (** [pgx.ErrNoRows] *)
  | ErrText (text : string)
  | ErrWrap (text : string) (inner : error).

Fixpoint errors_Is (err target : error) : bool :=
  match err, target with
  | ErrNotFound, ErrNotFound | ErrStateConflict, ErrStateConflict
  | ErrQueueEmpty, ErrQueueEmpty | ErrAlreadyExists, ErrAlreadyExists
  | ErrLockNotHeld, ErrLockNotHeld | ErrTerminalState, ErrTerminalState
  | ErrNotRunning, ErrNotRunning | ErrNotProcessing, ErrNotProcessing
  | ContextCanceled, ContextCanceled
  | ContextDeadlineExceeded, ContextDeadlineExceeded | RedisNil, RedisNil
  | PgxErrNoRows, PgxErrNoRows => true
  | ErrWrap _ inner, _ => errors_Is inner target
  | _, _ => false
  end.

(** [err.Error()]. *)
Definition Error (err : error) : string :=
  match err with
  | ErrNotFound => "not found"
  | ErrStateConflict => "state conflict"
  | ErrQueueEmpty => "queue empty"
  | ErrAlreadyExists => "already exists"
  | ErrLockNotHeld => "lock not held"
  | ErrTerminalState => "terminal state"
  | ErrNotRunning => "engine not running"
  | ErrNotProcessing => "job not processing on this engine"
  | ContextCanceled => "context canceled"
  | ContextDeadlineExceeded => "context deadline exceeded"
  | RedisNil => "redis: nil"
  | PgxErrNoRows => "no rows in result set"
  | ErrText t => t
  | ErrWrap t _ => t
  end.

(** A [context.Context] as an operation sees it: still live, or done with the
    error [ctx.Err()]. *)
Inductive Ctx := Live | Done (err : error).

(** ** Outcomes and the state monad

    A Go function that returns [(T, error)] yields [Ok] or [Err]; [Panic] is a
    run-time panic (nil dereference, index out of range), which [recover] can
    stop; [Fatal] is a run-time throw of the Go runtime (unlock of an unlocked
    mutex), which nothing can stop. *)
Inductive res (A : Type) :=
  | Ok (a : A)
  | Err (e : error)
  | Panic (msg : string)
  | Fatal (msg : string).
Arguments Ok {A} a.
Arguments Err {A} e.
Arguments Panic {A} msg.
Arguments Fatal {A} msg.

(** A computation over a state [S].  The [nat] counts the calls made so far to
    the process environment (clock, UUID generator, random source, map
    iteration order): the n-th call is answered by the n-th answer of the
    environment. *)
Definition M (S A : Type) : Type := nat -> S -> nat * S * res A.

Definition mret {S A} (a : A) : M S A := fun n s => (n, s, Ok a).
Definition mthrow {S A} (e : error) : M S A := fun n s => (n, s, Err e).
Definition mpanic {S A} (msg : string) : M S A := fun n s => (n, s, Panic msg).
Definition mfatal {S A} (msg : string) : M S A := fun n s => (n, s, Fatal msg).

(** Sequencing: [Err] is the early [if err != nil { return err }]. *)
Definition mbind {S A B} (m : M S A) (k : A -> M S B) : M S B := fun n s =>
  match m n s with
  | (n', s', Ok a) => k a n' s'
  | (n', s', Err e) => (n', s', Err e)
  | (n', s', Panic p) => (n', s', Panic p)
  | (n', s', Fatal p) => (n', s', Fatal p)
  end.

Definition mget {S} : M S S := fun n s => (n, s, Ok s).
Definition mgets {S A} (f : S -> A) : M S A := fun n s => (n, s, Ok (f s)).
Definition mmodify {S} (f : S -> S) : M S unit := fun n s => (n, f s, Ok tt).

(** [v, err := m]: both results are inspected by the code that follows. *)
Definition mtry {S A} (m : M S A) : M S (A + error) := fun n s =>
  match m n s with
  | (n', s', Ok a) => (n', s', Ok (inl a))
  | (n', s', Err e) => (n', s', Ok (inr e))
  | (n', s', Panic p) => (n', s', Panic p)
  | (n', s', Fatal p) => (n', s', Fatal p)
  end.

(** [fmt.Errorf("text: %w", err)] around a call that fails. *)
Definition wrap_err {S A} (text : string) (m : M S A) : M S A := fun n s =>
  match m n s with
  | (n', s', Err err) => (n', s', Err (ErrWrap (text +:+ ": " +:+ Error err) err))
  | r => r
  end.

(** The address of a freshly allocated object: no two calls return the same. *)
Definition new_addr {S} : M S nat := fun n s => (Datatypes.S n, s, Ok n).

(** A computation on a part of a larger state. *)
Definition mlift {S T A} (get : T -> S) (put : S -> T -> T) (m : M S A) : M T A :=
  fun n t => let '(n', s', r) := m n (get t) in (n', put s' t, r).

Notation "x <- m ;; k" := (mbind m (fun x => k))
  (at level 100, m at next level, right associativity) : go_scope.
Notation "m ;;; k" := (mbind m (fun _ => k))
  (at level 100, right associativity) : go_scope.
Open Scope go_scope.

(** [for _, x := range l { ... }] where the body can fail or panic. *)
Fixpoint mfor {S A} (l : list A) (body : A -> M S unit) : M S unit :=
  match l with
  | [] => mret tt
  | x :: l' => body x ;;; mfor l' body
  end.

(** The same, collecting what each turn produces. *)
Fixpoint mmap {S A B} (l : list A) (body : A -> M S B) : M S (list B) :=
  match l with
  | [] => mret []
  | x :: l' => y <- body x ;; ys <- mmap l' body ;; mret (y :: ys)
  end.

(** An invariant that survives a call to the environment. *)
Class TickMono {S} (I : nat -> S -> Prop) :=
  tick_mono : forall n s, I n s -> I (Datatypes.S n) s.

(** Projections of a run. *)
Definition st_of {S A} (r : nat * S * res A) : S := r.1.2.
Definition res_of {S A} (r : nat * S * res A) : res A := r.2.
Definition tick_of {S A} (r : nat * S * res A) : nat := r.1.1.

Definition no_panic {A} (r : res A) : Prop :=
  match r with Panic _ | Fatal _ => False | _ => True end.

(** The state of a run is only inspected, never changed. *)
Definition readonly {S A} (m : M S A) : Prop := forall n s, st_of (m n s) = s.

#[export] Instance error_eq_dec : EqDecision error.
Proof. solve_decision. Defined.

(** ** Tactics and hint databases of the development *)
Create HintDb gfire.
Create Rewrite HintDb gfire_rw.

Ltac unfold_m :=
  unfold mbind, mret, mthrow, mpanic, mfatal, mget, mgets, mmodify, mtry,
    mlift, new_addr, st_of, res_of, tick_of in *.

(** Run a computation whose code is exposed: unfold the monad and compute. *)
Ltac run := unfold_m; cbn in *.

(** Case analysis on the discriminee of the next match, repeatedly. *)
Ltac cases := repeat (case_match; simplify_eq/=; try done).

(** ** Lemmas on integers *)
Lemma wrap64_small z : int64_ok z -> wrap64 z = z.
Proof. unfold int64_ok, wrap64. intros. rewrite Z.mod_small; lia. Qed.

Lemma wrap64_ok z : int64_ok (wrap64 z).
Proof.
  unfold int64_ok, wrap64. pose proof (Z.mod_pos_bound (z + 2 ^ 63) (2 ^ 64)). lia.
Qed.

Lemma wrap64_idem z : wrap64 (wrap64 z) = wrap64 z.
Proof. apply wrap64_small, wrap64_ok. Qed.

Lemma wrap64_add_l a b : wrap64 (wrap64 a + b) = wrap64 (a + b).
Proof.
  unfold wrap64.
  replace ((a + 2 ^ 63) mod 2 ^ 64 - 2 ^ 63 + b + 2 ^ 63)
    with ((a + 2 ^ 63) mod 2 ^ 64 + b) by lia.
  rewrite Zplus_mod_idemp_l. do 2 f_equal. lia.
Qed.

#[export] Hint Resolve wrap64_ok : gfire.

(** ** Lemmas on the monad *)
Section Monad.
Context {S : Type}.

Lemma mbind_ret_l {A B} (a : A) (k : A -> M S B) n s :
  mbind (mret a) k n s = k a n s.
Proof. done. Qed.

Lemma mbind_assoc {A B C} (m : M S A) (k : A -> M S B) (h : B -> M S C) n s :
  mbind (mbind m k) h n s = mbind m (fun a => mbind (k a) h) n s.
Proof. unfold mbind. destruct (m n s) as [[??] []]; done. Qed.

Lemma mbind_ok {A B} (m : M S A) (k : A -> M S B) n s n' s' a :
  m n s = (n', s', Ok a) -> mbind m k n s = k a n' s'.
Proof. unfold mbind. by intros ->. Qed.

Lemma mbind_err {A B} (m : M S A) (k : A -> M S B) n s n' s' e :
  m n s = (n', s', Err e) -> mbind m k n s = (n', s', Err e).
Proof. unfold mbind. by intros ->. Qed.

Lemma mtry_ok {A} (m : M S A) n s n' s' a :
  m n s = (n', s', Ok a) -> mtry m n s = (n', s', Ok (inl a)).
Proof. unfold mtry. by intros ->. Qed.

Lemma mtry_err {A} (m : M S A) n s n' s' e :
  m n s = (n', s', Err e) -> mtry m n s = (n', s', Ok (inr e)).
Proof. unfold mtry. by intros ->. Qed.

(** Invariants of a computation: a Hoare triple whose postcondition holds of
    the tick and the state on every outcome. *)
Definition preserves {A} (I : nat -> S -> Prop) (m : M S A) : Prop :=
  forall n s, I n s -> I (tick_of (m n s)) (st_of (m n s)).

Lemma preserves_ret {A} I (a : A) : preserves I (mret a).
Proof. by intros n s. Qed.

Lemma preserves_throw {A} I e : preserves I (mthrow (A := A) e).
Proof. by intros n s. Qed.

Lemma preserves_get I : preserves I mget.
Proof. by intros n s. Qed.

Lemma preserves_gets {A} I (f : S -> A) : preserves I (mgets f).
Proof. by intros n s. Qed.

Lemma preserves_panic {A} I msg : preserves I (mpanic (A := A) msg).
Proof. by intros n s. Qed.

Lemma preserves_fatal {A} I msg : preserves I (mfatal (A := A) msg).
Proof. by intros n s. Qed.

Lemma preserves_bind {A B} I (m : M S A) (k : A -> M S B) :
  preserves I m -> (forall a, preserves I (k a)) -> preserves I (mbind m k).
Proof.
  intros Hm Hk n s HI. specialize (Hm n s HI). unfold st_of, tick_of, mbind in *.
  destruct (m n s) as [[n' s'] []]; simpl in *; try done. by apply Hk.
Qed.

(** The same, with a postcondition for the value. *)
Definition ensures {A} (I : nat -> S -> Prop) (m : M S A) (Q : A -> Prop) : Prop :=
  forall n s, I n s ->
    I (tick_of (m n s)) (st_of (m n s)) /\ forall a, res_of (m n s) = Ok a -> Q a.

Lemma ensures_ret {A} I (a : A) (Q : A -> Prop) : Q a -> ensures I (mret a) Q.
Proof. intros Ha n s HI. split; [done|]. by intros ? [= <-]. Qed.

Lemma ensures_throw {A} I e (Q : A -> Prop) : ensures I (mthrow e) Q.
Proof. intros n s HI. split; [done|]. by intros ? [=]. Qed.

Lemma ensures_preserves {A} I (m : M S A) (Q : A -> Prop) :
  preserves I m -> (forall a, Q a) -> ensures I m Q.
Proof. intros Hm HQ n s HI. split; [by apply Hm|done]. Qed.

Lemma ensures_bind {A B} I (m : M S A) (Q : A -> Prop) (k : A -> M S B) Q' :
  ensures I m Q -> (forall a, Q a -> ensures I (k a) Q') -> ensures I (mbind m k) Q'.
Proof.
  intros Hm Hk n s HI. specialize (Hm n s HI). unfold st_of, tick_of, res_of, mbind in *.
  destruct (m n s) as [[n' s'] [a| | |]]; simpl in *; try (split; [tauto|by intros ? [=]]).
  destruct Hm as [HI' HQ]. apply (Hk a (HQ a eq_refl)), HI'.
Qed.

Lemma preserves_ensures {A} I (m : M S A) (Q : A -> Prop) : ensures I m Q -> preserves I m.
Proof. intros Hm n s HI. apply (Hm n s HI). Qed.

Lemma preserves_bind_post {A B} I (m : M S A) (Q : A -> Prop) (k : A -> M S B) :
  ensures I m Q -> (forall a, Q a -> preserves I (k a)) -> preserves I (mbind m k).
Proof.
  intros Hm Hk. apply (preserves_ensures _ _ (fun _ => True)). eapply ensures_bind; [done|].
  intros a Ha. apply ensures_preserves; [by apply Hk|done].
Qed.

Lemma preserves_try {A} I (m : M S A) : preserves I m -> preserves I (mtry m).
Proof.
  intros Hm n s HI. specialize (Hm n s HI). unfold st_of, tick_of, mtry in *.
  by destruct (m n s) as [[n' s'] []].
Qed.

Lemma preserves_for {A} I (l : list A) body :
  (forall x, x ∈ l -> preserves I (body x)) -> preserves I (mfor l body).
Proof.
  induction l as [|x l IH]; intros Hb; [apply preserves_ret|].
  apply preserves_bind; [apply Hb; left|]. intros _. apply IH. intros; apply Hb; by right.
Qed.

Lemma preserves_map {A B} I (l : list A) (body : A -> M S B) :
  (forall x, x ∈ l -> preserves I (body x)) -> preserves I (mmap l body).
Proof.
  induction l as [|x l IH]; intros Hb; [apply preserves_ret|].
  apply preserves_bind; [apply Hb; left|]. intros y.
  apply preserves_bind; [apply IH; intros; apply Hb; by right|].
  intros ys. apply preserves_ret.
Qed.

Lemma mfor_app {A} (l1 l2 : list A) (body : A -> M S unit) n s :
  mfor (l1 ++ l2) body n s = mbind (mfor l1 body) (fun _ => mfor l2 body) n s.
Proof.
  revert n s. induction l1 as [|x l1 IH]; intros n s; [done|]. simpl.
  unfold mbind. destruct (body x n s) as [[n' s'] []]; try done; by rewrite IH.
Qed.
End Monad.

#[export] Hint Resolve preserves_ret preserves_throw preserves_get preserves_gets
  preserves_panic preserves_fatal preserves_bind
  preserves_try : gfire.

Lemma bool_decide_same (P Q : Prop) `{Decision P, Decision Q} :
  bool_decide P = bool_decide Q -> P <-> Q.
Proof. repeat case_bool_decide; intuition congruence. Qed.

(** ** Lemmas on lists *)
Lemma last_snoc_or {A} (l : list A) : l = [] \/ exists l' x, l = l' ++ [x].
Proof. destruct l using rev_ind; eauto. Qed.

Lemma filter_ext_in {A} (P Q : A -> Prop) `{forall x, Decision (P x), forall x, Decision (Q x)}
    (l : list A) :
  (forall x, x ∈ l -> P x <-> Q x) -> filter P l = filter Q l.
Proof.
  induction l as [|x l IH]; intros Hpq; [done|]. rewrite !filter_cons, IH.
  - apply decide_ext, Hpq. left.
  - intros y Hy. apply Hpq. by right.
Qed.

Lemma filter_bool_cons {A} (f : A -> bool) x (l : list A) :
  filter (fun y => f y) (x :: l)
  = if f x then x :: filter (fun y => f y) l else filter (fun y => f y) l.
Proof. rewrite filter_cons. by destruct (f x). Qed.

Lemma filter_all {A} (P : A -> Prop) `{forall x, Decision (P x)} (l : list A) :
  (forall x, x ∈ l -> P x) -> filter P l = l.
Proof.
  induction l as [|x l IH]; intros Hp; [done|]. rewrite filter_cons_True by (apply Hp; left). f_equal.
  apply IH. intros y Hy. apply Hp. by right.
Qed.

Lemma NoDup_map_to_list_keys {A} (m : gmap string A) : NoDup (map_to_list m).*1.
Proof. apply NoDup_fst_map_to_list. Qed.

Lemma elem_of_map_keys {A} (m : gmap string A) k :
  k ∈ (map_to_list m).*1 <-> is_Some (m !! k).
Proof.
  rewrite list_elem_of_fmap. split.
  - intros [[k' v] [-> Hin]]. apply elem_of_map_to_list in Hin. eauto.
  - intros [v Hv]. exists (k, v). split; [done|]. by apply elem_of_map_to_list.
Qed.

Lemma is_Some_insert {A} (m : gmap string A) k v : is_Some (<[k:=v]> m !! k).
Proof. rewrite lookup_insert_eq. eauto. Qed.

#[export] Hint Resolve mk_is_Some is_Some_insert : gfire.
