(* ===== verification/GoTime.v ===== *)
(** * Time, durations and the process environment

    The part of Go's [time] package the program uses, and the answers a process
    gets from outside: the clock, the UUID generator, the random source and the
    iteration order of maps.

    A [time.Time] is its instant, in nanoseconds since the Unix epoch: every
    time of the model is in UTC, so [t.UTC()] is [t].  The monotonic clock
    reading is not modelled. *)
From S2P Require Import Prelude.

Abbreviation Time := Z (only parsing).
Abbreviation Duration := Z (only parsing).

Definition Nanosecond : Duration := 1.
Definition Millisecond : Duration := 1000000.
Definition Second : Duration := 1000000000.
Definition Minute : Duration := 60 * Second.
Definition Hour : Duration := 60 * Minute.

(** The zero [time.Time]: January 1, year 1, 00:00:00 UTC. *)
Definition time_zero : Time := -62135596800 * Second.

Definition IsZero (t : Time) : bool := t =? time_zero.
Definition Before (t u : Time) : bool := t <? u.
Definition After (t u : Time) : bool := u <? t.
Definition Add (t : Time) (d : Duration) : Time := t + d.

(** [t.Sub(u)] saturates at the bounds of [time.Duration]. *)
Definition Sub (t u : Time) : Duration := Z.max (- 2 ^ 63) (Z.min (2 ^ 63 - 1) (t - u)).

Definition UnixNano (t : Time) : Z := wrap64 t.
Definition Unix (t : Time) : Z := t / Second.

(** [strconv.Itoa], [fmt.Sprintf("%d", n)]. *)
Definition Itoa (z : Z) : string := pretty z.

Fixpoint zeros (n : nat) : string :=
  match n with O => "" | S n => String "0"%char (zeros n) end.

(** A natural number in decimal, padded with zeros to [w] digits. *)
Definition pad (w : nat) (z : Z) : string :=
  let s := Itoa z in zeros (w - String.length s) +:+ s.

(** Year, month and day of a day number (days since the Unix epoch), in the
    proleptic Gregorian calendar. *)
Definition civil (days : Z) : Z * Z * Z :=
  let z := days + 719468 in
  let era := z / 146097 in
  let doe := z mod 146097 in
  let yoe := (doe - doe / 1460 + doe / 36524 - doe / 146096) / 365 in
  let doy := doe - (365 * yoe + yoe / 4 - yoe / 100) in
  let mp := (5 * doy + 2) / 153 in
  let d := doy - (153 * mp + 2) / 5 + 1 in
  let m := if mp <? 10 then mp + 3 else mp - 9 in
  let y := yoe + era * 400 in
  (if m <=? 2 then y + 1 else y, m, d).

(** [t.UTC().Format(time.RFC3339)]. *)
Definition FormatRFC3339 (t : Time) : string :=
  let secs := Unix t in
  let '(y, m, d) := civil (secs / 86400) in
  let r := secs mod 86400 in
  pad 4 y +:+ "-" +:+ pad 2 m +:+ "-" +:+ pad 2 d +:+ "T"
    +:+ pad 2 (r / 3600) +:+ ":" +:+ pad 2 (r mod 3600 / 60)
    +:+ ":" +:+ pad 2 (r mod 60) +:+ "Z".

#[global] Arguments FormatRFC3339 : simpl never.
#[global] Arguments Itoa : simpl never.
#[global] Arguments UnixNano : simpl never.
#[global] Arguments Sub : simpl never.
#[global] Arguments IsZero : simpl never.
#[global] Arguments Before : simpl never.
#[global] Arguments After : simpl never.
#[global] Arguments Add : simpl never.

(** ** The process environment

    Each field answers the n-th call the process makes.  [uuid] is
    [uuid.NewString] of github.com/google/uuid: it never returns the empty
    string nor the same string twice.  [rnd] is the random source behind
    [rand.Int63n].  [map_order] is the order in which a [range] statement visits the
    keys of a map: any permutation of them. *)
Class Env := {
  clock : nat -> Time;
  uuid : nat -> string;
  rnd : nat -> Z;
  map_order : nat -> list string -> list string;
  uuid_inj : Inj (=) (=) uuid;
  uuid_nonempty : forall n, uuid n <> "";
  map_order_perm : forall n l, map_order n l ≡ₚ l;
}.

#[export] Existing Instance uuid_inj.

Section Environment.
Context `{Env} {S : Type}.

Definition time_Now : M S Time := fun n s => (Datatypes.S n, s, Ok (clock n)).

Definition uuid_NewString : M S string := fun n s => (Datatypes.S n, s, Ok (uuid n)).

(** [rand.Int63n(m)], for [m > 0]. *)
Definition Int63n (m : Z) : M S Z := fun n s => (Datatypes.S n, s, Ok (rnd n mod m)).

(** The keys of a map in the order a [range] statement visits them. *)
Definition range_keys {A} (m : gmap string A) : M S (list string) :=
  fun n s => (Datatypes.S n, s, Ok (map_order n (map_to_list m).*1)).

Lemma range_keys_spec {A} (m : gmap string A) n s :
  exists ks, range_keys m n s = (Datatypes.S n, s, Ok ks)
    /\ ks ≡ₚ (map_to_list m).*1 /\ NoDup ks /\ (forall k, k ∈ ks <-> is_Some (m !! k)).
Proof.
  exists (map_order n (map_to_list m).*1). split; [done|].
  pose proof (map_order_perm n (map_to_list m).*1) as HP. split_and!; [done| |].
  - rewrite HP. apply NoDup_map_to_list_keys.
  - intros k. rewrite HP. apply elem_of_map_keys.
Qed.

Context (I : nat -> S -> Prop) `{!TickMono I}.

Lemma preserves_time_Now : preserves I time_Now.
Proof. intros n s HI. by apply tick_mono. Qed.

Lemma preserves_uuid_NewString : preserves I uuid_NewString.
Proof. intros n s HI. by apply tick_mono. Qed.

Lemma preserves_range_keys {A} (m : gmap string A) : preserves I (range_keys m).
Proof. intros n s HI. by apply tick_mono. Qed.
End Environment.

#[export] Hint Resolve preserves_time_Now preserves_uuid_NewString
  preserves_range_keys : gfire.

(** [run], through the calls to the environment. *)
Ltac run_env := unfold time_Now, uuid_NewString, range_keys, Int63n in *; run.

(** Show that an invariant is preserved by following the code of a computation;
    [tac] proves it of the state updates. *)
Ltac preserve tac :=
  repeat first
    [ apply preserves_ret | apply preserves_throw | apply preserves_get
    | apply preserves_gets | apply preserves_panic | apply preserves_fatal
    | apply preserves_time_Now; apply _ | apply preserves_uuid_NewString; apply _
    | apply preserves_range_keys; apply _
    | apply preserves_bind; [|intros ?]
    | apply preserves_map; intros ? _
    | apply preserves_for; intros ? _
    | tac
    | case_match ].

(** A concrete environment: the clock ticks one second per call from the given
    instant, UUIDs are numbered, maps are visited in their stored order. *)
Definition env_at (start : Time) : Env.
Proof.
  refine {| clock n := start + Z.of_nat n * Second;
            uuid n := "id-" +:+ pretty n;
            rnd n := Z.of_nat n;
            map_order _ l := l |}.
  - done.
  - done.
Defined.

Example format_2026 : FormatRFC3339 (1785229200 * Second) = "2026-07-28T09:00:00Z".
Proof. reflexivity. Qed.

Example format_zero : FormatRFC3339 time_zero = "0001-01-01T00:00:00Z".
Proof. reflexivity. Qed.

Example format_leap : FormatRFC3339 (1709208000 * Second) = "2024-02-29T12:00:00Z".
Proof. reflexivity. Qed.
