(* ===== verification/Strconv.v ===== *)
(** * Decimal numerals

    [strconv.Itoa], [strconv.Atoi] and [strconv.ParseInt(s, 10, 64)], and that
    reading a printed number gives it back. *)
From S2P Require Import Prelude.
From S2P Require Import GoTime.

Definition digit (c : ascii) : option Z :=
  let n := Z.of_nat (nat_of_ascii c) in
  if (48 <=? n) && (n <=? 57) then Some (n - 48) else None.

(** The value of the longest run of digits in front of [s], added to the digits read
    before; [None] when there is none. *)
Fixpoint scan_digits (acc : option Z) (s : string) : option Z :=
  match s with
  | EmptyString => acc
  | String c s' =>
    match digit c with
    | Some d => scan_digits (Some (10 * default 0 acc + d)) s'
    | None => acc
    end
  end.

Fixpoint all_digits (s : string) : bool :=
  match s with
  | EmptyString => true
  | String c s' => match digit c with Some _ => all_digits s' | None => false end
  end.

(** A whole text of digits. *)
Definition digits (s : string) : option Z := if all_digits s then scan_digits None s else None.

(** An optional sign and digits. *)
Definition signed (s : string) : option Z :=
  match s with
  | String "-" s' => Z.opp <$> digits s'
  | String "+" s' => digits s'
  | _ => digits s
  end.

(** [strconv.ParseInt(s, 10, 64)]; [strconv.Atoi] is the same on a 64-bit platform. *)
Definition ParseInt (s : string) : option Z :=
  match signed s with
  | Some n => if (- 2 ^ 63 <=? n) && (n <? 2 ^ 63) then Some n else None
  | None => None
  end.

(** The number [ParseInt] returns, its error ignored: 0 for a text that is no number, the
    nearest bound for one out of range. *)
Definition ParseIntValue (s : string) : Z :=
  match signed s with
  | Some n => Z.max (- 2 ^ 63) (Z.min (2 ^ 63 - 1) n)
  | None => 0
  end.

(** ** Printing and reading back *)
Lemma digit_pretty (x : N) : (x < 10)%N -> digit (pretty_N_char x) = Some (Z.of_N x).
Proof.
  intros Hx. assert (exists i, (i < 10)%nat /\ x = N.of_nat i) as (i & Hi & ->).
  { exists (N.to_nat x). split; [lia|]. by rewrite N2Nat.id. }
  do 10 (destruct i as [|i]; [reflexivity|]). lia.
Qed.

Lemma pretty_N_go_digits x s acc :
  (acc = None \/ acc = Some 0) ->
  (0 < x)%N ->
  scan_digits acc (pretty_N_go x s) = scan_digits (Some (Z.of_N x)) s /\
  all_digits (pretty_N_go x s) = all_digits s.
Proof.
  intros Hacc. revert s. induction (N.lt_wf_0 x) as [x _ IH]. intros s Hx.
  rewrite pretty_N_go_step by done.
  assert (x `mod` 10 < 10)%N as Hm by (apply N.mod_lt; lia).
  destruct (decide (x < 10)%N) as [Hs|Hs].
  - rewrite N.div_small, pretty_N_go_0, N.mod_small by done. simpl. rewrite digit_pretty by done.
    split; [|done]. by destruct Hacc as [-> | ->].
  - assert (x `div` 10 < x)%N as Hlt by (apply N.div_lt; lia).
    assert (0 < x `div` 10)%N as Hpos by (apply N.div_str_pos; lia).
    destruct (IH _ Hlt (String (pretty_N_char (x `mod` 10)) s) Hpos) as [-> ->].
    simpl. rewrite digit_pretty by done. split; [|done]. do 2 f_equal. simpl.
    rewrite (N.div_mod x 10) at 3 by done. lia.
Qed.

Lemma scan_pretty (x : N) : scan_digits None (pretty x) = Some (Z.of_N x) /\ all_digits (pretty x) = true.
Proof.
  unfold pretty, pretty_N. case_decide as Hx; [by subst|].
  destruct (pretty_N_go_digits x "" None) as [-> ->]; [by left|lia|done].
Qed.

(** The first character of a printed natural is a digit. *)
Lemma pretty_N_head (x : N) c s : pretty x = String c s -> is_Some (digit c).
Proof.
  intros He. destruct (scan_pretty x) as [_ Ha]. rewrite He in Ha. simpl in Ha.
  destruct (digit c); [eauto|done].
Qed.

Lemma digits_pretty (x : N) : digits (pretty x) = Some (Z.of_N x).
Proof. unfold digits. by destruct (scan_pretty x) as [-> ->]. Qed.

Lemma digit_sign (c : ascii) : is_Some (digit c) -> c <> "-"%char /\ c <> "+"%char.
Proof. intros [d Hd]. split; intros ->; discriminate Hd. Qed.

Lemma signed_Itoa z : signed (Itoa z) = Some z.
Proof.
  unfold Itoa. destruct z as [|p|p]; [reflexivity| |].
  - change (pretty (Z.pos p)) with (pretty (N.pos p)). pose proof (digits_pretty (N.pos p)) as Hd.
    pose proof (pretty_N_head (N.pos p)) as Hh. destruct (pretty (N.pos p)) as [|c s]; [discriminate Hd|].
    destruct (digit_sign c (Hh c s eq_refl)) as [H1 H2]. change (Z.of_N (N.pos p)) with (Z.pos p) in Hd.
    rewrite <- Hd. destruct c as [[] [] [] [] [] [] [] []]; done.
  - change (pretty (Z.neg p)) with (String "-"%char (pretty (N.pos p))). unfold signed.
    by rewrite digits_pretty.
Qed.

Lemma digit_plain c d : digit c = Some d -> plain_text (String c EmptyString) = true.
Proof. destruct c as [[] [] [] [] [] [] [] []]; by vm_compute. Qed.

Lemma all_digits_plain s : all_digits s = true -> plain_text s = true.
Proof.
  induction s as [|c s IH]; [done|]. simpl. destruct (digit c) as [d|] eqn:Hc; [|done]. intros Hs.
  pose proof (digit_plain c d Hc) as Hp. simpl in Hp. rewrite andb_true_r in Hp. by rewrite Hp, IH.
Qed.

Lemma Itoa_plain z : plain_text (Itoa z) = true.
Proof.
  unfold Itoa. destruct z as [|p|p]; [reflexivity| |].
  - change (pretty (Z.pos p)) with (pretty (N.pos p)). apply all_digits_plain, scan_pretty.
  - change (pretty (Z.neg p)) with ("-" +:+ pretty (N.pos p)).
    change (plain_text (pretty (N.pos p)) = true). apply all_digits_plain, scan_pretty.
Qed.

Lemma plain_text_app s t : plain_text (s +:+ t) = plain_text s && plain_text t.
Proof.
  induction s as [|c s IH]; [done|]. change (String c s +:+ t) with (String c (s +:+ t)).
  cbn [plain_text]. by rewrite IH, andb_assoc.
Qed.

Lemma pad_plain w z : plain_text (pad w z) = true.
Proof.
  unfold pad. rewrite plain_text_app, Itoa_plain, andb_true_r.
  induction (w - String.length (Itoa z))%nat as [|k IH]; [done|]. exact IH.
Qed.

Lemma FormatRFC3339_plain t : plain_text (FormatRFC3339 t) = true.
Proof.
  unfold FormatRFC3339. destruct (civil _) as [[y m] d]. by rewrite !plain_text_app, !pad_plain.
Qed.

Lemma Itoa_nonempty z : Itoa z <> "".
Proof. intros He. pose proof (signed_Itoa z) as Hs. by rewrite He in Hs. Qed.

Lemma ParseInt_Itoa z : int64_ok z -> ParseInt (Itoa z) = Some z.
Proof.
  unfold int64_ok, ParseInt. intros Hz. rewrite signed_Itoa.
  destruct (Z.leb_spec (- 2 ^ 63) z), (Z.ltb_spec z (2 ^ 63)); simpl; done || lia.
Qed.

Lemma ParseIntValue_Itoa z : int64_ok z -> ParseIntValue (Itoa z) = z.
Proof. unfold int64_ok, ParseIntValue. intros Hz. rewrite signed_Itoa. lia. Qed.

#[global] Arguments ParseIntValue : simpl never.
