(* ===== verification/Job.v ===== *)
(** * The domain model (internal/job)

    Jobs, their states, servers, recurring definitions, continuations and the
    constants of the job life cycle. *)
From S2P Require Import Prelude.
From S2P Require Import GoTime.

(** The unit of work. *)
Record Job := mkJob {
  ID : string;
  Name : string;
  Args : bytes;
  Queue : string;
  RetryMax : Z;
  Timeout : Duration;
  IdempotencyKey : string;
  CreatedAt : Time;
  Result : bytes
}.

(** One node of a job's history. *)
Record JobState := mkJobState {
  st_Name : string;
  st_Reason : string;
  st_Data : option (gmap string string);
  st_CreatedAt : Time
}.

Record JobWithStates := mkJobWithStates {
  jw_Job : Job;
  jw_States : list JobState
}.

Definition StateEnqueued : string := "Enqueued".
Definition StateProcessing : string := "Processing".
Definition StateSucceeded : string := "Succeeded".
Definition StateFailed : string := "Failed".
Definition StateScheduled : string := "Scheduled".
Definition StateDeleted : string := "Deleted".
Definition StateAwaiting : string := "Awaiting".
Definition StateDead : string := "Dead".
Definition StateCancelled : string := "Cancelled".

(** The name of the most recent state, "" for an empty history. *)
Definition current (states : list JobState) : string :=
  match last states with Some st => st_Name st | None => "" end.

Definition CurrentState (j : JobWithStates) : string := current (jw_States j).

(** [TerminalStates[state]]: a Go map read, false for an absent key. *)
Definition TerminalStates (state : string) : bool :=
  bool_decide (state ∈ [StateSucceeded; StateFailed; StateDeleted; StateDead; StateCancelled]).

Definition IrreversibleStates (state : string) : bool :=
  bool_decide (state ∈ [StateSucceeded; StateDead; StateCancelled; StateDeleted]).

#[global] Arguments TerminalStates : simpl never.
#[global] Arguments IrreversibleStates : simpl never.
#[global] Arguments current : simpl never.

Record ServerInfo := mkServerInfo {
  sv_ID : string;
  sv_StartedAt : Time;
  sv_LastHeartbeat : Time;
  sv_WorkerCount : Z;
  sv_Queues : list string;
  sv_Status : string
}.

Definition ServerStatusActive : string := "active".
Definition ServerStatusStale : string := "stale".
Definition ServerStatusRemoved : string := "removed".

Record RecurringJobEntry := mkRecurringJobEntry {
  re_ID : string;
  re_JobName : string;
  re_Args : bytes;
  re_Queue : string;
  re_CronExpr : string;
  re_LastRun : option Time;
  re_NextRun : option Time;
  re_Enabled : bool;
  re_CreatedAt : Time;
  re_UpdatedAt : Time
}.

Record JobTicket := mkJobTicket { jt_JobID : string; jt_Token : string }.

Record ContinuationEntry := mkContinuationEntry {
  ce_ChildName : string;
  ce_ChildArgs : bytes;
  ce_ChildQueue : string;
  ce_Condition : string;
  ce_CreatedAt : Time
}.

Definition ConditionOnSucceeded : string := "OnSucceeded".
Definition ConditionOnFailed : string := "OnFailed".
Definition ConditionOnAny : string := "OnAny".

(** Field updates of the structs the program mutates. *)
Definition set_ID (v : string) (j : Job) : Job :=
  mkJob v (Name j) (Args j) (Queue j) (RetryMax j) (Timeout j) (IdempotencyKey j) (CreatedAt j) (Result j).
Definition set_Args (v : bytes) (j : Job) : Job :=
  mkJob (ID j) (Name j) v (Queue j) (RetryMax j) (Timeout j) (IdempotencyKey j) (CreatedAt j) (Result j).
Definition set_Queue (v : string) (j : Job) : Job :=
  mkJob (ID j) (Name j) (Args j) v (RetryMax j) (Timeout j) (IdempotencyKey j) (CreatedAt j) (Result j).
Definition set_RetryMax (v : Z) (j : Job) : Job :=
  mkJob (ID j) (Name j) (Args j) (Queue j) v (Timeout j) (IdempotencyKey j) (CreatedAt j) (Result j).
Definition set_Timeout (v : Duration) (j : Job) : Job :=
  mkJob (ID j) (Name j) (Args j) (Queue j) (RetryMax j) v (IdempotencyKey j) (CreatedAt j) (Result j).
Definition set_IdempotencyKey (v : string) (j : Job) : Job :=
  mkJob (ID j) (Name j) (Args j) (Queue j) (RetryMax j) (Timeout j) v (CreatedAt j) (Result j).
Definition set_CreatedAt (v : Time) (j : Job) : Job :=
  mkJob (ID j) (Name j) (Args j) (Queue j) (RetryMax j) (Timeout j) (IdempotencyKey j) v (Result j).
Definition set_Result (v : bytes) (j : Job) : Job :=
  mkJob (ID j) (Name j) (Args j) (Queue j) (RetryMax j) (Timeout j) (IdempotencyKey j) (CreatedAt j) v.

(** A composite literal [&Job{Name: .., Args: .., Queue: .., RetryMax: ..}]. *)
Definition newJob (name : string) (args : bytes) (queue : string) (retryMax : Z) : Job :=
  mkJob "" name args queue retryMax 0 "" time_zero None.

(** [&JobState{Name: .., Reason: .., Data: ..}] with a zero [CreatedAt]. *)
Definition newJobState (name reason : string) (data : option (gmap string string)) : JobState :=
  mkJobState name reason data time_zero.

Definition set_st_CreatedAt (v : Time) (st : JobState) : JobState :=
  mkJobState (st_Name st) (st_Reason st) (st_Data st) v.

#[export] Instance Job_eq_dec : EqDecision Job.
Proof. solve_decision. Defined.
#[export] Instance JobState_eq_dec : EqDecision JobState.
Proof. solve_decision. Defined.
#[export] Instance JobWithStates_eq_dec : EqDecision JobWithStates.
Proof. solve_decision. Defined.
#[export] Instance ServerInfo_eq_dec : EqDecision ServerInfo.
Proof. solve_decision. Defined.
#[export] Instance RecurringJobEntry_eq_dec : EqDecision RecurringJobEntry.
Proof. solve_decision. Defined.
#[export] Instance JobTicket_eq_dec : EqDecision JobTicket.
Proof. solve_decision. Defined.
#[export] Instance ContinuationEntry_eq_dec : EqDecision ContinuationEntry.
Proof. solve_decision. Defined.

(** ** Lemmas *)
Lemma current_snoc states st : current (states ++ [st]) = st_Name st.
Proof. unfold current. by rewrite last_snoc. Qed.

Lemma IrreversibleStates_true s :
  IrreversibleStates s = true <->
  s = StateSucceeded \/ s = StateDead \/ s = StateCancelled \/ s = StateDeleted.
Proof.
  unfold IrreversibleStates. rewrite bool_decide_eq_true, !elem_of_cons, elem_of_nil. tauto.
Qed.

Lemma Irreversible_Terminal s : IrreversibleStates s = true -> TerminalStates s = true.
Proof.
  unfold IrreversibleStates, TerminalStates. rewrite !bool_decide_eq_true, !elem_of_cons, !elem_of_nil. tauto.
Qed.

#[export] Hint Rewrite current_snoc : gfire_rw.
