(* ===== verification/StorageI.v ===== *)
(** * The Storage interface (internal/storage/storage.go)

    The method set every backend implements, as a class of operations over the
    backend's state.  The engine and the API are written against this class;
    [StorageSpec] states what its clients rely on. *)
From S2P Require Import Prelude.
From S2P Require Import GoTime.
From S2P Require Import Job.

(** A blocked [Dequeue] sleeps until something wakes it.  A wait is a list of
    awakenings; before each of them the other goroutines of the process run
    [others] on the shared state. *)
Inductive wake_kind :=
  | WakeSignal                (** something was enqueued: look again *)
  | WakeTick                  (** the poll period elapsed: look again *)
  | WakeTimeout               (** the deadline expired *)
  | WakeCtx (err : error).    (** the context is done *)

Record wake (S : Type) := mkWake { wk_others : M S unit; wk_kind : wake_kind }.
Arguments mkWake {S} _ _.
Arguments wk_others {S} _.
Arguments wk_kind {S} _.

(** Other goroutines run to completion between two scans; their results go to
    them, a panic of theirs is not an outcome of this call. *)
Definition interleave {S} (others : M S unit) : M S unit := fun n s =>
  let '(n', s', _) := others n s in (n', s', Ok tt).

(** [storage_Lock] is the backend's implementation of [domain.Lock];
    [storage_ReleaseLock] is its [Release] method. *)
Class StorageI (S : Type) := {
  storage_Lock : Type;
  storage_Enqueue : Ctx -> string -> Job -> M S string;
  storage_Dequeue : Ctx -> list string -> Duration -> list (wake S) -> M S (option JobTicket);
  storage_Requeue : Ctx -> string -> string -> M S unit;
  storage_ApplyState : Ctx -> string -> string -> JobState -> M S unit;
  storage_HeartbeatJob : Ctx -> string -> M S unit;
  storage_GetOrphanedJobs : Ctx -> Duration -> M S (list JobTicket);
  storage_GetJob : Ctx -> string -> M S JobWithStates;
  storage_GetJobsByState : Ctx -> string -> Z -> Z -> M S (list JobWithStates);
  storage_GetQueueLength : Ctx -> string -> M S Z;
  storage_GetQueues : Ctx -> M S (list string);
  storage_RegisterServer : Ctx -> ServerInfo -> Duration -> M S unit;
  storage_UnregisterServer : Ctx -> string -> M S unit;
  storage_Heartbeat : Ctx -> string -> Duration -> M S unit;
  storage_GetServers : Ctx -> M S (list ServerInfo);
  storage_AddScheduled : Ctx -> Time -> Job -> M S string;
  storage_GetDueScheduled : Ctx -> Time -> Z -> M S (list JobTicket);
  storage_RemoveScheduled : Ctx -> string -> M S unit;
  storage_UpsertRecurring : Ctx -> RecurringJobEntry -> M S unit;
  storage_RemoveRecurring : Ctx -> string -> M S unit;
  storage_GetRecurringJobs : Ctx -> M S (list RecurringJobEntry);
  storage_UpdateRecurringLastRun : Ctx -> string -> Time -> Time -> M S unit;
  storage_AddContinuation : Ctx -> string -> ContinuationEntry -> M S unit;
  storage_GetContinuations : Ctx -> string -> M S (list ContinuationEntry);
  storage_RemoveContinuations : Ctx -> string -> M S unit;
  storage_IncrementCounter : Ctx -> string -> Z -> M S unit;
  storage_GetCounter : Ctx -> string -> M S Z;
  storage_GetAllCounters : Ctx -> Z -> Z -> M S (gmap string Z);
  storage_AcquireLock : Ctx -> string -> Duration -> M S storage_Lock;
  storage_ReleaseLock : Ctx -> storage_Lock -> M S unit;
  storage_RemoveExpired : Ctx -> Time -> M S Z;
  storage_ScheduleRetry : Ctx -> string -> Time -> M S unit;
  storage_SetJobResult : Ctx -> string -> bytes -> M S unit;
  storage_DeleteJob : Ctx -> string -> M S unit;
  storage_EnqueueIdempotent : Ctx -> string -> Job -> M S (string * bool)
}.
