(* ===== verification/Memory.v ===== *)
(** * The in-memory backend (internal/storage/memory/memory.go)

    The state of [memory.Storage] and its operations, in the order of the file.
    Every operation but [Dequeue] holds the mutex from its first to its last
    access, so it is one atomic step; [Dequeue] releases it between two scans.
    Maps of pointers are maps of values: no caller keeps a pointer it mutates
    after the call.  Locks are the exception, since a holder's [Release] and the
    map share the lock object: they live in [lockHeap]. *)
From S2P Require Import Prelude.
From S2P Require Import GoTime.
From S2P Require Import Job.
From S2P Require Import StorageI.

(** A lock object; its [store] field is the storage itself. *)
Record memoryLock := mkMemoryLock {
  lk_resource : string;
  lk_ownerID : string;
  lk_expiresAt : Time;
  lk_released : bool
}.

(** A queue is the list of its job identifiers, front first; [dequeueCh] is
    whether the one-slot channel holds a token. *)
Record Storage := mkStorage {
  jobs : gmap string Job;
  jobStates : gmap string (list JobState);
  queues : gmap string (list string);
  queueTokens : gmap string Z;
  scheduled : gmap string Time;
  processing : gmap string string;
  progress : gmap string Time;
  recurring : gmap string RecurringJobEntry;
  continuations : gmap string (list ContinuationEntry);
  servers : gmap string ServerInfo;
  counters : gmap string Z;
  locks : gmap string nat;
  dequeueCh : bool;
  idempotency : gmap string string;
  lockHeap : gmap nat memoryLock
}.

(** Field updates. *)
Definition upd_jobs (f : gmap string Job -> gmap string Job) (s : Storage) : Storage :=
  mkStorage (f (jobs s)) (jobStates s) (queues s) (queueTokens s) (scheduled s) (processing s) (progress s) (recurring s) (continuations s) (servers s) (counters s) (locks s) (dequeueCh s) (idempotency s) (lockHeap s).
Definition upd_jobStates (f : gmap string (list JobState) -> gmap string (list JobState)) (s : Storage) : Storage :=
  mkStorage (jobs s) (f (jobStates s)) (queues s) (queueTokens s) (scheduled s) (processing s) (progress s) (recurring s) (continuations s) (servers s) (counters s) (locks s) (dequeueCh s) (idempotency s) (lockHeap s).
Definition upd_queues (f : gmap string (list string) -> gmap string (list string)) (s : Storage) : Storage :=
  mkStorage (jobs s) (jobStates s) (f (queues s)) (queueTokens s) (scheduled s) (processing s) (progress s) (recurring s) (continuations s) (servers s) (counters s) (locks s) (dequeueCh s) (idempotency s) (lockHeap s).
Definition upd_queueTokens (f : gmap string Z -> gmap string Z) (s : Storage) : Storage :=
  mkStorage (jobs s) (jobStates s) (queues s) (f (queueTokens s)) (scheduled s) (processing s) (progress s) (recurring s) (continuations s) (servers s) (counters s) (locks s) (dequeueCh s) (idempotency s) (lockHeap s).
Definition upd_scheduled (f : gmap string Time -> gmap string Time) (s : Storage) : Storage :=
  mkStorage (jobs s) (jobStates s) (queues s) (queueTokens s) (f (scheduled s)) (processing s) (progress s) (recurring s) (continuations s) (servers s) (counters s) (locks s) (dequeueCh s) (idempotency s) (lockHeap s).
Definition upd_processing (f : gmap string string -> gmap string string) (s : Storage) : Storage :=
  mkStorage (jobs s) (jobStates s) (queues s) (queueTokens s) (scheduled s) (f (processing s)) (progress s) (recurring s) (continuations s) (servers s) (counters s) (locks s) (dequeueCh s) (idempotency s) (lockHeap s).
Definition upd_progress (f : gmap string Time -> gmap string Time) (s : Storage) : Storage :=
  mkStorage (jobs s) (jobStates s) (queues s) (queueTokens s) (scheduled s) (processing s) (f (progress s)) (recurring s) (continuations s) (servers s) (counters s) (locks s) (dequeueCh s) (idempotency s) (lockHeap s).
Definition upd_recurring (f : gmap string RecurringJobEntry -> gmap string RecurringJobEntry) (s : Storage) : Storage :=
  mkStorage (jobs s) (jobStates s) (queues s) (queueTokens s) (scheduled s) (processing s) (progress s) (f (recurring s)) (continuations s) (servers s) (counters s) (locks s) (dequeueCh s) (idempotency s) (lockHeap s).
Definition upd_continuations (f : gmap string (list ContinuationEntry) -> gmap string (list ContinuationEntry)) (s : Storage) : Storage :=
  mkStorage (jobs s) (jobStates s) (queues s) (queueTokens s) (scheduled s) (processing s) (progress s) (recurring s) (f (continuations s)) (servers s) (counters s) (locks s) (dequeueCh s) (idempotency s) (lockHeap s).
Definition upd_servers (f : gmap string ServerInfo -> gmap string ServerInfo) (s : Storage) : Storage :=
  mkStorage (jobs s) (jobStates s) (queues s) (queueTokens s) (scheduled s) (processing s) (progress s) (recurring s) (continuations s) (f (servers s)) (counters s) (locks s) (dequeueCh s) (idempotency s) (lockHeap s).
Definition upd_counters (f : gmap string Z -> gmap string Z) (s : Storage) : Storage :=
  mkStorage (jobs s) (jobStates s) (queues s) (queueTokens s) (scheduled s) (processing s) (progress s) (recurring s) (continuations s) (servers s) (f (counters s)) (locks s) (dequeueCh s) (idempotency s) (lockHeap s).
Definition upd_locks (f : gmap string nat -> gmap string nat) (s : Storage) : Storage :=
  mkStorage (jobs s) (jobStates s) (queues s) (queueTokens s) (scheduled s) (processing s) (progress s) (recurring s) (continuations s) (servers s) (counters s) (f (locks s)) (dequeueCh s) (idempotency s) (lockHeap s).
Definition upd_dequeueCh (f : bool -> bool) (s : Storage) : Storage :=
  mkStorage (jobs s) (jobStates s) (queues s) (queueTokens s) (scheduled s) (processing s) (progress s) (recurring s) (continuations s) (servers s) (counters s) (locks s) (f (dequeueCh s)) (idempotency s) (lockHeap s).
Definition upd_idempotency (f : gmap string string -> gmap string string) (s : Storage) : Storage :=
  mkStorage (jobs s) (jobStates s) (queues s) (queueTokens s) (scheduled s) (processing s) (progress s) (recurring s) (continuations s) (servers s) (counters s) (locks s) (dequeueCh s) (f (idempotency s)) (lockHeap s).
Definition upd_lockHeap (f : gmap nat memoryLock -> gmap nat memoryLock) (s : Storage) : Storage :=
  mkStorage (jobs s) (jobStates s) (queues s) (queueTokens s) (scheduled s) (processing s) (progress s) (recurring s) (continuations s) (servers s) (counters s) (locks s) (dequeueCh s) (idempotency s) (f (lockHeap s)).

Definition New : Storage :=
  mkStorage ∅ ∅ ∅ ∅ ∅ ∅ ∅ ∅ ∅ ∅ ∅ ∅ false ∅ ∅.

(** [isTerminal], the backend's own set of terminal states. *)
Definition isTerminal (state : string) : bool :=
  bool_decide (state = StateSucceeded) || bool_decide (state = StateFailed)
    || bool_decide (state = StateDeleted).

#[global] Arguments isTerminal : simpl never.

(** [s.counters[key] += delta]: a missing counter reads 0. *)
Definition bump (key : string) (delta : Z) (s : Storage) : Storage :=
  upd_counters (fun c => <[key := add64 (default 0 (c !! key)) delta]> c) s.

(** [s.jobStates[id] = append(s.jobStates[id], st)]. *)
Definition push_state (id : string) (st : JobState) (s : Storage) : Storage :=
  upd_jobStates (fun m => <[id := default [] (m !! id) ++ [st]]> m) s.

(** [if s.queues[q] == nil { s.queues[q] = list.New() }; s.queues[q].PushBack(id)]. *)
Definition push_queue (q id : string) (s : Storage) : Storage :=
  upd_queues (fun m => <[q := default [] (m !! q) ++ [id]]> m) s.

(** [select { case s.dequeueCh <- struct{}{}: default: }]: the channel has one
    slot. *)
Definition signal (s : Storage) : Storage := upd_dequeueCh (fun _ => true) s.

(** The assignments to [*job] that open [Enqueue] and [EnqueueIdempotent]:
    identifier, creation time, default queue, default retry budget. *)
Definition enqueue_job (id : string) (now : Time) (job : Job) : Job :=
  let job := set_CreatedAt now (set_ID id job) in
  let job := if decide (Queue job = "") then set_Queue "default" job else job in
  if decide (RetryMax job = 0) then set_RetryMax 10 job else job.

(** Those of [AddScheduled], which sets no retry budget. *)
Definition scheduled_job (id : string) (now : Time) (job : Job) : Job :=
  let job := set_CreatedAt now (set_ID id job) in
  if decide (Queue job = "") then set_Queue "default" job else job.

#[global] Arguments enqueue_job : simpl never.
#[global] Arguments scheduled_job : simpl never.

Section Operations.
Context `{Env}.

(** ** Queues and job dispatch *)

Definition Enqueue (ctx : Ctx) (queue : string) (job : Job) : M Storage string :=
  id <- (if decide (ID job = "") then uuid_NewString else mret (ID job)) ;;
  now <- time_Now ;;
  let job := enqueue_job id now job in
  mmodify (upd_jobs <[ID job := job]>) ;;;
  now2 <- time_Now ;;
  mmodify (upd_jobStates <[ID job := [mkJobState StateEnqueued "" None now2]]>) ;;;
  now3 <- time_Now ;;
  mmodify (upd_queueTokens <[ID job := UnixNano now3]>) ;;;
  mmodify (push_queue queue (ID job)) ;;;
  mmodify (bump "enqueued" 1) ;;;
  mmodify signal ;;;
  mret (ID job).

(** [s.mu.Unlock()], by a goroutine that may or may not hold the lock; no other
    goroutine holds it at that instant. *)
Definition Unlock (held : bool) : M Storage unit :=
  if held then mret tt else mfatal "sync: Unlock of unlocked RWMutex".

(** One pass of [Dequeue] over the queues, from [s.mu.Lock()] to the
    [s.mu.Unlock()] that ends it. *)
Fixpoint dequeueScan (qs : list string) (held : bool) : M Storage (option JobTicket) :=
  match qs with
  | [] => Unlock held ;;; mret None
  | q :: qs' =>
    s <- mget ;;
    match queues s !! q with
    | None | Some [] => dequeueScan qs' held
    | Some (jobID :: l) =>
      mmodify (upd_queues <[q := l]>) ;;;
      match jobs s !! jobID with
      | None => Unlock held ;;; dequeueScan qs' false
      | Some job =>
        mmodify (upd_processing <[jobID := "local"]>) ;;;
        now <- time_Now ;;
        mmodify (upd_progress <[jobID := now]>) ;;;
        now2 <- time_Now ;;
        mmodify (push_state jobID
          (mkJobState StateProcessing "" (Some {[ "server_id" := "local" ]}) now2)) ;;;
        mmodify (bump "dequeued" 1) ;;;
        now3 <- time_Now ;;
        let token := "tok-" +:+ jobID +:+ "-" +:+ Itoa (UnixNano now3) in
        Unlock held ;;;
        mret (Some (mkJobTicket (ID job) token))
      end
    end
  end.

(** The whole call: scan, sleep, be woken, scan again.  [None] is a call still
    blocked when the list of awakenings ends. *)
Fixpoint Dequeue (ctx : Ctx) (qs : list string) (timeout : Duration)
    (wakes : list (wake Storage)) : M Storage (option JobTicket) :=
  ticket <- dequeueScan qs true ;;
  match ticket, wakes with
  | Some t, _ => mret (Some t)
  | None, [] => mret None
  | None, w :: wakes' =>
    interleave (wk_others w) ;;;
    match wk_kind w with
    | WakeCtx err => mthrow err
    | WakeTimeout => mthrow ErrQueueEmpty
    | WakeSignal =>
      mmodify (upd_dequeueCh (fun _ => false)) ;;; Dequeue ctx qs timeout wakes'
    | WakeTick => Dequeue ctx qs timeout wakes'
    end
  end.

Definition Requeue (ctx : Ctx) (jobID reason : string) : M Storage unit :=
  s <- mget ;;
  match jobs s !! jobID with
  | None => mthrow ErrNotFound
  | Some job =>
    let states := default [] (jobStates s !! jobID) in
    (if decide (0 < length states)%nat
     then if IrreversibleStates (current states) then mthrow ErrTerminalState else mret tt
     else mret tt) ;;;
    mmodify (upd_processing (delete jobID)) ;;;
    now <- time_Now ;;
    mmodify (push_state jobID (mkJobState StateEnqueued reason None now)) ;;;
    mmodify (push_queue (Queue job) (ID job)) ;;;
    mmodify signal
  end.

(** ** State machine *)

Definition ApplyState (ctx : Ctx) (jobID expectedCurrent : string) (newState : JobState)
    : M Storage unit :=
  s <- mget ;;
  match jobStates s !! jobID with
  | None => mthrow ErrNotFound
  | Some states =>
    let cur := match last states with Some st => st_Name st | None => StateEnqueued end in
    if decide (cur <> expectedCurrent) then mthrow ErrStateConflict else
    newState <- (if IsZero (st_CreatedAt newState)
                 then now <- time_Now ;; mret (set_st_CreatedAt now newState)
                 else mret newState) ;;
    mmodify (upd_jobStates <[jobID := states ++ [newState]]>) ;;;
    (if decide (expectedCurrent = StateProcessing /\ st_Name newState <> StateProcessing)
     then mmodify (upd_processing (delete jobID)) else mret tt) ;;;
    if decide (st_Name newState = StateSucceeded) then mmodify (bump "succeeded" 1)
    else if decide (st_Name newState = StateFailed) then mmodify (bump "failed" 1)
    else if decide (st_Name newState = StateDead) then mmodify (bump "dead" 1)
    else mret tt
  end.

Definition ScheduleRetry (ctx : Ctx) (jobID : string) (enqueueAt : Time) : M Storage unit :=
  s <- mget ;;
  match jobStates s !! jobID with
  | None => mthrow ErrNotFound
  | Some states =>
    match last states with
    | None => mpanic "index out of range [-1]"
    | Some st =>
      if decide (st_Name st <> StateFailed) then mthrow ErrStateConflict else
      now <- time_Now ;;
      mmodify (upd_jobStates <[jobID := states ++
        [mkJobState StateScheduled "" (Some {[ "enqueue_at" := FormatRFC3339 enqueueAt ]}) now]]>) ;;;
      mmodify (upd_scheduled <[jobID := enqueueAt]>) ;;;
      mmodify (bump "scheduled" 1)
    end
  end.

Definition SetJobResult (ctx : Ctx) (jobID : string) (result : bytes) : M Storage unit :=
  let result := if 65536 <? blen result then bprefix 65536 result else result in
  s <- mget ;;
  match jobs s !! jobID with
  | None => mthrow ErrNotFound
  | Some job => mmodify (upd_jobs <[jobID := set_Result (bclone result) job]>)
  end.

Definition HeartbeatJob (ctx : Ctx) (jobID : string) : M Storage unit :=
  s <- mget ;;
  match jobs s !! jobID with
  | None => mthrow ErrNotFound
  | Some _ => now <- time_Now ;; mmodify (upd_progress <[jobID := now]>)
  end.

Definition GetOrphanedJobs (ctx : Ctx) (staleAge : Duration) : M Storage (list JobTicket) :=
  now <- time_Now ;;
  let cutoff := Add now (wrap64 (- staleAge)) in
  s <- mget ;;
  ids <- range_keys (progress s) ;;
  mret (omap (fun jobID =>
    match progress s !! jobID with
    | Some lastProgress =>
      if Before lastProgress cutoff
      then Some (mkJobTicket jobID ("orphan-" +:+ jobID)) else None
    | None => None
    end) ids).

Definition GetJob (ctx : Ctx) (jobID : string) : M Storage JobWithStates :=
  s <- mget ;;
  match jobs s !! jobID with
  | None => mthrow ErrNotFound
  | Some job => mret (mkJobWithStates job (default [] (jobStates s !! jobID)))
  end.

Definition GetJobsByState (ctx : Ctx) (state : string) (offset limit : Z)
    : M Storage (list JobWithStates) :=
  s <- mget ;;
  ids <- range_keys (jobs s) ;;
  let result := omap (fun k =>
    match jobs s !! k with
    | Some job =>
      let states := default [] (jobStates s !! ID job) in
      if decide (state = "" \/ current states = state)
      then Some (mkJobWithStates job states) else None
    | None => None
    end) ids in
  if Z.of_nat (length result) <=? offset then mret [] else
  if offset <? 0 then mpanic "slice bounds out of range" else
  let result := drop (Z.to_nat offset) result in
  if decide (0 < limit /\ limit < Z.of_nat (length result))
  then mret (take (Z.to_nat limit) result) else mret result.

(** ** Queue metadata *)

Definition GetQueueLength (ctx : Ctx) (queue : string) : M Storage Z :=
  s <- mget ;;
  match queues s !! queue with
  | None => mret 0
  | Some l => mret (Z.of_nat (length l))
  end.

Definition GetQueues (ctx : Ctx) : M Storage (list string) :=
  s <- mget ;; range_keys (queues s).

(** ** Server registry *)

Definition RegisterServer (ctx : Ctx) (server : ServerInfo) (ttl : Duration) : M Storage unit :=
  now <- time_Now ;;
  let status := if decide (sv_Status server = "") then ServerStatusActive else sv_Status server in
  let server := mkServerInfo (sv_ID server) (sv_StartedAt server) now
                  (sv_WorkerCount server) (sv_Queues server) status in
  mmodify (upd_servers <[sv_ID server := server]>).

Definition UnregisterServer (ctx : Ctx) (serverID : string) : M Storage unit :=
  mmodify (upd_servers (delete serverID)).

Definition Heartbeat (ctx : Ctx) (serverID : string) (ttl : Duration) : M Storage unit :=
  s <- mget ;;
  match servers s !! serverID with
  | None => mthrow ErrNotFound
  | Some sv =>
    now <- time_Now ;;
    mmodify (upd_servers <[serverID := mkServerInfo (sv_ID sv) (sv_StartedAt sv) now
      (sv_WorkerCount sv) (sv_Queues sv) ServerStatusActive]>)
  end.

Definition GetServers (ctx : Ctx) : M Storage (list ServerInfo) :=
  s <- mget ;;
  ids <- range_keys (servers s) ;;
  mret (omap (fun k => servers s !! k) ids).

(** ** Scheduled jobs *)

Definition AddScheduled (ctx : Ctx) (enqueueAt : Time) (job : Job) : M Storage string :=
  id <- (if decide (ID job = "") then uuid_NewString else mret (ID job)) ;;
  now <- time_Now ;;
  let job := scheduled_job id now job in
  mmodify (upd_jobs <[ID job := job]>) ;;;
  now2 <- time_Now ;;
  mmodify (upd_jobStates <[ID job := [mkJobState StateScheduled ""
    (Some {[ "enqueue_at" := FormatRFC3339 enqueueAt ]}) now2]]>) ;;;
  mmodify (upd_scheduled <[ID job := enqueueAt]>) ;;;
  mmodify (bump "scheduled" 1) ;;;
  mret (ID job).

(** The first loop of [GetDueScheduled]: the due identifiers, in the order of
    the map iteration, until the batch is full. *)
Fixpoint collectDue (now : Time) (batchSize : Z) (sched : gmap string Time)
    (ids due : list string) : list string :=
  match ids with
  | [] => due
  | jobID :: ids' =>
    let due' := match sched !! jobID with
                | Some enqueueAt => if negb (After enqueueAt now) then due ++ [jobID] else due
                | None => due
                end in
    if batchSize <=? Z.of_nat (length due') then due'
    else collectDue now batchSize sched ids' due'
  end.

(** One turn of its second loop. *)
Definition promote (jobID : string) : M Storage JobTicket :=
  mmodify (upd_scheduled (delete jobID)) ;;;
  now <- time_Now ;;
  mmodify (push_state jobID (mkJobState StateEnqueued "scheduled" None now)) ;;;
  s <- mget ;;
  match jobs s !! jobID with
  | None => mpanic "nil pointer dereference"
  | Some job =>
    mmodify (push_queue (Queue job) jobID) ;;;
    mmodify (bump "scheduled" (-1)) ;;;
    mmodify (bump "enqueued" 1) ;;;
    mret (mkJobTicket jobID ("sched-" +:+ jobID))
  end.

Definition GetDueScheduled (ctx : Ctx) (now : Time) (batchSize : Z) : M Storage (list JobTicket) :=
  s <- mget ;;
  ids <- range_keys (scheduled s) ;;
  tickets <- mmap (collectDue now batchSize (scheduled s) ids []) promote ;;
  (if decide (0 < length tickets)%nat then mmodify signal else mret tt) ;;;
  mret tickets.

Definition RemoveScheduled (ctx : Ctx) (jobID : string) : M Storage unit :=
  mmodify (upd_scheduled (delete jobID)).

(** ** Recurring jobs *)

Definition UpsertRecurring (ctx : Ctx) (entry : RecurringJobEntry) : M Storage unit :=
  now <- time_Now ;;
  let created := if IsZero (re_CreatedAt entry) then now else re_CreatedAt entry in
  let entry := mkRecurringJobEntry (re_ID entry) (re_JobName entry) (re_Args entry)
    (re_Queue entry) (re_CronExpr entry) (re_LastRun entry) (re_NextRun entry)
    (re_Enabled entry) created now in
  mmodify (upd_recurring <[re_ID entry := entry]>).

Definition RemoveRecurring (ctx : Ctx) (id : string) : M Storage unit :=
  mmodify (upd_recurring (delete id)).

Definition GetRecurringJobs (ctx : Ctx) : M Storage (list RecurringJobEntry) :=
  s <- mget ;;
  ids <- range_keys (recurring s) ;;
  mret (omap (fun k => recurring s !! k) ids).

Definition UpdateRecurringLastRun (ctx : Ctx) (id : string) (lastRun nextRun : Time)
    : M Storage unit :=
  s <- mget ;;
  match recurring s !! id with
  | None => mthrow ErrNotFound
  | Some entry =>
    now <- time_Now ;;
    mmodify (upd_recurring <[id := mkRecurringJobEntry (re_ID entry) (re_JobName entry)
      (re_Args entry) (re_Queue entry) (re_CronExpr entry) (Some lastRun) (Some nextRun)
      (re_Enabled entry) (re_CreatedAt entry) now]>)
  end.

(** ** Continuations *)

Definition AddContinuation (ctx : Ctx) (parentID : string) (entry : ContinuationEntry)
    : M Storage unit :=
  now <- time_Now ;;
  let entry := mkContinuationEntry (ce_ChildName entry) (ce_ChildArgs entry)
                 (ce_ChildQueue entry) (ce_Condition entry) now in
  mmodify (upd_continuations (fun m => <[parentID := default [] (m !! parentID) ++ [entry]]> m)).

Definition GetContinuations (ctx : Ctx) (parentID : string) : M Storage (list ContinuationEntry) :=
  mgets (fun s => default [] (continuations s !! parentID)).

Definition RemoveContinuations (ctx : Ctx) (parentID : string) : M Storage unit :=
  mmodify (upd_continuations (delete parentID)).

(** ** Counters *)

Definition IncrementCounter (ctx : Ctx) (key : string) (delta : Z) : M Storage unit :=
  mmodify (bump key delta).

Definition GetCounter (ctx : Ctx) (key : string) : M Storage Z :=
  mgets (fun s => default 0 (counters s !! key)).

Definition GetAllCounters (ctx : Ctx) (skip limit : Z) : M Storage (gmap string Z) :=
  mgets counters.

(** ** Distributed lock *)

(** [(l *memoryLock).Release], on the lock object at [addr]. *)
Definition Release (ctx : Ctx) (addr : nat) : M Storage unit :=
  s <- mget ;;
  match lockHeap s !! addr with
  | None => mpanic "nil pointer dereference"
  | Some l =>
    if lk_released l then mthrow ErrLockNotHeld else
    match locks s !! lk_resource l with
    | None => mthrow ErrLockNotHeld
    | Some existing =>
      match lockHeap s !! existing with
      | None => mpanic "nil pointer dereference"
      | Some e =>
        if decide (lk_ownerID e <> lk_ownerID l) then mthrow ErrLockNotHeld else
        mmodify (upd_locks (delete (lk_resource l))) ;;;
        mmodify (upd_lockHeap <[addr :=
          mkMemoryLock (lk_resource l) (lk_ownerID l) (lk_expiresAt l) true]>)
      end
    end
  end.

Definition AcquireLock (ctx : Ctx) (resource : string) (ttl : Duration) : M Storage nat :=
  s <- mget ;;
  (match locks s !! resource with
   | None => mret tt
   | Some existing =>
     now <- time_Now ;;
     match lockHeap s !! existing with
     | None => mpanic "nil pointer dereference"
     | Some e => if Before now (lk_expiresAt e) then mthrow ErrLockNotHeld else mret tt
     end
   end) ;;;
  owner <- uuid_NewString ;;
  now <- time_Now ;;
  addr <- new_addr ;;
  mmodify (upd_lockHeap <[addr := mkMemoryLock resource owner (Add now ttl) false]>) ;;;
  mmodify (upd_locks <[resource := addr]>) ;;;
  mret addr.

(** ** Maintenance *)

(** The body of the loop of [RemoveExpired] on one entry of [jobStates]: the
    seven deletions. *)
Definition forget (jobID : string) (s : Storage) : Storage :=
  upd_continuations (delete jobID) (upd_scheduled (delete jobID)
    (upd_progress (delete jobID) (upd_processing (delete jobID)
      (upd_queueTokens (delete jobID) (upd_jobStates (delete jobID)
        (upd_jobs (delete jobID) s)))))).

Fixpoint expireLoop (cutoff : Time) (ids : list string) (deleted : Z) : M Storage Z :=
  match ids with
  | [] => mret deleted
  | jobID :: ids' =>
    s <- mget ;;
    match jobStates s !! jobID with
    | None => expireLoop cutoff ids' deleted
    | Some states =>
      match last states with
      | None => expireLoop cutoff ids' deleted
      | Some lastState =>
        if isTerminal (st_Name lastState) && Before (st_CreatedAt lastState) cutoff then
          mmodify (forget jobID) ;;; expireLoop cutoff ids' (add64 deleted 1)
        else expireLoop cutoff ids' deleted
      end
    end
  end.

Definition RemoveExpired (ctx : Ctx) (cutoff : Time) : M Storage Z :=
  s <- mget ;;
  ids <- range_keys (jobStates s) ;;
  expireLoop cutoff ids 0.

Definition DeleteJob (ctx : Ctx) (jobID : string) : M Storage unit :=
  s <- mget ;;
  match jobStates s !! jobID with
  | None => mthrow ErrNotFound
  | Some states =>
    match last states with
    | None => mpanic "index out of range [-1]"
    | Some st =>
      if IrreversibleStates (st_Name st) then mthrow ErrTerminalState else
      now <- time_Now ;;
      mmodify (upd_jobStates <[jobID := states ++ [mkJobState StateDeleted "" None now]]>) ;;;
      mmodify (upd_processing (delete jobID)) ;;;
      mmodify (upd_progress (delete jobID))
    end
  end.

Definition EnqueueIdempotent (ctx : Ctx) (queue : string) (job : Job) : M Storage (string * bool) :=
  let key := IdempotencyKey job in
  s <- mget ;;
  match (if decide (key <> "") then idempotency s !! key else None) with
  | Some existing => mret (existing, false)
  | None =>
    id <- (if decide (ID job = "") then uuid_NewString else mret (ID job)) ;;
    now <- time_Now ;;
    let job := enqueue_job id now job in
    mmodify (upd_jobs <[ID job := job]>) ;;;
    now2 <- time_Now ;;
    mmodify (upd_jobStates <[ID job := [mkJobState StateEnqueued "" None now2]]>) ;;;
    now3 <- time_Now ;;
    mmodify (upd_queueTokens <[ID job := UnixNano now3]>) ;;;
    mmodify (push_queue queue (ID job)) ;;;
    mmodify (bump "enqueued" 1) ;;;
    (if decide (key <> "") then mmodify (upd_idempotency <[key := ID job]>) else mret tt) ;;;
    mmodify signal ;;;
    mret (ID job, true)
  end.
End Operations.

(** The backend as an implementation of the interface. *)
#[export] Instance memory_StorageI `{Env} : StorageI Storage := {
  storage_Lock := nat;
  storage_Enqueue := Enqueue;
  storage_Dequeue := Dequeue;
  storage_Requeue := Requeue;
  storage_ApplyState := ApplyState;
  storage_HeartbeatJob := HeartbeatJob;
  storage_GetOrphanedJobs := GetOrphanedJobs;
  storage_GetJob := GetJob;
  storage_GetJobsByState := GetJobsByState;
  storage_GetQueueLength := GetQueueLength;
  storage_GetQueues := GetQueues;
  storage_RegisterServer := RegisterServer;
  storage_UnregisterServer := UnregisterServer;
  storage_Heartbeat := Heartbeat;
  storage_GetServers := GetServers;
  storage_AddScheduled := AddScheduled;
  storage_GetDueScheduled := GetDueScheduled;
  storage_RemoveScheduled := RemoveScheduled;
  storage_UpsertRecurring := UpsertRecurring;
  storage_RemoveRecurring := RemoveRecurring;
  storage_GetRecurringJobs := GetRecurringJobs;
  storage_UpdateRecurringLastRun := UpdateRecurringLastRun;
  storage_AddContinuation := AddContinuation;
  storage_GetContinuations := GetContinuations;
  storage_RemoveContinuations := RemoveContinuations;
  storage_IncrementCounter := IncrementCounter;
  storage_GetCounter := GetCounter;
  storage_GetAllCounters := GetAllCounters;
  storage_AcquireLock := AcquireLock;
  storage_ReleaseLock := Release;
  storage_RemoveExpired := RemoveExpired;
  storage_ScheduleRetry := ScheduleRetry;
  storage_SetJobResult := SetJobResult;
  storage_DeleteJob := DeleteJob;
  storage_EnqueueIdempotent := EnqueueIdempotent
}.

(** ** Lemmas on the helpers *)
Lemma ID_enqueue_job id now j : ID (enqueue_job id now j) = id.
Proof. unfold enqueue_job. by repeat case_decide. Qed.

Lemma ID_scheduled_job id now j : ID (scheduled_job id now j) = id.
Proof. unfold scheduled_job. by repeat case_decide. Qed.

#[export] Hint Rewrite ID_enqueue_job ID_scheduled_job : gfire_rw.
#[export] Hint Resolve ID_enqueue_job ID_scheduled_job : gfire.
