(* ===== verification/MemoryInv.v ===== *)
(** * Invariants of the in-memory backend

    The operations of [Memory] as the steps of a transition system over
    interleavings of callers, the well-formedness of its maps, and that every
    step preserves it. *)
From S2P Require Import Prelude.
From S2P Require Import GoTime.
From S2P Require Import Job.
From S2P Require Import StorageI.
From S2P Require Import Memory.

(** ** Well-formedness

    A job is stored under its own identifier, has a history exactly when it is
    stored, and its history is never empty; what is scheduled, processing or
    has a progress heartbeat is a stored job. *)
Record wf_maps (J : gmap string Job) (H : gmap string (list JobState))
    (Sc : gmap string Time) (P : gmap string string) (G : gmap string Time) : Prop := {
  wf_key : forall id j, J !! id = Some j -> ID j = id;
  wf_dom : forall id, is_Some (J !! id) <-> is_Some (H !! id);
  wf_hist : forall id h, H !! id = Some h -> h <> [];
  wf_sched : forall id, is_Some (Sc !! id) -> is_Some (J !! id);
  wf_proc : forall id, is_Some (P !! id) -> is_Some (J !! id);
  wf_prog : forall id, is_Some (G !! id) -> is_Some (J !! id);
}.

Definition wf (s : Storage) : Prop :=
  wf_maps (jobs s) (jobStates s) (scheduled s) (processing s) (progress s).

(** Lock objects: the map points to objects for its own resource; addresses and
    owner identifiers were drawn from the environment before now, and an owner
    identifies one object. *)
Record lock_wf `{Env} (n : nat) (s : Storage) : Prop := {
  lock_ptr : forall r a, locks s !! r = Some a ->
    exists l, lockHeap s !! a = Some l /\ lk_resource l = r /\ lk_released l = false;
  lock_addr : forall a l, lockHeap s !! a = Some l -> (a < n)%nat;
  lock_owner : forall a l, lockHeap s !! a = Some l ->
    exists i, (i < n)%nat /\ lk_ownerID l = uuid i;
  lock_unique : forall a b l k, lockHeap s !! a = Some l -> lockHeap s !! b = Some k ->
    lk_ownerID l = lk_ownerID k -> a = b;
}.

(** ** The transition system *)

(** An atomic action of some caller on the shared storage. *)
Inductive op :=
  | OpEnqueue (queue : string) (job : Job)
  | OpEnqueueIdempotent (queue : string) (job : Job)
  | OpScan (qs : list string)
  | OpRequeue (jobID reason : string)
  | OpApplyState (jobID expected : string) (st : JobState)
  | OpScheduleRetry (jobID : string) (at_ : Time)
  | OpSetJobResult (jobID : string) (result : bytes)
  | OpHeartbeatJob (jobID : string)
  | OpGetOrphanedJobs (age : Duration)
  | OpGetJob (jobID : string)
  | OpGetJobsByState (state : string) (offset limit : Z)
  | OpGetQueueLength (queue : string)
  | OpGetQueues
  | OpRegisterServer (server : ServerInfo)
  | OpUnregisterServer (id : string)
  | OpHeartbeat (id : string)
  | OpGetServers
  | OpAddScheduled (at_ : Time) (job : Job)
  | OpGetDueScheduled (now : Time) (batch : Z)
  | OpRemoveScheduled (jobID : string)
  | OpUpsertRecurring (entry : RecurringJobEntry)
  | OpRemoveRecurring (id : string)
  | OpGetRecurringJobs
  | OpUpdateRecurringLastRun (id : string) (lastRun nextRun : Time)
  | OpAddContinuation (parentID : string) (entry : ContinuationEntry)
  | OpGetContinuations (parentID : string)
  | OpRemoveContinuations (parentID : string)
  | OpIncrementCounter (key : string) (delta : Z)
  | OpGetCounter (key : string)
  | OpGetAllCounters (skip limit : Z)
  | OpAcquireLock (resource : string) (ttl : Duration)
  | OpRelease (addr : nat)
  | OpRemoveExpired (cutoff : Time)
  | OpDeleteJob (jobID : string).

Definition drop_result {S A} (m : M S A) : M S unit := m ;;; mret tt.

Section System.
Context `{Env}.

Definition exec (o : op) : M Storage unit :=
  match o with
  | OpEnqueue q j => drop_result (Enqueue Live q j)
  | OpEnqueueIdempotent q j => drop_result (EnqueueIdempotent Live q j)
  | OpScan qs => drop_result (dequeueScan qs true)
  | OpRequeue id r => Requeue Live id r
  | OpApplyState id e st => ApplyState Live id e st
  | OpScheduleRetry id a => ScheduleRetry Live id a
  | OpSetJobResult id r => SetJobResult Live id r
  | OpHeartbeatJob id => HeartbeatJob Live id
  | OpGetOrphanedJobs age => drop_result (GetOrphanedJobs Live age)
  | OpGetJob id => drop_result (GetJob Live id)
  | OpGetJobsByState st o l => drop_result (GetJobsByState Live st o l)
  | OpGetQueueLength q => drop_result (GetQueueLength Live q)
  | OpGetQueues => drop_result (GetQueues Live)
  | OpRegisterServer sv => RegisterServer Live sv 0
  | OpUnregisterServer id => UnregisterServer Live id
  | OpHeartbeat id => Heartbeat Live id 0
  | OpGetServers => drop_result (GetServers Live)
  | OpAddScheduled a j => drop_result (AddScheduled Live a j)
  | OpGetDueScheduled now b => drop_result (GetDueScheduled Live now b)
  | OpRemoveScheduled id => RemoveScheduled Live id
  | OpUpsertRecurring e => UpsertRecurring Live e
  | OpRemoveRecurring id => RemoveRecurring Live id
  | OpGetRecurringJobs => drop_result (GetRecurringJobs Live)
  | OpUpdateRecurringLastRun id l n => UpdateRecurringLastRun Live id l n
  | OpAddContinuation p e => AddContinuation Live p e
  | OpGetContinuations p => drop_result (GetContinuations Live p)
  | OpRemoveContinuations p => RemoveContinuations Live p
  | OpIncrementCounter k d => IncrementCounter Live k d
  | OpGetCounter k => drop_result (GetCounter Live k)
  | OpGetAllCounters a b => drop_result (GetAllCounters Live a b)
  | OpAcquireLock r ttl => drop_result (AcquireLock Live r ttl)
  | OpRelease a => Release Live a
  | OpRemoveExpired c => drop_result (RemoveExpired Live c)
  | OpDeleteJob id => DeleteJob Live id
  end.

(** Some caller performs one action. *)
Definition step (c c' : nat * Storage) : Prop :=
  exists o, c' = (exec o c.1 c.2).1.

(** What any interleaving of callers can bring the storage to. *)
Definition reachable (n : nat) (s : Storage) : Prop :=
  exists n0, rtc step (n0, New) (n, s).
End System.

(** ** The maps *)
Section Maps.
Context (J : gmap string Job) (H : gmap string (list JobState))
  (Sc : gmap string Time) (P : gmap string string) (G : gmap string Time).
Hypothesis W : wf_maps J H Sc P G.

(** Rewrite lookups in updated maps and split on key equality. *)
Ltac maps :=
  destruct W; split; intros;
  repeat match goal with
  | Hl : context [<[?a:=_]> _ !! ?b] |- _ =>
    destruct (decide (a = b)); [subst; rewrite lookup_insert_eq in Hl
                               | rewrite lookup_insert_ne in Hl by done]
  | |- context [<[?a:=_]> _ !! ?b] =>
    destruct (decide (a = b)); [subst; rewrite lookup_insert_eq
                               | rewrite lookup_insert_ne by done]
  | Hl : context [delete ?a _ !! ?b] |- _ =>
    destruct (decide (a = b)); [subst; rewrite lookup_delete_eq in Hl
                               | rewrite lookup_delete_ne in Hl by done]
  | |- context [delete ?a _ !! ?b] =>
    destruct (decide (a = b)); [subst; rewrite lookup_delete_eq
                               | rewrite lookup_delete_ne by done]
  end; simplify_eq; try by eauto; try by (split; eauto); try naive_solver.

Lemma wf_new_job id j h :
  ID j = id -> h <> [] -> wf_maps (<[id:=j]> J) (<[id:=h]> H) Sc P G.
Proof. intros. maps. Qed.

Lemma wf_set_job id j : ID j = id -> is_Some (J !! id) -> wf_maps (<[id:=j]> J) H Sc P G.
Proof. intros. maps. Qed.

Lemma wf_set_result id j r :
  J !! id = Some j -> wf_maps (<[id:=set_Result r j]> J) H Sc P G.
Proof.
  intros Hj. apply wf_set_job; [|eauto]. change (ID j = id). by apply (wf_key _ _ _ _ _ W).
Qed.

Lemma wf_set_hist id h : h <> [] -> is_Some (J !! id) -> wf_maps J (<[id:=h]> H) Sc P G.
Proof. intros. maps. Qed.

Lemma wf_ins_sched id t : is_Some (J !! id) -> wf_maps J H (<[id:=t]> Sc) P G.
Proof. intros. maps. Qed.

Lemma wf_ins_proc id v : is_Some (J !! id) -> wf_maps J H Sc (<[id:=v]> P) G.
Proof. intros. maps. Qed.

Lemma wf_ins_prog id t : is_Some (J !! id) -> wf_maps J H Sc P (<[id:=t]> G).
Proof. intros. maps. Qed.

Lemma wf_del_sched id : wf_maps J H (delete id Sc) P G.
Proof. maps. Qed.

Lemma wf_del_proc id : wf_maps J H Sc (delete id P) G.
Proof. maps. Qed.

Lemma wf_del_prog id : wf_maps J H Sc P (delete id G).
Proof. maps. Qed.

Lemma wf_hist_job id h : H !! id = Some h -> is_Some (J !! id).
Proof. intros Hh. apply (wf_dom _ _ _ _ _ W). eauto. Qed.

Lemma wf_forget id :
  wf_maps (delete id J) (delete id H) (delete id Sc) (delete id P) (delete id G).
Proof. maps. Qed.
End Maps.

#[export] Hint Resolve wf_new_job wf_set_job wf_set_result wf_set_hist wf_ins_sched wf_ins_proc
  wf_ins_prog wf_del_sched wf_del_proc wf_del_prog wf_hist_job wf_forget : gfire.
(** ** Every operation preserves well-formedness *)
Section Preservation.
Context `{Env}.

Abbreviation inv := (fun _ : nat => wf).

#[local] Instance wf_mono : TickMono inv.
Proof. by intros n s. Qed.

Lemma snoc_ne {A} (l : list A) x : l ++ [x] <> [].
Proof. by destruct l. Qed.
#[local] Hint Resolve snoc_ne : gfire.

Ltac wf_auto :=
  repeat first
    [ assumption
    | apply wf_forget | apply wf_del_proc | apply wf_del_prog | apply wf_del_sched
    | apply wf_set_hist; [|apply snoc_ne|]
    | apply wf_ins_sched | apply wf_ins_prog | apply wf_ins_proc
    | apply wf_new_job; [|solve [auto with gfire]|done]
    | apply is_Some_insert
    | apply wf_set_result; [|assumption]
    | eapply wf_hist_job; eassumption
    | by eauto ].

Ltac wf_run := intros n s Hwf; unfold wf in *; run_env; cases; autorewrite with gfire_rw; wf_auto.

Lemma wf_Enqueue ctx q j : preserves inv (Enqueue ctx q j).
Proof. unfold Enqueue. wf_run. Qed.

Lemma wf_EnqueueIdempotent ctx q j : preserves inv (EnqueueIdempotent ctx q j).
Proof. unfold EnqueueIdempotent. wf_run. Qed.

Lemma wf_AddScheduled ctx a j : preserves inv (AddScheduled ctx a j).
Proof. unfold AddScheduled. wf_run. Qed.

Lemma wf_Requeue ctx id r : preserves inv (Requeue ctx id r).
Proof. unfold Requeue. wf_run. Qed.

Lemma wf_ApplyState ctx id e st : preserves inv (ApplyState ctx id e st).
Proof. unfold ApplyState. wf_run. Qed.

Lemma wf_ScheduleRetry ctx id a : preserves inv (ScheduleRetry ctx id a).
Proof. unfold ScheduleRetry. wf_run. Qed.

Lemma wf_SetJobResult ctx id r : preserves inv (SetJobResult ctx id r).
Proof. unfold SetJobResult. wf_run. Qed.

Lemma wf_HeartbeatJob ctx id : preserves inv (HeartbeatJob ctx id).
Proof. unfold HeartbeatJob. wf_run. Qed.

Lemma wf_DeleteJob ctx id : preserves inv (DeleteJob ctx id).
Proof. unfold DeleteJob. wf_run. Qed.

Lemma wf_dequeueScan qs held : preserves inv (dequeueScan qs held).
Proof.
  revert held. induction qs as [|q qs IH]; intros held n s Hwf.
  - unfold dequeueScan, Unlock. destruct held; done.
  - simpl. run. destruct (queues s !! q) as [[|jobID l]|] eqn:Hq; try by apply IH.
    destruct (jobs s !! jobID) as [job|] eqn:Hj.
    + destruct held; run; unfold wf in *; cbn; wf_auto.
    + destruct held; run; [|by unfold wf in *]. by apply IH.
Qed.

Lemma wf_promote id : preserves (fun _ s => wf s /\ is_Some (jobs s !! id)) (promote id).
Proof.
  intros n s [Hwf [j Hj]]. unfold promote, wf in *. run_env. rewrite Hj. cbn.
  split; [|by eauto]. wf_auto.
Qed.

Lemma promote_ok id n s j :
  jobs s !! id = Some j ->
  exists s', promote id n s = (S n, s', Ok (mkJobTicket id ("sched-" +:+ id)))
    /\ jobs s' = jobs s.
Proof. intros Hj. unfold promote. run_env. rewrite Hj. cbn. eauto. Qed.

Lemma wf_promote_all ids n s :
  wf s -> (forall id, id ∈ ids -> is_Some (jobs s !! id)) ->
  wf (st_of (mmap ids promote n s)) /\
  res_of (mmap ids promote n s) = Ok ((fun id => mkJobTicket id ("sched-" +:+ id)) <$> ids).
Proof.
  revert n s. induction ids as [|id ids IH]; intros n s Hwf Hids; [done|]. simpl.
  destruct (Hids id) as [j Hj]; [by left|].
  pose proof (wf_promote id n s (conj Hwf (ex_intro _ j Hj))) as [Hwf' _].
  destruct (promote_ok id n s j Hj) as (s' & Hp & Hjobs).
  unfold mbind in *. rewrite Hp in *. unfold st_of, tick_of, res_of in *. simpl in *.
  destruct (IH (S n) s') as [IH1 IH2]; [done| |].
  { intros id' Hid'. rewrite Hjobs. apply Hids. by right. }
  destruct (mmap ids promote (S n) s') as [[n2 s2] r]; simpl in *; subst; done.
Qed.

Lemma collectDue_elem now b sched ids due x :
  x ∈ collectDue now b sched ids due -> x ∈ due \/ (x ∈ ids /\
    exists t, sched !! x = Some t /\ After t now = false).
Proof.
  revert due. induction ids as [|id ids IH]; intros due; simpl; [by left|].
  set (due' := match sched !! id with Some _ => _ | None => _ end).
  assert (x ∈ due' -> x ∈ due \/ (x ∈ id :: ids /\
    exists t, sched !! x = Some t /\ After t now = false)) as Hd.
  { subst due'. destruct (sched !! id) as [t|] eqn:Ht; [|by left].
    destruct (After t now) eqn:Ha; simpl; [by left|].
    rewrite elem_of_app, list_elem_of_singleton. intros [?| ->]; [by left|].
    right. split; [left|eauto]. }
  case_match; [done|]. intros Hx. apply IH in Hx as [?|[? ?]]; [by apply Hd|].
  right. split; [by right|done].
Qed.

Lemma GetDueScheduled_run ctx now b n s :
  wf s -> exists ids,
    ids ≡ₚ (map_to_list (scheduled s)).*1 /\
    let due := collectDue now b (scheduled s) ids [] in
    wf (st_of (GetDueScheduled ctx now b n s)) /\
    res_of (GetDueScheduled ctx now b n s)
      = Ok ((fun id => mkJobTicket id ("sched-" +:+ id)) <$> due).
Proof.
  intros Hwf. destruct (range_keys_spec (scheduled s) n s) as (ids & Hr & HP & _ & Hids).
  exists ids. split; [done|]. intros due.
  destruct (wf_promote_all due (S n) s Hwf) as [Hwf' Hres].
  { intros id Hid. subst due. apply collectDue_elem in Hid as [Hid|[_ (t & Ht & _)]].
    - by apply elem_of_nil in Hid.
    - apply (wf_sched _ _ _ _ _ Hwf). eauto. }
  unfold GetDueScheduled. unfold_m. rewrite Hr. fold due.
  destruct (mmap due promote (S n) s) as [[n' s'] r]; simpl in *; subst.
  by case_decide.
Qed.

Lemma wf_GetDueScheduled ctx now b : preserves inv (GetDueScheduled ctx now b).
Proof. intros n s Hwf. by destruct (GetDueScheduled_run ctx now b n s Hwf) as (? & _ & ? & _). Qed.

Lemma wf_expireLoop c ids d : preserves inv (expireLoop c ids d).
Proof.
  revert d. induction ids as [|id ids IH]; intros d n s Hwf; [done|]. simpl.
  run. destruct (jobStates s !! id) as [h|]; [|by apply IH].
  destruct (last h) as [st|]; [|by apply IH].
  case_match; [|by apply IH]. apply IH. unfold wf in *. cbn. wf_auto.
Qed.

Lemma wf_RemoveExpired ctx c : preserves inv (RemoveExpired ctx c).
Proof. intros n s Hwf. unfold RemoveExpired. run_env. by apply wf_expireLoop. Qed.

Lemma wf_AcquireLock ctx r ttl : preserves inv (AcquireLock ctx r ttl).
Proof. unfold AcquireLock. wf_run. Qed.

Lemma wf_Release ctx a : preserves inv (Release ctx a).
Proof. unfold Release. wf_run. Qed.

Lemma preserves_drop {A} I (m : M Storage A) : preserves I m -> preserves I (drop_result m).
Proof. intros Hm. apply preserves_bind; [done|]. intros; apply preserves_ret. Qed.

#[local] Hint Resolve wf_Enqueue wf_EnqueueIdempotent wf_AddScheduled wf_Requeue
  wf_ApplyState wf_ScheduleRetry wf_SetJobResult wf_HeartbeatJob wf_DeleteJob
  wf_dequeueScan wf_GetDueScheduled wf_RemoveExpired wf_AcquireLock wf_Release
  preserves_drop : gfire.

(** Any single action keeps the maps well formed, whatever its outcome. *)
Lemma wf_exec o : preserves inv (exec o).
Proof.
  destruct o; simpl; auto with gfire; try apply preserves_drop;
  unfold GetOrphanedJobs, GetJob, GetJobsByState, GetQueueLength, GetQueues,
    RegisterServer, UnregisterServer, Heartbeat, GetServers, RemoveScheduled,
    UpsertRecurring, RemoveRecurring, GetRecurringJobs, UpdateRecurringLastRun,
    AddContinuation, GetContinuations, RemoveContinuations, IncrementCounter,
    GetCounter, GetAllCounters; wf_run.
Qed.

Lemma wf_New : wf New.
Proof. split; simpl; intros *; rewrite ?lookup_empty; try done; by split; intros []. Qed.

(** ** Locks *)
#[local] Instance lock_mono : TickMono lock_wf.
Proof.
  intros n s [H1 H2 H3 H4]. split; [done| | |done].
  - intros a l Hl. specialize (H2 a l Hl). lia.
  - intros a l Hl. destruct (H3 a l Hl) as (i & Hi & ?). exists i. split; [lia|done].
Qed.

Lemma lock_modify f :
  (forall s, locks (f s) = locks s /\ lockHeap (f s) = lockHeap s) ->
  preserves lock_wf (mmodify f).
Proof.
  intros Hf n s [H1 H2 H3 H4]. destruct (Hf s) as [Hl Hh].
  unfold mmodify, tick_of, st_of; cbn. split; rewrite ?Hl, ?Hh; done.
Qed.

Lemma lock_new n s r exp :
  lock_wf n s ->
  lock_wf (S (S (S n))) (upd_locks <[r := S (S n)]>
    (upd_lockHeap <[S (S n) := mkMemoryLock r (uuid n) exp false]> s)).
Proof.
  intros [H1 H2 H3 H4]. split; cbn.
  - intros r' a. rewrite lookup_insert. case_decide as Hr; intros Ha; simplify_eq.
    + rewrite lookup_insert_eq. eauto.
    + destruct (H1 _ _ Ha) as (l & Hl & ?). exists l. split; [|done].
      rewrite lookup_insert_ne; [done|]. specialize (H2 _ _ Hl). lia.
  - intros a l. rewrite lookup_insert. case_decide; intros; simplify_eq; [lia|].
    assert (a < n)%nat by eauto. lia.
  - intros a l. rewrite lookup_insert. case_decide; intros Ha; simplify_eq; cbn.
    + exists n. split; [lia|done].
    + destruct (H3 a l Ha) as (i & Hi & ?). exists i. split; [lia|done].
  - intros a b l k. rewrite !lookup_insert. do 2 case_decide; intros Ha Hb Ho; simplify_eq;
      cbn in *; [done| | |by eauto].
    + destruct (H3 _ _ Hb) as (i & Hi & Heq). rewrite Heq in Ho. simplify_eq. lia.
    + destruct (H3 _ _ Ha) as (i & Hi & Heq). rewrite Heq in Ho. simplify_eq. lia.
Qed.

Lemma lock_released n s a l :
  lock_wf n s -> lockHeap s !! a = Some l -> locks s !! lk_resource l = Some a ->
  lock_wf n (upd_lockHeap <[a := mkMemoryLock (lk_resource l) (lk_ownerID l) (lk_expiresAt l) true]>
    (upd_locks (delete (lk_resource l)) s)).
Proof.
  intros [H1 H2 H3 H4] Ha Hl. split; cbn.
  - intros r b. rewrite lookup_delete. case_decide as Hr; intros Hb; [done|].
    destruct (H1 _ _ Hb) as (k & Hk & Hkr & ?). exists k. split; [|done].
    rewrite lookup_insert_ne; [done|]. intros ->. simplify_eq.
  - intros b k. rewrite lookup_insert. case_decide; intros; simplify_eq; eauto.
  - intros b k. rewrite lookup_insert. case_decide; intros; simplify_eq; cbn; eauto.
  - intros b c k m. rewrite !lookup_insert. do 2 case_decide; intros; simplify_eq; cbn in *; eauto.
Qed.

Ltac lock_preserve := preserve ltac:(first
  [ apply preserves_drop | apply lock_modify; by intros ]).

Lemma lock_dequeueScan qs held : preserves lock_wf (dequeueScan qs held).
Proof.
  revert held. induction qs as [|q qs IH]; intros held; simpl; unfold Unlock;
    lock_preserve; apply IH.
Qed.

Lemma lock_expireLoop c ids d : preserves lock_wf (expireLoop c ids d).
Proof.
  revert d. induction ids as [|id ids IH]; intros d; simpl; lock_preserve; apply IH.
Qed.

Lemma lock_AcquireLock ctx r ttl : preserves lock_wf (AcquireLock ctx r ttl).
Proof.
  intros n s L. unfold AcquireLock. run_env.
  destruct (locks s !! r) as [a|] eqn:Hr; cbn.
  - destruct (lock_ptr n s L r a Hr) as (l & Hl & Hlr & Hrel). rewrite Hl; cbn.
    destruct (Before (clock n) (lk_expiresAt l)); [by apply lock_mono|].
    apply lock_mono in L. revert L. generalize (S n). intros m L.
    by apply lock_new.
  - by apply lock_new.
Qed.

Lemma lock_Release ctx a : preserves lock_wf (Release ctx a).
Proof.
  intros n s L. unfold Release. run.
  destruct (lockHeap s !! a) as [l|] eqn:Ha; [|done].
  destruct (lk_released l); [done|].
  destruct (locks s !! lk_resource l) as [b|] eqn:Hb; [|done].
  destruct (lockHeap s !! b) as [e|] eqn:He; [|done].
  case_decide as Ho; [done|].
  assert (b = a) as -> by (eapply (lock_unique n s L); eauto).
  by apply lock_released.
Qed.

#[local] Hint Resolve lock_dequeueScan lock_expireLoop lock_AcquireLock lock_Release : gfire.

Lemma lock_exec o : preserves lock_wf (exec o).
Proof.
  destruct o; simpl; auto with gfire; try apply preserves_drop; auto with gfire;
  unfold Enqueue, EnqueueIdempotent, Requeue, ApplyState, ScheduleRetry, SetJobResult,
    HeartbeatJob, AddScheduled, GetDueScheduled, promote, RemoveExpired, DeleteJob,
    GetOrphanedJobs, GetJob, GetJobsByState, GetQueueLength, GetQueues,
    RegisterServer, UnregisterServer, Heartbeat, GetServers, RemoveScheduled,
    UpsertRecurring, RemoveRecurring, GetRecurringJobs, UpdateRecurringLastRun,
    AddContinuation, GetContinuations, RemoveContinuations, IncrementCounter,
    GetCounter, GetAllCounters; lock_preserve; auto with gfire.
Qed.

Lemma lock_New n : lock_wf n New.
Proof. split; simpl; intros *; by rewrite ?lookup_empty. Qed.

(** The invariants hold of everything reachable. *)
Lemma reachable_inv n s : reachable n s -> wf s /\ lock_wf n s.
Proof.
  intros [n0 Hr]. remember (n0, New) as c0. remember (n, s) as c.
  assert (wf c0.2 /\ lock_wf c0.1 c0.2) as Hc0.
  { subst. split; [apply wf_New|apply lock_New]. }
  clear Heqc0. assert (wf c.2 /\ lock_wf c.1 c.2); [|by subst].
  clear Heqc. induction Hr as [|c1 c2 c3 [o ->] _ IH]; [done|]. apply IH.
  destruct Hc0 as [Hw Hl]. split; [by apply (wf_exec o c1.1)|by apply lock_exec].
Qed.
End Preservation.
