(* ===== verification/MemoryFlow.v ===== *)
(** * Conservation of dispatches in the in-memory backend

    For the calls the program makes, every time a job enters [Processing] it
    consumes exactly one of the times it was enqueued, and what was enqueued and
    not yet dispatched waits in a queue. *)
From S2P Require Import Prelude.
From S2P Require Import GoTime.
From S2P Require Import Job.
From S2P Require Import StorageI.
From S2P Require Import Memory.
From S2P Require Import MemoryInv.

(** The number of states named [name] in a history. *)
Definition cnt (name : string) (h : list JobState) : nat :=
  length (filter (fun st => st_Name st = name) h).

Definition count_id (id : string) (l : list string) : nat :=
  length (filter (fun x => x = id) l).

(** The number of occurrences of a job in all the queues. *)
Definition occ (id : string) (Q : gmap string (list string)) : nat :=
  map_fold (fun _ l acc => (count_id id l + acc)%nat) 0%nat Q.

(** An identifier the UUID generator returned before call [n]. *)
Definition used `{Env} (n : nat) (id : string) : Prop :=
  exists i, (i < n)%nat /\ id = uuid i.

Record flow_maps `{Env} (n : nat) (J : gmap string Job)
    (H : gmap string (list JobState)) (Q : gmap string (list string)) : Prop := {
  flow_jobs : forall id, is_Some (J !! id) -> used n id;
  flow_queues : forall id, (0 < occ id Q)%nat -> used n id;
  flow_count : forall id h, H !! id = Some h ->
    cnt StateEnqueued h = (cnt StateProcessing h + occ id Q)%nat;
}.

Definition flow `{Env} (n : nat) (s : Storage) : Prop :=
  wf s /\ flow_maps n (jobs s) (jobStates s) (queues s).

(** The calls the engine and the API make: no caller chooses a job identifier,
    and [ApplyState] is only called for the transitions of [finalizeSuccess]
    and [finalizeFailure]. *)
Definition client_op (o : op) : bool :=
  match o with
  | OpEnqueue _ j | OpEnqueueIdempotent _ j | OpAddScheduled _ j => bool_decide (ID j = "")
  | OpApplyState _ e st =>
    bool_decide ((e, st_Name st) ∈
      [(StateProcessing, StateSucceeded); (StateProcessing, StateFailed);
       (StateProcessing, StateCancelled); (StateFailed, StateDead)])
  | _ => true
  end.

Section ClientSystem.
Context `{Env}.

Definition client_step (c c' : nat * Storage) : Prop :=
  exists o, client_op o = true /\ c' = (exec o c.1 c.2).1.

Definition client_reachable (n : nat) (s : Storage) : Prop :=
  exists n0, rtc client_step (n0, New) (n, s).
End ClientSystem.

(** ** Counting *)
Lemma cnt_snoc name h st :
  cnt name (h ++ [st]) = (cnt name h + if decide (st_Name st = name) then 1 else 0)%nat.
Proof.
  unfold cnt. rewrite filter_app, length_app. f_equal.
  destruct (decide (st_Name st = name)).
  - rewrite filter_cons_True by done. done.
  - rewrite filter_cons_False by done. done.
Qed.

Lemma count_id_snoc id l x :
  count_id id (l ++ [x]) = (count_id id l + if decide (x = id) then 1 else 0)%nat.
Proof.
  unfold count_id. rewrite filter_app, length_app. f_equal.
  destruct (decide (x = id)).
  - rewrite filter_cons_True by done. done.
  - rewrite filter_cons_False by done. done.
Qed.

Lemma count_id_cons id x l :
  count_id id (x :: l) = ((if decide (x = id) then 1 else 0) + count_id id l)%nat.
Proof.
  unfold count_id. destruct (decide (x = id)).
  - rewrite filter_cons_True by done. done.
  - rewrite filter_cons_False by done. done.
Qed.

Lemma occ_delete id Q q l :
  Q !! q = Some l -> occ id Q = (count_id id l + occ id (delete q Q))%nat.
Proof.
  intros Hq. unfold occ. erewrite (map_fold_delete_L _ _ q l Q); [done| |done].
  intros. lia.
Qed.

Lemma occ_insert_None id Q q l :
  Q !! q = None -> occ id (<[q:=l]> Q) = (count_id id l + occ id Q)%nat.
Proof. intros Hq. unfold occ. rewrite map_fold_insert_L; [done| |done]. intros; lia. Qed.

Lemma occ_insert id Q q l :
  (occ id (<[q:=l]> Q) + count_id id (default [] (Q !! q)) = occ id Q + count_id id l)%nat.
Proof.
  destruct (Q !! q) as [l0|] eqn:Hq; simpl.
  - rewrite (occ_delete id Q q l0 Hq).
    rewrite (occ_delete id (<[q:=l]> Q) q l) by apply lookup_insert_eq.
    rewrite delete_insert_eq. lia.
  - rewrite occ_insert_None by done. unfold count_id at 2; simpl. lia.
Qed.

Lemma occ_push id x q Q :
  occ id (<[q := default [] (Q !! q) ++ [x]]> Q)
  = (occ id Q + if decide (x = id) then 1 else 0)%nat.
Proof.
  pose proof (occ_insert id Q q (default [] (Q !! q) ++ [x])) as Ho.
  rewrite count_id_snoc in Ho. lia.
Qed.

Lemma occ_pop id x l q Q :
  Q !! q = Some (x :: l) ->
  occ id Q = (occ id (<[q := l]> Q) + if decide (x = id) then 1 else 0)%nat.
Proof.
  intros Hq. pose proof (occ_insert id Q q l) as Ho. rewrite Hq in Ho. simpl in Ho.
  rewrite count_id_cons in Ho. lia.
Qed.

(** ** The maps *)
Section Flow.
Context `{Env}.

Lemma used_mono n m id : (n <= m)%nat -> used n id -> used m id.
Proof. intros ? (i & ? & ?). exists i. split; [lia|done]. Qed.

Lemma used_uuid n m i : (n <= i)%nat -> (i < m)%nat -> used m (uuid i) /\ ~ used n (uuid i).
Proof.
  intros. split; [by exists i|]. intros (k & Hk & Heq).
  apply (inj uuid) in Heq. lia.
Qed.

Context (n : nat) (J : gmap string Job) (HH : gmap string (list JobState))
  (Q : gmap string (list string)).
Hypothesis F : flow_maps n J HH Q.

Lemma flow_le m : (n <= m)%nat -> flow_maps m J HH Q.
Proof. destruct F. split; intros; eauto using used_mono. Qed.

Lemma flow_unused id : ~ used n id -> occ id Q = 0%nat.
Proof.
  intros Hu. destruct (occ id Q) eqn:Ho; [done|].
  destruct Hu. apply (flow_queues _ _ _ _ F). lia.
Qed.

Lemma flow_new m i j h q :
  (n <= i)%nat -> (i < m)%nat -> cnt StateEnqueued h = S (cnt StateProcessing h) ->
  flow_maps m (<[uuid i := j]> J) (<[uuid i := h]> HH)
    (<[q := default [] (Q !! q) ++ [uuid i]]> Q).
Proof.
  intros Hi Hm Hh. destruct (used_uuid n m i Hi Hm) as [Hu Hn].
  pose proof (flow_unused _ Hn) as H0. destruct F as [F1 F2 F3].
  assert (forall id, used n id -> used m id) as Hmono by (intros; eapply used_mono; [|done]; lia).
  split.
  - intros id. rewrite lookup_insert. case_decide; subst; eauto.
  - intros id. rewrite occ_push. case_decide; subst; eauto. rewrite Nat.add_0_r. eauto.
  - intros id h'. rewrite lookup_insert, occ_push. case_decide; subst.
    + intros [= <-]. lia.
    + intros Hid. rewrite (F3 _ _ Hid). lia.
Qed.

Lemma flow_new_silent m i j h :
  (n <= i)%nat -> (i < m)%nat -> cnt StateEnqueued h = cnt StateProcessing h ->
  flow_maps m (<[uuid i := j]> J) (<[uuid i := h]> HH) Q.
Proof.
  intros Hi Hm Hh. destruct (used_uuid n m i Hi Hm) as [Hu Hn].
  pose proof (flow_unused _ Hn) as H0. destruct F as [F1 F2 F3].
  assert (forall id, used n id -> used m id) as Hmono by (intros; eapply used_mono; [|done]; lia).
  split.
  - intros id. rewrite lookup_insert. case_decide; subst; eauto.
  - eauto.
  - intros id h'. rewrite lookup_insert. case_decide; subst.
    + intros [= <-]. lia.
    + intros Hid. by apply F3.
Qed.

Lemma flow_set_job id j : is_Some (J !! id) -> flow_maps n (<[id := j]> J) HH Q.
Proof.
  destruct F. intros Hj. split; [|done|done]. intros id'.
  rewrite lookup_insert. case_decide; subst; eauto.
Qed.

Lemma flow_silent id h st :
  HH !! id = Some h -> st_Name st <> StateEnqueued -> st_Name st <> StateProcessing ->
  flow_maps n J (<[id := h ++ [st]]> HH) Q.
Proof.
  destruct F. intros Hh ??. split; [done|done|]. intros id' h'.
  rewrite lookup_insert. case_decide; subst; [|by eauto]. intros [= <-].
  rewrite !cnt_snoc, !decide_False by done. rewrite !Nat.add_0_r. eauto.
Qed.

Lemma flow_push id h st q :
  HH !! id = Some h -> is_Some (J !! id) -> st_Name st = StateEnqueued ->
  flow_maps n J (<[id := h ++ [st]]> HH) (<[q := default [] (Q !! q) ++ [id]]> Q).
Proof.
  destruct F as [F1 F2 F3]. intros Hh Hj Hst. split; [done| |].
  - intros id'. rewrite occ_push. case_decide; subst; [by auto|]. rewrite Nat.add_0_r. eauto.
  - intros id' h'. rewrite lookup_insert, occ_push. case_decide; subst.
    + intros [= <-]. rewrite !cnt_snoc, Hst, (F3 _ _ Hh). 
      rewrite decide_True, decide_False by done. lia.
    + intros Hid. rewrite (F3 _ _ Hid). lia.
Qed.

Lemma flow_pop id h st q l :
  HH !! id = Some h -> Q !! q = Some (id :: l) -> st_Name st = StateProcessing ->
  flow_maps n J (<[id := h ++ [st]]> HH) (<[q := l]> Q).
Proof.
  destruct F as [F1 F2 F3]. intros Hh Hq Hst. split; [done| |].
  - intros id' Ho. apply F2. rewrite (occ_pop _ _ _ _ _ Hq). lia.
  - intros id' h'. rewrite lookup_insert. case_decide; subst.
    + intros [= <-]. rewrite !cnt_snoc, Hst, (F3 _ _ Hh), (occ_pop id' _ _ _ _ Hq).
      rewrite (decide_False (P := StateProcessing = StateEnqueued)) by done.
      rewrite !decide_True by done. lia.
    + intros Hid. rewrite (F3 _ _ Hid), (occ_pop id' _ _ _ _ Hq).
      rewrite (decide_False (P := id = id')) by done. lia.
Qed.

Lemma flow_pop_gone id q l :
  HH !! id = None -> Q !! q = Some (id :: l) -> flow_maps n J HH (<[q := l]> Q).
Proof.
  destruct F as [F1 F2 F3]. intros Hh Hq. split; [done| |].
  - intros id' Ho. apply F2. rewrite (occ_pop _ _ _ _ _ Hq). lia.
  - intros id' h' Hid. rewrite (F3 _ _ Hid), (occ_pop id' _ _ _ _ Hq).
    rewrite decide_False; [lia|]. intros ->. congruence.
Qed.

Lemma flow_forget id : flow_maps n (delete id J) (delete id HH) Q.
Proof.
  destruct F as [F1 F2 F3]. split.
  - intros id'. rewrite lookup_delete. case_decide; [by intros []|apply F1].
  - done.
  - intros id' h. rewrite lookup_delete. case_decide; [done|apply F3].
Qed.
End Flow.

(** ** Every client action preserves the balance *)
Section FlowPreservation.
Context `{Env}.

Definition fl (n : nat) (s : Storage) : Prop := flow_maps n (jobs s) (jobStates s) (queues s).

#[local] Instance fl_mono : TickMono fl.
Proof. intros n s F. eapply flow_le; [done|lia]. Qed.

Lemma fl_modify f :
  (forall s, jobs (f s) = jobs s /\ jobStates (f s) = jobStates s /\ queues (f s) = queues s) ->
  preserves fl (mmodify f).
Proof.
  intros Hf n s F. destruct (Hf s) as (H1 & H2 & H3).
  unfold fl, mmodify, tick_of, st_of in *; cbn in *. by rewrite H1, H2, H3.
Qed.

Ltac fl_preserve := preserve ltac:(first
  [ apply preserves_drop | apply fl_modify; by intros ]).

Lemma fl_le n m s : (n <= m)%nat -> fl n s -> fl m s.
Proof. intros. by eapply flow_le. Qed.

Lemma fl_enqueue_record n i m q id j st (s : Storage) :
  fl n s -> id = uuid i -> (n <= i)%nat -> (i < m)%nat -> st_Name st = StateEnqueued ->
  flow_maps m (<[id := j]> (jobs s)) (<[id := [st]]> (jobStates s))
    (<[q := default [] (queues s !! q) ++ [id]]> (queues s)).
Proof.
  intros F -> ?? Hst. eapply flow_new; try done. unfold cnt.
  rewrite !filter_cons, Hst, decide_True, decide_False by done. done.
Qed.

Lemma fl_Enqueue ctx q j : ID j = "" -> preserves fl (Enqueue ctx q j).
Proof.
  intros Hj n s F. unfold Enqueue. rewrite decide_True by done.
  unfold fl. run_env. rewrite !ID_enqueue_job. eapply (fl_enqueue_record n n); eauto with lia.
Qed.

Lemma fl_EnqueueIdempotent ctx q j : ID j = "" -> preserves fl (EnqueueIdempotent ctx q j).
Proof.
  intros Hj n s F. unfold EnqueueIdempotent. unfold fl.
  run_env. destruct (if decide _ then _ else _); [done|].
  rewrite decide_True by done. run_env.
  case_decide; cbn; rewrite !ID_enqueue_job; eapply (fl_enqueue_record n n); eauto with lia.
Qed.

Lemma fl_AddScheduled ctx a j : ID j = "" -> preserves fl (AddScheduled ctx a j).
Proof.
  intros Hj n s F. unfold AddScheduled. rewrite decide_True by done.
  unfold fl. run_env. rewrite !ID_scheduled_job.
  eapply flow_new_silent with (i := n); [exact F|lia|lia|done].
Qed.

Lemma fl_dequeueScan qs held n s :
  wf s -> fl n s ->
  fl (tick_of (dequeueScan qs held n s)) (st_of (dequeueScan qs held n s)).
Proof.
  revert held n s. induction qs as [|q qs IH]; intros held n s W F.
  - by destruct held.
  - simpl. run. destruct (queues s !! q) as [[|id l]|] eqn:Hq; try by apply IH.
    destruct (jobs s !! id) as [job|] eqn:Hj.
    + destruct (wf_dom _ _ _ _ _ W id) as [[h Hh] _]; [eauto|].
      assert (fl (S (S (S n))) (push_state id (mkJobState StateProcessing ""
        (Some {["server_id" := "local"]}) (clock (S n))) (upd_queues <[q:=l]> s))) as F'.
      { unfold fl, push_state. cbn. rewrite Hh. cbn.
        eapply flow_pop; try done. eapply flow_le; [done|lia]. }
      destruct held; exact F'.
    + assert (fl n (upd_queues <[q:=l]> s)) as F'.
      { eapply flow_pop_gone; try done.
        destruct (jobStates s !! id) eqn:Hh; [|done].
        destruct (wf_dom _ _ _ _ _ W id) as [_ [j Hj']]; [eauto|]. congruence. }
      destruct held; run; [|done]. by apply IH.
Qed.

Lemma fl_Requeue ctx id r n s :
  wf s -> fl n s -> fl (tick_of (Requeue ctx id r n s)) (st_of (Requeue ctx id r n s)).
Proof.
  intros W F. unfold Requeue. run_env. destruct (jobs s !! id) as [job|] eqn:Hj; [|done].
  destruct (wf_dom _ _ _ _ _ W id) as [[h Hh] _]; [eauto|].
  assert (fl (S n) (push_queue (Queue job) (ID job)
    (push_state id (mkJobState StateEnqueued r None (clock n)) s))) as F'.
  { unfold fl. cbn. rewrite Hh, (wf_key _ _ _ _ _ W _ _ Hj). cbn.
    eapply flow_push; eauto. eapply flow_le; [done|lia]. }
  rewrite Hh; cbn. case_decide; [destruct (IrreversibleStates (current h))|];
    first [exact F | exact F'].
Qed.

Lemma fl_ApplyState ctx id e st :
  st_Name st <> StateEnqueued -> st_Name st <> StateProcessing ->
  preserves fl (ApplyState ctx id e st).
Proof.
  intros H1 H2 n s F. unfold ApplyState. run_env.
  destruct (jobStates s !! id) as [h|] eqn:Hh; [|done].
  destruct (decide (match last h with Some _ => _ | None => _ end <> e)); [done|].
  destruct (IsZero (st_CreatedAt st)); cbn; repeat (case_decide; cbn);
    (eapply flow_silent; [|done|done|done]; eapply flow_le; [done|lia]).
Qed.

Lemma fl_ScheduleRetry ctx id a : preserves fl (ScheduleRetry ctx id a).
Proof.
  intros n s F. unfold ScheduleRetry. run_env.
  destruct (jobStates s !! id) as [h|] eqn:Hh; [|done].
  destruct (last h); [|done]. case_decide; [done|]. cbn.
  eapply flow_silent; [|done|done|done]; eapply flow_le; [done|lia].
Qed.

Lemma fl_DeleteJob ctx id : preserves fl (DeleteJob ctx id).
Proof.
  intros n s F. unfold DeleteJob. run_env.
  destruct (jobStates s !! id) as [h|] eqn:Hh; [|done].
  destruct (last h); [|done]. case_match; [done|]. cbn.
  eapply flow_silent; [|done|done|done]; eapply flow_le; [done|lia].
Qed.

Lemma fl_SetJobResult ctx id r : preserves fl (SetJobResult ctx id r).
Proof.
  intros n s F. unfold SetJobResult. run.
  destruct (jobs s !! id) as [j|] eqn:Hj; [|done]. cbn. eapply flow_set_job; eauto.
Qed.

Lemma fl_promote id n s :
  wf s -> is_Some (jobs s !! id) -> fl n s ->
  fl (tick_of (promote id n s)) (st_of (promote id n s)).
Proof.
  intros W [j Hj] F. destruct (wf_dom _ _ _ _ _ W id) as [[h Hh] _]; [eauto|].
  unfold promote. run_env. rewrite Hj. unfold fl. cbn. rewrite Hh. cbn.
  eapply flow_push; eauto. eapply flow_le; [done|lia].
Qed.

Lemma fl_promote_all ids n s :
  wf s -> (forall id, id ∈ ids -> is_Some (jobs s !! id)) -> fl n s ->
  fl (tick_of (mmap ids promote n s)) (st_of (mmap ids promote n s)).
Proof.
  revert n s. induction ids as [|id ids IH]; intros n s W Hids F; [done|]. simpl.
  destruct (Hids id) as [j Hj]; [by left|].
  pose proof (wf_promote id n s (conj W (ex_intro _ j Hj))) as [W' _].
  pose proof (fl_promote id n s W (ex_intro _ j Hj) F) as F'.
  destruct (promote_ok id n s j Hj) as (s' & Hp & Hjobs).
  unfold mbind in *. rewrite Hp in *. unfold st_of, tick_of in *. simpl in *.
  assert (forall id', id' ∈ ids -> is_Some (jobs s' !! id')) as Hids'.
  { intros id' Hid'. rewrite Hjobs. apply Hids. by right. }
  specialize (IH (S n) s' W' Hids' F').
  by destruct (mmap ids promote (S n) s') as [[n2 s2] []].
Qed.

Lemma fl_GetDueScheduled ctx now b n s :
  wf s -> fl n s ->
  fl (tick_of (GetDueScheduled ctx now b n s)) (st_of (GetDueScheduled ctx now b n s)).
Proof.
  intros W F. destruct (range_keys_spec (scheduled s) n s) as (ids & Hr & _).
  assert (fl (tick_of (mmap (collectDue now b (scheduled s) ids []) promote (S n) s))
    (st_of (mmap (collectDue now b (scheduled s) ids []) promote (S n) s))) as F'.
  { apply fl_promote_all; [done| |by apply fl_mono]. intros id Hid.
    apply collectDue_elem in Hid as [Hid%elem_of_nil|[_ (t & Ht & _)]]; [done|].
    apply (wf_sched _ _ _ _ _ W). eauto. }
  unfold GetDueScheduled. unfold_m. rewrite Hr.
  destruct (mmap _ _ _ _) as [[n2 s2] []]; cbn in *; try done.
  case_decide; exact F'.
Qed.

Lemma fl_expireLoop c ids d : preserves fl (expireLoop c ids d).
Proof.
  revert d. induction ids as [|id ids IH]; intros d n s F; [done|]. simpl. run.
  destruct (jobStates s !! id) as [h|] eqn:Hh; [|by apply IH].
  destruct (last h) as [st|]; [|by apply IH].
  case_match; [|by apply IH]. apply IH. apply (flow_forget _ _ _ _ F id).
Qed.

Lemma fl_drop {A} (m : M Storage A) n s :
  fl (tick_of (m n s)) (st_of (m n s)) ->
  fl (tick_of (drop_result m n s)) (st_of (drop_result m n s)).
Proof. unfold drop_result, mbind, tick_of, st_of. by destruct (m n s) as [[] []]. Qed.

#[local] Hint Resolve fl_SetJobResult fl_DeleteJob fl_ScheduleRetry fl_expireLoop : gfire.

(** The operations that touch neither jobs, histories nor queues. *)
Lemma fl_others o :
  match o with
  | OpEnqueue _ _ | OpEnqueueIdempotent _ _ | OpScan _ | OpRequeue _ _ | OpApplyState _ _ _
  | OpScheduleRetry _ _ | OpSetJobResult _ _ | OpAddScheduled _ _ | OpGetDueScheduled _ _
  | OpRemoveExpired _ | OpDeleteJob _ => True
  | _ => preserves fl (exec o)
  end.
Proof.
  destruct o; try exact I; simpl; try apply preserves_drop;
    unfold HeartbeatJob, GetOrphanedJobs, GetJob, GetJobsByState, GetQueueLength, GetQueues,
    RegisterServer, UnregisterServer, Heartbeat, GetServers, RemoveScheduled, UpsertRecurring,
    RemoveRecurring, GetRecurringJobs, UpdateRecurringLastRun, AddContinuation,
    GetContinuations, RemoveContinuations, IncrementCounter, GetCounter, GetAllCounters,
    AcquireLock, Release; fl_preserve.
Qed.

Lemma fl_exec o n s :
  client_op o = true -> wf s -> fl n s -> fl (tick_of (exec o n s)) (st_of (exec o n s)).
Proof.
  intros Ho W F. pose proof (fl_others o) as Hothers.
  destruct o; simpl in Ho; try (by apply Hothers); clear Hothers;
    try (apply bool_decide_eq_true in Ho); simpl; try apply fl_drop.
  - by apply fl_Enqueue.
  - by apply fl_EnqueueIdempotent.
  - by apply fl_dequeueScan.
  - by apply fl_Requeue.
  - rewrite !elem_of_cons, elem_of_nil in Ho.
    apply fl_ApplyState; [| |done]; intros Hst; rewrite Hst in Ho; naive_solver.
  - by apply fl_ScheduleRetry.
  - by apply fl_SetJobResult.
  - by apply fl_AddScheduled.
  - by apply fl_GetDueScheduled.
  - unfold RemoveExpired. run_env. apply fl_expireLoop. by apply fl_mono.
  - by apply fl_DeleteJob.
Qed.

Lemma flow_New n : fl n New.
Proof.
  split; simpl; intros *.
  - rewrite lookup_empty. by intros [].
  - unfold occ. rewrite map_fold_empty. lia.
  - by rewrite lookup_empty.
Qed.

Lemma client_reachable_flow n s : client_reachable n s -> flow n s.
Proof.
  intros [n0 Hr]. remember (n0, New) as c0. remember (n, s) as c.
  assert (flow c0.1 c0.2) as Hc0 by (subst; split; [apply wf_New|apply flow_New]).
  clear Heqc0. assert (flow c.1 c.2); [|by subst].
  clear Heqc. induction Hr as [|c1 c2 c3 (o & Ho & ->) _ IH]; [done|]. apply IH.
  destruct Hc0 as [W F]. split; [by apply (wf_exec o c1.1)|by apply fl_exec].
Qed.
End FlowPreservation.
