(* ===== verification/MemoryQueue.v ===== *)
(** * Queues of the in-memory backend

    What one pass of [Dequeue] does, the order in which queued jobs come out,
    and how a call of [Dequeue] ends. *)
From S2P Require Import Prelude.
From S2P Require Import GoTime.
From S2P Require Import Job.
From S2P Require Import StorageI.
From S2P Require Import Memory.
From S2P Require Import MemoryInv.
From S2P Require Import MemoryFlow.

(** The first queue of [qs] that is not empty, with its front and its rest. *)
Fixpoint first_nonempty (Q : gmap string (list string)) (qs : list string)
    : option (string * string * list string) :=
  match qs with
  | [] => None
  | q :: qs' =>
    match Q !! q with
    | Some (id :: l) => Some (q, id, l)
    | _ => first_nonempty Q qs'
    end
  end.

Section Queues.
Context `{Env}.

(** The storage after job [id] is taken from the front of queue [q]. *)
Definition dispatched (n : nat) (q id : string) (l : list string) (s : Storage) : Storage :=
  bump "dequeued" 1 (push_state id
    (mkJobState StateProcessing "" (Some {[ "server_id" := "local" ]}) (clock (S n)))
    (upd_progress <[id := clock n]> (upd_processing <[id := "local"]>
      (upd_queues <[q := l]> s)))).

Definition ticket_of (n : nat) (id : string) (job : Job) : JobTicket :=
  mkJobTicket (ID job) ("tok-" +:+ id +:+ "-" +:+ Itoa (UnixNano (clock (S (S n))))).

(** Enqueue the jobs [js] on queue [q], one after the other. *)
Definition enqueue_all (q : string) (js : list Job) : M Storage (list string) :=
  mmap js (Enqueue Live q).

(** [k] scans of queue [q]. *)
Definition scan_times (q : string) (k : nat) : M Storage (list (option JobTicket)) :=
  mmap (replicate k q) (fun q => dequeueScan [q] true).

(** ** One scan *)
Lemma scan_unlocked_fatal qs n s :
  res_of (dequeueScan qs false n s) = Fatal "sync: Unlock of unlocked RWMutex".
Proof.
  revert n s. induction qs as [|q qs IH]; intros n s; [done|]. simpl. run.
  destruct (queues s !! q) as [[|id l]|]; try by apply IH.
  by destruct (jobs s !! id).
Qed.

Lemma scan_None qs n s :
  first_nonempty (queues s) qs = None -> dequeueScan qs true n s = (n, s, Ok None).
Proof.
  induction qs as [|q qs IH]; [done|]. simpl. run.
  destruct (queues s !! q) as [[|id l]|]; [by auto|done|by auto].
Qed.

Lemma scan_Some qs n s q id l job :
  first_nonempty (queues s) qs = Some (q, id, l) -> jobs s !! id = Some job ->
  dequeueScan qs true n s
  = (S (S (S n)), dispatched n q id l s, Ok (Some (ticket_of n id job))).
Proof.
  induction qs as [|q' qs IH]; [done|]. simpl. run. intros Hf Hj.
  destruct (queues s !! q') as [[|id' l']|]; [by auto| |by auto].
  simplify_eq. rewrite Hj. done.
Qed.

Lemma scan_gone qs n s q id l :
  first_nonempty (queues s) qs = Some (q, id, l) -> jobs s !! id = None ->
  res_of (dequeueScan qs true n s) = Fatal "sync: Unlock of unlocked RWMutex".
Proof.
  induction qs as [|q' qs IH]; [done|]. simpl. run. intros Hf Hj.
  destruct (queues s !! q') as [[|id' l']|]; [by auto| |by auto].
  simplify_eq. rewrite Hj. apply scan_unlocked_fatal.
Qed.

Lemma first_nonempty_lookup Q qs q id l :
  first_nonempty Q qs = Some (q, id, l) -> q ∈ qs /\ Q !! q = Some (id :: l).
Proof.
  induction qs as [|q' qs IH]; [done|]. simpl.
  destruct (Q !! q') as [[|id' l']|] eqn:Hq; intros Hf.
  - destruct (IH Hf). split; [by right|done].
  - simplify_eq. split; [left|done].
  - destruct (IH Hf). split; [by right|done].
Qed.

Lemma first_nonempty_insert Q qs q x l :
  first_nonempty Q qs = None -> q ∈ qs ->
  first_nonempty (<[q := x :: l]> Q) qs = Some (q, x, l).
Proof.
  induction qs as [|q' qs IH]; intros Hf Hq; [by apply elem_of_nil in Hq|].
  simpl in *. destruct (decide (q = q')) as [<-|Hne].
  - by rewrite lookup_insert_eq.
  - rewrite lookup_insert_ne by done. apply elem_of_cons in Hq as [?|Hq]; [done|].
    destruct (Q !! q') as [[|id' l']|]; [by auto|done|by auto].
Qed.

(** ** Enqueue *)
Lemma Enqueue_run ctx q j n s : exists n' id s',
  Enqueue ctx q j n s = (n', s', Ok id) /\ (n < n')%nat /\
  id = (if decide (ID j = "") then uuid n else ID j) /\
  (exists t, jobs s' = <[id := enqueue_job id t j]> (jobs s)) /\
  (exists t, jobStates s' = <[id := [mkJobState StateEnqueued "" None t]]> (jobStates s)) /\
  queues s' = <[q := default [] (queues s !! q) ++ [id]]> (queues s).
Proof.
  unfold Enqueue. destruct (decide (ID j = "")); run_env;
    rewrite ID_enqueue_job; do 3 eexists; (split; [done|]);
    split_and!; [lia|done|by eauto|by eauto|done|lia|done|by eauto|by eauto|done].
Qed.

Lemma enqueue_all_run q js n s : exists n' ids s',
  enqueue_all q js n s = (n', s', Ok ids) /\ length ids = length js /\
  (forall id, id ∈ ids -> is_Some (jobs s' !! id)) /\
  (forall id, is_Some (jobs s !! id) -> is_Some (jobs s' !! id)) /\
  (default [] (queues s' !! q) = default [] (queues s !! q) ++ ids) /\
  (wf s -> wf s').
Proof.
  revert n s. induction js as [|j js IH]; intros n s.
  - exists n, [], s. split_and!; try done; [|by rewrite app_nil_r].
    intros id Hid. by apply elem_of_nil in Hid.
  - destruct (Enqueue_run Live q j n s) as (n1 & id & s1 & He & _ & _ & [t Hj] & _ & Hq).
    pose proof (wf_Enqueue Live q j n s) as Hw. rewrite He in Hw.
    destruct (IH n1 s1) as (n2 & ids & s2 & He2 & Hl & Hids & Hold & Hq2 & Hw2).
    exists n2, (id :: ids), s2. unfold enqueue_all in *. simpl. unfold mbind.
    rewrite He. rewrite He2. split_and!; [done|simpl; lia| | | |by auto].
    + intros x [-> |?]%elem_of_cons; [|by auto]. apply Hold. rewrite Hj. auto with gfire.
    + intros x Hx. apply Hold. rewrite Hj, lookup_insert. case_decide; eauto.
    + rewrite Hq2, Hq, lookup_insert_eq. simpl. by rewrite <- app_assoc.
Qed.

#[local] Arguments dequeueScan : simpl never.

(** ** A whole call *)

(** The error an awakening ends the call with, if it does. *)
Definition ends_wait (k : wake_kind) : option error :=
  match k with
  | WakeTimeout => Some ErrQueueEmpty
  | WakeCtx err => Some err
  | WakeSignal | WakeTick => None
  end.

(** A call that sleeps through the awakenings [ws]: its scans find nothing, others
    run, and a signal is taken from the channel. *)
Inductive idle (qs : list string) : nat -> Storage -> list (wake Storage) -> nat -> Storage -> Prop :=
  | idle_start n s : idle qs n s [] n s
  | idle_tick n s w ws n' s' :
      first_nonempty (queues s) qs = None -> wk_kind w = WakeTick ->
      idle qs (tick_of (wk_others w n s)) (st_of (wk_others w n s)) ws n' s' ->
      idle qs n s (w :: ws) n' s'
  | idle_signal n s w ws n' s' :
      first_nonempty (queues s) qs = None -> wk_kind w = WakeSignal ->
      idle qs (tick_of (wk_others w n s)) (upd_dequeueCh (fun _ => false) (st_of (wk_others w n s))) ws n' s' ->
      idle qs n s (w :: ws) n' s'.

Lemma interleave_run {A} (w : M Storage unit) (k : M Storage A) n s :
  (interleave w ;;; k) n s = k (tick_of (w n s)) (st_of (w n s)).
Proof. unfold interleave. unfold_m. unfold tick_of, st_of. by destruct (w n s) as [[? ?] ?]. Qed.

(** A scan that finds the front of a queue ends the call. *)
Lemma Dequeue_found ctx qs timeout wakes n s q id l :
  first_nonempty (queues s) qs = Some (q, id, l) ->
  match jobs s !! id with
  | Some job => Dequeue ctx qs timeout wakes n s
      = (S (S (S n)), dispatched n q id l s, Ok (Some (ticket_of n id job)))
  | None => res_of (Dequeue ctx qs timeout wakes n s) = Fatal "sync: Unlock of unlocked RWMutex"
  end.
Proof.
  intros Hf. destruct (jobs s !! id) as [job|] eqn:Hj.
  - destruct wakes; simpl; by erewrite mbind_ok by (by apply scan_Some).
  - pose proof (scan_gone qs n s q id l Hf Hj) as Hr. unfold res_of in Hr.
    destruct wakes; unfold Dequeue; fold Dequeue; unfold_m;
      destruct (dequeueScan qs true n s) as [[? ?] ?]; simpl in Hr; by subst.
Qed.

(** One that finds nothing sleeps. *)
Lemma Dequeue_sleeps ctx qs timeout w wakes n s :
  first_nonempty (queues s) qs = None ->
  Dequeue ctx qs timeout (w :: wakes) n s
  = let n1 := tick_of (wk_others w n s) in let s1 := st_of (wk_others w n s) in
    match wk_kind w with
    | WakeCtx err => (n1, s1, Err err)
    | WakeTimeout => (n1, s1, Err ErrQueueEmpty)
    | WakeSignal => Dequeue ctx qs timeout wakes n1 (upd_dequeueCh (fun _ => false) s1)
    | WakeTick => Dequeue ctx qs timeout wakes n1 s1
    end.
Proof.
  intros Hf. unfold Dequeue at 1; fold Dequeue. erewrite mbind_ok by (by apply scan_None).
  cbv beta iota. rewrite interleave_run. cbv zeta. by destruct (wk_kind w).
Qed.

Lemma Dequeue_outcome ctx qs timeout wakes n s : exists pre post n1 s1,
  wakes = pre ++ post /\ idle qs n s pre n1 s1 /\
  match first_nonempty (queues s1) qs with
  | Some (q, id, l) =>
    match jobs s1 !! id with
    | Some job => Dequeue ctx qs timeout wakes n s
        = (S (S (S n1)), dispatched n1 q id l s1, Ok (Some (ticket_of n1 id job)))
    | None => res_of (Dequeue ctx qs timeout wakes n s) = Fatal "sync: Unlock of unlocked RWMutex"
    end
  | None =>
    match post with
    | [] => Dequeue ctx qs timeout wakes n s = (n1, s1, Ok None)
    | w :: _ => exists err, ends_wait (wk_kind w) = Some err /\
        Dequeue ctx qs timeout wakes n s
          = (tick_of (wk_others w n1 s1), st_of (wk_others w n1 s1), Err err)
    end
  end.
Proof.
  revert n s. induction wakes as [|w wakes IH]; intros n s;
    destruct (first_nonempty (queues s) qs) as [[[q id] l]|] eqn:Hf.
  - exists [], [], n, s. rewrite Hf. split_and!; [done|constructor|by apply Dequeue_found].
  - exists [], [], n, s. rewrite Hf. split_and!; [done|constructor|].
    simpl. by erewrite mbind_ok by (by apply scan_None).
  - exists [], (w :: wakes), n, s. rewrite Hf. split_and!; [done|constructor|by apply Dequeue_found].
  - pose proof (Dequeue_sleeps ctx qs timeout w wakes n s Hf) as Hs. destruct (wk_kind w) eqn:Hk.
    all: try (exists [], (w :: wakes), n, s; rewrite Hf, Hk, Hs;
      split_and!; [done|constructor|by eexists]).
    all: cbv zeta in Hs; rewrite Hs; edestruct IH as (pre & post & n1 & s1 & -> & Hi & Hr);
      exists (w :: pre), post, n1, s1; split_and!; [done| |exact Hr].
    + by apply idle_signal.
    + by apply idle_tick.
Qed.

Lemma idle_kinds qs n s ws n' s' w :
  idle qs n s ws n' s' -> w ∈ ws -> ends_wait (wk_kind w) = None.
Proof.
  induction 1 as [|n0 s0 w0 ws n1 s1 _ Hk _ IH|n0 s0 w0 ws n1 s1 _ Hk _ IH]; intros Hin;
    [by apply elem_of_nil in Hin| |];
    (apply elem_of_cons in Hin as [->|]; [by rewrite Hk|by apply IH]).
Qed.

(** A wait whose deadline or context ends is not blocked for ever. *)
Lemma Dequeue_ends ctx qs timeout wakes n s :
  (exists w, w ∈ wakes /\ is_Some (ends_wait (wk_kind w))) ->
  res_of (Dequeue ctx qs timeout wakes n s) <> Ok None.
Proof.
  intros (w & Hin & [err He]).
  destruct (Dequeue_outcome ctx qs timeout wakes n s) as (pre & post & n1 & s1 & -> & Hi & Hr).
  destruct (first_nonempty (queues s1) qs) as [[[q id] l]|].
  - destruct (jobs s1 !! id); rewrite Hr; done.
  - destruct post as [|w' post]; [|destruct Hr as (? & _ & Hr); rewrite Hr; done].
    rewrite app_nil_r in Hin. by rewrite (idle_kinds _ _ _ _ _ _ _ Hi Hin) in He.
Qed.

(** ** Many scans *)
Lemma scan_times_run q ids l n s :
  wf s -> (forall id, id ∈ ids -> is_Some (jobs s !! id)) ->
  default [] (queues s !! q) = ids ++ l ->
  exists n' s' tks, scan_times q (length ids) n s = (n', s', Ok (Some <$> tks)) /\
    jt_JobID <$> tks = ids /\ default [] (queues s' !! q) = l.
Proof.
  revert n s. induction ids as [|id ids IH]; intros n s W Hids Hq.
  - exists n, s, []. done.
  - destruct (Hids id) as [job Hj]; [by left|].
    destruct (queues s !! q) as [l0|] eqn:Hq0; simpl in Hq; [subst l0|done].
    pose proof (scan_Some [q] n s q id (ids ++ l) job) as Hs. simpl first_nonempty in Hs.
    rewrite Hq0 in Hs. specialize (Hs eq_refl Hj).
    pose proof (wf_dequeueScan [q] true n s W) as W'. rewrite Hs in W'.
    destruct (IH (S (S (S n))) (dispatched n q id (ids ++ l) s)) as (n' & s' & tks & Ht & Hids' & Hl);
      [done| | |].
    + intros x Hx. apply Hids. by right.
    + unfold dispatched. cbn. by rewrite lookup_insert_eq.
    + exists n', s', (ticket_of n id job :: tks). split_and!; [| |done].
      * unfold scan_times in *. cbn [replicate length mmap]. erewrite mbind_ok by exact Hs.
        by erewrite mbind_ok by exact Ht.
      * rewrite fmap_cons, Hids'. f_equal. by apply (wf_key _ _ _ _ _ W).
Qed.

(** ** Properties *)

(** A scan of the queues takes the front of the first queue, in the order of the
    list, that is not empty, appends one Processing state to that job's history and leaves
    every other queue and history alone; with all queues empty it changes nothing; and when
    the front is a job that is no longer stored, the second unlock of the mutex throws. *)
Lemma scan_priority qs n s :
  match first_nonempty (queues s) qs with
  | None => dequeueScan qs true n s = (n, s, Ok None)
  | Some (q, id, l) =>
    q ∈ qs /\ queues s !! q = Some (id :: l) /\
    match jobs s !! id with
    | None => res_of (dequeueScan qs true n s) = Fatal "sync: Unlock of unlocked RWMutex"
    | Some job => exists n' s' tk,
        dequeueScan qs true n s = (n', s', Ok (Some tk)) /\ jt_JobID tk = ID job /\
        queues s' = <[q := l]> (queues s) /\ jobs s' = jobs s /\
        (exists st, st_Name st = StateProcessing /\
          jobStates s' = <[id := default [] (jobStates s !! id) ++ [st]]> (jobStates s))
    end
  end.
Proof.
  destruct (first_nonempty (queues s) qs) as [[[q id] l]|] eqn:Hf; [|by apply scan_None].
  destruct (first_nonempty_lookup _ _ _ _ _ Hf) as [Hq Hl]. split_and!; [done|done|].
  destruct (jobs s !! id) as [job|] eqn:Hj; [|by eapply scan_gone].
  do 3 eexists. split; [by apply scan_Some|]. split_and!; try done.
  eexists; split; [|reflexivity]; reflexivity.
Qed.

(** C22. First in, first out: jobs enqueued on a queue come out of it, by as many scans, after
    the jobs that were already waiting there and in the order in which they were enqueued. *)
Theorem fifo q js n s :
  wf s -> (forall id, id ∈ default [] (queues s !! q) -> is_Some (jobs s !! id)) ->
  let waiting := default [] (queues s !! q) in
  exists n' s' ids tks,
    (ids <- enqueue_all q js ;;
     r <- scan_times q (length waiting + length js) ;; mret (ids, r)) n s
    = (n', s', Ok (ids, Some <$> tks)) /\
    length ids = length js /\ jt_JobID <$> tks = waiting ++ ids /\
    default [] (queues s' !! q) = [].
Proof.
  intros W Hwait waiting.
  destruct (enqueue_all_run q js n s) as (n1 & ids & s1 & He & Hl & Hids & Hold & Hq & W1).
  destruct (scan_times_run q (waiting ++ ids) [] n1 s1) as (n2 & s2 & tks & Ht & Htk & Hq2).
  - by apply W1.
  - intros id [Hin|Hin]%elem_of_app; [by apply Hold, Hwait|by apply Hids].
  - by rewrite app_nil_r.
  - exists n2, s2, ids, tks. split_and!; try done.
    erewrite mbind_ok by exact He. rewrite length_app, Hl in Ht.
    by erewrite mbind_ok by exact Ht.
Qed.

(** C30. How a call of Dequeue ends, whatever other goroutines do at each awakening.  It sleeps
    through signals and ticks as long as each scan finds every queue empty; then either a scan
    finds the front of a queue and dispatches it with a ticket for it (or dies, when that job was
    removed), or the deadline ends the call with ErrQueueEmpty, or the context with its own error,
    both leaving what the others did as it is; it is still blocked only when all the awakenings so
    far were signals and ticks, so that a wait whose deadline or context ends always returns. *)
Theorem dequeue_returns ctx qs timeout wakes n s :
  (exists pre post n1 s1,
    wakes = pre ++ post /\ idle qs n s pre n1 s1 /\
    match first_nonempty (queues s1) qs with
    | Some (q, id, l) =>
      match jobs s1 !! id with
      | Some job => Dequeue ctx qs timeout wakes n s
          = (S (S (S n1)), dispatched n1 q id l s1, Ok (Some (ticket_of n1 id job)))
      | None => res_of (Dequeue ctx qs timeout wakes n s) = Fatal "sync: Unlock of unlocked RWMutex"
      end
    | None =>
      match post with
      | [] => Dequeue ctx qs timeout wakes n s = (n1, s1, Ok None)
      | w :: _ => exists err, ends_wait (wk_kind w) = Some err /\
          Dequeue ctx qs timeout wakes n s
            = (tick_of (wk_others w n1 s1), st_of (wk_others w n1 s1), Err err)
      end
    end) /\
  ((exists w, w ∈ wakes /\ is_Some (ends_wait (wk_kind w))) ->
   res_of (Dequeue ctx qs timeout wakes n s) <> Ok None).
Proof. split; [apply Dequeue_outcome|apply Dequeue_ends]. Qed.

(** No lost wake-up: when a worker sleeps on empty queues and another goroutine enqueues a
    job on one of them, the job is what the worker's next scan returns. *)
Theorem dequeue_wakes_up ctx qs timeout q j k wakes n s :
  first_nonempty (queues s) qs = None -> q ∈ qs -> (k = WakeSignal \/ k = WakeTick) ->
  exists tk,
    res_of (Dequeue ctx qs timeout (mkWake (drop_result (Enqueue Live q j)) k :: wakes) n s)
      = Ok (Some tk) /\ Ok (jt_JobID tk) = res_of (Enqueue Live q j n s).
Proof.
  intros Hf Hq Hk.
  destruct (Enqueue_run Live q j n s) as (n1 & id & s1 & He & _ & _ & [t Hj] & _ & Hqs).
  assert (first_nonempty (queues s1) qs = Some (q, id, [])) as Hf1.
  { rewrite Hqs. replace (default [] (queues s !! q)) with (@nil string).
    - by apply first_nonempty_insert.
    - clear -Hf Hq. induction qs as [|q' qs IH]; [by apply elem_of_nil in Hq|].
      simpl in Hf. apply elem_of_cons in Hq as [->|Hq];
        destruct (queues s !! q') as [[|]|]; by auto. }
  assert (jobs s1 !! id = Some (enqueue_job id t j)) as Hj1 by (by rewrite Hj, lookup_insert_eq).
  exists (ticket_of n1 id (enqueue_job id t j)).
  rewrite He. split; [|cbn; by rewrite ID_enqueue_job].
  unfold Dequeue at 1; fold Dequeue. unfold_m. rewrite scan_None by done. cbn.
  unfold interleave, drop_result. unfold_m. rewrite He.
  destruct wakes, Hk as [-> | ->]; cbn; unfold_m;
    (erewrite scan_Some; [|by rewrite <- Hf1|done]); done.
Qed.
End Queues.

Section Witnesses.
#[local] Instance E0 : Env := env_at 0.

Definition echo : Job := newJob "echo" (Some "{}") "default" 0.

Lemma fifo_witness :
  let s := st_of (Enqueue Live "default" echo 0%nat New) in
  let waiting := default [] (queues s !! "default") in
  waiting = ["id-0"] /\ exists n' s' ids tks,
    (ids <- enqueue_all "default" [echo; echo] ;;
     r <- scan_times "default" (length waiting + 2) ;; mret (ids, r)) 4%nat s
      = (n', s', Ok (ids, Some <$> tks)) /\
    length ids = 2%nat /\ jt_JobID <$> tks = waiting ++ ids /\
    default [] (queues s' !! "default") = [].
Proof.
  split; [vm_compute; reflexivity|].
  apply (fifo "default" [echo; echo] 4%nat (st_of (Enqueue Live "default" echo 0%nat New))).
  - apply (wf_Enqueue Live "default" echo 0%nat New), wf_New.
  - intros id Hid. vm_compute in Hid. apply list_elem_of_singleton in Hid as ->.
    eexists. vm_compute. reflexivity.
Defined.

(** A tick finds nothing, then the deadline ends the wait. *)
Lemma dequeue_returns_witness :
  let wakes := [mkWake (mret tt) WakeTick; mkWake (mret tt) WakeTimeout] in
  Dequeue Live ["default"] 0 wakes 0%nat New = (0%nat, New, Err ErrQueueEmpty) /\
  res_of (Dequeue Live ["default"] 0 wakes 0%nat New) <> Ok None.
Proof.
  split; [reflexivity|].
  apply (proj2 (dequeue_returns Live ["default"] 0
    [mkWake (mret tt) WakeTick; mkWake (mret tt) WakeTimeout] 0%nat New)).
  exists (mkWake (mret tt) WakeTimeout). split; [right; left|by exists ErrQueueEmpty].
Defined.

Lemma dequeue_wakes_up_witness :
  exists tk,
    res_of (Dequeue Live ["critical"; "default"] 0
      [mkWake (drop_result (Enqueue Live "default" echo)) WakeSignal] 0%nat New) = Ok (Some tk) /\
    Ok (jt_JobID tk) = res_of (Enqueue Live "default" echo 0%nat New).
Proof.
  apply (dequeue_wakes_up Live ["critical"; "default"] 0 "default" echo WakeSignal [] 0%nat New).
  - reflexivity.
  - right; left.
  - left; reflexivity.
Defined.
End Witnesses.
