(* ===== verification/MemoryHistory.v ===== *)
(** * What the bulk operations of the in-memory backend do

    Exact effects of [GetDueScheduled] and [RemoveExpired], independent of the
    order in which their loops visit the maps, and of [ApplyState]. *)
From S2P Require Import Prelude.
From S2P Require Import GoTime.
From S2P Require Import Job.
From S2P Require Import StorageI.
From S2P Require Import Memory.
From S2P Require Import MemoryInv.
From S2P Require Import MemoryFlow.
From S2P Require Import MemoryQueue.

(** The schedule says job [id] is due at [now]. *)
Definition is_due (sched : gmap string Time) (now : Time) (id : string) : Prop :=
  match sched !! id with Some t => After t now = false | None => False end.

#[export] Instance is_due_dec sched now id : Decision (is_due sched now id).
Proof. unfold is_due. destruct (sched !! id); apply _. Defined.

(** The history of job [id] ends in a terminal state older than [cutoff]. *)
Definition expired (cutoff : Time) (H : gmap string (list JobState)) (id : string) : Prop :=
  match H !! id with
  | Some h => match last h with
              | Some st => isTerminal (st_Name st) && Before (st_CreatedAt st) cutoff = true
              | None => False
              end
  | None => False
  end.

#[export] Instance expired_dec cutoff H id : Decision (expired cutoff H id).
Proof. unfold expired. destruct (H !! id) as [h|]; [destruct (last h)|]; apply _. Defined.

(** The current state [ApplyState] compares with. *)
Definition cas_state (h : list JobState) : string :=
  match last h with Some st => st_Name st | None => StateEnqueued end.

Section History.
Context `{Env}.

(** ** GetDueScheduled *)
Lemma collectDue_take now b sched ids due :
  Z.of_nat (length due) < b ->
  collectDue now b sched ids due = take (Z.to_nat b) (due ++ filter (is_due sched now) ids).
Proof.
  revert due. induction ids as [|id ids IH]; intros due Hb; simpl.
  - rewrite app_nil_r, take_ge; [done|lia].
  - assert (match sched !! id with
            | Some t => if negb (After t now) then due ++ [id] else due | None => due end
            = if decide (is_due sched now id) then due ++ [id] else due) as ->.
    { case_decide as Hd; unfold is_due in Hd; destruct (sched !! id) as [t|]; try done;
        by destruct (After t now). }
    rewrite filter_cons. destruct (decide (is_due sched now id)).
    + rewrite length_app. simpl. destruct (Z.leb_spec b (Z.of_nat (length due + 1))).
      * rewrite (cons_middle id due (filter _ ids)), app_assoc. symmetry.
        apply take_app_length'. rewrite length_app. simpl. lia.
      * rewrite IH by (rewrite length_app; simpl; lia). by rewrite <- app_assoc.
    + destruct (Z.leb_spec b (Z.of_nat (length due))); [lia|]. by apply IH.
Qed.

(** The storage after the scheduled job [id] is promoted. *)
Definition promoted (n : nat) (id : string) (j : Job) (s : Storage) : Storage :=
  bump "enqueued" 1 (bump "scheduled" (-1) (push_queue (Queue j) id
    (push_state id (mkJobState StateEnqueued "scheduled" None (clock n))
      (upd_scheduled (delete id) s)))).

Lemma promote_run id n s j :
  jobs s !! id = Some j ->
  promote id n s = (S n, promoted n id j s, Ok (mkJobTicket id ("sched-" +:+ id))).
Proof. intros Hj. unfold promote. run_env. by rewrite Hj. Qed.

(** What promoting a list of jobs does to the maps. *)
Record promoted_all (ids : list string) (s s' : Storage) : Prop := {
  pa_jobs : jobs s' = jobs s;
  pa_proc : processing s' = processing s;
  pa_sched : forall id, scheduled s' !! id = if decide (id ∈ ids) then None else scheduled s !! id;
  pa_keep : forall id, id ∉ ids -> jobStates s' !! id = jobStates s !! id;
  pa_push : forall id, id ∈ ids -> exists t, jobStates s' !! id
    = Some (default [] (jobStates s !! id) ++ [mkJobState StateEnqueued "scheduled" None t]);
  pa_occ : forall id, occ id (queues s') = (occ id (queues s) + count_id id ids)%nat;
}.

Lemma promote_all_run ids n s :
  NoDup ids -> (forall id, id ∈ ids -> is_Some (jobs s !! id)) ->
  exists n' s', mmap ids promote n s
    = (n', s', Ok ((fun id => mkJobTicket id ("sched-" +:+ id)) <$> ids)) /\
    promoted_all ids s s'.
Proof.
  revert n s. induction ids as [|id ids IH]; intros n s Hnd Hids.
  { exists n, s. split; [done|]. split; try done.
    intros id Hid. by apply elem_of_nil in Hid. }
  apply NoDup_cons in Hnd as [Hni Hnd]. destruct (Hids id) as [j Hj]; [by left|].
  destruct (IH (S n) (promoted n id j s)) as (n' & s' & Hr & P); [done| |].
  { intros x Hx. apply Hids. by right. }
  exists n', s'. simpl. erewrite mbind_ok by (by apply promote_run).
  erewrite mbind_ok by exact Hr. split; [done|]. destruct P as [P1 P2 P3 P4 P5 P6]. split.
  - done.
  - done.
  - intros x. rewrite P3. cbn. rewrite lookup_delete.
    rewrite (decide_ext (x ∈ id :: ids) (x = id \/ x ∈ ids)) by apply elem_of_cons.
    destruct (decide (id = x)), (decide (x ∈ ids)), (decide (x = id \/ x ∈ ids)); naive_solver.
  - intros x [Hx Hx']%not_elem_of_cons. rewrite P4 by done. cbn. by rewrite lookup_insert_ne.
  - intros x [->|Hx]%elem_of_cons.
    + exists (clock n). rewrite P4 by done. cbn. by rewrite lookup_insert_eq.
    + destruct (P5 x Hx) as [t Ht]. exists t. rewrite Ht. cbn. rewrite lookup_insert_ne; [done|].
      by intros ->.
  - intros x. rewrite P6, count_id_cons. cbn. rewrite occ_push. lia.
Qed.

Lemma promoted_all_signal ids s s' : promoted_all ids s s' -> promoted_all ids s (signal s').
Proof. intros [P1 P2 P3 P4 P5 P6]. by split. Qed.

Lemma due_scheduled_run ctx now b n s :
  wf s -> 0 < b -> exists n' s' due,
    GetDueScheduled ctx now b n s
      = (n', s', Ok ((fun id => mkJobTicket id ("sched-" +:+ id)) <$> due)) /\
    NoDup due /\ Z.of_nat (length due) <= b /\
    (forall id, id ∈ due -> is_due (scheduled s) now id) /\
    (Z.of_nat (length due) < b -> forall id, is_due (scheduled s) now id -> id ∈ due) /\
    promoted_all due s s'.
Proof.
  intros W Hb. destruct (range_keys_spec (scheduled s) n s) as (ids & Hr & _ & Hnd & Hids).
  set (due := take (Z.to_nat b) (filter (is_due (scheduled s) now) ids)).
  assert (NoDup due) as Hdd.
  { eapply sublist_NoDup; [|apply sublist_take]. by apply NoDup_filter. }
  assert (forall id, id ∈ due -> is_due (scheduled s) now id) as Hdue.
  { intros id Hid. apply elem_of_take in Hid as (i & Hi & _).
    apply list_elem_of_lookup_2, list_elem_of_filter in Hi as [? _]. done. }
  destruct (promote_all_run due (S n) s Hdd) as (n' & s' & Hp & P).
  { intros id Hid. apply (wf_sched _ _ _ _ _ W). specialize (Hdue id Hid).
    unfold is_due in Hdue. destruct (scheduled s !! id); eauto. done. }
  exists n', (if decide (0 < length due)%nat then signal s' else s'), due. split_and!.
  - unfold GetDueScheduled. unfold_m. rewrite Hr, collectDue_take by done. simpl.
    fold due. rewrite Hp, length_fmap. by case_decide.
  - done.
  - subst due. rewrite length_take. lia.
  - done.
  - intros Hlt id Hid. subst due. rewrite length_take in Hlt. rewrite take_ge by lia.
    apply list_elem_of_filter. split; [done|]. apply Hids. unfold is_due in Hid.
    destruct (scheduled s !! id); eauto. done.
  - case_decide; [by apply promoted_all_signal|done].
Qed.

(** ** RemoveExpired *)

(** What forgetting the jobs [ids] does to the maps. *)
Record forgotten (gone : string -> Prop) `{forall id, Decision (gone id)}
    (s s' : Storage) : Prop := {
  fg_jobs : forall id, jobs s' !! id = if decide (gone id) then None else jobs s !! id;
  fg_states : forall id, jobStates s' !! id
    = if decide (gone id) then None else jobStates s !! id;
  fg_tokens : forall id, queueTokens s' !! id
    = if decide (gone id) then None else queueTokens s !! id;
  fg_proc : forall id, processing s' !! id
    = if decide (gone id) then None else processing s !! id;
  fg_prog : forall id, progress s' !! id = if decide (gone id) then None else progress s !! id;
  fg_sched : forall id, scheduled s' !! id = if decide (gone id) then None else scheduled s !! id;
  fg_conts : forall id, continuations s' !! id
    = if decide (gone id) then None else continuations s !! id;
  fg_queues : queues s' = queues s;
  fg_idem : idempotency s' = idempotency s;
  fg_counters : counters s' = counters s;
  fg_locks : locks s' = locks s;
}.

Lemma expired_delete c HH id id' :
  expired c (delete id HH) id' <-> id <> id' /\ expired c HH id'.
Proof.
  unfold expired. rewrite lookup_delete. case_decide; [|tauto]. split; [done|]. by intros [].
Qed.

Lemma gone_here {A} (P Q : string -> Prop)
    `{forall x, Decision (P x), forall x, Decision (Q x)} id ids x (m : option A) :
  Q id -> (forall y, P y <-> id <> y /\ Q y) ->
  (if decide (x ∈ ids /\ P x) then None else if decide (id = x) then None else m)
  = if decide (x ∈ id :: ids /\ Q x) then None else m.
Proof.
  intros Hid HP. specialize (HP x). destruct (decide (id = x)) as [<-|Hne].
  - rewrite (decide_True (P := id ∈ id :: ids /\ Q id)) by (split; [left|done]). by case_decide.
  - apply decide_ext. rewrite elem_of_cons, HP. naive_solver.
Qed.

Lemma gone_later {A} (Q : string -> Prop) `{forall x, Decision (Q x)} id ids x (m : option A) :
  ~ Q id ->
  (if decide (x ∈ ids /\ Q x) then None else m)
  = if decide (x ∈ id :: ids /\ Q x) then None else m.
Proof. intros Hid. apply decide_ext. rewrite elem_of_cons. naive_solver. Qed.

Lemma expireLoop_run c ids d n s :
  NoDup ids -> wrap64 d = d -> exists s',
    expireLoop c ids d n s
      = (n, s', Ok (wrap64 (d + Z.of_nat (length (filter (expired c (jobStates s)) ids))))) /\
    forgotten (fun id => id ∈ ids /\ expired c (jobStates s) id) s s'.
Proof.
  revert d s. induction ids as [|id ids IH]; intros d s Hnd Hd.
  { exists s. rewrite Z.add_0_r, Hd. split; [done|].
    split; try done; intros id; (rewrite decide_False; [done|]); intros [Hin _];
      by apply elem_of_nil in Hin. }
  apply NoDup_cons in Hnd as [Hni Hnd].
  destruct (decide (expired c (jobStates s) id)) as [He|He].
  - destruct (IH (add64 d 1) (forget id s)) as (s' & Hr & F); [done|apply wrap64_idem|].
    exists s'. split.
    + rewrite filter_cons_True by done. cbn [length].
      replace (filter (expired c (jobStates s)) ids)
        with (filter (expired c (jobStates (forget id s))) ids).
      2:{ apply filter_ext_in. intros x Hx. cbn. rewrite expired_delete.
          split; [tauto|]. intros; split; [|done]. by intros ->. }
      transitivity (expireLoop c ids (add64 d 1) n (forget id s)).
      * unfold expired in He. cbn [expireLoop]. run.
        destruct (jobStates s !! id) as [h|]; [|done]. destruct (last h) as [st|]; [|done].
        rewrite He. done.
      * rewrite Hr. do 2 f_equal. unfold add64. rewrite wrap64_add_l. f_equal. lia.
    + destruct F as [F1 F2 F3 F4 F5 F6 F7 F8 F9 F10 F11]. split; try done; intros x;
        (etransitivity; [first [apply F1|apply F2|apply F3|apply F4|apply F5|apply F6|apply F7]|]);
        cbn; rewrite lookup_delete; (apply gone_here; [done|intros y; apply expired_delete]).
  - destruct (IH d s Hnd Hd) as (s' & Hr & F). exists s'. split.
    + rewrite filter_cons_False by done. rewrite <- Hr. unfold expired in He. cbn [expireLoop]. run.
      destruct (jobStates s !! id) as [h|]; [|done]. destruct (last h) as [st|]; [|done].
      destruct (isTerminal (st_Name st) && Before (st_CreatedAt st) c); done.
    + destruct F as [F1 F2 F3 F4 F5 F6 F7 F8 F9 F10 F11]. split; try done; intros x;
        (etransitivity; [first [apply F1|apply F2|apply F3|apply F4|apply F5|apply F6|apply F7]|]);
        by apply gone_later.
Qed.

(** ** ApplyState *)
Lemma ApplyState_ok_run ctx id e st n s h :
  jobStates s !! id = Some h -> cas_state h = e ->
  exists n' s' t,
    ApplyState ctx id e st n s = (n', s', Ok tt) /\
    jobStates s' = <[id := h ++ [set_st_CreatedAt t st]]> (jobStates s) /\
    (IsZero (st_CreatedAt st) = false -> t = st_CreatedAt st) /\
    jobs s' = jobs s /\ queues s' = queues s /\ scheduled s' = scheduled s /\
    progress s' = progress s /\
    processing s' = (if decide (e = StateProcessing /\ st_Name st <> StateProcessing)
                     then delete id (processing s) else processing s).
Proof.
  intros Hh He. unfold ApplyState. run_env. rewrite Hh. fold (cas_state h). rewrite He.
  rewrite decide_False by tauto. destruct (IsZero (st_CreatedAt st)) eqn:Hz; cbn.
  - destruct (decide (e = StateProcessing /\ st_Name st <> StateProcessing)); cbn;
      repeat (case_decide; cbn); do 3 eexists; (split; [reflexivity|]); split_and!; done.
  - destruct (decide (e = StateProcessing /\ st_Name st <> StateProcessing)); cbn;
      repeat (case_decide; cbn); do 2 eexists; exists (st_CreatedAt st);
      (split; [reflexivity|]); split_and!; try done; by destruct st.
Qed.

(** The counter a settled state moves. *)
Definition counted (name : string) (cs : gmap string Z) : gmap string Z :=
  if decide (name ∈ [StateSucceeded; StateFailed; StateDead]) then
    let key := if decide (name = StateSucceeded) then "succeeded"
               else if decide (name = StateFailed) then "failed" else "dead" in
    <[key := add64 (default 0 (cs !! key)) 1]> cs
  else cs.

(** The state after the compare-and-set that succeeds, in full. *)
Definition state_applied (id expected : string) (st : JobState) (h : list JobState) (s : Storage)
    : Storage :=
  mkStorage (jobs s) (<[id := h ++ [st]]> (jobStates s)) (queues s) (queueTokens s) (scheduled s)
    (if decide (expected = StateProcessing /\ st_Name st <> StateProcessing)
     then delete id (processing s) else processing s)
    (progress s) (recurring s) (continuations s) (servers s) (counted (st_Name st) (counters s))
    (locks s) (dequeueCh s) (idempotency s) (lockHeap s).

Lemma ApplyState_exact ctx id e st n s h :
  jobStates s !! id = Some h -> cas_state h = e ->
  ApplyState ctx id e st n s
  = if IsZero (st_CreatedAt st)
    then (S n, state_applied id e (set_st_CreatedAt (clock n) st) h s, Ok tt)
    else (n, state_applied id e st h s, Ok tt).
Proof.
  intros Hh He. unfold ApplyState, state_applied, counted. run_env. rewrite Hh. fold (cas_state h).
  rewrite He, decide_False by tauto.
  destruct s, st as [name ? ? t]; cbn in *. destruct (IsZero t); cbn;
    destruct (decide (e = StateProcessing /\ name <> StateProcessing)); cbn;
    repeat (case_decide; cbn); subst; try done; set_solver.
Qed.

Lemma ApplyState_conflict_run ctx id e st n s h :
  jobStates s !! id = Some h -> cas_state h <> e ->
  ApplyState ctx id e st n s = (n, s, Err ErrStateConflict).
Proof.
  intros Hh He. unfold ApplyState. run. rewrite Hh. fold (cas_state h). by rewrite decide_True.
Qed.

Lemma ApplyState_missing_run ctx id e st n s :
  jobStates s !! id = None -> ApplyState ctx id e st n s = (n, s, Err ErrNotFound).
Proof. intros Hh. unfold ApplyState. run. by rewrite Hh. Qed.

Lemma cas_state_current h : h <> [] -> cas_state h = current h.
Proof. unfold cas_state, current. intros. destruct (last_snoc_or h) as [|(?&?&->)]; [done|]. by rewrite last_snoc. Qed.
End History.
