(* ===== verification/MemoryLife.v ===== *)
(** * The life cycle of a job in the in-memory backend

    Two abstract specifications and the proofs that the backend refines them:
    the history of every job only grows, by what the call may append ([hist_edge]), for
    every call the program makes; and for callers that neither delete nor
    unschedule jobs and only requeue what is processing, a job is at any time in
    the one place its current state says, moving along [life_edge]. *)
From S2P Require Import Prelude.
From S2P Require Import GoTime.
From S2P Require Import Job.
From S2P Require Import StorageI.
From S2P Require Import Memory.
From S2P Require Import MemoryInv.
From S2P Require Import MemoryFlow.
From S2P Require Import MemoryQueue.
From S2P Require Import MemoryHistory.

(** ** The specifications *)

(** What one call may do to the history of job [id] ([None]: not stored).  The two edges
    into a running life look at no history: a dispatch takes a job that waits in one of the
    queues, a promotion one that is due in the schedule. *)
Inductive hist_edge (s : Storage) (id : string) : op -> option (list JobState) -> option (list JobState) -> Prop :=
  | edge_same o h : hist_edge s id o h h
  | edge_enqueued o q j st : o = OpEnqueue q j \/ o = OpEnqueueIdempotent q j ->
      st_Name st = StateEnqueued -> hist_edge s id o None (Some [st])
  | edge_scheduled a j st : st_Name st = StateScheduled -> hist_edge s id (OpAddScheduled a j) None (Some [st])
  | edge_dispatch qs q l h st : q ∈ qs -> queues s !! q = Some l -> id ∈ l ->
      st_Name st = StateProcessing -> hist_edge s id (OpScan qs) (Some h) (Some (h ++ [st]))
  | edge_requeue reason h st : IrreversibleStates (current h) = false ->
      st_Name st = StateEnqueued -> st_Reason st = reason ->
      hist_edge s id (OpRequeue id reason) (Some h) (Some (h ++ [st]))
  | edge_due now b h st : is_due (scheduled s) now id -> st_Name st = StateEnqueued ->
      hist_edge s id (OpGetDueScheduled now b) (Some h) (Some (h ++ [st]))
  | edge_final st' h st : current h = StateProcessing -> st_Name st = st_Name st' ->
      st_Name st ∈ [StateSucceeded; StateFailed; StateCancelled] ->
      hist_edge s id (OpApplyState id StateProcessing st') (Some h) (Some (h ++ [st]))
  | edge_dead st' h st : current h = StateFailed -> st_Name st = st_Name st' -> st_Name st = StateDead ->
      hist_edge s id (OpApplyState id StateFailed st') (Some h) (Some (h ++ [st]))
  | edge_retry a h st : current h = StateFailed -> st_Name st = StateScheduled ->
      hist_edge s id (OpScheduleRetry id a) (Some h) (Some (h ++ [st]))
  | edge_delete h st : IrreversibleStates (current h) = false ->
      st_Name st = StateDeleted -> hist_edge s id (OpDeleteJob id) (Some h) (Some (h ++ [st]))
  | edge_forget c h : expired c (jobStates s) id -> isTerminal (current h) = true ->
      hist_edge s id (OpRemoveExpired c) (Some h) None.

(** The edges between current states when callers keep the discipline. *)
Inductive life_edge : option string -> option string -> Prop :=
  | life_same o : life_edge o o
  | life_enqueue : life_edge None (Some StateEnqueued)
  | life_schedule : life_edge None (Some StateScheduled)
  | life_dispatch : life_edge (Some StateEnqueued) (Some StateProcessing)
  | life_requeue : life_edge (Some StateProcessing) (Some StateEnqueued)
  | life_succeed : life_edge (Some StateProcessing) (Some StateSucceeded)
  | life_fail : life_edge (Some StateProcessing) (Some StateFailed)
  | life_cancel : life_edge (Some StateProcessing) (Some StateCancelled)
  | life_retry : life_edge (Some StateFailed) (Some StateScheduled)
  | life_bury : life_edge (Some StateFailed) (Some StateDead)
  | life_due : life_edge (Some StateScheduled) (Some StateEnqueued)
  | life_expire st : isTerminal st = true -> life_edge (Some st) None.

Definition cur (s : Storage) (id : string) : option string := current <$> jobStates s !! id.

(** Where a job is: its current state, how many queue slots hold it, whether it
    is in the schedule and whether it is marked as processing. *)
Definition view (s : Storage) (id : string) : option string * nat * bool * bool :=
  (cur s id, occ id (queues s), bool_decide (is_Some (scheduled s !! id)),
   bool_decide (is_Some (processing s !! id))).

(** Where the current state says it is. *)
Definition view_of (c : option string) : option string * nat * bool * bool :=
  (c, if decide (c = Some StateEnqueued) then 1%nat else 0%nat,
   bool_decide (c = Some StateScheduled), bool_decide (c = Some StateProcessing)).

Definition placed (s : Storage) : Prop := forall id, view s id = view_of (cur s id).

Definition disciplined (s : Storage) (o : op) : Prop :=
  client_op o = true /\
  match o with
  | OpRequeue id _ => cur s id = Some StateProcessing
  | OpDeleteJob _ | OpRemoveScheduled _ => False
  | _ => True
  end.

Section Life.
Context `{Env}.

Definition disciplined_step (c c' : nat * Storage) : Prop :=
  exists o, disciplined c.2 o /\ c' = (exec o c.1 c.2).1.

Definition disciplined_reachable (n : nat) (s : Storage) : Prop :=
  exists n0, rtc disciplined_step (n0, New) (n, s).

(** ** Histories *)
Definition grows (s : Storage) (o : op) (HH' : gmap string (list JobState)) : Prop :=
  forall id, hist_edge s id o (jobStates s !! id) (HH' !! id).

Lemma grows_refl s o : grows s o (jobStates s).
Proof. intros id. constructor. Qed.

Lemma grows_insert s o id h : hist_edge s id o (jobStates s !! id) (Some h) -> grows s o (<[id := h]> (jobStates s)).
Proof.
  intros He id'. rewrite lookup_insert. case_decide; [by subst|constructor].
Qed.

Lemma current_last h st : last h = Some st -> current h = st_Name st.
Proof. unfold current. by intros ->. Qed.

Lemma fresh_hist n s :
  flow n s -> jobStates s !! uuid n = None.
Proof.
  intros [W F]. destruct (jobStates s !! uuid n) eqn:Hh; [|done].
  destruct (flow_jobs _ _ _ _ F (uuid n)) as (i & Hi & Heq).
  - apply (wf_dom _ _ _ _ _ W). eauto.
  - apply (inj uuid) in Heq. lia.
Qed.

Lemma hist_Enqueue ctx q j n s :
  ID j = "" -> flow n s ->
  exists t, jobStates (st_of (Enqueue ctx q j n s))
    = <[uuid n := [mkJobState StateEnqueued "" None t]]> (jobStates s).
Proof.
  intros Hj Hf. destruct (Enqueue_run ctx q j n s) as (n' & id & s' & He & _ & Hid & _ & [t Ht] & _).
  rewrite decide_True in Hid by done. subst id. exists t. by rewrite He.
Qed.

Lemma grows_new n s o st :
  flow n s -> hist_edge s (uuid n) o None (Some [st]) ->
  grows s o (<[uuid n := [st]]> (jobStates s)).
Proof. intros Hf Hst. apply grows_insert. by rewrite (fresh_hist n s Hf). Qed.

Lemma st_drop {A} (m : M Storage A) n s : st_of (drop_result m n s) = st_of (m n s).
Proof. unfold drop_result. unfold_m. by destruct (m n s) as [[? ?] []]. Qed.

Lemma grows_EnqueueIdempotent ctx q j n s :
  ID j = "" -> flow n s -> grows s (OpEnqueueIdempotent q j) (jobStates (st_of (EnqueueIdempotent ctx q j n s))).
Proof.
  intros Hj Hf. unfold EnqueueIdempotent. run_env.
  destruct (if decide _ then _ else _); [apply grows_refl|]. rewrite decide_True by done. run_env.
  rewrite ID_enqueue_job. case_decide; cbn; apply grows_new; eauto using edge_enqueued.
Qed.

Lemma grows_AddScheduled ctx a j n s :
  ID j = "" -> flow n s -> grows s (OpAddScheduled a j) (jobStates (st_of (AddScheduled ctx a j n s))).
Proof.
  intros Hj Hf. unfold AddScheduled. rewrite decide_True by done. run_env.
  rewrite ID_scheduled_job. apply grows_new; [done|by apply edge_scheduled].
Qed.

(** Only a job that waits in one of the queues is dispatched. *)
Lemma grows_scan_from s0 qs0 qs held n s :
  wf s -> qs ⊆ qs0 -> jobStates s = jobStates s0 ->
  (forall q l, queues s !! q = Some l -> exists l0, queues s0 !! q = Some l0 /\ l ⊆ l0) ->
  grows s0 (OpScan qs0) (jobStates (st_of (dequeueScan qs held n s))).
Proof.
  intros W Hqs HJ HQ. revert Hqs held n s W HJ HQ. induction qs as [|q qs IH]; intros Hqs held n s W HJ HQ.
  { destruct held; simpl; unfold_m; simpl; rewrite HJ; apply grows_refl. }
  assert (qs ⊆ qs0) as Hqs' by (intros x Hx; apply Hqs; by right).
  simpl. run. destruct (queues s !! q) as [[|id l]|] eqn:Hq; try by apply IH.
  destruct (HQ q _ Hq) as (l0 & Hl0 & Hsub).
  destruct (jobs s !! id) as [job|] eqn:Hj.
  - destruct (wf_dom _ _ _ _ _ W id) as [[h Hh] _]; [eauto|].
    assert (hist_edge s0 id (OpScan qs0) (jobStates s0 !! id) (Some (h ++
      [mkJobState StateProcessing "" (Some {[ "server_id" := "local" ]}) (clock (S n))]))) as He.
    { rewrite <- HJ, Hh. eapply edge_dispatch; [apply Hqs; by left|exact Hl0|apply Hsub; by left|done]. }
    destruct held; cbn; rewrite Hh, HJ; by apply grows_insert.
  - destruct held; cbn; [|rewrite HJ; apply grows_refl]. apply (IH Hqs' false n (upd_queues <[q := l]> s)); try done.
    intros q' l'. cbn. rewrite lookup_insert. case_decide as Hd; [|apply HQ]. intros [= <-]. subst q'.
    exists l0. split; [done|]. intros x Hx. apply Hsub. by right.
Qed.

Lemma grows_scan qs held n s : wf s -> grows s (OpScan qs) (jobStates (st_of (dequeueScan qs held n s))).
Proof. intros W. apply grows_scan_from; [done..|]. intros q l Hl. by exists l. Qed.

Lemma grows_Requeue ctx id r n s :
  wf s -> grows s (OpRequeue id r) (jobStates (st_of (Requeue ctx id r n s))).
Proof.
  intros W. unfold Requeue. run_env. destruct (jobs s !! id) as [job|] eqn:Hj; [|apply grows_refl].
  destruct (wf_dom _ _ _ _ _ W id) as [[h Hh] _]; [eauto|]. rewrite Hh. cbn.
  rewrite decide_True; [|by destruct h; [destruct (wf_hist _ _ _ _ _ W _ _ Hh)|simpl; lia]].
  destruct (IrreversibleStates (current h)) eqn:Hi; [apply grows_refl|].
  cbn; rewrite Hh; apply grows_insert; rewrite Hh; by apply edge_requeue.
Qed.

(** The transitions [client_op] lets a caller apply. *)
Lemma client_apply_edge id e st h h' s :
  client_op (OpApplyState id e st) = true -> wf s -> jobStates s !! id = Some h -> cas_state h = e ->
  (exists t, h' = h ++ [set_st_CreatedAt t st]) -> hist_edge s id (OpApplyState id e st) (Some h) (Some h').
Proof.
  intros Ho W Hh He [t ->]. simpl in Ho. apply bool_decide_eq_true in Ho.
  rewrite cas_state_current in He by (eapply (wf_hist _ _ _ _ _ W); exact Hh).
  rewrite !elem_of_cons, elem_of_nil in Ho.
  destruct Ho as [[= -> Hst]|[[= -> Hst]|[[= -> Hst]|[[= -> Hst]|[]]]]].
  1-3: apply edge_final; [done..|]; cbn; rewrite Hst, !elem_of_cons; tauto.
  by apply edge_dead.
Qed.

Lemma grows_ApplyState id e st n s :
  client_op (OpApplyState id e st) = true -> wf s ->
  grows s (OpApplyState id e st) (jobStates (st_of (ApplyState Live id e st n s))).
Proof.
  intros Ho W. destruct (jobStates s !! id) as [h|] eqn:Hh.
  - destruct (decide (cas_state h = e)) as [He|He].
    + destruct (ApplyState_ok_run Live id e st n s h Hh He) as (n' & s' & t & Hr & HH & _).
      rewrite Hr. unfold st_of; cbn. rewrite HH. apply grows_insert. rewrite Hh.
      eapply client_apply_edge; eauto.
    + rewrite (ApplyState_conflict_run Live id e st n s h Hh He). apply grows_refl.
  - rewrite (ApplyState_missing_run Live id e st n s Hh). apply grows_refl.
Qed.

Lemma grows_ScheduleRetry ctx id a n s :
  grows s (OpScheduleRetry id a) (jobStates (st_of (ScheduleRetry ctx id a n s))).
Proof.
  unfold ScheduleRetry. run_env. destruct (jobStates s !! id) as [h|] eqn:Hh; [|apply grows_refl].
  destruct (last h) as [st|] eqn:Hl; [|apply grows_refl].
  case_decide as Hst; [apply grows_refl|]. cbn. apply grows_insert. rewrite Hh.
  apply edge_retry; [|done].
  rewrite (current_last h st Hl). destruct (decide (st_Name st = StateFailed)); tauto.
Qed.

Lemma grows_DeleteJob ctx id n s :
  grows s (OpDeleteJob id) (jobStates (st_of (DeleteJob ctx id n s))).
Proof.
  unfold DeleteJob. run_env. destruct (jobStates s !! id) as [h|] eqn:Hh; [|apply grows_refl].
  destruct (last h) as [st|] eqn:Hl; [|apply grows_refl].
  destruct (IrreversibleStates (st_Name st)) eqn:Hi; [apply grows_refl|].
  cbn. apply grows_insert. rewrite Hh. apply edge_delete; [|done]. by rewrite (current_last h st Hl).
Qed.

Lemma GetDueScheduled_0 ctx now b n s :
  wf s -> b <= 0 -> exists n' s' due,
    GetDueScheduled ctx now b n s
      = (n', s', Ok ((fun id => mkJobTicket id ("sched-" +:+ id)) <$> due)) /\
    NoDup due /\ (forall id, id ∈ due -> is_due (scheduled s) now id) /\ promoted_all due s s'.
Proof.
  intros W Hb. destruct (range_keys_spec (scheduled s) n s) as (ids & Hr & _ & Hnd & Hids).
  set (due := collectDue now b (scheduled s) ids []).
  assert (NoDup due /\ (forall id, id ∈ due -> is_due (scheduled s) now id)) as [Hdd Hdue].
  { subst due. destruct ids as [|id ids]; simpl.
    - split; [constructor|]. intros id Hid. by apply elem_of_nil in Hid.
    - assert ((b <=? Z.of_nat 0) = true /\ (b <=? Z.of_nat 1) = true) as [E0 E1]
        by (split; apply Z.leb_le; lia).
      unfold is_due. destruct (scheduled s !! id) as [t|] eqn:Ht; [destruct (After t now) eqn:Ha|];
        cbn [length app negb]; rewrite ?E0, ?E1; cbv iota;
        (split; [first [apply NoDup_singleton|apply NoDup_nil_2]|]); intros x Hx;
        try (by apply elem_of_nil in Hx). apply list_elem_of_singleton in Hx as ->. by rewrite Ht. }
  destruct (promote_all_run due (S n) s Hdd) as (n' & s' & Hp & P).
  { intros id Hid. apply (wf_sched _ _ _ _ _ W). specialize (Hdue id Hid).
    unfold is_due in Hdue. destruct (scheduled s !! id); eauto. done. }
  exists n', (if decide (0 < length due)%nat then signal s' else s'), due. split_and!; try done.
  - unfold GetDueScheduled. unfold_m. rewrite Hr. fold due. rewrite Hp, length_fmap. by case_decide.
  - case_decide; [by apply promoted_all_signal|done].
Qed.

Lemma GetDueScheduled_promotes ctx now b n s :
  wf s -> exists n' s' due,
    GetDueScheduled ctx now b n s
      = (n', s', Ok ((fun id => mkJobTicket id ("sched-" +:+ id)) <$> due)) /\
    NoDup due /\ (forall id, id ∈ due -> is_due (scheduled s) now id) /\ promoted_all due s s'.
Proof.
  intros W. destruct (Z.le_gt_cases b 0) as [Hb|Hb]; [by apply GetDueScheduled_0|].
  destruct (due_scheduled_run ctx now b n s W) as (n' & s' & due & ? & ? & _ & ? & _ & ?); [lia|].
  by exists n', s', due.
Qed.

Lemma grows_GetDueScheduled ctx now b n s :
  wf s -> grows s (OpGetDueScheduled now b) (jobStates (st_of (GetDueScheduled ctx now b n s))).
Proof.
  intros W. destruct (GetDueScheduled_promotes ctx now b n s W)
    as (n' & s' & due & Hr & _ & Hdue & [_ _ _ Hk Hp _]).
  rewrite Hr. intros id. unfold st_of; cbn. destruct (decide (id ∈ due)) as [Hid|Hid].
  - destruct (Hp id Hid) as [t Ht]. rewrite Ht.
    destruct (wf_dom _ _ _ _ _ W id) as [[h Hh] _].
    { apply (wf_sched _ _ _ _ _ W). specialize (Hdue id Hid). unfold is_due in Hdue.
      destruct (scheduled s !! id); eauto. done. }
    rewrite Hh. apply edge_due; [by apply Hdue|done].
  - rewrite Hk by done. constructor.
Qed.

Lemma expired_current c HH id h :
  HH !! id = Some h -> expired c HH id -> isTerminal (current h) = true.
Proof.
  unfold expired. intros ->. destruct (last h) as [st|] eqn:Hl; [|done].
  rewrite (current_last h st Hl). by intros [? _]%andb_prop.
Qed.

Lemma RemoveExpired_run ctx c n s : exists n' s' gone,
  RemoveExpired ctx c n s = (n', s', Ok (wrap64 (Z.of_nat (length gone)))) /\
  NoDup gone /\ (forall id, id ∈ gone <-> expired c (jobStates s) id) /\
  forgotten (expired c (jobStates s)) s s'.
Proof.
  destruct (range_keys_spec (jobStates s) n s) as (ids & Hr & _ & Hnd & Hids).
  destruct (expireLoop_run c ids 0 (S n) s Hnd eq_refl) as (s' & He & F).
  exists (S n), s', (filter (expired c (jobStates s)) ids).
  assert (forall id, id ∈ ids /\ expired c (jobStates s) id <-> expired c (jobStates s) id) as Hiff.
  { intros id. split; [tauto|]. intros Hx. split; [|done]. apply Hids. unfold expired in Hx.
    destruct (jobStates s !! id); eauto. done. }
  split_and!.
  - unfold RemoveExpired. unfold_m. rewrite Hr. by rewrite He.
  - by apply NoDup_filter.
  - intros id. rewrite list_elem_of_filter, <- Hiff. tauto.
  - destruct F as [F1 F2 F3 F4 F5 F6 F7 F8 F9 F10 F11]. split; try done; intros id;
      (etransitivity; [first [apply F1|apply F2|apply F3|apply F4|apply F5|apply F6|apply F7]|]);
      apply decide_ext, Hiff.
Qed.

Lemma grows_RemoveExpired ctx c n s :
  grows s (OpRemoveExpired c) (jobStates (st_of (RemoveExpired ctx c n s))).
Proof.
  destruct (RemoveExpired_run ctx c n s) as (n' & s' & gone & Hr & _ & _ & F).
  rewrite Hr. intros id. unfold st_of; cbn. rewrite (fg_states _ _ _ F).
  case_decide as Hx; [|constructor]. destruct (jobStates s !! id) as [h|] eqn:Hh; [|constructor].
  apply edge_forget; [done|]. by eapply expired_current.
Qed.

(** The calls that touch no history, no queue, no schedule and no processing mark. *)
Definition quiet_op (o : op) : bool :=
  match o with
  | OpEnqueue _ _ | OpEnqueueIdempotent _ _ | OpScan _ | OpRequeue _ _ | OpApplyState _ _ _
  | OpScheduleRetry _ _ | OpAddScheduled _ _ | OpGetDueScheduled _ _ | OpRemoveExpired _
  | OpDeleteJob _ | OpRemoveScheduled _ => false
  | _ => true
  end.

Definition same_place (s0 : Storage) (_ : nat) (s : Storage) : Prop :=
  jobStates s = jobStates s0 /\ queues s = queues s0 /\ scheduled s = scheduled s0 /\
  processing s = processing s0.

#[local] Instance same_place_mono s0 : TickMono (same_place s0).
Proof. by intros n s. Qed.

Lemma same_place_modify s0 f :
  (forall s, jobStates (f s) = jobStates s /\ queues (f s) = queues s /\
     scheduled (f s) = scheduled s /\ processing (f s) = processing s) ->
  preserves (same_place s0) (mmodify f).
Proof.
  intros Hf n s (H1 & H2 & H3 & H4). destruct (Hf s) as (G1 & G2 & G3 & G4).
  unfold same_place, mmodify, st_of; cbn. by rewrite G1, G2, G3, G4.
Qed.

Lemma quiet_exec o n s : quiet_op o = true -> same_place s n (st_of (exec o n s)).
Proof.
  intros Ho. assert (preserves (same_place s) (exec o)) as Hp; [|by apply (Hp n s)].
  destruct o; try done; simpl; try (apply preserves_drop);
  unfold SetJobResult,
    HeartbeatJob, GetOrphanedJobs, GetJob, GetJobsByState, GetQueueLength, GetQueues,
    RegisterServer, UnregisterServer, Heartbeat, GetServers,
    UpsertRecurring, RemoveRecurring, GetRecurringJobs, UpdateRecurringLastRun,
    AddContinuation, GetContinuations, RemoveContinuations, IncrementCounter,
    GetCounter, GetAllCounters, AcquireLock, Release;
  preserve ltac:(apply same_place_modify; by intros).
Qed.

Lemma exec_drop_st {A} (m : M Storage A) n s : st_of (drop_result m n s) = st_of (m n s).
Proof. apply st_drop. Qed.

(** One call of the program moves every history along an edge. *)
Lemma grows_exec o n s :
  client_op o = true -> flow n s -> grows s o (jobStates (st_of (exec o n s))).
Proof.
  intros Ho [W F]. destruct (quiet_op o) eqn:Hq.
  { destruct (quiet_exec o n s Hq) as (He & _). intros id. rewrite He. constructor. }
  destruct o; simpl in Hq; try done; cbn [exec]; rewrite ?st_drop.
  - apply bool_decide_eq_true in Ho.
    destruct (hist_Enqueue Live queue job n s Ho (conj W F)) as [t ->]. apply grows_new; [by split|].
    eapply edge_enqueued; [by left|done].
  - apply bool_decide_eq_true in Ho. by apply grows_EnqueueIdempotent.
  - by apply grows_scan.
  - by apply grows_Requeue.
  - by apply grows_ApplyState.
  - apply grows_ScheduleRetry.
  - apply bool_decide_eq_true in Ho. by apply grows_AddScheduled.
  - by apply grows_GetDueScheduled.
  - exact (grows_refl s (OpRemoveScheduled _)).
  - apply grows_RemoveExpired.
  - apply grows_DeleteJob.
Qed.

(** ** At most one outcome per dispatch *)

(** The number of outcomes a history records. *)
Definition outcomes (h : list JobState) : nat :=
  (cnt StateSucceeded h + cnt StateFailed h + cnt StateCancelled h)%nat.

Definition running (h : list JobState) : nat :=
  if decide (current h = StateProcessing) then 1%nat else 0%nat.

Lemma edge_outcomes s id op o o' :
  hist_edge s id op o o' ->
  (forall h, o = Some h -> (outcomes h + running h <= cnt StateProcessing h)%nat) ->
  forall h', o' = Some h' -> (outcomes h' + running h' <= cnt StateProcessing h')%nat.
Proof.
  unfold outcomes, running. intros He Hle h' Ho'.
  destruct He as [?|? ? ? st _ Hst|? ? st Hst|? ? ? ? st _ _ _ Hst|? ? st _ Hst _|? ? ? st _ Hst
    |? h st Hc _ Hst|? h st Hc _ Hst|? h st Hc Hst|h st Hc Hst|]; simplify_eq;
    try (specialize (Hle _ eq_refl); rewrite current_snoc, !cnt_snoc, ?Hst).
  - by apply Hle.
  - unfold cnt. rewrite !filter_cons, Hst. cbn. unfold current; cbn. by rewrite Hst.
  - unfold cnt. rewrite !filter_cons, Hst. cbn. unfold current; cbn. by rewrite Hst.
  - repeat case_decide; try done; lia.
  - repeat case_decide; try done; lia.
  - repeat case_decide; try done; lia.
  - rewrite Hc, decide_True in Hle by done. rewrite !elem_of_cons, elem_of_nil in Hst.
    destruct Hst as [Hst|[Hst|[Hst|[]]]]; rewrite Hst; repeat case_decide; try done; lia.
  - repeat case_decide; try done; lia.
  - repeat case_decide; try done; lia.
  - repeat case_decide; try done; lia.
Qed.

(** Rule induction over the runs of the program's calls. *)
Lemma client_ind (P : nat -> Storage -> Prop) :
  (forall n, P n New) ->
  (forall n s o, client_op o = true -> flow n s -> P n s ->
     P (tick_of (exec o n s)) (st_of (exec o n s))) ->
  forall n s, client_reachable n s -> P n s.
Proof.
  intros H0 Hs n s [n0 Hr]. remember (n0, New) as c0. remember (n, s) as c.
  assert (flow c0.1 c0.2 /\ P c0.1 c0.2) as Hc0
    by (subst; split; [split; [apply wf_New|apply flow_New]|done]).
  clear Heqc0. assert (flow c.1 c.2 /\ P c.1 c.2) as [_ ?]; [|by subst].
  clear Heqc. induction Hr as [|c1 c2 c3 (o & Ho & ->) _ IH]; [done|]. apply IH.
  destruct Hc0 as [[W F] HP]. split; [|by apply Hs].
  split; [by apply (wf_exec o c1.1)|by apply fl_exec].
Qed.

Lemma client_outcomes n s :
  client_reachable n s -> forall id h, jobStates s !! id = Some h ->
  (outcomes h + running h <= cnt StateProcessing h)%nat.
Proof.
  revert n s. apply (client_ind (fun _ s => forall id h, jobStates s !! id = Some h ->
    (outcomes h + running h <= cnt StateProcessing h)%nat)).
  - intros _ id h Hh. cbn in Hh. by rewrite lookup_empty in Hh.
  - intros n s o Ho Hf HP id h'. eapply edge_outcomes; [by apply grows_exec|]. apply HP.
Qed.

(** ** The disciplined life cycle *)

(** One call moves job [id] along the life cycle, or leaves it where it is. *)
Definition moved (s s' : Storage) (id : string) : Prop :=
  view s' id = view s id \/ (view s' id = view_of (cur s' id) /\ life_edge (cur s id) (cur s' id)).

Lemma moved_placed s s' :
  placed s -> (forall id, moved s s' id) ->
  placed s' /\ forall id, life_edge (cur s id) (cur s' id).
Proof.
  intros Hp Hm. split; intros id; destruct (Hm id) as [Hv|[Hv He]]; try done.
  - specialize (Hp id). rewrite Hv, Hp. f_equal. unfold view in Hv. congruence.
  - unfold view in Hv. assert (cur s' id = cur s id) as -> by congruence. constructor.
Qed.

Lemma view_same s0 n s id : same_place s0 n s -> view s id = view s0 id.
Proof. intros (H1 & H2 & H3 & H4). unfold view, cur. by rewrite H1, H2, H3, H4. Qed.

Lemma view_eq s c k (A B : Prop) `{Decision A, Decision B} id :
  cur s id = c -> occ id (queues s) = k -> (is_Some (scheduled s !! id) <-> A) ->
  (is_Some (processing s !! id) <-> B) -> view s id = (c, k, bool_decide A, bool_decide B).
Proof.
  intros <- <- Hs Hpr. unfold view. by rewrite (bool_decide_ext _ _ Hs), (bool_decide_ext _ _ Hpr).
Qed.

(** What [placed] says of one job. *)
Lemma placed_occ s id :
  placed s -> occ id (queues s) = if decide (cur s id = Some StateEnqueued) then 1%nat else 0%nat.
Proof. intros Hp. specialize (Hp id). unfold view, view_of in Hp. congruence. Qed.

Lemma placed_sched s id :
  placed s -> is_Some (scheduled s !! id) <-> cur s id = Some StateScheduled.
Proof.
  intros Hp. specialize (Hp id). unfold view, view_of in Hp.
  assert (bool_decide (is_Some (scheduled s !! id))
          = bool_decide (cur s id = Some StateScheduled)) as Hb by congruence.
  exact (bool_decide_same _ _ Hb).
Qed.

Lemma placed_proc s id :
  placed s -> is_Some (processing s !! id) <-> cur s id = Some StateProcessing.
Proof.
  intros Hp. specialize (Hp id). unfold view, view_of in Hp.
  assert (bool_decide (is_Some (processing s !! id))
          = bool_decide (cur s id = Some StateProcessing)) as Hb by congruence.
  exact (bool_decide_same _ _ Hb).
Qed.

Lemma moved_intro s s' id :
  occ id (queues s') = (if decide (cur s' id = Some StateEnqueued) then 1%nat else 0%nat) ->
  (is_Some (scheduled s' !! id) <-> cur s' id = Some StateScheduled) ->
  (is_Some (processing s' !! id) <-> cur s' id = Some StateProcessing) ->
  life_edge (cur s id) (cur s' id) -> moved s s' id.
Proof. intros. right. split; [|done]. by apply view_eq. Qed.

Lemma moved_frame s s' id :
  cur s' id = cur s id -> occ id (queues s') = occ id (queues s) ->
  scheduled s' !! id = scheduled s !! id -> processing s' !! id = processing s !! id ->
  moved s s' id.
Proof. intros H1 H2 H3 H4. left. unfold view. by rewrite H1, H2, H3, H4. Qed.

Lemma moved_refl s id : moved s s id.
Proof. by left. Qed.

(** The change of one job [id]: its history ends in [st], its queue count and
    its marks are those of that state; every other job keeps its place. *)
Record one_moved (id : string) (st : string) (s s' : Storage) : Prop := {
  om_cur : cur s' id = Some st;
  om_occ : occ id (queues s') = if decide (st = StateEnqueued) then 1%nat else 0%nat;
  om_sched : is_Some (scheduled s' !! id) <-> st = StateScheduled;
  om_proc : is_Some (processing s' !! id) <-> st = StateProcessing;
  om_edge : life_edge (cur s id) (Some st);
  om_rest : forall x, x <> id -> cur s' x = cur s x /\ occ x (queues s') = occ x (queues s) /\
    scheduled s' !! x = scheduled s !! x /\ processing s' !! x = processing s !! x;
}.

Lemma one_moved_all id st s s' : one_moved id st s s' -> forall x, moved s s' x.
Proof.
  intros [H1 H2 H3 H4 H5 H6] x. destruct (decide (x = id)) as [->|Hne].
  - apply moved_intro; rewrite H1; [|split; intros|split; intros|done].
    + rewrite H2. apply decide_ext. naive_solver.
    + f_equal. by apply H3.
    + apply H3. congruence.
    + f_equal. by apply H4.
    + apply H4. congruence.
  - destruct (H6 x Hne) as (?&?&?&?). by apply moved_frame.
Qed.

Lemma cur_push s s' id h st :
  jobStates s' = <[id := h ++ [st]]> (jobStates s) -> cur s' id = Some (st_Name st).
Proof. unfold cur. intros ->. rewrite lookup_insert_eq. cbn. by rewrite current_snoc. Qed.

Lemma cur_other s s' id h x :
  jobStates s' = <[id := h]> (jobStates s) -> x <> id -> cur s' x = cur s x.
Proof. unfold cur. intros -> Hne. by rewrite lookup_insert_ne. Qed.

Lemma occ_push_other x id q Q :
  x <> id -> occ x (<[q := default [] (Q !! q) ++ [id]]> Q) = occ x Q.
Proof. intros Hne. rewrite occ_push, decide_False by done. lia. Qed.

Lemma occ_push_same id q Q : occ id (<[q := default [] (Q !! q) ++ [id]]> Q) = S (occ id Q).
Proof. rewrite occ_push, decide_True by done. lia. Qed.

(** A new job enters the queue. *)
Lemma one_moved_enqueue n s s' q t :
  flow n s -> placed s ->
  jobStates s' = <[uuid n := [mkJobState StateEnqueued "" None t]]> (jobStates s) ->
  queues s' = <[q := default [] (queues s !! q) ++ [uuid n]]> (queues s) ->
  scheduled s' = scheduled s -> processing s' = processing s ->
  one_moved (uuid n) StateEnqueued s s'.
Proof.
  intros Hf Hp HH HQ HS HP. assert (cur s (uuid n) = None) as Hc
    by (unfold cur; by rewrite (fresh_hist n s Hf)).
  split.
  - apply (cur_push s s' _ [] _ HH).
  - rewrite HQ, occ_push_same, placed_occ, Hc by done. done.
  - rewrite HS, placed_sched, Hc by done. done.
  - rewrite HP, placed_proc, Hc by done. done.
  - rewrite Hc. constructor.
  - intros x Hne. rewrite HS, HP, HQ, occ_push_other by done. split_and!; try done.
    by apply (cur_other s s' _ _ x HH).
Qed.

(** A job moves into the queue from where it was. *)
Lemma one_moved_schedule n s s' a t :
  flow n s -> placed s ->
  jobStates s' = <[uuid n := [mkJobState StateScheduled "" a t]]> (jobStates s) ->
  queues s' = queues s -> (exists e, scheduled s' = <[uuid n := e]> (scheduled s)) ->
  processing s' = processing s -> one_moved (uuid n) StateScheduled s s'.
Proof.
  intros Hf Hp HH HQ [e HS] HP. assert (cur s (uuid n) = None) as Hc
    by (unfold cur; by rewrite (fresh_hist n s Hf)).
  split.
  - apply (cur_push s s' _ [] _ HH).
  - rewrite HQ, placed_occ, Hc by done. done.
  - rewrite HS, lookup_insert_eq. split; [done|eauto].
  - rewrite HP, placed_proc, Hc by done. done.
  - rewrite Hc. constructor.
  - intros x Hne. rewrite HS, HP, HQ, lookup_insert_ne by done. split_and!; try done.
    by apply (cur_other s s' _ _ x HH).
Qed.

Lemma cur_Some s id h : jobStates s !! id = Some h -> cur s id = Some (current h).
Proof. unfold cur. by intros ->. Qed.

(** A queued job is dispatched. *)
Lemma one_moved_dispatch s s' id q l h st :
  placed s -> jobStates s !! id = Some h -> queues s !! q = Some (id :: l) ->
  st_Name st = StateProcessing -> jobStates s' = <[id := h ++ [st]]> (jobStates s) ->
  queues s' = <[q := l]> (queues s) -> scheduled s' = scheduled s ->
  processing s' = <[id := "local"]> (processing s) ->
  one_moved id StateProcessing s s'.
Proof.
  intros Hp Hh Hq Hst HH HQ HS HP. pose proof (occ_pop id id l q _ Hq) as Ho.
  rewrite decide_True in Ho by done. pose proof (placed_occ s id Hp) as Ho'.
  assert (cur s id = Some StateEnqueued) as Hc by (case_decide; [done|lia]).
  rewrite Hc, decide_True in Ho' by done. split.
  - rewrite <- Hst. by eapply cur_push.
  - rewrite HQ, decide_False by done. lia.
  - rewrite HS, placed_sched, Hc by done. done.
  - rewrite HP, lookup_insert_eq. split; [done|eauto].
  - rewrite Hc. constructor.
  - intros x Hne. rewrite HS, HP, HQ, lookup_insert_ne by done.
    pose proof (occ_pop x id l q _ Hq) as Hx. rewrite decide_False in Hx by done.
    split_and!; [|lia|done|done]. by apply (cur_other s s' _ _ x HH).
Qed.

(** A processing job goes back to the queue. *)
Lemma one_moved_requeue s s' id q h st :
  placed s -> jobStates s !! id = Some h -> current h = StateProcessing ->
  st_Name st = StateEnqueued -> jobStates s' = <[id := h ++ [st]]> (jobStates s) ->
  queues s' = <[q := default [] (queues s !! q) ++ [id]]> (queues s) ->
  scheduled s' = scheduled s -> processing s' = delete id (processing s) ->
  one_moved id StateEnqueued s s'.
Proof.
  intros Hp Hh Hcur Hst HH HQ HS HP. pose proof (cur_Some s id h Hh) as Hc. rewrite Hcur in Hc.
  split.
  - rewrite <- Hst. by eapply cur_push.
  - rewrite HQ, occ_push_same, placed_occ, Hc by done. done.
  - rewrite HS, placed_sched, Hc by done. done.
  - rewrite HP, lookup_delete_eq. split; [by intros []|done].
  - rewrite Hc. constructor.
  - intros x Hne. rewrite HS, HP, HQ, occ_push_other, lookup_delete_ne by done.
    split_and!; try done. by apply (cur_other s s' _ _ x HH).
Qed.

(** A processing or failed job reaches a state in which it is in no queue. *)
Lemma one_moved_settle s s' id h st :
  placed s -> jobStates s !! id = Some h ->
  (current h, st_Name st) ∈ [(StateProcessing, StateSucceeded); (StateProcessing, StateFailed);
     (StateProcessing, StateCancelled); (StateFailed, StateDead)] ->
  jobStates s' = <[id := h ++ [st]]> (jobStates s) ->
  queues s' = queues s -> scheduled s' = scheduled s ->
  processing s' = (if decide (current h = StateProcessing /\ st_Name st <> StateProcessing)
                   then delete id (processing s) else processing s) ->
  one_moved id (st_Name st) s s'.
Proof.
  intros Hp Hh Hed HH HQ HS HP. pose proof (cur_Some s id h Hh) as Hc.
  rewrite !elem_of_cons, elem_of_nil in Hed.
  assert (st_Name st <> StateEnqueued /\ st_Name st <> StateScheduled /\
          st_Name st <> StateProcessing) as (N1 & N2 & N3).
  { destruct Hed as [[= _ ->]|[[= _ ->]|[[= _ ->]|[[= _ ->]|[]]]]]; done. }
  assert (current h <> StateEnqueued /\ current h <> StateScheduled) as [N4 N5].
  { destruct Hed as [[= -> _]|[[= -> _]|[[= -> _]|[[= -> _]|[]]]]]; done. }
  split.
  - by eapply cur_push.
  - rewrite HQ, placed_occ, Hc by done. rewrite !decide_False; congruence.
  - rewrite HS, placed_sched, Hc by done. split; congruence.
  - rewrite HP. case_decide as Hd.
    + rewrite lookup_delete_eq. split; [by intros []|tauto].
    + rewrite placed_proc, Hc by done. split; [|tauto]. intros [= ?]. tauto.
  - rewrite Hc. destruct Hed as [[= -> ->]|[[= -> ->]|[[= -> ->]|[[= -> ->]|[]]]]]; constructor.
  - intros x Hne. rewrite HS, HQ, HP. split_and!; try done.
    + by apply (cur_other s s' _ _ x HH).
    + case_decide; [|done]. by rewrite lookup_delete_ne.
Qed.

(** A failed job is scheduled for another attempt. *)
Lemma one_moved_retry s s' id h st t :
  placed s -> jobStates s !! id = Some h -> current h = StateFailed ->
  st_Name st = StateScheduled -> jobStates s' = <[id := h ++ [st]]> (jobStates s) ->
  queues s' = queues s -> scheduled s' = <[id := t]> (scheduled s) ->
  processing s' = processing s -> one_moved id StateScheduled s s'.
Proof.
  intros Hp Hh Hcur Hst HH HQ HS HP. pose proof (cur_Some s id h Hh) as Hc. rewrite Hcur in Hc.
  split.
  - rewrite <- Hst. by eapply cur_push.
  - rewrite HQ, placed_occ, Hc by done. done.
  - rewrite HS, lookup_insert_eq. split; [done|eauto].
  - rewrite HP, placed_proc, Hc by done. done.
  - rewrite Hc. constructor.
  - intros x Hne. rewrite HS, HP, HQ, lookup_insert_ne by done.
    split_and!; try done. by apply (cur_other s s' _ _ x HH).
Qed.

Lemma count_id_NoDup id l : NoDup l -> count_id id l = if decide (id ∈ l) then 1%nat else 0%nat.
Proof.
  induction 1 as [|x l Hx Hl IH]; [done|]. rewrite count_id_cons, IH.
  destruct (decide (x = id)) as [->|Hne].
  - rewrite decide_False, decide_True; [done|left|done].
  - simpl. apply decide_ext. rewrite elem_of_cons. naive_solver.
Qed.

(** Due jobs move from the schedule to their queues. *)
Lemma due_moved due s s' :
  placed s -> NoDup due -> (forall id, id ∈ due -> is_Some (scheduled s !! id)) ->
  promoted_all due s s' -> forall id, moved s s' id.
Proof.
  intros Hp Hnd Hdue [P1 P2 P3 P4 P5 P6] id. destruct (decide (id ∈ due)) as [Hid|Hid].
  - assert (cur s id = Some StateScheduled) as Hc by (apply placed_sched; auto).
    destruct (P5 id Hid) as [t Ht].
    assert (cur s' id = Some StateEnqueued) as Hc' by (unfold cur; by rewrite Ht; cbn; rewrite current_snoc).
    apply moved_intro; rewrite Hc'.
    + rewrite P6, count_id_NoDup, decide_True, placed_occ, Hc by done. done.
    + rewrite P3, decide_True by done. split; [by intros []|done].
    + rewrite P2, placed_proc, Hc by done. done.
    + rewrite Hc. constructor.
  - apply moved_frame.
    + unfold cur. by rewrite P4.
    + rewrite P6, count_id_NoDup, decide_False by done. lia.
    + by rewrite P3, decide_False.
    + by rewrite P2.
Qed.

(** Expired jobs leave the storage. *)
Lemma gone_moved c s s' :
  wf s -> placed s -> forgotten (expired c (jobStates s)) s s' -> forall id, moved s s' id.
Proof.
  intros W Hp F id. destruct (decide (expired c (jobStates s) id)) as [Hx|Hx].
  - destruct (jobStates s !! id) as [h|] eqn:Hh; [|by unfold expired in Hx; rewrite Hh in Hx].
    pose proof (cur_Some s id h Hh) as Hc. pose proof (expired_current _ _ _ _ Hh Hx) as Ht.
    assert (cur s' id = None) as Hc'
      by (unfold cur; by rewrite (fg_states _ _ _ F), decide_True).
    apply moved_intro; rewrite Hc'.
    + rewrite (fg_queues _ _ _ F), placed_occ, Hc by done. case_decide as Hd; [|done].
      injection Hd as Hd. by rewrite Hd in Ht.
    + rewrite (fg_sched _ _ _ F), decide_True by done. split; [by intros []|done].
    + rewrite (fg_proc _ _ _ F), decide_True by done. split; [by intros []|done].
    + rewrite Hc. by constructor.
  - apply moved_frame.
    + unfold cur. by rewrite (fg_states _ _ _ F), decide_False.
    + by rewrite (fg_queues _ _ _ F).
    + by rewrite (fg_sched _ _ _ F), decide_False.
    + by rewrite (fg_proc _ _ _ F), decide_False.
Qed.

(** A disciplined call moves jobs along the life cycle only. *)
Lemma moved_scan qs n s :
  wf s -> placed s -> forall id, moved s (st_of (dequeueScan qs true n s)) id.
Proof.
  intros W Hp. destruct (first_nonempty (queues s) qs) as [[[q id] l]|] eqn:Hf.
  - destruct (first_nonempty_lookup _ _ _ _ _ Hf) as [_ Hq].
    assert (exists h, jobStates s !! id = Some h) as [h Hh].
    { pose proof (placed_occ s id Hp) as Ho. rewrite (occ_pop id id l q _ Hq), decide_True in Ho by done.
      case_decide as Hc; [|lia]. unfold cur in Hc. destruct (jobStates s !! id); [eauto|done]. }
    destruct (wf_dom _ _ _ _ _ W id) as [_ [job Hj]]; [eauto|].
    rewrite (scan_Some qs n s q id l job Hf Hj). unfold st_of; cbn [fst snd].
    apply (one_moved_all id StateProcessing), (one_moved_dispatch s _ id q l h
      (mkJobState StateProcessing "" (Some {[ "server_id" := "local" ]}) (clock (S n)))); try done.
    cbn. by rewrite Hh.
  - rewrite scan_None by done. intros id. apply moved_refl.
Qed.

Lemma moved_Requeue ctx id r n s :
  wf s -> placed s -> cur s id = Some StateProcessing ->
  forall x, moved s (st_of (Requeue ctx id r n s)) x.
Proof.
  intros W Hp Hc. unfold cur in Hc. destruct (jobStates s !! id) as [h|] eqn:Hh; [|done].
  injection Hc as Hc. destruct (wf_dom _ _ _ _ _ W id) as [_ [job Hj]]; [eauto|].
  unfold Requeue. run_env. rewrite Hj, Hh. cbn. rewrite Hc.
  replace (IrreversibleStates StateProcessing) with false by reflexivity.
  destruct (decide (0 < length h)%nat); cbn;
    (apply (one_moved_all id StateEnqueued), (one_moved_requeue s _ id (Queue job) h
      (mkJobState StateEnqueued r None (clock n)));
      [done|done|done|done|cbn; rewrite ?Hh; done|cbn; rewrite ?(wf_key _ _ _ _ _ W _ _ Hj); done|done|done]).
Qed.

Lemma moved_ApplyState id e st n s :
  client_op (OpApplyState id e st) = true -> wf s -> placed s ->
  forall x, moved s (st_of (ApplyState Live id e st n s)) x.
Proof.
  intros Ho W Hp. destruct (jobStates s !! id) as [h|] eqn:Hh.
  - destruct (decide (cas_state h = e)) as [He|He].
    + destruct (ApplyState_ok_run Live id e st n s h Hh He)
        as (n' & s' & t & Hr & HH & _ & _ & HQ & HS & _ & HP).
      rewrite Hr. unfold st_of; cbn [fst snd]. simpl in Ho. apply bool_decide_eq_true in Ho.
      rewrite cas_state_current in He by (eapply (wf_hist _ _ _ _ _ W); exact Hh). subst e.
      by eapply one_moved_all, (one_moved_settle s s' id h (set_st_CreatedAt t st)).
    + rewrite (ApplyState_conflict_run Live id e st n s h Hh He). intros x. apply moved_refl.
  - rewrite (ApplyState_missing_run Live id e st n s Hh). intros x. apply moved_refl.
Qed.

Lemma moved_ScheduleRetry ctx id a n s :
  placed s -> forall x, moved s (st_of (ScheduleRetry ctx id a n s)) x.
Proof.
  intros Hp. unfold ScheduleRetry. run_env.
  destruct (jobStates s !! id) as [h|] eqn:Hh; [|intros x; apply moved_refl].
  destruct (last h) as [st|] eqn:Hl; [|intros x; apply moved_refl].
  destruct (decide (st_Name st = StateFailed)) as [Hst|Hst].
  - rewrite decide_False by tauto. cbn.
    apply (one_moved_all id StateScheduled), (one_moved_retry s _ id h (mkJobState StateScheduled ""
      (Some {[ "enqueue_at" := FormatRFC3339 a ]}) (clock n)) a); try done.
    by rewrite (current_last h st Hl).
  - rewrite decide_True by done. intros x; apply moved_refl.
Qed.

Lemma moved_EnqueueIdempotent ctx q j n s :
  ID j = "" -> flow n s -> placed s ->
  forall x, moved s (st_of (EnqueueIdempotent ctx q j n s)) x.
Proof.
  intros Hj Hf Hp. unfold EnqueueIdempotent. run_env.
  destruct (if decide _ then _ else _); [intros x; apply moved_refl|].
  rewrite decide_True by done. run_env.
  case_decide; cbn;
    (eapply one_moved_all, one_moved_enqueue; cbn; rewrite ?ID_enqueue_job; done).
Qed.

Lemma moved_Enqueue ctx q j n s :
  ID j = "" -> flow n s -> placed s -> forall x, moved s (st_of (Enqueue ctx q j n s)) x.
Proof.
  intros Hj Hf Hp. unfold Enqueue. rewrite decide_True by done. run_env.
  eapply one_moved_all, one_moved_enqueue; cbn; rewrite ?ID_enqueue_job; done.
Qed.

Lemma moved_AddScheduled ctx a j n s :
  ID j = "" -> flow n s -> placed s -> forall x, moved s (st_of (AddScheduled ctx a j n s)) x.
Proof.
  intros Hj Hf Hp. unfold AddScheduled. rewrite decide_True by done. run_env.
  eapply one_moved_all, one_moved_schedule; cbn; rewrite ?ID_scheduled_job; eauto.
Qed.

Lemma disciplined_moves o n s :
  disciplined s o -> flow n s -> placed s -> forall id, moved s (st_of (exec o n s)) id.
Proof.
  intros [Ho Hd] [W F] Hp. destruct (quiet_op o) eqn:Hq.
  { intros id. left. apply (view_same s n). by apply quiet_exec. }
  destruct o; simpl in Hq; try done; cbn [exec]; rewrite ?st_drop;
    try (apply bool_decide_eq_true in Ho).
  - by apply moved_Enqueue.
  - by apply moved_EnqueueIdempotent.
  - by apply moved_scan.
  - by apply moved_Requeue.
  - apply moved_ApplyState; try done. by apply bool_decide_eq_true.
  - by apply moved_ScheduleRetry.
  - by apply moved_AddScheduled.
  - destruct (GetDueScheduled_promotes Live now batch n s W)
      as (n' & s' & due & Hr & Hnd & Hdue & P).
    rewrite Hr. eapply due_moved; try done. intros id Hid. specialize (Hdue id Hid).
    unfold is_due in Hdue. destruct (scheduled s !! id); [eauto|done].
  - destruct (RemoveExpired_run Live cutoff n s) as (n' & s' & gone & Hr & _ & _ & Fg).
    rewrite Hr. by eapply gone_moved.
Qed.

Lemma placed_New : placed New.
Proof.
  intros id. unfold view, view_of, cur. cbn. rewrite !lookup_empty. cbn.
  unfold occ. by rewrite map_fold_empty.
Qed.

Lemma disciplined_placed n s : disciplined_reachable n s -> flow n s /\ placed s.
Proof.
  intros [n0 Hr]. remember (n0, New) as c0. remember (n, s) as c.
  assert (flow c0.1 c0.2 /\ placed c0.2) as Hc0.
  { subst. split; [split; [apply wf_New|apply flow_New]|apply placed_New]. }
  clear Heqc0. assert (flow c.1 c.2 /\ placed c.2); [|by subst].
  clear Heqc. induction Hr as [|c1 c2 c3 (o & Ho & ->) _ IH]; [done|]. apply IH.
  destruct Hc0 as [[W F] HP]. split.
  - split; [by apply (wf_exec o c1.1)|by apply fl_exec; [apply Ho| |]].
  - eapply moved_placed; [exact HP|]. intros id. by apply (disciplined_moves o c1.1 c1.2).
Qed.
End Life.
