(* ===== verification/MemoryProps.v ===== *)
(** * Properties of the in-memory backend

    The theorems about [memory.Storage] as a whole: its invariants over every
    interleaving of callers, the refinement of the job life cycle, the exact
    effect of the bulk operations, idempotent enqueueing and locks. *)
From S2P Require Import Prelude.
From S2P Require Import GoTime.
From S2P Require Import Job.
From S2P Require Import StorageI.
From S2P Require Import Memory.
From S2P Require Import MemoryInv.
From S2P Require Import MemoryFlow.
From S2P Require Import MemoryQueue.
From S2P Require Import MemoryHistory.
From S2P Require Import MemoryLife.

(** The calls that are allowed not to panic: a page starts at a non-negative
    offset, a lock object is one that [AcquireLock] returned, and the front of no
    scanned queue is a job that was removed. *)
Definition op_ok (s : Storage) (o : op) : Prop :=
  match o with
  | OpGetJobsByState _ offset _ => 0 <= offset
  | OpRelease addr => is_Some (lockHeap s !! addr)
  | OpScan qs => match first_nonempty (queues s) qs with
                 | Some (_, id, _) => is_Some (jobs s !! id)
                 | None => True
                 end
  | _ => True
  end.

Section Props.
Context `{Env}.

(** A sequence of calls by any callers; their results go to them. *)
Fixpoint exec_all (os : list op) (n : nat) (s : Storage) : nat * Storage :=
  match os with
  | [] => (n, s)
  | o :: os' => exec_all os' (tick_of (exec o n s)) (st_of (exec o n s))
  end.

(** ** No panic *)
Lemma no_panic_drop {A} (m : M Storage A) n s :
  no_panic (res_of (m n s)) -> no_panic (res_of (drop_result m n s)).
Proof. unfold drop_result. unfold_m. by destruct (m n s) as [[? ?] []]. Qed.

Lemma hist_last (s : Storage) id h :
  wf s -> jobStates s !! id = Some h -> exists st, last h = Some st.
Proof.
  intros W Hh. apply (wf_hist _ _ _ _ _ W) in Hh.
  destruct (last_snoc_or h) as [|(h' & st & ->)]; [done|]. exists st. apply last_snoc.
Qed.

Lemma expireLoop_no_panic c ids d n s : no_panic (res_of (expireLoop c ids d n s)).
Proof.
  revert d n s. induction ids as [|id ids IH]; intros d n s; [done|]. simpl. run.
  destruct (jobStates s !! id) as [h|]; [|apply IH]. destruct (last h); [|apply IH].
  destruct (isTerminal _ && _); apply IH.
Qed.

Lemma locks_no_panic ctx r ttl n s :
  lock_wf n s -> no_panic (res_of (AcquireLock ctx r ttl n s)).
Proof.
  intros L. unfold AcquireLock. run_env. destruct (locks s !! r) as [a|] eqn:Hr; [|done]. cbn.
  destruct (lock_ptr n s L r a Hr) as (l & Hl & _). rewrite Hl. cbn. by destruct (Before _ _).
Qed.

Lemma release_no_panic ctx a n s :
  lock_wf n s -> is_Some (lockHeap s !! a) -> no_panic (res_of (Release ctx a n s)).
Proof.
  intros L [l Hl]. unfold Release. run. rewrite Hl. destruct (lk_released l); [done|].
  destruct (locks s !! lk_resource l) as [b|] eqn:Hb; [|done].
  destruct (lock_ptr n s L _ _ Hb) as (e & He & _). rewrite He. by case_decide.
Qed.

Lemma exec_no_panic o n s :
  wf s -> lock_wf n s -> op_ok s o -> no_panic (res_of (exec o n s)).
Proof.
  intros W L Ho. destruct o; cbn [exec];
    try (apply no_panic_drop); cbn [op_ok] in Ho;
    try (by apply locks_no_panic); try (by apply release_no_panic);
    try (unfold Enqueue, EnqueueIdempotent, AddScheduled, Requeue, SetJobResult, HeartbeatJob,
      GetOrphanedJobs, GetJob, GetQueueLength, GetQueues, RegisterServer,
      UnregisterServer, Heartbeat, GetServers, RemoveScheduled, UpsertRecurring,
      RemoveRecurring, GetRecurringJobs, UpdateRecurringLastRun, AddContinuation,
      GetContinuations, RemoveContinuations, IncrementCounter, GetCounter,
      GetAllCounters; run_env; by cases).
  - destruct (first_nonempty (queues s) qs) as [[[q id] l]|] eqn:Hf.
    + destruct Ho as [job Hj]. by rewrite (scan_Some _ n s q id l job Hf Hj).
    + by rewrite scan_None.
  - destruct (jobStates s !! jobID) as [h|] eqn:Hh;
      [destruct (decide (cas_state h = expected)) as [He|He]|].
    + destruct (ApplyState_ok_run Live jobID expected st n s h Hh He) as (? & ? & ? & Hr & _).
      by rewrite Hr.
    + by rewrite (ApplyState_conflict_run Live jobID expected st n s h Hh He).
    + by rewrite ApplyState_missing_run.
  - unfold ScheduleRetry. run_env. destruct (jobStates s !! jobID) as [h|] eqn:Hh; [|done].
    destruct (hist_last s _ _ W Hh) as [st ->]. by case_decide.
  - unfold GetJobsByState. run_env. case_match; [done|].
    destruct (Z.ltb_spec offset 0); [lia|].
    by destruct (decide (0 < limit /\ limit < _)).
  - destruct (GetDueScheduled_promotes Live now batch n s W) as (? & ? & ? & Hr & _).
    by rewrite Hr.
  - unfold RemoveExpired. run_env. apply expireLoop_no_panic.
  - unfold DeleteJob. run_env. destruct (jobStates s !! jobID) as [h|] eqn:Hh; [|done].
    destruct (hist_last s _ _ W Hh) as [st ->]. by destruct (IrreversibleStates _).
Qed.

(** ** Idempotency keys are never forgotten *)
Definition keyed (key id : string) (_ : nat) (s : Storage) : Prop :=
  idempotency s !! key = Some id.

#[local] Instance keyed_mono key id : TickMono (keyed key id).
Proof. by intros n s. Qed.

Lemma keyed_modify key id f :
  (forall s, idempotency (f s) = idempotency s) -> preserves (keyed key id) (mmodify f).
Proof. intros Hf n s Hs. unfold keyed, mmodify, st_of in *; cbn in *. by rewrite Hf. Qed.

Ltac keyed_preserve := preserve ltac:(first
  [ apply preserves_drop | apply keyed_modify; by intros ]).

Lemma keyed_EnqueueIdempotent key id ctx q j :
  preserves (keyed key id) (EnqueueIdempotent ctx q j).
Proof.
  intros n s Hs. unfold keyed, EnqueueIdempotent in *. run_env.
  destruct (decide (IdempotencyKey j <> "")) as [Hk|Hk].
  - destruct (idempotency s !! IdempotencyKey j) as [x|] eqn:Hx; [done|].
    destruct (decide (ID j = "")); run_env; rewrite lookup_insert_ne; congruence.
  - destruct (decide (ID j = "")); by run_env.
Qed.

Lemma keyed_dequeueScan key id qs held : preserves (keyed key id) (dequeueScan qs held).
Proof.
  revert held. induction qs as [|q qs IH]; intros held; simpl; unfold Unlock;
    keyed_preserve; apply IH.
Qed.

Lemma keyed_expireLoop key id c ids d : preserves (keyed key id) (expireLoop c ids d).
Proof. revert d. induction ids as [|x ids IH]; intros d; simpl; keyed_preserve; apply IH. Qed.

Lemma keyed_exec key id o : preserves (keyed key id) (exec o).
Proof.
  destruct o; cbn [exec]; try apply preserves_drop;
  try apply keyed_EnqueueIdempotent; try apply keyed_dequeueScan;
  unfold Enqueue, Requeue, ApplyState, ScheduleRetry, SetJobResult,
    HeartbeatJob, AddScheduled, GetDueScheduled, promote, RemoveExpired, DeleteJob,
    GetOrphanedJobs, GetJob, GetJobsByState, GetQueueLength, GetQueues,
    RegisterServer, UnregisterServer, Heartbeat, GetServers, RemoveScheduled,
    UpsertRecurring, RemoveRecurring, GetRecurringJobs, UpdateRecurringLastRun,
    AddContinuation, GetContinuations, RemoveContinuations, IncrementCounter,
    GetCounter, GetAllCounters, AcquireLock, Release; keyed_preserve;
  apply keyed_expireLoop.
Qed.

Lemma keyed_exec_all key id os n s :
  keyed key id n s -> keyed key id (exec_all os n s).1 (exec_all os n s).2.
Proof.
  revert n s. induction os as [|o os IH]; intros n s Hs; [done|]. apply IH, keyed_exec, Hs.
Qed.

Lemma EnqueueIdempotent_keyed ctx q j n s n1 s1 id b :
  IdempotencyKey j <> "" -> EnqueueIdempotent ctx q j n s = (n1, s1, Ok (id, b)) ->
  idempotency s1 !! IdempotencyKey j = Some id.
Proof.
  intros Hk. unfold EnqueueIdempotent. run_env. rewrite decide_True by done.
  destruct (idempotency s !! IdempotencyKey j) as [x|] eqn:Hx; [by intros [= <- <- <- <-]|].
  destruct (decide (ID j = "")); run_env; rewrite decide_True by done; cbn;
    intros [= <- <- <- <-]; cbn; by rewrite lookup_insert_eq.
Qed.

(** ** A held lock stays held *)
Definition held (a : nat) (l : memoryLock) (s : Storage) : Prop :=
  locks s !! lk_resource l = Some a /\ lockHeap s !! a = Some l.

Lemma AcquireLock_busy ctx r ttl n s a l :
  locks s !! r = Some a -> lockHeap s !! a = Some l -> Before (clock n) (lk_expiresAt l) = true ->
  AcquireLock ctx r ttl n s = (S n, s, Err ErrLockNotHeld).
Proof. intros Hr Ha Hb. unfold AcquireLock. run_env. by rewrite Hr, Ha, Hb. Qed.

Lemma held_AcquireLock a l ctx r ttl n s :
  lock_wf n s -> held a l s -> Before (clock n) (lk_expiresAt l) = true ->
  held a l (st_of (AcquireLock ctx r ttl n s)).
Proof.
  intros L [Hr Ha] Hb. destruct (decide (r = lk_resource l)) as [->|Hne].
  { by rewrite (AcquireLock_busy _ _ _ _ _ a l). }
  pose proof (lock_addr n s L a l Ha) as Hlt.
  unfold AcquireLock, held. run_env. destruct (locks s !! r) as [b|] eqn:Hb'; cbn.
  - destruct (lockHeap s !! b) as [e|]; [|done]. cbn. destruct (Before (clock n) (lk_expiresAt e)); [done|].
    cbn. rewrite !lookup_insert_ne; [done|lia|done].
  - rewrite !lookup_insert_ne; [done|lia|done].
Qed.

Lemma held_Release a l ctx b n s :
  lock_wf n s -> held a l s -> b <> a -> held a l (st_of (Release ctx b n s)).
Proof.
  intros L [Hr Ha] Hne. unfold Release, held. run.
  destruct (lockHeap s !! b) as [k|] eqn:Hb; [|done]. destruct (lk_released k); [done|].
  destruct (locks s !! lk_resource k) as [c|] eqn:Hc; [|done].
  destruct (lockHeap s !! c) as [e|] eqn:He; [|done].
  destruct (decide (lk_ownerID e <> lk_ownerID k)) as [|Ho]; [done|]. cbn.
  assert (c = b) as -> by (apply (lock_unique n s L c b e k); try done; by apply dec_stable).
  rewrite lookup_insert_ne by done. split; [|done].
  rewrite lookup_delete_ne; [done|]. intros Heq. rewrite Heq in Hc. congruence.
Qed.

Definition same_locks (s0 : Storage) (_ : nat) (s : Storage) : Prop :=
  locks s = locks s0 /\ lockHeap s = lockHeap s0.

#[local] Instance same_locks_mono s0 : TickMono (same_locks s0).
Proof. by intros n s. Qed.

Lemma same_locks_modify s0 f :
  (forall s, locks (f s) = locks s /\ lockHeap (f s) = lockHeap s) ->
  preserves (same_locks s0) (mmodify f).
Proof.
  intros Hf n s [H1 H2]. destruct (Hf s) as [G1 G2].
  unfold same_locks, mmodify, st_of; cbn. by rewrite G1, G2.
Qed.

Ltac locks_preserve := preserve ltac:(first
  [ apply preserves_drop | apply same_locks_modify; by intros ]).

Lemma same_locks_dequeueScan s0 qs b : preserves (same_locks s0) (dequeueScan qs b).
Proof.
  revert b. induction qs as [|q qs IH]; intros b; simpl; unfold Unlock; locks_preserve; apply IH.
Qed.

Lemma same_locks_expireLoop s0 c ids d : preserves (same_locks s0) (expireLoop c ids d).
Proof. revert d. induction ids as [|x ids IH]; intros d; simpl; locks_preserve; apply IH. Qed.

Definition lock_op (o : op) : bool :=
  match o with OpAcquireLock _ _ | OpRelease _ => true | _ => false end.

Lemma same_locks_exec s0 o : lock_op o = false -> preserves (same_locks s0) (exec o).
Proof.
  intros Ho. destruct o; try done; cbn [exec]; try apply preserves_drop;
  try apply same_locks_dequeueScan;
  unfold Enqueue, EnqueueIdempotent, Requeue, ApplyState, ScheduleRetry, SetJobResult,
    HeartbeatJob, AddScheduled, GetDueScheduled, promote, RemoveExpired, DeleteJob,
    GetOrphanedJobs, GetJob, GetJobsByState, GetQueueLength, GetQueues,
    RegisterServer, UnregisterServer, Heartbeat, GetServers, RemoveScheduled,
    UpsertRecurring, RemoveRecurring, GetRecurringJobs, UpdateRecurringLastRun,
    AddContinuation, GetContinuations, RemoveContinuations, IncrementCounter,
    GetCounter, GetAllCounters; locks_preserve;
  apply same_locks_expireLoop.
Qed.

Lemma held_exec a l o n s :
  lock_wf n s -> held a l s -> Before (clock n) (lk_expiresAt l) = true -> o <> OpRelease a ->
  held a l (st_of (exec o n s)).
Proof.
  intros L Hh Hb Ho. destruct (lock_op o) eqn:Hlo.
  - destruct o; try done; cbn [exec].
    + rewrite st_drop. by apply held_AcquireLock.
    + apply held_Release; [done|done|congruence].
  - destruct (same_locks_exec s o Hlo n s) as [H1 H2]; [done|].
    unfold held in *. by rewrite H1, H2.
Qed.
End Props.

(** ** Properties *)
Section Theorems.
Context `{Env}.

(** Every call of the sequence starts before the instant [t]. *)
Fixpoint calls_before (t : Time) (os : list op) (n : nat) (s : Storage) : Prop :=
  match os with
  | [] => True
  | o :: os' => Before (clock n) t = true /\
      calls_before t os' (tick_of (exec o n s)) (st_of (exec o n s))
  end.

(** C13. Whatever the callers do and however their calls interleave, the maps of the backend stay
    consistent: a job is stored under its identifier, with a history that is never empty, exactly
    when it has one; what is scheduled, processing or has a heartbeat is a stored job; a lock entry
    points to an unreleased lock object of its own resource.  And no call panics there but three
    kinds ([op_ok]): a listing with a negative offset, the release of a lock that was never
    given, and a scan that meets a job that was removed at the front of a queue. *)
Theorem reachable_safe n s :
  reachable n s ->
  wf s /\ lock_wf n s /\ forall o, op_ok s o -> no_panic (res_of (exec o n s)).
Proof.
  intros Hr. destruct (reachable_inv n s Hr) as [W L]. split_and!; try done.
  intros o Ho. by apply exec_no_panic.
Qed.

(** C1. Refinement of the job life cycle: for callers that do not delete or unschedule jobs and
    that requeue only what is processing, a job is at every moment in the one place its current
    state names (one queue slot when Enqueued, the schedule when Scheduled, the processing map
    when Processing, nowhere else), each call moves it along an edge of the documented state
    machine, and no scan of any queues crashes. *)
Theorem lifecycle_refinement n s o :
  disciplined_reachable n s -> disciplined s o ->
  placed s /\ placed (st_of (exec o n s)) /\
  (forall id, life_edge (cur s id) (cur (st_of (exec o n s)) id)) /\
  (forall qs, no_panic (res_of (dequeueScan qs true n s))).
Proof.
  intros Hr Ho. destruct (disciplined_placed n s Hr) as [[W F] Hp].
  destruct (moved_placed s (st_of (exec o n s)) Hp) as [Hp' He].
  { by apply disciplined_moves. }
  split_and!; try done. intros qs.
  destruct (first_nonempty (queues s) qs) as [[[q id] l]|] eqn:Hf; [|by rewrite scan_None].
  destruct (first_nonempty_lookup _ _ _ _ _ Hf) as [_ Hq].
  pose proof (placed_occ s id Hp) as Hocc.
  rewrite (occ_pop id id l q _ Hq), decide_True in Hocc by done.
  case_decide as Hc; [|lia]. unfold cur in Hc.
  destruct (wf_dom _ _ _ _ _ W id) as [_ [job Hj]].
  { destruct (jobStates s !! id); [eauto|done]. }
  by rewrite (scan_Some qs n s q id l job Hf Hj).
Qed.


(** C3. Conservation: at any time a job was enqueued as many times as it was dispatched plus the
    number of queue slots that hold it, so that no enqueued job is lost and none is dispatched
    twice for one enqueue; and every dispatch has at most one outcome (Succeeded, Failed or
    Cancelled), one of them being open while the job is processing. *)
Theorem dispatch_conservation n s id h :
  client_reachable n s -> jobStates s !! id = Some h ->
  cnt StateEnqueued h = (cnt StateProcessing h + occ id (queues s))%nat /\
  (outcomes h + running h <= cnt StateProcessing h)%nat.
Proof.
  intros Hr Hh. split.
  - destruct (client_reachable_flow n s Hr) as [_ F]. by apply (flow_count _ _ _ _ F).
  - by apply (client_outcomes n s Hr id).
Qed.

(** C15. ApplyState is an atomic compare-and-set: an unknown job is ErrNotFound and a current state
    other than the expected one is ErrStateConflict, both without any change.  Otherwise the store
    becomes exactly this one ([MemoryHistory.state_applied], in full): the new state, stamped with
    the clock when and only when it has no time, is appended to the history of the job, its
    processing mark is dropped when it leaves Processing, the counter of Succeeded, Failed or Dead
    goes up by one, and everything else (the other jobs, the queues, the schedule, continuations,
    servers, locks, keys) is as it was. *)
Theorem apply_state_cas ctx id expected st n s :
  ApplyState ctx id expected st n s
  = match jobStates s !! id with
    | None => (n, s, Err ErrNotFound)
    | Some h =>
      if decide (cas_state h = expected) then
        if IsZero (st_CreatedAt st)
        then (S n, state_applied id expected (set_st_CreatedAt (clock n) st) h s, Ok tt)
        else (n, state_applied id expected st h s, Ok tt)
      else (n, s, Err ErrStateConflict)
    end.
Proof.
  destruct (jobStates s !! id) as [h|] eqn:Hh; [|by apply ApplyState_missing_run].
  case_decide; [by apply ApplyState_exact|by eapply ApplyState_conflict_run].
Qed.

(** Two callers race to settle the same job from the same expected state: when the first one
    succeeds with a different state, the second one gets ErrStateConflict and changes nothing. *)
Lemma apply_state_exclusive ctx ctx' id expected st st' n s n1 s1 :
  ApplyState ctx id expected st n s = (n1, s1, Ok tt) -> st_Name st <> expected ->
  ApplyState ctx' id expected st' n1 s1 = (n1, s1, Err ErrStateConflict).
Proof.
  intros Hr Hst. destruct (jobStates s !! id) as [h|] eqn:Hh.
  - destruct (decide (cas_state h = expected)) as [He|He].
    + destruct (ApplyState_ok_run ctx id expected st n s h Hh He) as (n' & s' & t & Hr' & HH & _).
      rewrite Hr in Hr'. simplify_eq.
      eapply ApplyState_conflict_run; [by rewrite HH, lookup_insert_eq|].
      unfold cas_state. by rewrite last_snoc.
    + by rewrite (ApplyState_conflict_run ctx id expected st n s h Hh He) in Hr.
  - by rewrite (ApplyState_missing_run ctx id expected st n s Hh) in Hr.
Qed.

(** C20. GetDueScheduled takes only due jobs, never more than the batch, and all of them when the
    batch is not full; each one leaves the schedule and gets one Enqueued state and one queue
    slot, whatever the order in which the schedule is visited; no other job changes. *)
Theorem due_scheduled_exact ctx now b n s :
  wf s -> 0 < b -> exists n' s' due,
    GetDueScheduled ctx now b n s
      = (n', s', Ok ((fun id => mkJobTicket id ("sched-" +:+ id)) <$> due)) /\
    NoDup due /\ Z.of_nat (length due) <= b /\
    (forall id, id ∈ due -> is_due (scheduled s) now id) /\
    (Z.of_nat (length due) < b -> forall id, is_due (scheduled s) now id -> id ∈ due) /\
    promoted_all due s s'.
Proof. apply due_scheduled_run. Qed.

(** RemoveExpired removes from all seven maps exactly the jobs whose history ends in
    Succeeded, Failed or Deleted before the cutoff, returns their number, and touches no queue,
    counter, idempotency key or lock, whatever the order in which it visits the jobs. *)
Theorem remove_expired_exact ctx c n s : exists n' s' gone,
  RemoveExpired ctx c n s = (n', s', Ok (wrap64 (Z.of_nat (length gone)))) /\
  NoDup gone /\ (forall id, id ∈ gone <-> expired c (jobStates s) id) /\
  forgotten (expired c (jobStates s)) s s'.
Proof. apply RemoveExpired_run. Qed.

(** C23. Idempotent enqueue: once a call with a non-empty key has returned a job identifier,
    every later call with that key returns the same identifier, reports that nothing was created
    and changes nothing, whatever calls came in between. *)
Theorem enqueue_idempotent_once ctx ctx' q q' j j' os n s n1 s1 id b :
  IdempotencyKey j <> "" -> IdempotencyKey j' = IdempotencyKey j ->
  EnqueueIdempotent ctx q j n s = (n1, s1, Ok (id, b)) ->
  let c := exec_all os n1 s1 in
  EnqueueIdempotent ctx' q' j' c.1 c.2 = (c.1, c.2, Ok (id, false)).
Proof.
  intros Hk Hk' Hr c. pose proof (EnqueueIdempotent_keyed ctx q j n s n1 s1 id b Hk Hr) as H0.
  assert (keyed (IdempotencyKey j) id c.1 c.2) as H1 by (by apply keyed_exec_all).
  unfold keyed in H1. unfold EnqueueIdempotent. rewrite Hk'. run.
  by rewrite decide_True, H1 by done.
Qed.

(** C25. Mutual exclusion: after AcquireLock returns a lock, every other attempt on that resource
    that starts before the lock expires fails with ErrLockNotHeld, whatever calls came in
    between, releases of other (older) lock objects of the same resource included, as long as
    the holder itself did not release it. *)
Theorem lock_mutual_exclusion ctx ctx' r ttl ttl' os n s n1 s1 a :
  reachable n s -> AcquireLock ctx r ttl n s = (n1, s1, Ok a) -> OpRelease a ∉ os ->
  exists t, let c := exec_all os n1 s1 in
    lk_expiresAt <$> lockHeap s1 !! a = Some (Add t ttl) /\
    (calls_before (Add t ttl) os n1 s1 -> Before (clock c.1) (Add t ttl) = true ->
     res_of (AcquireLock ctx' r ttl' c.1 c.2) = Err ErrLockNotHeld).
Proof.
  intros Hr Hacq Hos. destruct (reachable_inv n s Hr) as [_ L].
  pose proof (lock_AcquireLock ctx r ttl n s L) as L1. rewrite Hacq in L1.
  unfold tick_of, st_of in L1; cbn in L1.
  assert (exists o t, locks s1 !! r = Some a /\
    lockHeap s1 !! a = Some (mkMemoryLock r o (Add t ttl) false)) as (o & t & Hl & Ha).
  { revert Hacq. unfold AcquireLock. run_env.
    destruct (locks s !! r) as [b|]; cbn; [destruct (lockHeap s !! b) as [e|]; cbn;
      [destruct (Before _ _)|]|]; cbn; try done; intros [= <- <- <-]; cbn;
      rewrite !lookup_insert_eq; eauto. }
  exists t. split; [by rewrite Ha|].
  set (l := mkMemoryLock r o (Add t ttl) false) in *.
  assert (held a l s1) as Hh by done. clear Hacq Hl Ha Hr L. revert n1 s1 L1 Hh.
  induction os as [|x os IH]; intros n1 s1 L1 Hh Hbef Hlast.
  - destruct Hh as [Hl Ha]. cbn [exec_all fst snd lk_resource lk_expiresAt l] in *. by rewrite (AcquireLock_busy ctx' r ttl' n1 s1 a l).
  - apply not_elem_of_cons in Hos as [Hx Hos]. destruct Hbef as [Hb Hbef].
    cbn [exec_all]. apply IH; try done; [by apply lock_exec|].
    by apply (held_exec a l x n1 s1).
Qed.

(** Deletion does not remove a waiting job from its queue: the job DeleteJob has just marked
    Deleted is still what the next scan of that queue dispatches, back to Processing. *)
Lemma deleted_job_still_dispatched ctx id q l h n s n1 s1 :
  wf s -> queues s !! q = Some (id :: l) -> jobStates s !! id = Some h ->
  DeleteJob ctx id n s = (n1, s1, Ok tt) ->
  cur s1 id = Some StateDeleted /\
  exists n2 s2 tk, dequeueScan [q] true n1 s1 = (n2, s2, Ok (Some tk)) /\
    jt_JobID tk = id /\ cur s2 id = Some StateProcessing.
Proof.
  intros W Hq Hh Hr. destruct (wf_dom _ _ _ _ _ W id) as [_ [job Hj]]; [eauto|].
  destruct (hist_last s id h W Hh) as [st Hl].
  revert Hr. unfold DeleteJob. run_env. rewrite Hh, Hl.
  destruct (IrreversibleStates (st_Name st)); [done|]. cbn. intros [= <- <-].
  split; [unfold cur; cbn; rewrite lookup_insert_eq; cbn; by rewrite current_snoc|].
  set (s1 := upd_progress _ _). assert (first_nonempty (queues s1) [q] = Some (q, id, l)) as Hf
    by (cbn; by rewrite Hq).
  do 3 eexists. split; [by apply (scan_Some [q] (S n) s1 q id l job Hf)|]. split.
  - by apply (wf_key _ _ _ _ _ W).
  - unfold cur. cbn. rewrite lookup_insert_eq. cbn. by rewrite current_snoc.
Qed.

(** C38. Deleting a waiting job can bring the process down: once its expiry has removed it from
    the maps, the next scan of its queue meets the stale identifier and unlocks the mutex twice,
    a throw that no recover stops. *)
Theorem deleted_job_crashes_dequeue ctx id q l h c n s n1 s1 n2 s2 k :
  wf s -> queues s !! q = Some (id :: l) -> jobStates s !! id = Some h ->
  DeleteJob ctx id n s = (n1, s1, Ok tt) -> Before (clock n) c = true ->
  RemoveExpired ctx c n1 s1 = (n2, s2, Ok k) ->
  res_of (dequeueScan [q] true n2 s2) = Fatal "sync: Unlock of unlocked RWMutex".
Proof.
  intros W Hq Hh Hr Hc Hx. destruct (hist_last s id h W Hh) as [st Hl].
  assert (n1 = S n /\ s1 = upd_progress (delete id) (upd_processing (delete id)
    (upd_jobStates <[id := h ++ [mkJobState StateDeleted "" None (clock n)]]> s))) as [-> ->].
  { clear Hx. revert Hr. unfold DeleteJob. run_env. rewrite Hh, Hl.
    by destruct (IrreversibleStates (st_Name st)); [|intros [= <- <-]]. }
  clear Hr. destruct (RemoveExpired_run ctx c (S n) (upd_progress (delete id)
    (upd_processing (delete id)
    (upd_jobStates <[id := h ++ [mkJobState StateDeleted "" None (clock n)]]> s))))
    as (n' & s' & gone & Hr & _ & _ & F).
  rewrite Hx in Hr. simplify_eq.
  assert (expired c (jobStates (upd_progress (delete id) (upd_processing (delete id)
    (upd_jobStates <[id := h ++ [mkJobState StateDeleted "" None (clock n)]]> s)))) id) as He.
  { unfold expired. cbn. rewrite lookup_insert_eq. rewrite last_snoc. exact Hc. }
  apply (scan_gone [q] _ _ q id l).
  - simpl. rewrite (fg_queues _ _ _ F). cbn. by rewrite Hq.
  - by rewrite (fg_jobs _ _ _ F), decide_True.
Qed.
End Theorems.

(** ** Runs of the program *)
Section Runs.
Context `{Env}.

Lemma exec_all_rtc os n s : rtc step (n, s) (exec_all os n s).
Proof.
  revert n s. induction os as [|o os IH]; intros n s; [done|].
  eapply rtc_l; [|apply IH]. exists o. cbn. unfold tick_of, st_of. by destruct (exec o n s) as [[? ?] ?].
Qed.

Lemma exec_all_reachable os n : reachable (exec_all os n New).1 (exec_all os n New).2.
Proof.
  exists n. rewrite <- surjective_pairing.
  apply exec_all_rtc.
Qed.

Lemma exec_all_client os n :
  forallb client_op os = true -> client_reachable (exec_all os n New).1 (exec_all os n New).2.
Proof.
  intros Hos. exists n. rewrite <- surjective_pairing.
  generalize New. revert n. induction os as [|o os IH]; intros n s; [done|].
  apply andb_prop in Hos as [Ho Hos]. eapply rtc_l; [|by apply IH]. exists o. split; [done|].
  cbn. unfold tick_of, st_of. by destruct (exec o n s) as [[? ?] ?].
Qed.

(** Every call of the sequence keeps the discipline. *)
Fixpoint all_disciplined (os : list op) (n : nat) (s : Storage) : Prop :=
  match os with
  | [] => True
  | o :: os' => disciplined s o /\ all_disciplined os' (tick_of (exec o n s)) (st_of (exec o n s))
  end.

Lemma exec_all_disciplined os n :
  all_disciplined os n New -> disciplined_reachable (exec_all os n New).1 (exec_all os n New).2.
Proof.
  intros Hos. exists n. rewrite <- surjective_pairing.
  revert Hos. generalize New. revert n. induction os as [|o os IH]; intros n s; [done|].
  intros [Ho Hos]. eapply rtc_l; [|by apply IH]. exists o. split; [done|].
  cbn. unfold tick_of, st_of. by destruct (exec o n s) as [[? ?] ?].
Qed.
End Runs.

Section Witnesses.
#[local] Instance E0 : Env := env_at 0.

(** A job is enqueued, dispatched, fails and waits for another attempt. *)
Definition one_attempt : list op :=
  [OpEnqueue "default" echo; OpScan ["default"];
   OpApplyState "id-0" StateProcessing (newJobState StateFailed "boom" None);
   OpScheduleRetry "id-0" (5 * Second)].

Definition due_op : op := OpGetDueScheduled (60 * Second) 10.

Lemma reachable_safe_witness :
  let c := exec_all one_attempt 0 New in
  wf c.2 /\ lock_wf c.1 c.2 /\ no_panic (res_of (exec due_op c.1 c.2)).
Proof.
  destruct (reachable_safe (exec_all one_attempt 0 New).1 (exec_all one_attempt 0 New).2
    (exec_all_reachable one_attempt 0)) as (W & L & Hp).
  split; [exact W|split; [exact L|apply (Hp due_op I)]].
Defined.

Lemma one_attempt_disciplined : all_disciplined one_attempt 0 New.
Proof. repeat split. Qed.

Lemma lifecycle_refinement_witness :
  let c := exec_all one_attempt 0 New in
  cur c.2 "id-0" = Some StateScheduled /\
  cur (st_of (exec due_op c.1 c.2)) "id-0" = Some StateEnqueued /\
  life_edge (cur c.2 "id-0") (cur (st_of (exec due_op c.1 c.2)) "id-0").
Proof.
  split; [vm_compute; reflexivity|split; [vm_compute; reflexivity|]].
  apply (lifecycle_refinement (exec_all one_attempt 0 New).1 (exec_all one_attempt 0 New).2 due_op).
  - apply exec_all_disciplined, one_attempt_disciplined.
  - split; [reflexivity|exact I].
Defined.


Lemma dispatch_conservation_witness : exists h,
  let s := (exec_all one_attempt 0 New).2 in
  jobStates s !! "id-0" = Some h /\ cnt StateProcessing h = 1%nat /\
  cnt StateEnqueued h = (cnt StateProcessing h + occ "id-0" (queues s))%nat.
Proof.
  eexists. split; [vm_compute; reflexivity|]. split; [vm_compute; reflexivity|].
  apply (dispatch_conservation (exec_all one_attempt 0 New).1 (exec_all one_attempt 0 New).2 "id-0").
  - apply exec_all_client. reflexivity.
  - vm_compute. reflexivity.
Defined.

Definition processing_echo : nat * Storage :=
  exec_all [OpEnqueue "default" echo; OpScan ["default"]] 0 New.

Lemma apply_state_exclusive_witness :
  let c := ApplyState Live "id-0" StateProcessing (newJobState StateSucceeded "" None)
             processing_echo.1 processing_echo.2 in
  ApplyState Live "id-0" StateProcessing (newJobState StateFailed "late" None) (tick_of c) (st_of c)
  = (tick_of c, st_of c, Err ErrStateConflict).
Proof.
  apply (apply_state_exclusive Live Live "id-0" StateProcessing
    (newJobState StateSucceeded "" None) (newJobState StateFailed "late" None)
    processing_echo.1 processing_echo.2).
  - vm_compute. reflexivity.
  - discriminate.
Defined.

Lemma due_scheduled_exact_witness : exists n' s' due,
  let s := (exec_all one_attempt 0 New).2 in
  GetDueScheduled Live (60 * Second) 10 20%nat s
    = (n', s', Ok ((fun id => mkJobTicket id ("sched-" +:+ id)) <$> due)) /\ due <> [] /\
  promoted_all due s s'.
Proof.
  destruct (due_scheduled_exact Live (60 * Second) 10 20%nat (exec_all one_attempt 0 New).2)
    as (n' & s' & due & Hr & _ & _ & _ & Hall & P).
  - apply (reachable_inv _ _ (exec_all_reachable one_attempt 0)).
  - lia.
  - exists n', s', due. split; [exact Hr|]. split; [|exact P]. intros ->.
    assert ("id-0" ∈ @nil string) as Hin; [|by apply elem_of_nil in Hin].
    apply Hall; [simpl; lia|]. vm_compute. reflexivity.
Defined.

Definition keyed_echo : Job := set_IdempotencyKey "key-1" echo.

Lemma enqueue_idempotent_once_witness :
  let r := EnqueueIdempotent Live "default" keyed_echo 0%nat New in
  let c := exec_all [OpScan ["default"]; OpRemoveExpired (60 * Second)] (tick_of r) (st_of r) in
  res_of r = Ok ("id-0", true) /\
  EnqueueIdempotent Live "critical" keyed_echo c.1 c.2 = (c.1, c.2, Ok ("id-0", false)).
Proof.
  split; [vm_compute; reflexivity|].
  apply (enqueue_idempotent_once Live Live "default" "critical" keyed_echo keyed_echo
    [OpScan ["default"]; OpRemoveExpired (60 * Second)] 0%nat New
    (tick_of (EnqueueIdempotent Live "default" keyed_echo 0%nat New))
    (st_of (EnqueueIdempotent Live "default" keyed_echo 0%nat New)) "id-0" true).
  - discriminate.
  - reflexivity.
  - vm_compute. reflexivity.
Defined.

Lemma lock_mutual_exclusion_witness : exists t,
  let r := AcquireLock Live "scheduler" (30 * Second) 0%nat New in
  let c := exec_all [OpRelease 77; OpAcquireLock "scheduler" 5] (tick_of r) (st_of r) in
  Before (clock c.1) (Add t (30 * Second)) = true /\
  res_of (AcquireLock Live "scheduler" 5 c.1 c.2) = Err ErrLockNotHeld.
Proof.
  destruct (lock_mutual_exclusion Live Live "scheduler" (30 * Second) 5
    [OpRelease 77; OpAcquireLock "scheduler" 5] 0%nat New
    (tick_of (AcquireLock Live "scheduler" (30 * Second) 0%nat New))
    (st_of (AcquireLock Live "scheduler" (30 * Second) 0%nat New)) 2%nat) as (t & Ht & Hx).
  - exists 0%nat. apply rtc_refl.
  - vm_compute. reflexivity.
  - rewrite !elem_of_cons, elem_of_nil. intros [?|[?|[]]]; discriminate.
  - exists t. revert Ht Hx. vm_compute. intros [= <-] Hx. split; [reflexivity|].
    apply Hx; [repeat split|reflexivity].
Defined.

Definition waiting_echo : Storage := (exec_all [OpEnqueue "default" echo] 0 New).2.

Lemma deleted_job_still_dispatched_witness : exists s2,
  cur s2 "id-0" = Some StateProcessing.
Proof.
  destruct (deleted_job_still_dispatched Live "id-0" "default" [] 
    [mkJobState StateEnqueued "" None (2 * Second)] 4%nat waiting_echo
    (tick_of (DeleteJob Live "id-0" 4%nat waiting_echo))
    (st_of (DeleteJob Live "id-0" 4%nat waiting_echo))) as (_ & n2 & s2 & tk & _ & _ & Hc).
  - apply (reachable_inv _ _ (exec_all_reachable [OpEnqueue "default" echo] 0)).
  - vm_compute. reflexivity.
  - vm_compute. reflexivity.
  - vm_compute. reflexivity.
  - exists s2. exact Hc.
Defined.

Lemma deleted_job_crashes_dequeue_witness :
  let c := exec_all [OpDeleteJob "id-0"; OpRemoveExpired (60 * Second)] 4 waiting_echo in
  res_of (dequeueScan ["default"] true c.1 c.2) = Fatal "sync: Unlock of unlocked RWMutex".
Proof.
  apply (deleted_job_crashes_dequeue Live "id-0" "default" []
    [mkJobState StateEnqueued "" None (2 * Second)] (60 * Second) 4%nat waiting_echo
    (tick_of (DeleteJob Live "id-0" 4%nat waiting_echo))
    (st_of (DeleteJob Live "id-0" 4%nat waiting_echo)) _ _ 1).
  - apply (reachable_inv _ _ (exec_all_reachable [OpEnqueue "default" echo] 0)).
  - vm_compute. reflexivity.
  - vm_compute. reflexivity.
  - vm_compute. reflexivity.
  - reflexivity.
  - vm_compute. reflexivity.
Defined.
End Witnesses.
