(* ===== verification/StorageSpec.v ===== *)
(** * The contract of a storage backend

    What [internal/storage/storage.go] promises of the operations the engine
    settles a job with, as laws over an abstract view of the backend (the stored
    jobs with their histories, and the continuations of each job), and the proof
    that the in-memory backend keeps it.  The engine's theorems are proved
    against this class. *)
From S2P Require Import Prelude.
From S2P Require Import GoTime.
From S2P Require Import Job.
From S2P Require Import StorageI.
From S2P Require Import Memory.
From S2P Require Import MemoryInv.
From S2P Require Import MemoryFlow.
From S2P Require Import MemoryQueue.
From S2P Require Import MemoryHistory.
From S2P Require Import MemoryLife.

(** The view of a backend. *)
Class StorageView (S : Type) := {
  spec_job : S -> string -> option JobWithStates;
  spec_conts : S -> string -> list ContinuationEntry;
}.

(** Between two states only job [id] changed, to [jw]. *)
Record only_job {S : Type} `{StorageView S} (id : string) (jw : JobWithStates) (s s' : S) : Prop := {
  oj_job : spec_job s' id = Some jw;
  oj_rest : forall id', id' <> id -> spec_job s' id' = spec_job s id';
  oj_conts : forall p, spec_conts s' p = spec_conts s p;
}.

(** One more state at the end of a history. *)
Definition with_state (jw : JobWithStates) (st : JobState) : JobWithStates :=
  mkJobWithStates (jw_Job jw) (jw_States jw ++ [st]).

Definition with_result (jw : JobWithStates) (r : bytes) : JobWithStates :=
  mkJobWithStates (set_Result r (jw_Job jw)) (jw_States jw).

(** The names of the states the program writes. *)
Definition known_state (name : string) : Prop :=
  name ∈ [StateEnqueued; StateProcessing; StateSucceeded; StateFailed; StateScheduled; StateDeleted;
          StateAwaiting; StateDead; StateCancelled].

(** Every text of the data of a state. *)
Definition data_ok (ok : string -> Prop) (data : option (gmap string string)) : Prop :=
  match data with Some m => map_Forall (fun k v => ok k /\ ok v) m | None => True end.

(** [spec_inv] is the invariant of the backend; [spec_live] says of a context
    that the backend serves calls made with it; [spec_result_ok] says of a result
    that the backend accepts it, [spec_text_ok] of a text, [spec_job_ok] of a job to enqueue;
    [spec_ids] are the identifiers the backend takes literally.  A backend stores text: [spec_result], [spec_args],
    [spec_timeout] and [spec_state] are what it keeps of a result, of arguments, of
    a timeout and of a state of the history. *)
Class StorageSpec (S : Type) `{StorageI S, StorageView S} := {
  spec_inv : nat -> S -> Prop;
  spec_live : Ctx -> Prop;
  spec_result_ok : bytes -> Prop;
  spec_text_ok : string -> Prop;
  spec_job_ok : Job -> Prop;
  spec_ids : string -> Prop;
  spec_result : bytes -> bytes;
  spec_args : bytes -> bytes;
  spec_timeout : Duration -> Duration;
  spec_state : JobState -> JobState;
  spec_Live : spec_live Live;
  spec_text_plain : forall t, plain_text t = true -> spec_text_ok t;
  spec_state_name : forall st, known_state (st_Name st) -> st_Name (spec_state st) = st_Name st;
  spec_tick : forall n s, spec_inv n s -> spec_inv (Datatypes.S n) s;
  spec_wf : forall n s id jw, spec_inv n s -> spec_job s id = Some jw ->
    ID (jw_Job jw) = id /\ jw_States jw <> [] /\ spec_ids id;
  spec_GetJob : forall ctx id n s, spec_live ctx -> spec_inv n s -> spec_ids id -> exists n' r,
    storage_GetJob ctx id n s = (n', s, r) /\ spec_inv n' s /\
    match spec_job s id with Some jw => r = Ok jw | None => exists err, r = Err err end;
  spec_ApplyState : forall ctx id e name reason data jw n s,
    spec_live ctx -> spec_inv n s -> spec_job s id = Some jw -> known_state name ->
    spec_text_ok reason -> data_ok spec_text_ok data ->
    (if decide (CurrentState jw = e) then exists n' s' t,
       storage_ApplyState ctx id e (newJobState name reason data) n s = (n', s', Ok tt) /\
       spec_inv n' s' /\
       only_job id (with_state jw (spec_state (mkJobState name reason data t))) s s'
     else exists n',
       storage_ApplyState ctx id e (newJobState name reason data) n s
         = (n', s, Err ErrStateConflict) /\ spec_inv n' s);
  spec_ScheduleRetry : forall ctx id at_ jw n s,
    spec_live ctx -> spec_inv n s -> spec_job s id = Some jw -> CurrentState jw = StateFailed ->
    exists n' s' st,
      storage_ScheduleRetry ctx id at_ n s = (n', s', Ok tt) /\ spec_inv n' s' /\
      st_Name st = StateScheduled /\
      st_Data st = Some {[ "enqueue_at" := FormatRFC3339 at_ ]} /\ only_job id (with_state jw st) s s';
  spec_SetJobResult : forall ctx id r jw n s,
    spec_live ctx -> spec_inv n s -> spec_job s id = Some jw -> spec_result_ok r ->
    exists n' s', storage_SetJobResult ctx id r n s = (n', s', Ok tt) /\ spec_inv n' s' /\
      only_job id (with_result jw (spec_result r)) s s';
  spec_Enqueue : forall ctx q j n s,
    spec_live ctx -> spec_inv n s -> ID j = "" -> q <> "" -> Queue j = q -> spec_job_ok j ->
    exists n' s' id j' st,
      storage_Enqueue ctx q j n s = (n', s', Ok id) /\ spec_inv n' s' /\
      spec_job s id = None /\ only_job id (mkJobWithStates j' [st]) s s' /\
      st_Name st = StateEnqueued /\ Name j' = Name j /\ Args j' = spec_args (Args j) /\
      Queue j' = q /\ RetryMax j' = (if decide (RetryMax j = 0) then 10 else RetryMax j) /\
      Timeout j' = spec_timeout (Timeout j);
  spec_GetContinuations : forall ctx p n s, spec_live ctx -> spec_inv n s -> spec_ids p -> exists n' l,
    storage_GetContinuations ctx p n s = (n', s, Ok l) /\ l ≡ₚ spec_conts s p /\ spec_inv n' s
}.

(** ** The in-memory backend keeps the contract *)
#[export] Instance memory_view : StorageView Storage := {
  spec_job s id := match jobs s !! id with
                   | Some j => Some (mkJobWithStates j (default [] (jobStates s !! id)))
                   | None => None
                   end;
  spec_conts s p := default [] (continuations s !! p)
}.

Section MemorySpec.
Context `{Env}.

(** Well-formed maps, and every stored job was named by an earlier UUID. *)
Definition memory_inv (n : nat) (s : Storage) : Prop :=
  wf s /\ forall id, is_Some (jobs s !! id) -> used n id.

Lemma memory_inv_le n m s : (n <= m)%nat -> memory_inv n s -> memory_inv m s.
Proof. intros Hle [W U]. split; [done|]. eauto using used_mono. Qed.

Lemma memory_view_Some s id jw :
  wf s -> spec_job s id = Some jw ->
  exists h, jobs s !! id = Some (jw_Job jw) /\ jobStates s !! id = Some h /\ jw_States jw = h /\ h <> [].
Proof.
  intros W. simpl. destruct (jobs s !! id) as [j|] eqn:Hj; [|done]. intros [= <-].
  destruct (wf_dom _ _ _ _ _ W id) as [[h Hh] _]; [eauto|]. exists h. rewrite Hh.
  split_and!; try done. by eapply (wf_hist _ _ _ _ _ W).
Qed.

Lemma memory_push_only id h st s s' jw :
  spec_job s id = Some jw -> jw_States jw = h ->
  jobs s' = jobs s -> jobStates s' = <[id := h ++ [st]]> (jobStates s) ->
  continuations s' = continuations s -> only_job id (with_state jw st) s s'.
Proof.
  intros Hjw <- HJ HH HC. split; simpl; rewrite ?HJ, ?HH, ?HC; [|intros id' Hne|done].
  - rewrite lookup_insert_eq. simpl in Hjw. by destruct (jobs s !! id); simplify_eq.
  - by rewrite lookup_insert_ne.
Qed.

Lemma memory_inv_same_jobs n m s s' :
  memory_inv n s -> (n <= m)%nat -> wf s' -> jobs s' = jobs s -> memory_inv m s'.
Proof. intros [W U] Hle W' HJ. split; [done|]. rewrite HJ. eauto using used_mono. Qed.

Lemma memory_spec_ApplyState ctx id e st jw n s :
  memory_inv n s -> spec_job s id = Some jw ->
  if decide (CurrentState jw = e) then exists n' s' t,
    ApplyState ctx id e st n s = (n', s', Ok tt) /\ memory_inv n' s' /\
    only_job id (with_state jw (set_st_CreatedAt t st)) s s'
  else exists n', ApplyState ctx id e st n s = (n', s, Err ErrStateConflict) /\ memory_inv n' s.
Proof.
  intros HI Hjw. destruct (memory_view_Some s id jw (proj1 HI) Hjw) as (h & Hj & Hh & Hst & Hne).
  unfold CurrentState. rewrite Hst, <- (cas_state_current h Hne). case_decide as He.
  - assert (exists n' s' t, ApplyState ctx id e st n s = (n', s', Ok tt) /\ (n <= n')%nat /\
      jobStates s' = <[id := h ++ [set_st_CreatedAt t st]]> (jobStates s) /\
      jobs s' = jobs s /\ continuations s' = continuations s) as (n' & s' & t & Hr & Hle & HH & HJ & HC).
    { unfold ApplyState. run_env. rewrite Hh. fold (cas_state h). rewrite He, decide_False by tauto.
      destruct (IsZero (st_CreatedAt st)); cbn; repeat (case_decide; cbn);
        first [by do 3 eexists; split_and!; [reflexivity|lia|reflexivity|done|done]
              |do 2 eexists; exists (st_CreatedAt st); destruct st;
               split_and!; [reflexivity|lia|reflexivity|done|done]]. }
    exists n', s', t. split; [done|]. split; [|by eapply memory_push_only].
    eapply memory_inv_same_jobs; [done|done| |done].
    pose proof (wf_ApplyState ctx id e st n s (proj1 HI)) as W. by rewrite Hr in W.
  - exists n. split; [by eapply ApplyState_conflict_run|done].
Qed.

Lemma memory_spec_ScheduleRetry ctx id a jw n s :
  memory_inv n s -> spec_job s id = Some jw -> CurrentState jw = StateFailed ->
  exists n' s' st, ScheduleRetry ctx id a n s = (n', s', Ok tt) /\ memory_inv n' s' /\
    st_Name st = StateScheduled /\ st_Data st = Some {[ "enqueue_at" := FormatRFC3339 a ]} /\
    only_job id (with_state jw st) s s'.
Proof.
  intros HI Hjw Hc. destruct (memory_view_Some s id jw (proj1 HI) Hjw) as (h & Hj & Hh & Hst & Hne).
  destruct (last_snoc_or h) as [|(h' & x & Hx)]; [done|].
  assert (last h = Some x) as Hl by (rewrite Hx; apply last_snoc).
  assert (st_Name x = StateFailed) as Hxf.
  { unfold CurrentState in Hc. by rewrite Hst, (current_last h x Hl) in Hc. }
  pose proof (wf_ScheduleRetry ctx id a n s (proj1 HI)) as W. revert W.
  unfold ScheduleRetry. run_env. rewrite Hh, Hl, decide_False by tauto. cbn. intros W.
  do 3 eexists. split; [reflexivity|]. split; [|split; [|split]]; [| | |by eapply memory_push_only].
  - eapply memory_inv_same_jobs; [done|lia|done|done].
  - done.
  - done.
Qed.

(** The result as the backend keeps it: at most 64 KiB, in a copy of its own. *)
Definition memory_result (r : bytes) : bytes :=
  bclone (if 65536 <? blen r then bprefix 65536 r else r).

Lemma memory_spec_SetJobResult ctx id r jw n s :
  memory_inv n s -> spec_job s id = Some jw ->
  exists n' s', SetJobResult ctx id r n s = (n', s', Ok tt) /\ memory_inv n' s' /\
    only_job id (with_result jw (memory_result r)) s s'.
Proof.
  intros HI Hjw. destruct (memory_view_Some s id jw (proj1 HI) Hjw) as (h & Hj & Hh & Hst & Hne).
  pose proof (wf_SetJobResult ctx id r n s (proj1 HI)) as W. revert W.
  unfold SetJobResult. run. rewrite Hj. cbn. intros W. do 2 eexists. split; [reflexivity|]. split.
  - split; [done|]. intros x. cbn. rewrite lookup_insert. case_decide; [|apply HI].
    subst. intros _. apply HI. eauto.
  - split; cbn; [|intros id' Hne'|done].
    + rewrite lookup_insert_eq, Hh. unfold with_result. by rewrite Hst.
    + by rewrite lookup_insert_ne.
Qed.

Lemma memory_spec_Enqueue ctx q j n s :
  memory_inv n s -> ID j = "" -> exists n' s' id j' st,
    Enqueue ctx q j n s = (n', s', Ok id) /\ memory_inv n' s' /\ spec_job s id = None /\
    only_job id (mkJobWithStates j' [st]) s s' /\ st_Name st = StateEnqueued /\
    Name j' = Name j /\ Args j' = Args j /\
    Queue j' = (if decide (Queue j = "") then "default" else Queue j) /\
    RetryMax j' = (if decide (RetryMax j = 0) then 10 else RetryMax j) /\ Timeout j' = Timeout j.
Proof.
  intros HI Hj. pose proof (wf_Enqueue ctx q j n s (proj1 HI)) as W. revert W.
  assert (jobs s !! uuid n = None) as Hnone.
  { destruct (jobs s !! uuid n) eqn:Hx; [|done]. destruct (proj2 HI (uuid n)) as (i & Hi & Heq).
    - eauto.
    - apply (inj uuid) in Heq. lia. }
  unfold Enqueue. rewrite decide_True by done. run_env. rewrite ID_enqueue_job. intros W.
  do 5 eexists. split; [reflexivity|]. split_and!.
  - split; [exact W|]. intros x. cbn. rewrite lookup_insert. case_decide as Hx.
    + intros _. subst x. exists n. split; [lia|done].
    + intros Hs. eapply used_mono; [|by apply HI]. lia.
  - by rewrite Hnone.
  - split; cbn; [|intros id' Hne|done].
    + by rewrite !lookup_insert_eq.
    + by rewrite !lookup_insert_ne.
  - done.
  - unfold enqueue_job. by repeat case_decide.
  - unfold enqueue_job. by repeat case_decide.
  - unfold enqueue_job. cbn. destruct (decide (Queue j = "")); by case_decide.
  - unfold enqueue_job. cbn. destruct (decide (Queue j = "")); cbn; by case_decide.
  - unfold enqueue_job. by repeat case_decide.
Qed.

#[export, refine] Instance memory_StorageSpec : StorageSpec Storage := {
  spec_inv := memory_inv;
  spec_live _ := True;
  spec_result_ok _ := True;
  spec_text_ok _ := True;
  spec_job_ok _ := True;
  spec_ids _ := True;
  spec_result := memory_result;
  spec_args b := b;
  spec_timeout d := d;
  spec_state st := st
}.
Proof.
  - done.
  - done.
  - done.
  - intros n s. apply memory_inv_le. lia.
  - intros n s id jw [W _] Hjw.
    destruct (memory_view_Some s id jw W Hjw) as (h & Hj & _ & -> & Hne).
    split; [by apply (wf_key _ _ _ _ _ W)|done].
  - intros ctx id n s _ HI _. exists n. simpl. unfold GetJob. run.
    destruct (jobs s !! id); eexists; split_and!; eauto.
  - intros ctx id e name reason data jw n s _ HI Hjw _ _ _.
    pose proof (memory_spec_ApplyState ctx id e (newJobState name reason data) jw n s HI Hjw) as Ha.
    destruct (decide (CurrentState jw = e)); [|done]. destruct Ha as
      (n' & s' & t & Hr & HI' & Ho). by exists n', s', t.
  - intros. by apply memory_spec_ScheduleRetry.
  - intros. by apply memory_spec_SetJobResult.
  - intros ctx q j n s _ HI Hj Hq <- _.
    destruct (memory_spec_Enqueue ctx (Queue j) j n s HI Hj)
      as (n' & s' & id & j' & st & Hr & HI' & Hnew & Ho & H1 & H2 & H3 & H4 & H5 & H6).
      rewrite decide_False in H4 by done. exists n', s', id, j', st. by split_and!.
  - intros ctx p n s _ HI _. by exists n, (spec_conts s p).
Defined.

Lemma memory_inv_New n : memory_inv n New.
Proof.
  split; [apply wf_New|]. intros id. simpl. rewrite lookup_empty. by intros [].
Qed.
End MemorySpec.
