(* ===== verification/Retry.v ===== *)
(** * Retry delays and engine configuration (internal/engine/retry.go, config.go) *)
From S2P Require Import Prelude.
From S2P Require Import GoTime.

Definition defaultRetryMax : Z := 10.
Definition maxRetryDelay : Duration := Hour.
Definition retryBaseDelay : Duration := Minute.

(** Exponential backoff: one minute doubled per attempt, in 64-bit arithmetic,
    capped at one hour. *)
Definition retry_backoff (attempt : Z) : Duration :=
  let attempt := if attempt <? 0 then 0 else attempt in
  let shift := if 30 <? attempt then 30 else attempt in
  let delay := mul64 retryBaseDelay (wrap64 (Z.shiftl 1 shift)) in
  if maxRetryDelay <? delay then maxRetryDelay else delay.

Definition effectiveRetryMax (retryMax : Z) : Z :=
  if retryMax =? 0 then defaultRetryMax else retryMax.

Section Retry.
Context `{Env} {S : Type}.

Definition RetryDelay (attempt : Z) : M S Duration :=
  jitter <- Int63n Second ;; mret (add64 (retry_backoff attempt) jitter).
End Retry.

(** ** Engine configuration *)
Record Config := mkConfig {
  ServerID : string;
  Workers : Z;
  Queues : list string;
  QueueLimits : gmap string Z;
  DequeueTimeout : Duration;
  DefaultTimeout : Duration;
  ShutdownTimeout : Duration;
  JobHeartbeatInterval : Duration;
  SchedulerInterval : Duration;
  SchedulerBatchSize : Z;
  ServerHeartbeatTTL : Duration;
  ServerHeartbeatEvery : Duration;
  OrphanJobStaleAge : Duration;
  CleanupInterval : Duration;
  JobRetention : Duration
}.

(** [ncpu] is [runtime.NumCPU()]. *)
Definition DefaultConfig (ncpu : Z) : Config :=
  let workers := mul64 ncpu 2 in
  let workers := if workers <? 2 then 2 else workers in
  {| ServerID := "local"; Workers := workers; Queues := ["default"]; QueueLimits := ∅;
     DequeueTimeout := 2 * Second; DefaultTimeout := 30 * Second;
     ShutdownTimeout := 30 * Second; JobHeartbeatInterval := 60 * Second;
     SchedulerInterval := Second; SchedulerBatchSize := 100;
     ServerHeartbeatTTL := 30 * Second; ServerHeartbeatEvery := 0;
     OrphanJobStaleAge := 0; CleanupInterval := 0; JobRetention := 0 |}.

(** [if v <= 0 { v = d }]. *)
Definition positive_or (d v : Z) : Z := if v <=? 0 then d else v.

Definition normalize (ncpu : Z) (c : Config) : Config :=
  {| ServerID := if decide (ServerID c = "") then "local" else ServerID c;
     Workers := positive_or (Workers (DefaultConfig ncpu)) (Workers c);
     Queues := match Queues c with [] => ["default"] | qs => qs end;
     QueueLimits := QueueLimits c;
     DequeueTimeout := positive_or (2 * Second) (DequeueTimeout c);
     DefaultTimeout := positive_or (30 * Second) (DefaultTimeout c);
     ShutdownTimeout := positive_or (30 * Second) (ShutdownTimeout c);
     JobHeartbeatInterval := positive_or (60 * Second) (JobHeartbeatInterval c);
     SchedulerInterval := positive_or Second (SchedulerInterval c);
     SchedulerBatchSize := positive_or 100 (SchedulerBatchSize c);
     ServerHeartbeatTTL := positive_or (30 * Second) (ServerHeartbeatTTL c);
     ServerHeartbeatEvery := positive_or (5 * Second) (ServerHeartbeatEvery c);
     OrphanJobStaleAge := positive_or (5 * Minute) (OrphanJobStaleAge c);
     CleanupInterval := CleanupInterval c;
     JobRetention := JobRetention c |}.

(** What the loops of the engine need of a configuration: timers with a positive
    period ([time.NewTicker] panics otherwise), at least one worker, at least one
    queue, a positive batch and a positive job timeout. *)
Record config_ok (c : Config) : Prop := {
  ok_server : ServerID c <> "";
  ok_workers : 0 < Workers c;
  ok_queues : Queues c <> [];
  ok_dequeue : 0 < DequeueTimeout c;
  ok_timeout : 0 < DefaultTimeout c;
  ok_shutdown : 0 < ShutdownTimeout c;
  ok_heartbeat : 0 < JobHeartbeatInterval c;
  ok_scheduler : 0 < SchedulerInterval c;
  ok_batch : 0 < SchedulerBatchSize c;
  ok_ttl : 0 < ServerHeartbeatTTL c;
  ok_every : 0 < ServerHeartbeatEvery c;
  ok_orphan : 0 < OrphanJobStaleAge c;
}.

(** ** Lemmas *)
Lemma positive_or_pos d v : 0 < d -> 0 < positive_or d v.
Proof. unfold positive_or. destruct (Z.leb_spec v 0); lia. Qed.

Lemma positive_or_id d v : 0 < v -> positive_or d v = v.
Proof. unfold positive_or. destruct (Z.leb_spec v 0); lia. Qed.

Lemma DefaultConfig_workers ncpu : 0 < Workers (DefaultConfig ncpu).
Proof. simpl. destruct (Z.ltb_spec (mul64 ncpu 2) 2); lia. Qed.

Lemma normalize_ok ncpu c : config_ok (normalize ncpu c).
Proof.
  split; simpl; try (apply positive_or_pos; done).
  - by case_decide.
  - apply positive_or_pos, DefaultConfig_workers.
  - by destruct (Queues c).
Qed.

Lemma normalize_id ncpu c : config_ok c -> normalize ncpu c = c.
Proof.
  intros []. destruct c; unfold normalize; simpl in *.
  rewrite !positive_or_id by done. rewrite decide_False by done. by case_match.
Qed.

(** The backoff without overflow. *)
Definition backoff_base (a : Z) : Z := Z.min Hour (Minute * 2 ^ a).

Definition backoff_check (a : Z) : bool :=
  if (a =? 28) || (a =? 29) then (retry_backoff a + Second <=? 0) && (- 2 ^ 63 <=? retry_backoff a)
  else retry_backoff a =? backoff_base a.

Lemma backoff_checked a : 0 <= a <= 30 -> backoff_check a = true.
Proof.
  intros Ha. assert (forallb (fun k => backoff_check (Z.of_nat k)) (List.seq 0 31) = true) as Hf
    by (vm_compute; reflexivity).
  rewrite forallb_forall in Hf. rewrite <- (Z2Nat.id a) by lia. apply Hf, in_seq. lia.
Qed.

Lemma backoff_base_top a : 30 <= a -> backoff_base a = Hour.
Proof.
  intros Ha. unfold backoff_base. assert (2 ^ 30 <= 2 ^ a) by (apply Z.pow_le_mono_r; lia).
  change (2 ^ 30) with 1073741824 in *. unfold Hour, Minute, Second. lia.
Qed.

Lemma retry_backoff_neg a : a < 0 -> retry_backoff a = retry_backoff 0.
Proof. intros Ha. unfold retry_backoff. by rewrite (proj2 (Z.ltb_lt a 0) Ha). Qed.

Lemma retry_backoff_big a : 30 <= a -> retry_backoff a = retry_backoff 30.
Proof.
  intros Ha. unfold retry_backoff. rewrite (proj2 (Z.ltb_ge a 0)) by lia.
  destruct (Z.ltb_spec 30 a); [done|]. by replace a with 30 by lia.
Qed.

(** The backoff before jitter, on every attempt number. *)
Lemma retry_backoff_cases attempt :
  let a := Z.max 0 attempt in
  if (a =? 28) || (a =? 29) then - 2 ^ 63 <= retry_backoff attempt <= - Second
  else retry_backoff attempt = backoff_base a.
Proof.
  intros a. assert (retry_backoff attempt = retry_backoff a) as ->.
  { destruct (Z.le_gt_cases 0 attempt) as [?|?]; [by replace a with attempt by lia|].
    rewrite retry_backoff_neg by done. by replace a with 0 by lia. }
  destruct (Z.le_gt_cases a 30) as [Ha|Ha].
  - pose proof (backoff_checked a) as Hc. unfold backoff_check in Hc.
    destruct ((a =? 28) || (a =? 29)); [|lia].
    specialize (Hc ltac:(lia)). apply andb_prop in Hc. lia.
  - rewrite retry_backoff_big by lia.
    rewrite (proj2 (Z.eqb_neq a 28)), (proj2 (Z.eqb_neq a 29)) by lia. simpl.
    rewrite (backoff_base_top a) by lia. vm_compute. reflexivity.
Qed.

Lemma backoff_base_bounds a : 0 <= a -> Minute <= backoff_base a <= Hour.
Proof.
  intros Ha. unfold backoff_base. assert (0 < 2 ^ a) by (apply Z.pow_pos_nonneg; lia).
  unfold Hour, Minute, Second. lia.
Qed.

Section Properties.
Context `{Env}.

(** C39. RetryDelay terminates with exponential backoff plus less than a second of jitter: between
    min(1h, 1min * 2^attempt) and one second more, at every attempt (a negative one counts as 0)
    except 28 and 29, where the 64-bit product overflows and the delay is negative, so that the
    retry is due at once. *)
Theorem retry_delay_bounds {S} attempt n (s : S) : exists d,
  RetryDelay attempt n s = (Datatypes.S n, s, Ok d) /\
  let a := Z.max 0 attempt in
  if (a =? 28) || (a =? 29) then d < 0
  else Z.min Hour (Minute * 2 ^ a) <= d < Z.min Hour (Minute * 2 ^ a) + Second.
Proof.
  exists (add64 (retry_backoff attempt) (rnd n mod Second)). split; [done|]. intros a.
  pose proof (retry_backoff_cases attempt) as Hc. fold a in Hc. cbv zeta in Hc.
  pose proof (backoff_base_bounds a ltac:(lia)) as Hb. fold (backoff_base a).
  assert (0 <= rnd n mod Second < Second) as Hj by (apply Z.mod_pos_bound; done).
  unfold Hour, Minute, Second in *.
  destruct ((a =? 28) || (a =? 29)); unfold add64; rewrite wrap64_small; unfold int64_ok; lia.
Qed.

(** Normalisation makes every configuration usable: non-empty server name and queues, at
    least one worker, positive periods, batch and timeouts; it keeps a usable one as it is, so
    that applying it twice changes nothing more. *)
Lemma normalize_usable ncpu ncpu' c :
  config_ok (normalize ncpu c) /\ normalize ncpu' (normalize ncpu c) = normalize ncpu c /\
  QueueLimits (normalize ncpu c) = QueueLimits c /\
  (Queues c <> [] -> Queues (normalize ncpu c) = Queues c) /\
  (0 < Workers c -> Workers (normalize ncpu c) = Workers c).
Proof.
  pose proof (normalize_ok ncpu c) as Hok. split_and!; try done.
  - by apply normalize_id.
  - intros Hq. simpl. by destruct (Queues c).
  - intros Hw. simpl. by rewrite positive_or_id.
Qed.
End Properties.
