(* ===== verification/Handler.v ===== *)
(** * Job handlers and the middleware pipeline (internal/handler, internal/middleware)

    A runner is a computation over the state [E] of whatever the process shares:
    it may take long, and other goroutines act on that state meanwhile. *)
From S2P Require Import Prelude.
From S2P Require Import GoTime.
From S2P Require Import Job.

Definition MaxResultBytes : Z := 64 * 1024.

(** Go's pair of results [(stdout []byte, err error)]. *)
Definition output : Type := bytes * option error.

(** [handler.Runner]: [Run(ctx, job)]; the context is known by its address. *)
Definition Runner (E : Type) : Type := nat -> Job -> M E output.

Definition trimResult (b : bytes) : bytes :=
  if blen b <=? MaxResultBytes then b else bprefix MaxResultBytes b.

#[global] Arguments trimResult : simpl never.

(** ** [strings.TrimSpace]

    The UTF-8 encodings of the characters [unicode.IsSpace] accepts. *)
Definition byte_string (l : list nat) : string :=
  String.string_of_list_ascii (ascii_of_nat <$> l).

Definition spaces : list string :=
  (fun b => byte_string [b]) <$> [9; 10; 11; 12; 13; 32]%nat.

Definition wide_spaces : list string :=
  byte_string <$> [[194; 133]; [194; 160]; [225; 154; 128]; [226; 128; 168]; [226; 128; 169];
    [226; 128; 175]; [226; 129; 159]; [227; 128; 128]]%nat
  ++ ((fun b => [226; 128; b]%nat) <$> seq 128 11).

(** The text without the first of [ps] it starts with. *)
Fixpoint strip_prefix (ps : list string) (s : string) : option string :=
  match ps with
  | [] => None
  | p :: ps' =>
    if String.prefix p s
    then Some (String.substring (String.length p) (String.length s - String.length p) s)
    else strip_prefix ps' s
  end.

Fixpoint trim_prefixes (fuel : nat) (ps : list string) (s : string) : string :=
  match fuel with
  | O => s
  | S fuel => match strip_prefix ps s with
              | Some s' => trim_prefixes fuel ps s'
              | None => s
              end
  end.

Definition TrimLeft (s : string) : string :=
  trim_prefixes (String.length s) (spaces ++ wide_spaces) s.

Definition TrimRight (s : string) : string :=
  String.rev (trim_prefixes (String.length s) (String.rev <$> spaces ++ wide_spaces) (String.rev s)).

Definition TrimSpace (s : string) : string := TrimRight (TrimLeft s).

(** ** Runners *)

(** What the operating system reports of a handler process; [cmd.Wait()] gives
    an error for a non-zero exit or a signal. *)
Inductive process_result :=
  | StartFailed (err : error)
  | ContextDone (err : error)
  | Exited (stdout : bytes) (stderr : string) (wait_err : option error).

(** [handler.Registry]: handler name to command path. *)
Definition Registry : Type := gmap string string.

Section Runners.
Context {E : Type}.

(** Starting the command with [args] on its standard input, and waiting for it
    or for the context at this address. *)
Variable exec_command : nat -> string -> bytes -> M E process_result.

Definition runSubprocess (ctx : nat) (cmdPath : string) (args : bytes) : M E output :=
  r <- exec_command ctx cmdPath args ;;
  mret match r with
  | StartFailed err => (None, Some (ErrWrap ("start handler: " +:+ Error err) err))
  | ContextDone err => (None, Some err)
  | Exited stdout stderr wait_err =>
    let out := trimResult stdout in
    match wait_err with
    | Some err =>
      let msg := TrimSpace stderr in
      if decide (msg <> "") then (out, Some (ErrWrap (Error err +:+ ": " +:+ msg) err))
      else (out, Some err)
    | None => (out, None)
    end
  end.

Definition Registry_Run (r : Registry) : Runner E := fun ctx job =>
  match r !! Name job with
  | None => mret (None, Some (ErrText ("unknown handler: " +:+ Name job)))
  | Some cmdPath => runSubprocess ctx cmdPath (Args job)
  end.

Definition NopRunner : Runner E := fun _ _ => mret (None, None).

Definition EchoRunner : Runner E := fun _ job =>
  match Args job with
  | None => mret (Some "{}", None)
  | Some s => mret (trimResult (Some s), None)
  end.
End Runners.

(** ** The pipeline *)

(** [middleware.JobContext]; its logger, storage handle and [Items] map are not
    used by the middleware of the program. *)
Record JobContext := mkJobContext {
  jc_Context : nat;
  jc_Job : Job;
  jc_Attempt : Z;
  jc_StartedAt : Time
}.

Section Pipeline.
Context `{Env} {E : Type}.

Definition NewJobContext (ctx : nat) (job : Job) (attempt : Z) : M E JobContext :=
  now <- time_Now ;; mret (mkJobContext ctx job attempt now).

Definition HandlerFunc : Type := JobContext -> M E output.
Definition MiddlewareFunc : Type := JobContext -> HandlerFunc -> HandlerFunc.

Record Pipeline := mkPipeline { middlewares : list MiddlewareFunc; runner : Runner E }.

(** The loop of [Execute]: from the last middleware to the first, each closure
    wraps the one built before it. *)
Definition Execute (p : Pipeline) (ctx : JobContext) : M E output :=
  let innermost : HandlerFunc := fun c => runner p (jc_Context c) (jc_Job c) in
  foldr (fun (mw : MiddlewareFunc) (next : HandlerFunc) => fun c => mw c next c)
    innermost (middlewares p) ctx.

(** [defer func() { if r := recover(); r != nil { err = ... } }()]: the result
    was not assigned when the panic unwinds, so it is nil. *)
Definition mrecover (m : M E output) : M E output := fun n s =>
  match m n s with
  | (n', s', Panic p) => (n', s', Ok (None, Some (ErrText ("panic: " +:+ p))))
  | r => r
  end.

Definition PanicRecovery : MiddlewareFunc := fun ctx next c => mrecover (next c).
End Pipeline.

#[global] Arguments Pipeline : clear implicits.
#[global] Arguments HandlerFunc : clear implicits.
#[global] Arguments MiddlewareFunc : clear implicits.

(** [AttemptCount]: prior Failed states. *)
Definition AttemptCount (states : list JobState) : Z :=
  fold_left (fun n st => if decide (st_Name st = StateFailed) then n + 1 else n) states 0.

(** ** Lemmas *)
Lemma trimResult_bound b : blen (trimResult b) <= MaxResultBytes.
Proof.
  unfold trimResult. destruct (Z.leb_spec (blen b) MaxResultBytes) as [|Hb]; [done|].
  destruct b as [s|]; [|unfold blen in Hb; unfold MaxResultBytes in Hb; lia].
  unfold bprefix, blen, MaxResultBytes. assert (forall k n (s : string),
    (String.length (String.substring k n s) <= n)%nat) as Hsub.
  { clear. intros k n s. revert k n. induction s as [|c s IH]; intros [|k] [|n]; simpl; try lia.
    - specialize (IH 0%nat n). lia.
    - apply (IH k 0%nat).
    - apply (IH k (S n)). }
  specialize (Hsub 0%nat (Z.to_nat (64 * 1024)) s). lia.
Qed.

Lemma AttemptCount_from states k :
  fold_left (fun n st => if decide (st_Name st = StateFailed) then n + 1 else n) states k
  = k + AttemptCount states.
Proof.
  unfold AttemptCount. revert k. induction states as [|st states IH]; intros k; simpl; [lia|].
  rewrite IH, (IH (if decide _ then _ else _)). case_decide; lia.
Qed.

Lemma AttemptCount_snoc states st :
  AttemptCount (states ++ [st])
  = AttemptCount states + if decide (st_Name st = StateFailed) then 1 else 0.
Proof. unfold AttemptCount. rewrite fold_left_app. simpl. case_decide; lia. Qed.

Lemma AttemptCount_nonneg states : 0 <= AttemptCount states.
Proof.
  induction states as [|st states IH] using rev_ind; [done|]. rewrite AttemptCount_snoc.
  case_decide; lia.
Qed.

Example trim_space : TrimSpace (" boom" +:+ String "010" "") = "boom".
Proof. reflexivity. Qed.

Section RegistryRuns.
Context {E : Type}.

Lemma errors_Is_wrap t e target : errors_Is (ErrWrap t e) target = errors_Is e target.
Proof. by destruct target. Qed.

(** Running a configured handler: an unknown name is an error and starts no process; otherwise
    the standard output kept is at most 64 KiB, the run succeeds exactly when the process exits
    with status 0, the end of the context is reported as its own error, and a failing process
    keeps its output and an error that [errors.Is] still recognises under the text of its
    standard error. *)
Theorem registry_outcome (exec_command : nat -> string -> bytes -> M E process_result)
    (r : Registry) ctx job n s :
  match r !! Name job with
  | None => Registry_Run exec_command r ctx job n s
            = (n, s, Ok (None, Some (ErrText ("unknown handler: " +:+ Name job))))
  | Some cmd =>
    match exec_command ctx cmd (Args job) n s with
    | (n', s', Ok pr) => exists out err,
        Registry_Run exec_command r ctx job n s = (n', s', Ok (out, err)) /\
        blen out <= MaxResultBytes /\
        match pr with
        | StartFailed e => exists e', err = Some e' /\ out = None /\
            forall target, errors_Is e' target = errors_Is e target
        | ContextDone e => err = Some e /\ out = None
        | Exited stdout _ None => err = None /\ out = trimResult stdout
        | Exited stdout _ (Some e) => out = trimResult stdout /\ exists e', err = Some e' /\
            forall target, errors_Is e' target = errors_Is e target
        end
    | _ => True
    end
  end.
Proof.
  unfold Registry_Run. destruct (r !! Name job) as [cmd|]; [|done].
  destruct (exec_command ctx cmd (Args job) n s) as [[n' s'] [pr|e|p|p]] eqn:He; try done.
  unfold runSubprocess. erewrite mbind_ok by exact He.
  assert (forall b, blen (trimResult b) <= MaxResultBytes) as Hb by apply trimResult_bound.
  destruct pr as [e|e|stdout stderr [e|]].
  - do 2 eexists. split; [reflexivity|]. split; [done|]. eexists. split_and!; [done|done|].
    apply errors_Is_wrap.
  - do 2 eexists. split; [reflexivity|]. done.
  - destruct (decide (TrimSpace stderr <> "")).
    + do 2 eexists. split; [reflexivity|]. split; [done|]. split; [done|]. eexists. split; [done|].
      apply errors_Is_wrap.
    + do 2 eexists. split; [reflexivity|]. split; [done|]. split; [done|]. by eexists.
  - do 2 eexists. split; [reflexivity|]. done.
Qed.
End RegistryRuns.
