(* ===== verification/Json.v ===== *)
(** * JSON

    The part of [encoding/json] the program uses, as an interface: decoding into
    [any] and into [map[string]any], and encoding.  A [json] is a value decoding
    can produce; the text syntax and the float64 reading of numbers are behind
    the interface. *)
From S2P Require Import Prelude.

Class Json := {
  json : Type;
  (** [json.Unmarshal(data, &v)] with [var v any]. *)
  json_Unmarshal : string -> option json;
  (** Decoding the same value into a [map[string]any]: [None] when it is neither an object
      nor null, [Some None] (the nil map) for null. *)
  json_object : json -> option (option (gmap string json));
  json_of_object : gmap string json -> json;
  (** [json.Marshal]. *)
  json_Marshal : json -> option string;
  json_object_of : forall m, json_object (json_of_object m) = Some (Some m);
  json_Marshal_total : forall v, is_Some (json_Marshal v);
  json_roundtrip : forall v t, json_Marshal v = Some t -> json_Unmarshal t = Some v;
  json_nonempty : forall v t, json_Marshal v = Some t -> t <> "";
}.

(** ** A concrete codec

    Values are trees; their text is the binary numeral of their encoding as a
    positive number. *)
Fixpoint bits (p : positive) : string :=
  match p with
  | xH => "1"
  | xO p => String "0"%char (bits p)
  | xI p => String "1"%char (bits p)
  end.

Fixpoint unbits (s : string) : option positive :=
  match s with
  | EmptyString => None
  | String c EmptyString => if decide (c = "1"%char) then Some xH else None
  | String c s' =>
    (fun p => if decide (c = "1"%char) then xI p else xO p) <$> unbits s'
  end.

Lemma bits_nonempty p : bits p <> "".
Proof. by destruct p. Qed.

Lemma unbits_bits p : unbits (bits p) = Some p.
Proof.
  induction p as [p IH|p IH|]; [| |done]; simpl; rewrite IH; simpl;
    by destruct (bits p) eqn:Hb; [destruct (bits_nonempty p)|].
Qed.

Definition tree : Type := gen_tree string.

Definition tree_pair (t : tree) : option (string * tree) :=
  match t with GenNode 1 [GenLeaf k; v] => Some (k, v) | _ => None end.

Definition tree_of_object (m : gmap string tree) : tree :=
  GenNode 0 ((fun kv => GenNode 1 [GenLeaf kv.1; kv.2]) <$> map_to_list m).

Definition tree_object (t : tree) : option (option (gmap string tree)) :=
  match t with
  | GenNode 0 l => Some (Some (list_to_map (omap tree_pair l)))
  | GenNode 2 [] => Some None
  | _ => None
  end.

Definition tree_Marshal (t : tree) : option string := Some (bits (encode t)).

Definition tree_Unmarshal (s : string) : option tree :=
  match unbits s with Some p => decode p | None => None end.

Lemma tree_pairs (l : list (string * tree)) :
  omap tree_pair ((fun kv => GenNode 1 [GenLeaf kv.1; kv.2]) <$> l) = l.
Proof. induction l as [|[k v] l IH]; [done|]. csimpl. f_equal. exact IH. Qed.

Lemma tree_object_of m : tree_object (tree_of_object m) = Some (Some m).
Proof.
  unfold tree_object, tree_of_object. do 2 f_equal. rewrite tree_pairs. apply list_to_map_to_list.
Qed.

Definition tree_Json : Json.
Proof.
  refine {| json := tree; json_Unmarshal := tree_Unmarshal; json_object := tree_object;
            json_of_object := tree_of_object; json_Marshal := tree_Marshal |}.
  - exact tree_object_of.
  - eauto.
  - intros v t [= <-]. unfold tree_Unmarshal. rewrite unbits_bits. apply decode_encode.
  - intros v t [= <-]. apply bits_nonempty.
Defined.
