(* ===== verification/Engine.v ===== *)
(** * The engine (internal/engine: engine.go, worker.go, continuations.go, coordinator.go)

    The state one engine process keeps besides the storage, and one definition
    per method.  The mutexes [activeMu] and [cancelMu] guard single map accesses,
    each one atomic step here.  Loops are modelled by the body of one turn;
    timers decide when a turn runs, goroutines when it interleaves.  Logging is
    left out.  A context created by the engine is an address in [contexts], so
    that cancelling it is seen by whoever holds it. *)
From S2P Require Import Prelude.
From S2P Require Import GoTime.
From S2P Require Import Job.
From S2P Require Import StorageI.
From S2P Require Import Retry.
From S2P Require Import Handler.
From S2P Require Import Json.

(** The goroutines [Start] launches. *)
Inductive loop :=
  | WorkerLoop (i : nat) | SchedulerLoop | CoordinatorLoop | CleanupLoop | RecurringLoop.

Record Engine (S : Type) := mkEngine {
  eng_storage : S;
  runCtx : option nat;                (** address of the run context; nil before [Start] *)
  active : gmap string Z;             (** queue to in-flight count *)
  cancels : gmap string nat;          (** job to the context its cancel function cancels *)
  contexts : gmap nat (option nat * Ctx);   (** each context with its parent and its state *)
  loops : list loop;
  startOnce : bool;
  stopOnce : bool
}.
Arguments mkEngine {S}.
Arguments eng_storage {S}.
Arguments runCtx {S}.
Arguments active {S}.
Arguments cancels {S}.
Arguments contexts {S}.
Arguments loops {S}.
Arguments startOnce {S}.
Arguments stopOnce {S}.

Section Fields.
Context {S : Type}.
Definition set_storage (v : S) (e : Engine S) : Engine S :=
  mkEngine v (runCtx e) (active e) (cancels e) (contexts e) (loops e) (startOnce e) (stopOnce e).
Definition set_runCtx (v : option nat) (e : Engine S) : Engine S :=
  mkEngine (eng_storage e) v (active e) (cancels e) (contexts e) (loops e) (startOnce e) (stopOnce e).
Definition upd_active (f : gmap string Z -> gmap string Z) (e : Engine S) : Engine S :=
  mkEngine (eng_storage e) (runCtx e) (f (active e)) (cancels e) (contexts e) (loops e) (startOnce e) (stopOnce e).
Definition upd_cancels (f : gmap string nat -> gmap string nat) (e : Engine S) : Engine S :=
  mkEngine (eng_storage e) (runCtx e) (active e) (f (cancels e)) (contexts e) (loops e) (startOnce e) (stopOnce e).
Definition upd_contexts (f : gmap nat (option nat * Ctx) -> gmap nat (option nat * Ctx))
    (e : Engine S) : Engine S :=
  mkEngine (eng_storage e) (runCtx e) (active e) (cancels e) (f (contexts e)) (loops e) (startOnce e) (stopOnce e).
Definition upd_loops (f : list loop -> list loop) (e : Engine S) : Engine S :=
  mkEngine (eng_storage e) (runCtx e) (active e) (cancels e) (contexts e) (f (loops e)) (startOnce e) (stopOnce e).
Definition set_startOnce (e : Engine S) : Engine S :=
  mkEngine (eng_storage e) (runCtx e) (active e) (cancels e) (contexts e) (loops e) true (stopOnce e).
Definition set_stopOnce (e : Engine S) : Engine S :=
  mkEngine (eng_storage e) (runCtx e) (active e) (cancels e) (contexts e) (loops e) (startOnce e) true.
End Fields.

(** [defer]: the deferred call runs after [m], on return and on panic. *)
Definition mdefer {E A} (deferred : M E unit) (m : M E A) : M E A := fun n s =>
  match m n s with
  | (n', s', Fatal p) => (n', s', Fatal p)
  | (n', s', r) => let '(n2, s2, _) := deferred n' s' in (n2, s2, r)
  end.

(** A context is done with its own error, or else with that of the nearest done
    context it derives from; [fuel] bounds the length of the chain. *)
Fixpoint ctx_lookup (fuel : nat) (m : gmap nat (option nat * Ctx)) (addr : nat) : Ctx :=
  match m !! addr with
  | None => Live
  | Some (_, Done err) => Done err
  | Some (None, Live) => Live
  | Some (Some parent, Live) =>
    match fuel with O => Live | Datatypes.S fuel => ctx_lookup fuel m parent end
  end.

Definition continuationMatches (terminalState condition : string) : bool :=
  if decide (condition = ConditionOnSucceeded) then bool_decide (terminalState = StateSucceeded)
  else if decide (condition = ConditionOnFailed)
  then bool_decide (terminalState = StateFailed) || bool_decide (terminalState = StateDead)
  else if decide (condition = ConditionOnAny) then true
  else false.

#[global] Arguments continuationMatches : simpl never.

(** The object the child's arguments decode to; any other text counts as an
    empty object. *)
Definition args_object `{Json} (childArgs : bytes) : gmap string json :=
  match childArgs with
  | Some s =>
    if 0 <? blen childArgs then
      match json_Unmarshal s with
      | Some v => match json_object v with Some (Some m) => m | _ => ∅ end
      | None => ∅
      end
    else ∅
  | None => ∅
  end.

Definition mergeContinuationArgs `{Json} (parentResult childArgs : bytes) : bytes :=
  if blen parentResult =? 0 then bclone childArgs else
  let base := args_object childArgs in
  let base := match parentResult with
              | Some r => match json_Unmarshal r with
                          | Some pr => <["_parent_result" := pr]> base
                          | None => base
                          end
              | None => base
              end in
  match json_Marshal (json_of_object base) with
  | Some out => Some out
  | None => bclone childArgs
  end.

#[global] Arguments mergeContinuationArgs : simpl never.

Section Methods.
Context `{Env} `{Json} {S : Type} `{StorageI S}.

(** The configuration of the engine, normalised by [New], and its pipeline. *)
Variable cfg : Config.
Variable pipeline : Pipeline (Engine S).

Abbreviation E := (Engine S).

(** A call to the storage. *)
Definition on_storage {A} (m : M S A) : M E A := mlift eng_storage set_storage m.

(** [if err := call; err != nil { log }]. *)
Definition ignore_error {A} (m : M E A) : M E unit := mtry m ;;; mret tt.

(** ** Contexts *)

(** The state of a context: [ctx.Err()]. *)
Definition ctx_state (addr : nat) : M E Ctx :=
  mgets (fun e => ctx_lookup (size (contexts e)) (contexts e) addr).

(** [context.WithTimeout(parent, timeout)]: done at once when the deadline has
    passed; the end of the parent is seen through the chain. *)
Definition WithTimeout (parent : nat) (timeout : Duration) : M E nat :=
  c <- ctx_state parent ;;
  let c := match c with
           | Live => if timeout <=? 0 then Done ContextDeadlineExceeded else Live
           | Done _ => Live
           end in
  addr <- new_addr ;;
  mmodify (upd_contexts <[addr := (Some parent, c)]>) ;;;
  mret addr.

(** A context ends with [err], unless it has ended already. *)
Definition end_context (addr : nat) (err : error) : M E unit :=
  c <- ctx_state addr ;;
  match c with
  | Done _ => mret tt
  | Live => mmodify (upd_contexts (alter (fun pc : option nat * Ctx => (pc.1, Done err)) addr))
  end.

(** The cancel function of a context. *)
Definition cancel (addr : nat) : M E unit := end_context addr ContextCanceled.

(** The timer of a context fires. *)
Definition deadline (addr : nat) : M E unit := end_context addr ContextDeadlineExceeded.

(** [e.runCtx], which is nil before [Start]. *)
Definition run_ctx : M E nat :=
  e <- mget ;;
  match runCtx e with Some c => mret c | None => mpanic "nil pointer dereference" end.

Definition run_ctx_state : M E Ctx := c <- run_ctx ;; ctx_state c.

(** ** Cancellation of jobs *)

Definition registerCancel (jobID : string) (addr : nat) : M E unit :=
  mmodify (upd_cancels <[jobID := addr]>).

Definition unregisterCancel (jobID : string) : M E unit :=
  mmodify (upd_cancels (delete jobID)).

Definition CancelJob (jobID : string) : M E unit :=
  e <- mget ;;
  match cancels e !! jobID with
  | None => mthrow ErrNotProcessing
  | Some addr => cancel addr
  end.

(** ** In-flight counts *)

Definition incActive (queue : string) : M E unit :=
  mmodify (upd_active (fun a => <[queue := add64 (default 0 (a !! queue)) 1]> a)).

Definition decActive (queue : string) : M E unit :=
  mmodify (upd_active (fun a =>
    if 0 <? default 0 (a !! queue) then <[queue := sub64 (default 0 (a !! queue)) 1]> a else a)).

Definition ActiveCount : M E Z :=
  mgets (fun e => map_fold (fun _ c n => add64 n c) 0 (active e)).

Definition under_limit (a : gmap string Z) (q : string) : bool :=
  let limit := default 0 (QueueLimits cfg !! q) in
  (limit <=? 0) || (default 0 (a !! q) <? limit).

Definition queuesUnderLimit : M E (list string) :=
  mgets (fun e => filter (fun q => under_limit (active e) q) (Queues cfg)).

(** ** The scheduler *)

Definition tickScheduler : M E unit :=
  ctx <- run_ctx_state ;;
  now <- time_Now ;;
  ignore_error (on_storage (storage_GetDueScheduled ctx now (SchedulerBatchSize cfg))).

(** ** Settling a job *)

Definition jobTimeout (job : Job) : Duration :=
  if 0 <? Timeout job then Timeout job else DefaultTimeout cfg.

(** The state the job ended in, "" when it will be retried. *)
Definition finalizeSuccess (ctx : Ctx) (jobID : string) (result : bytes) : M E string :=
  (if 0 <? blen result then on_storage (storage_SetJobResult ctx jobID result) else mret tt) ;;;
  on_storage (storage_ApplyState ctx jobID StateProcessing (newJobState StateSucceeded "" None)) ;;;
  mret StateSucceeded.

Definition finalizeFailure (ctx : Ctx) (job : Job) (attempt : Z) (execErr : error) : M E string :=
  let reason := Error execErr in
  if errors_Is execErr ContextCanceled || errors_Is execErr ContextDeadlineExceeded then
    on_storage (storage_ApplyState ctx (ID job) StateProcessing
      (newJobState StateCancelled reason None)) ;;;
    mret StateCancelled
  else
    on_storage (storage_ApplyState ctx (ID job) StateProcessing
      (newJobState StateFailed reason (Some {[ "attempt" := Itoa (add64 attempt 1) ]}))) ;;;
    let max := effectiveRetryMax (RetryMax job) in
    if max <=? add64 attempt 1 then
      on_storage (storage_ApplyState ctx (ID job) StateFailed
        (newJobState StateDead "retry exhausted" None)) ;;;
      mret StateDead
    else
      now <- time_Now ;;
      delay <- RetryDelay attempt ;;
      on_storage (storage_ScheduleRetry ctx (ID job) (Add now delay)) ;;;
      mret "".

(** ** Continuations *)

(** One turn of the loop over the entries. *)
Definition fireContinuation (ctx : Ctx) (parentResult : bytes) (terminalState : string)
    (entry : ContinuationEntry) : M E unit :=
  if negb (continuationMatches terminalState (ce_Condition entry)) then mret tt else
  let args := mergeContinuationArgs parentResult (ce_ChildArgs entry) in
  let queue := if decide (ce_ChildQueue entry = "") then "default" else ce_ChildQueue entry in
  ignore_error (on_storage (storage_Enqueue ctx queue (newJob (ce_ChildName entry) args queue 0))).

Definition fireContinuations (ctx : Ctx) (parentID terminalState : string) : M E unit :=
  entries <- mtry (on_storage (storage_GetContinuations ctx parentID)) ;;
  match entries with
  | inr _ => mret tt
  | inl [] => mret tt
  | inl entries =>
    parent <- mtry (on_storage (storage_GetJob ctx parentID)) ;;
    match parent with
    | inr _ => mret tt
    | inl parent =>
      mfor entries (fireContinuation ctx (Result (jw_Job parent)) terminalState)
    end
  end.

(** ** Workers *)

(** The tail of [processTicket], once the handler has returned. *)
Definition settle (ctx : Ctx) (job : Job) (attempt : Z) (out : output) : M E unit :=
  terminal <- mtry (match out with
    | (result, None) => finalizeSuccess ctx (ID job) result
    | (_, Some execErr) => finalizeFailure ctx job attempt execErr
    end) ;;
  match terminal with
  | inr _ => mret tt
  | inl t => if decide (t <> "") then fireContinuations Live (ID job) t else mret tt
  end.

(** The heartbeats of [jobHeartbeat] run beside the handler: they are among the
    actions a runner interleaves with. *)
Definition heartbeatTick (jobID : string) : M E unit :=
  ignore_error (on_storage (storage_HeartbeatJob Live jobID)).

Definition processTicket (ticket : JobTicket) : M E unit :=
  jw <- mtry (on_storage (storage_GetJob Live (jt_JobID ticket))) ;;
  match jw with
  | inr _ => mret tt
  | inl jw =>
    let job := jw_Job jw in
    incActive (Queue job) ;;;
    mdefer (decActive (Queue job)) (
      let attempt := AttemptCount (jw_States jw) in
      parent <- run_ctx ;;
      jobCtx <- WithTimeout parent (jobTimeout job) ;;
      mdefer (cancel jobCtx) (
        registerCancel (ID job) jobCtx ;;;
        mdefer (unregisterCancel (ID job)) (
          mctx <- NewJobContext jobCtx job attempt ;;
          out <- Execute pipeline mctx ;;
          ctx <- ctx_state jobCtx ;;
          settle ctx job attempt out)))
  end.

(** What a turn of [workerLoop] leads to; [Blocked] is a turn still asleep when
    the list of its awakenings ends. *)
Inductive next := Return | Continue | Blocked.

Definition next_backoff (backoff : Duration) : Duration :=
  let backoff := mul64 backoff 2 in
  if 2 * Second <? backoff then 2 * Second else backoff.

(** The inner loop: sleep [backoff], or be woken by the end of the engine.  Each
    awakening comes after what the other goroutines did. *)
Fixpoint backoffLoop (backoff : Duration) (sleeps : list (M E unit)) : M E next :=
  match sleeps with
  | [] => mret Blocked
  | others :: sleeps =>
    interleave others ;;;
    ctx <- run_ctx_state ;;
    match ctx with
    | Done _ => mret Return
    | Live =>
      queues <- queuesUnderLimit ;;
      if decide (0 < length queues)%nat then mret Continue
      else backoffLoop (next_backoff backoff) sleeps
    end
  end.

Definition isQueueEmpty (err : error) : bool := errors_Is err ErrQueueEmpty.

(** One turn of [workerLoop]. *)
Definition workerTurn (sleeps : list (M E unit)) (wakes : list (wake S)) : M E next :=
  ctx <- run_ctx_state ;;
  match ctx with
  | Done _ => mret Return
  | Live =>
    queues <- queuesUnderLimit ;;
    if decide (length queues = 0%nat) then backoffLoop (100 * Millisecond) sleeps else
    ticket <- mtry (on_storage (storage_Dequeue Live queues (DequeueTimeout cfg) wakes)) ;;
    match ticket with
    | inr err =>
      if errors_Is err ContextCanceled || errors_Is err ContextDeadlineExceeded then mret Return
      else if isQueueEmpty err then mret Continue
      else mret Continue
    | inl None => mret Blocked
    | inl (Some ticket) => processTicket ticket ;;; mret Continue
    end
  end.

(** ** The coordinator *)

Definition coordinatorTick : M E unit :=
  ctx <- run_ctx_state ;;
  ignore_error (on_storage (storage_Heartbeat ctx (ServerID cfg) (ServerHeartbeatTTL cfg))) ;;;
  orphans <- mtry (on_storage (storage_GetOrphanedJobs ctx (OrphanJobStaleAge cfg))) ;;
  match orphans with
  | inr _ => mret tt
  | inl orphans =>
    mfor orphans (fun t =>
      ignore_error (on_storage (storage_Requeue ctx (jt_JobID t) "orphan recovery")))
  end.

Definition staleServerSweep : M E unit :=
  ctx <- run_ctx_state ;;
  servers <- mtry (on_storage (storage_GetServers ctx)) ;;
  match servers with
  | inr _ => mret tt
  | inl servers =>
    now <- time_Now ;;
    let staleThreshold := ServerHeartbeatTTL cfg in
    let unregisterThreshold := mul64 staleThreshold 3 in
    mfor servers (fun sv =>
      let age := Sub now (sv_LastHeartbeat sv) in
      if unregisterThreshold <? age
      then ignore_error (on_storage (storage_UnregisterServer ctx (sv_ID sv)))
      else mret tt)
  end.

(** The period of the stale sweep. *)
Definition staleSweepEvery : Duration :=
  let d := mul64 (ServerHeartbeatEvery cfg) 5 in
  if d <? Second then Second else d.

(** One turn of [cleanupLoop]. *)
Definition cleanupTick : M E unit :=
  now <- time_Now ;;
  let cutoff := Add now (wrap64 (- JobRetention cfg)) in
  ctx <- run_ctx_state ;;
  ignore_error (on_storage (storage_RemoveExpired ctx cutoff)).

(** ** Start and stop *)

(** [Start]: once; [parent] is the caller's context. *)
Definition Start (parent : nat) : M E unit :=
  e <- mget ;;
  if startOnce e then mret tt else
  mmodify set_startOnce ;;;
  c <- ctx_state parent ;;
  addr <- new_addr ;;
  mmodify (upd_contexts <[addr := (Some parent, Live)]>) ;;;
  mmodify (set_runCtx (Some addr)) ;;;
  now <- time_Now ;;
  let sv := mkServerInfo (ServerID cfg) now time_zero (Workers cfg) (Queues cfg) ServerStatusActive in
  r <- mtry (on_storage (storage_RegisterServer c sv (ServerHeartbeatTTL cfg))) ;;
  match r with
  | inr err =>
    cancel addr ;;;
    mthrow (ErrWrap ("register server: " +:+ Error err) err)
  | inl _ =>
    mmodify (upd_loops (fun l => l ++ (WorkerLoop <$> seq 0 (Z.to_nat (Workers cfg)))
      ++ [SchedulerLoop; CoordinatorLoop]
      ++ (if (0 <? CleanupInterval cfg) && (0 <? JobRetention cfg) then [CleanupLoop] else [])
      ++ [RecurringLoop]))
  end.

(** [Stop]: once; while it waits the loops drain ([others]), and [timeout] is
    the error of the caller's context when that ends first. *)
Definition Stop (others : M E unit) (timeout : option error) : M E unit :=
  e <- mget ;;
  if stopOnce e then mret tt else
  mmodify set_stopOnce ;;;
  (match runCtx e with Some addr => cancel addr | None => mret tt end) ;;;
  interleave others ;;;
  ignore_error (on_storage (storage_UnregisterServer Live (ServerID cfg))) ;;;
  match timeout with Some err => mthrow err | None => mret tt end.
End Methods.

(** [New]. *)
Definition NewEngine {S} (store : S) : Engine S :=
  mkEngine store None ∅ ∅ ∅ [] false false.

Definition NewPipeline {E} (r : Runner E) : Pipeline E := mkPipeline [PanicRecovery] r.
