(* ===== verification/EngineProps.v ===== *)
(** * Properties of the engine

    Proved for every backend that keeps the contract of [StorageSpec]: how a job
    is settled after its handler ran, which continuations fire, that a ticket is
    always processed to the end, and cancellation. *)
From S2P Require Import Prelude.
From S2P Require Import GoTime.
From S2P Require Import Strconv.
From S2P Require Import Job.
From S2P Require Import StorageI.
From S2P Require Import Memory.
From S2P Require Import MemoryInv.
From S2P Require Import MemoryFlow.
From S2P Require Import MemoryQueue.
From S2P Require Import MemoryProps.
From S2P Require Import StorageSpec.
From S2P Require Import Retry.
From S2P Require Import Handler.
From S2P Require Import Json.
From S2P Require Import Engine.

(** The context ended: by cancellation or by its deadline. *)
Definition is_ctx_error (err : error) : bool :=
  errors_Is err ContextCanceled || errors_Is err ContextDeadlineExceeded.

(** A state the engine names is one the backend knows. *)
Ltac known := unfold known_state; rewrite !elem_of_cons; tauto.

Section Settled.
Context {EV : Env} {S : Type} {SI : StorageI S} {SV : StorageView S} {SP : StorageSpec S}.

(** How a job that was Processing is settled, given the number of its failed
    attempts and what its handler returned: the new record and the terminal state
    reported ("" for a retry). *)
Inductive settled (jw : JobWithStates) (attempt : Z) : output -> JobWithStates -> string -> Prop :=
  | settled_success result t :
      settled jw attempt (result, None)
        (with_state (if 0 <? blen result then with_result jw (spec_result result) else jw)
           (spec_state (mkJobState StateSucceeded "" None t))) StateSucceeded
  | settled_cancelled result err t :
      is_ctx_error err = true ->
      settled jw attempt (result, Some err)
        (with_state jw (spec_state (mkJobState StateCancelled (Error err) None t))) StateCancelled
  | settled_dead result err t t' :
      is_ctx_error err = false -> effectiveRetryMax (RetryMax (jw_Job jw)) <= add64 attempt 1 ->
      settled jw attempt (result, Some err)
        (with_state (with_state jw (spec_state (mkJobState StateFailed (Error err)
             (Some {[ "attempt" := Itoa (add64 attempt 1) ]}) t)))
           (spec_state (mkJobState StateDead "retry exhausted" None t'))) StateDead
  | settled_retry result err t st n delay :
      is_ctx_error err = false -> add64 attempt 1 < effectiveRetryMax (RetryMax (jw_Job jw)) ->
      st_Name st = StateScheduled ->
      st_Data st = Some {[ "enqueue_at" := FormatRFC3339 (Add (clock n) delay) ]} ->
      (exists m, delay = add64 (retry_backoff attempt) (rnd m mod Second)) ->
      settled jw attempt (result, Some err)
        (with_state (with_state jw (spec_state (mkJobState StateFailed (Error err)
             (Some {[ "attempt" := Itoa (add64 attempt 1) ]}) t))) st) "".

Lemma only_job_trans id jw jw' (s s1 s2 : S) :
  only_job id jw s s1 -> only_job id jw' s1 s2 -> only_job id jw' s s2.
Proof.
  intros [A1 A2 A3] [B1 B2 B3]. split; [done| |].
  - intros x Hx. rewrite B2, A2; done.
  - intros p. by rewrite B3, A3.
Qed.

Lemma on_storage_run {A} (m : M S A) n e n' s' r :
  m n (eng_storage e) = (n', s', r) ->
  on_storage m n e = (n', set_storage s' e, r).
Proof. intros Hm. unfold on_storage, mlift. by rewrite Hm. Qed.

Lemma set_storage_twice s s' (e : Engine S) : set_storage s' (set_storage s e) = set_storage s' e.
Proof. done. Qed.

Lemma set_storage_same (e : Engine S) : set_storage (eng_storage e) e = e.
Proof. by destruct e. Qed.

Lemma newState_stamp name reason data t :
  set_st_CreatedAt t (newJobState name reason data) = mkJobState name reason data t.
Proof. done. Qed.

(** A transition the engine asks for, from the current state. *)
Lemma apply_run ctx id from name reason data jw n (e : Engine S) :
  spec_live ctx -> spec_inv n (eng_storage e) -> spec_job (eng_storage e) id = Some jw ->
  CurrentState jw = from -> known_state name -> spec_text_ok reason -> data_ok spec_text_ok data ->
  exists n' s' t,
    on_storage (storage_ApplyState ctx id from (newJobState name reason data)) n e
      = (n', set_storage s' e, Ok tt) /\ spec_inv n' s' /\
    only_job id (with_state jw (spec_state (mkJobState name reason data t))) (eng_storage e) s'.
Proof.
  intros Hl HI Hjw Hc Hk Ht Hd.
  pose proof (spec_ApplyState ctx id from name reason data jw n _ Hl HI Hjw Hk Ht Hd) as Ha.
  rewrite decide_True in Ha by done. destruct Ha as (n' & s' & t & Ha & HI' & Ho).
  exists n', s', t. split; [by apply on_storage_run|]. by split.
Qed.

Lemma attempt_ok z : data_ok spec_text_ok (Some {[ "attempt" := Itoa z ]}).
Proof.
  intros k v Hkv. apply lookup_singleton_Some in Hkv as [<- <-].
  split; apply spec_text_plain; [done|apply Itoa_plain].
Qed.

Lemma finalizeSuccess_run ctx id result jw n (e : Engine S) :
  spec_live ctx -> spec_inv n (eng_storage e) -> spec_job (eng_storage e) id = Some jw ->
  CurrentState jw = StateProcessing -> (0 < blen result -> spec_result_ok result) ->
  exists n' s' t,
    finalizeSuccess ctx id result n e = (n', set_storage s' e, Ok StateSucceeded) /\
    spec_inv n' s' /\
    only_job id (with_state (if 0 <? blen result then with_result jw (spec_result result) else jw)
      (spec_state (mkJobState StateSucceeded "" None t))) (eng_storage e) s'.
Proof.
  intros Hl HI Hjw Hc Hr. unfold finalizeSuccess. destruct (Z.ltb_spec 0 (blen result)) as [Hb|Hb].
  - destruct (spec_SetJobResult ctx id result jw n _ Hl HI Hjw (Hr Hb))
      as (n1 & s1 & H1 & HI1 & Ho1).
    destruct (apply_run ctx id StateProcessing StateSucceeded "" None
      (with_result jw (spec_result result)) n1 (set_storage s1 e))
      as (n2 & s2 & t & H2 & HI2 & Ho2); try done; [apply Ho1|known|by apply spec_text_plain|].
    exists n2, s2, t. erewrite mbind_ok by (by apply on_storage_run).
    erewrite mbind_ok by exact H2. split; [done|]. split; [done|]. by eapply only_job_trans.
  - destruct (apply_run ctx id StateProcessing StateSucceeded "" None jw n e)
      as (n2 & s2 & t & H2 & HI2 & Ho2); try done; [known|by apply spec_text_plain|].
    exists n2, s2, t. erewrite mbind_ok by reflexivity. by erewrite mbind_ok by exact H2.
Qed.

Lemma finalizeFailure_run ctx job attempt err jw n (e : Engine S) result :
  spec_live ctx -> spec_inv n (eng_storage e) -> spec_job (eng_storage e) (ID job) = Some jw ->
  CurrentState jw = StateProcessing -> RetryMax job = RetryMax (jw_Job jw) -> spec_text_ok (Error err) ->
  exists n' s' jw' terminal,
    finalizeFailure ctx job attempt err n e = (n', set_storage s' e, Ok terminal) /\
    spec_inv n' s' /\ only_job (ID job) jw' (eng_storage e) s' /\
    settled jw attempt (result, Some err) jw' terminal.
Proof.
  intros Hl HI Hjw Hc Hmax Hte. unfold finalizeFailure. fold (is_ctx_error err).
  destruct (is_ctx_error err) eqn:He.
  - destruct (apply_run ctx (ID job) StateProcessing StateCancelled (Error err) None jw n e)
      as (n1 & s1 & t & H1 & HI1 & Ho1); try done; [known|].
    do 4 eexists. erewrite mbind_ok by exact H1. split_and!; [done|done|done|by constructor].
  - destruct (apply_run ctx (ID job) StateProcessing StateFailed (Error err)
      (Some {[ "attempt" := Itoa (add64 attempt 1) ]}) jw n e)
      as (n1 & s1 & t & H1 & HI1 & Ho1); try done; [known|apply attempt_ok|].
    erewrite mbind_ok by exact H1. rewrite Hmax.
    set (jw1 := with_state jw _) in *.
    assert (CurrentState jw1 = StateFailed) as Hc1.
    { unfold CurrentState, jw1. cbn. rewrite current_snoc. by apply spec_state_name; known. }
    destruct (Z.leb_spec (effectiveRetryMax (RetryMax (jw_Job jw))) (add64 attempt 1)).
    + destruct (apply_run ctx (ID job) StateFailed StateDead "retry exhausted" None jw1 n1
        (set_storage s1 e)) as (n2 & s2 & t2 & H2 & HI2 & Ho2); try done;
        [apply Ho1|known|by apply spec_text_plain|].
      do 4 eexists. erewrite mbind_ok by exact H2.
      split_and!; [done|done|by eapply only_job_trans|by constructor].
    + cbv zeta. erewrite mbind_ok by reflexivity. erewrite mbind_ok by reflexivity.
      destruct (spec_ScheduleRetry ctx (ID job)
        (Add (clock n1) (add64 (retry_backoff attempt) (rnd (Datatypes.S n1) mod Second)))
        jw1 (Datatypes.S (Datatypes.S n1)) s1) as (n2 & s2 & st & H2 & HI2 & Hst & Hd & Ho2);
        [done|by do 2 apply spec_tick|apply Ho1|done|].
      erewrite mbind_ok by (by apply on_storage_run).
      do 4 eexists. split_and!; [done|done|by eapply only_job_trans|].
      econstructor; eauto.
Qed.
End Settled.

(** ** Continuations *)
Section Fire.
Context {EV : Env} {JS : Json} {S : Type} {SI : StorageI S} {SV : StorageView S} {SP : StorageSpec S}.

(** The entries that fire. *)
Definition firing (terminal : string) (entries : list ContinuationEntry) : list ContinuationEntry :=
  filter (fun entry => continuationMatches terminal (ce_Condition entry)) entries.

Lemma firing_cons terminal entry entries :
  firing terminal (entry :: entries)
  = if continuationMatches terminal (ce_Condition entry)
    then entry :: firing terminal entries else firing terminal entries.
Proof. apply (filter_bool_cons (fun entry => continuationMatches terminal (ce_Condition entry))). Qed.

(** Job [id] was created for [entry]: new, Enqueued, with the merged arguments. *)
Definition child_of (parentResult : bytes) (s' : S) (id : string) (entry : ContinuationEntry) : Prop :=
  exists j st, spec_job s' id = Some (mkJobWithStates j [st]) /\ st_Name st = StateEnqueued /\
    Name j = ce_ChildName entry /\
    Args j = spec_args (mergeContinuationArgs parentResult (ce_ChildArgs entry)) /\
    Queue j = (if decide (ce_ChildQueue entry = "") then "default" else ce_ChildQueue entry).

(** The job [fireContinuation] asks for. *)
Definition child_job (parentResult : bytes) (entry : ContinuationEntry) : Job :=
  newJob (ce_ChildName entry) (mergeContinuationArgs parentResult (ce_ChildArgs entry))
    (if decide (ce_ChildQueue entry = "") then "default" else ce_ChildQueue entry) 0.

(** The backend accepts the children of job [id] when its result is [r]. *)
Definition children_ok (s : S) (id : string) (r : bytes) : Prop :=
  forall entry, entry ∈ spec_conts s id -> spec_job_ok (child_job r entry).

(** The backend accepts what the engine stores for an outcome. *)
Record outcome_ok (s : S) (id : string) (jw : JobWithStates) (out : output) : Prop := {
  ok_result : out.2 = None -> 0 < blen out.1 -> spec_result_ok out.1;
  ok_error : forall err, out.2 = Some err -> spec_text_ok (Error err);
  ok_children : children_ok s id (Result (jw_Job jw));
  ok_children_result : out.2 = None -> children_ok s id (spec_result out.1);
}.

(** From [s] to [s'] exactly the jobs [ids] were created, one per entry of
    [entries], in order. *)
Record children (parentResult : bytes) (entries : list ContinuationEntry) (ids : list string)
    (s s' : S) : Prop := {
  ch_nodup : NoDup ids;
  ch_new : forall id, id ∈ ids -> spec_job s id = None;
  ch_made : Forall2 (child_of parentResult s') ids entries;
  ch_rest : forall id, id ∉ ids -> spec_job s' id = spec_job s id;
  ch_conts : forall p, spec_conts s' p = spec_conts s p;
}.

Lemma children_nil r (s : S) : children r [] [] s s.
Proof. split; try done; [apply NoDup_nil_2|]. intros id Hid. by apply elem_of_nil in Hid. Qed.

Lemma children_cons r entry entries id ids (s s1 s2 : S) jw :
  spec_job s id = None -> only_job id jw s s1 -> child_of r s1 id entry ->
  children r entries ids s1 s2 -> children r (entry :: entries) (id :: ids) s s2.
Proof.
  intros Hnew [O1 O2 O3] Hc [C1 C2 C3 C4 C5].
  assert (id ∉ ids) as Hid by (intros Hin; by rewrite (C2 id Hin) in O1).
  split.
  - by constructor.
  - intros x [->|Hx]%elem_of_cons; [done|]. rewrite <- O2; [by apply C2|]. by intros ->.
  - constructor; [|done]. unfold child_of in *. by rewrite C4.
  - intros x [Hx Hx']%not_elem_of_cons. by rewrite C4, O2.
  - intros p. by rewrite C5, O3.
Qed.

Lemma fire_all_run ctx r terminal entries n (e : Engine S) :
  spec_live ctx -> spec_inv n (eng_storage e) ->
  Forall (fun entry => spec_job_ok (child_job r entry)) entries ->
  exists n' s' ids,
    mfor entries (fireContinuation ctx r terminal) n e = (n', set_storage s' e, Ok tt) /\
    spec_inv n' s' /\ children r (firing terminal entries) ids (eng_storage e) s'.
Proof.
  intros Hl HI Hok. revert n e HI. induction Hok as [|entry entries Hj _ IH]; intros n e HI.
  { exists n, (eng_storage e), []. rewrite set_storage_same. split_and!; try done. apply children_nil. }
  cbn [mfor]. rewrite firing_cons. unfold fireContinuation at 1.
  destruct (continuationMatches terminal (ce_Condition entry)) eqn:Hm; cbn [negb].
  - set (q := if decide (ce_ChildQueue entry = "") then "default" else ce_ChildQueue entry).
    assert (q <> "") as Hne by (unfold q; by case_decide).
    destruct (spec_Enqueue ctx q (newJob (ce_ChildName entry)
      (mergeContinuationArgs r (ce_ChildArgs entry)) q 0) n (eng_storage e) Hl HI eq_refl Hne eq_refl Hj)
      as (n1 & s1 & id & j & st & He & HI1 & Hnew & Ho & Hst & Hname & Hargs & Hq & _).
    destruct (IH n1 (set_storage s1 e) HI1) as (n2 & s2 & ids & H2 & HI2 & C).
    exists n2, s2, (id :: ids). split; [|split; [done|]].
    + erewrite mbind_ok; [exact H2|]. unfold ignore_error.
      erewrite mbind_ok; [|by eapply mtry_ok, on_storage_run]. done.
    + eapply children_cons; [done|exact Ho| |exact C].
      exists j, st. split; [apply Ho|]. by split_and!.
  - destruct (IH n e HI) as (n2 & s2 & ids & H2 & HI2 & C). exists n2, s2, ids.
    by erewrite mbind_ok by reflexivity.
Qed.

Lemma fireContinuations_run parentID terminal jw n (e : Engine S) :
  spec_inv n (eng_storage e) -> spec_job (eng_storage e) parentID = Some jw ->
  children_ok (eng_storage e) parentID (Result (jw_Job jw)) ->
  exists n' s' entries ids,
    fireContinuations Live parentID terminal n e = (n', set_storage s' e, Ok tt) /\
    spec_inv n' s' /\ entries ≡ₚ spec_conts (eng_storage e) parentID /\
    children (Result (jw_Job jw)) (firing terminal entries) ids (eng_storage e) s'.
Proof.
  intros HI Hjw Hok. unfold fireContinuations.
  destruct (spec_wf _ _ _ _ HI Hjw) as (_ & _ & Hids).
  destruct (spec_GetContinuations Live parentID n (eng_storage e) spec_Live HI Hids)
    as (n1 & entries & H1 & HP & HI1).
  erewrite mbind_ok; [|by eapply mtry_ok, on_storage_run]. rewrite set_storage_same.
  destruct entries as [|entry entries].
  { exists n1, (eng_storage e), [], []. rewrite set_storage_same.
    split_and!; [done|done|done|apply children_nil]. }
  destruct (spec_GetJob Live parentID n1 (eng_storage e) spec_Live HI1 Hids) as (n2 & r2 & H2 & HI2 & Hr).
  rewrite Hjw in Hr. subst r2. erewrite mbind_ok; [|by eapply mtry_ok, on_storage_run].
  rewrite set_storage_same.
  destruct (fire_all_run Live (Result (jw_Job jw)) terminal (entry :: entries) n2 e spec_Live HI2)
    as (n3 & s3 & ids & H3 & HI3 & C).
  { apply Forall_forall. intros x Hx. apply Hok. by rewrite <- HP. }
  by exists n3, s3, (entry :: entries), ids.
Qed.

(** ** Settling *)
Lemma settled_failed_result jw attempt result err jw' terminal :
  settled jw attempt (result, Some err) jw' terminal -> Result (jw_Job jw') = Result (jw_Job jw).
Proof. by inversion 1. Qed.

Lemma settle_run ctx job attempt out jw n (e : Engine S) :
  spec_live ctx -> spec_inv n (eng_storage e) -> spec_job (eng_storage e) (ID job) = Some jw ->
  CurrentState jw = StateProcessing -> RetryMax job = RetryMax (jw_Job jw) ->
  outcome_ok (eng_storage e) (ID job) jw out ->
  exists n' s1 s' jw' terminal entries ids,
    settle ctx job attempt out n e = (n', set_storage s' e, Ok tt) /\ spec_inv n' s' /\
    only_job (ID job) jw' (eng_storage e) s1 /\ settled jw attempt out jw' terminal /\
    entries ≡ₚ spec_conts (eng_storage e) (ID job) /\
    children (Result (jw_Job jw')) (if decide (terminal = "") then [] else firing terminal entries)
      ids s1 s'.
Proof.
  intros Hl HI Hjw Hc Hmax [Hres Herr Hch Hch']. unfold settle. destruct out as [result [err|]].
  - destruct (finalizeFailure_run ctx job attempt err jw n e result)
      as (n1 & s1 & jw' & terminal & H1 & HI1 & Ho & Hs); try done; [by apply Herr|].
    erewrite mbind_ok by (by eapply mtry_ok). destruct (decide (terminal = "")) as [->|Ht].
    + rewrite decide_False by tauto. exists n1, s1, s1, jw', "", (spec_conts (eng_storage e) (ID job)), [].
      split_and!; try done. apply children_nil.
    + rewrite decide_True by done.
      destruct (fireContinuations_run (ID job) terminal jw' n1 (set_storage s1 e))
        as (n2 & s2 & entries & ids & H2 & HI2 & HP & C); [done|apply Ho| |].
      { rewrite (settled_failed_result _ _ _ _ _ _ Hs). intros x Hx. apply Hch.
        by rewrite <- (oj_conts _ _ _ _ Ho). }
      cbn [eng_storage set_storage] in HP. rewrite (oj_conts _ _ _ _ Ho) in HP.
      exists n2, s1, s2, jw', terminal, entries, ids. split_and!; try done. by rewrite decide_False.
  - destruct (finalizeSuccess_run ctx (ID job) result jw n e)
      as (n1 & s1 & t & H1 & HI1 & Ho); try done; [by apply Hres|].
    erewrite mbind_ok by (by eapply mtry_ok). cbv beta iota.
    rewrite decide_True by done.
    set (jw' := with_state _ _) in *.
    destruct (fireContinuations_run (ID job) StateSucceeded jw' n1 (set_storage s1 e))
      as (n2 & s2 & entries & ids & H2 & HI2 & HP & C); [done|apply Ho| |].
    { intros x Hx. cbn in Hx. rewrite (oj_conts _ _ _ _ Ho) in Hx. unfold jw'.
      destruct (0 <? blen result); [by apply Hch'|by apply Hch]. }
    cbn [eng_storage set_storage] in HP. rewrite (oj_conts _ _ _ _ Ho) in HP.
    exists n2, s1, s2, jw', StateSucceeded, entries, ids. split_and!; try done. by constructor.
Qed.

(** ** A whole ticket *)

(** What a handler and everything that runs beside it may do: it does not throw,
    keeps the backend's invariant and leaves the record of this job, the
    continuations and the map of cancel functions of the engine alone. *)
Definition handler_ok (run : Runner (Engine S)) (job : Job) : Prop :=
  forall ctx n e, spec_inv n (eng_storage e) ->
  let r := run ctx job n e in
  spec_inv (tick_of r) (eng_storage (st_of r)) /\
  (forall msg, res_of r <> Fatal msg) /\ (forall err, res_of r <> Err err) /\
  spec_job (eng_storage (st_of r)) (ID job) = spec_job (eng_storage e) (ID job) /\
  (forall p, spec_conts (eng_storage (st_of r)) p = spec_conts (eng_storage e) p) /\
  active (st_of r) = active e /\ cancels (st_of r) = cancels e.

Definition result_of (r : res output) : output :=
  match r with
  | Ok out => out
  | Panic p => (None, Some (ErrText ("panic: " +:+ p)))
  | _ => (None, None)
  end.

(** The pipeline the engine builds turns a panic of the handler into an error. *)
Lemma Execute_run run (c : JobContext) n (e : Engine S) :
  (forall msg, res_of (run (jc_Context c) (jc_Job c) n e) <> Fatal msg) ->
  (forall err, res_of (run (jc_Context c) (jc_Job c) n e) <> Err err) ->
  let r := run (jc_Context c) (jc_Job c) n e in
  Execute (NewPipeline run) c n e = (tick_of r, st_of r, Ok (result_of (res_of r))).
Proof.
  intros Hf He. unfold Execute, NewPipeline. cbn. unfold PanicRecovery, mrecover.
  unfold tick_of, st_of, res_of in *. destruct (run (jc_Context c) (jc_Job c) n e) as [[n' s'] [a|err|p|p]];
    cbn in *; try done; [by destruct (He err)|by destruct (Hf p)].
Qed.

Lemma mdefer_ok {E A} (d : M E unit) (m : M E A) n s n' s' a :
  m n s = (n', s', Ok a) -> mdefer d m n s = (tick_of (d n' s'), st_of (d n' s'), Ok a).
Proof. unfold mdefer. intros ->. by destruct (d n' s') as [[??]?]. Qed.

Lemma cancel_storage addr n (e : Engine S) :
  let r := cancel addr n e in
  eng_storage (st_of r) = eng_storage e /\ active (st_of r) = active e /\
  cancels (st_of r) = cancels e /\ tick_of r = n.
Proof. unfold cancel, end_context, ctx_state. run. by destruct (ctx_lookup _ _ _). Qed.

(** Leaving [Processing]. *)
Lemma settled_current jw attempt out jw' terminal :
  settled jw attempt out jw' terminal -> CurrentState jw' <> StateProcessing.
Proof.
  intros [| | |r err t st n delay He Hlt Hst Hd Hx]; unfold CurrentState, with_state; simpl;
    rewrite current_snoc, ?spec_state_name by known; try done. by rewrite Hst.
Qed.

Lemma inc_dec_active q n (e : Engine S) :
  (forall x, 0 <= default 0 (active e !! x) < 2 ^ 63 - 1) ->
  forall e' : Engine S, active e' = active (st_of (incActive q n e)) ->
  forall x, default 0 (active (st_of (decActive q n e')) !! x) = default 0 (active e !! x).
Proof.
  intros Hb e' He x. unfold decActive, incActive in *. run. rewrite He.
  pose proof (Hb q) as Hq. rewrite lookup_insert_eq. cbn.
  assert (add64 (default 0 (active e !! q)) 1 = default 0 (active e !! q) + 1) as Ha.
  { unfold add64. rewrite wrap64_small; [done|]. unfold int64_ok. lia. }
  rewrite Ha. destruct (Z.ltb_spec 0 (default 0 (active e !! q) + 1)); [|lia].
  destruct (decide (q = x)) as [<-|Hne].
  - rewrite lookup_insert_eq. cbn. unfold sub64. rewrite wrap64_small; [lia|]. unfold int64_ok. lia.
  - by rewrite !lookup_insert_ne.
Qed.

Lemma processTicket_body cfg pipeline id tok jw n (e : Engine S) :
  spec_inv n (eng_storage e) -> spec_job (eng_storage e) id = Some jw -> exists n1,
  spec_inv n1 (eng_storage e) /\
  processTicket cfg pipeline (mkJobTicket id tok) n e
  = (incActive (Queue (jw_Job jw)) ;;;
     mdefer (decActive (Queue (jw_Job jw))) (
      parent <- run_ctx ;;
      jobCtx <- WithTimeout parent (jobTimeout cfg (jw_Job jw)) ;;
      mdefer (cancel jobCtx) (
        registerCancel (ID (jw_Job jw)) jobCtx ;;;
        mdefer (unregisterCancel (ID (jw_Job jw))) (
          mctx <- NewJobContext jobCtx (jw_Job jw) (AttemptCount (jw_States jw)) ;;
          out <- Execute pipeline mctx ;;
          ctx <- ctx_state jobCtx ;;
          settle ctx (jw_Job jw) (AttemptCount (jw_States jw)) out)))) n1 e.
Proof.
  intros HI Hjw. destruct (spec_wf _ _ _ _ HI Hjw) as (_ & _ & Hids).
  destruct (spec_GetJob Live id n _ spec_Live HI Hids) as (n1 & r1 & H1 & HI1 & Hr).
  rewrite Hjw in Hr. subst r1. exists n1. split; [done|]. unfold processTicket. cbn [jt_JobID].
  erewrite mbind_ok; [|by eapply mtry_ok, on_storage_run]. by rewrite set_storage_same.
Qed.

Lemma WithTimeout_run parent timeout n (e : Engine S) :
  runCtx e = Some parent -> exists addr e',
    (parent <- run_ctx ;; WithTimeout parent timeout) n e = (Datatypes.S n, e', Ok addr) /\
    eng_storage e' = eng_storage e /\ active e' = active e /\ cancels e' = cancels e.
Proof.
  intros Hp. unfold run_ctx, WithTimeout, ctx_state. run. rewrite Hp. cbn.
  do 2 eexists. split; [reflexivity|]. done.
Qed.

(** The backend accepts every outcome of job [id], now and after its handler ran. *)
Definition outcomes_ok (s : S) (id : string) (jw : JobWithStates) : Prop :=
  forall s' out, (forall p, spec_conts s' p = spec_conts s p) -> outcome_ok s' id jw out.

(** The handler and its settlement, inside the two deferred calls. *)
Lemma handle_run run job jw attempt addr n (e : Engine S) :
  (forall ctx, spec_live ctx) -> spec_inv n (eng_storage e) -> ID job = ID (jw_Job jw) ->
  jw_Job jw = job ->
  spec_job (eng_storage e) (ID job) = Some jw -> CurrentState jw = StateProcessing ->
  handler_ok run job -> outcomes_ok (eng_storage e) (ID job) jw ->
  exists n0 e0 n' s1 e' jw' terminal entries ids,
    (mctx <- NewJobContext addr job attempt ;;
     out <- Execute (NewPipeline run) mctx ;;
     ctx <- ctx_state addr ;; settle ctx job attempt out) n e = (n', e', Ok tt) /\
    let out := result_of (res_of (run addr job n0 e0)) in
    eng_storage e0 = eng_storage e /\ cancels e0 = cancels e /\
    spec_inv n' (eng_storage e') /\ active e' = active e /\ cancels e' = cancels e /\
    only_job (ID job) jw' (eng_storage (st_of (run addr job n0 e0))) s1 /\
    settled jw attempt out jw' terminal /\
    entries ≡ₚ spec_conts (eng_storage e) (ID job) /\
    children (Result (jw_Job jw')) (if decide (terminal = "") then [] else firing terminal entries)
      ids s1 (eng_storage e').
Proof.
  intros Hlive HI _ Hjob Hjw Hc Hok Hres. unfold NewJobContext. rewrite mbind_assoc.
  erewrite mbind_ok by reflexivity. rewrite mbind_ret_l.
  set (c := mkJobContext addr job attempt (clock n)).
  destruct (Hok addr (Datatypes.S n) e (spec_tick _ _ HI)) as (HI1 & Hf & He & Hj & Hconts & Ha & Hcn).
  erewrite mbind_ok by (by apply Execute_run). cbn [jc_Context jc_Job c].
  set (r := run addr job (Datatypes.S n) e) in *.
  erewrite mbind_ok by reflexivity.
  destruct (settle_run (ctx_lookup (size (contexts (st_of r))) (contexts (st_of r)) addr)
    job attempt (result_of (res_of r)) jw (tick_of r) (st_of r))
    as (n' & s1 & s' & jw' & terminal & entries & ids & H1 & HI' & Ho & Hs & HP & C); try done.
  - by rewrite Hj.
  - by rewrite Hjob.
  - by apply Hres.
  - rewrite Hconts in HP.
    exists (Datatypes.S n), e, n', s1, (set_storage s' (st_of r)), jw', terminal, entries, ids.
    cbv zeta. fold r. split_and!; done.
Qed.
End Fire.

(** ** A whole ticket *)
Section Ticket.
Context {EV : Env} {JS : Json} {S : Type} {SI : StorageI S} {SV : StorageView S} {SP : StorageSpec S}.

Lemma processTicket_run cfg run id tok jw p n (e : Engine S) :
  (forall ctx, spec_live ctx) -> outcomes_ok (eng_storage e) id jw ->
  spec_inv n (eng_storage e) -> spec_job (eng_storage e) id = Some jw ->
  CurrentState jw = StateProcessing -> runCtx e = Some p -> handler_ok run (jw_Job jw) ->
  (forall q, 0 <= default 0 (active e !! q) < 2 ^ 63 - 1) ->
  exists n' e' addr n0 e0 jw' terminal,
    processTicket cfg (NewPipeline run) (mkJobTicket id tok) n e = (n', e', Ok tt) /\
    settled jw (AttemptCount (jw_States jw)) (result_of (res_of (run addr (jw_Job jw) n0 e0)))
      jw' terminal /\
    cancels e0 !! id = Some addr /\
    spec_job (eng_storage e') id = Some jw' /\ CurrentState jw' <> StateProcessing /\
    (forall q, default 0 (active e' !! q) = default 0 (active e !! q)) /\
    cancels e' = delete id (cancels e).
Proof.
  intros Hlive Hres HI Hjw Hc Hp Hok Hact.
  destruct (spec_wf n (eng_storage e) id jw HI Hjw) as (Hid & _ & _).
  destruct (processTicket_body cfg (NewPipeline run) id tok jw n e HI Hjw) as (n1 & HI1 & ->).
  erewrite mbind_ok by reflexivity. set (e1 := upd_active _ e).
  destruct (WithTimeout_run p (jobTimeout cfg (jw_Job jw)) n1 e1 Hp)
    as (addr & e2 & Hw & Hst2 & Hac2 & Hcn2).
  set (e3 := upd_cancels <[ID (jw_Job jw) := addr]> e2).
  destruct (handle_run run (jw_Job jw) jw (AttemptCount (jw_States jw)) addr (Datatypes.S n1) e3)
    as (n0 & e0 & n' & s1 & e' & jw' & terminal & entries & ids & Hr & Hst0 & Hcn0 & HI' & Hac' & Hcn' & Ho & Hs & _ & C);
    try done.
  { cbn. rewrite Hst2. by apply spec_tick. }
  { cbn. by rewrite Hst2, Hid. }
  { cbn. rewrite Hst2, Hid. exact Hres. }
  set (e4 := upd_cancels (delete (ID (jw_Job jw))) e').
  destruct (cancel_storage addr n' e4) as (Hst5 & Hac5 & Hcn5 & Htk5).
  set (e5 := st_of (cancel addr n' e4)) in *.
  set (e6 := st_of (decActive (Queue (jw_Job jw)) n' e5)).
  exists n', e6, addr, n0, e0, jw', terminal.
  assert (spec_job (eng_storage e6) id = Some jw') as Hfin.
  { change (spec_job (eng_storage e5) id = Some jw'). rewrite Hst5. cbn.
    destruct C as [_ Cn _ Cr _]. pose proof (oj_job _ _ _ _ Ho) as Ho1. rewrite Hid in Ho1.
    rewrite Cr; [done|]. intros Hin. specialize (Cn id Hin). congruence. }
  split_and!; try done.
  - unfold mdefer at 1. rewrite <- mbind_assoc. erewrite mbind_ok by exact Hw.
    erewrite (mdefer_ok (cancel addr)).
    2:{ erewrite mbind_ok by reflexivity. erewrite mdefer_ok by exact Hr. reflexivity. }
    change (tick_of (unregisterCancel (ID (jw_Job jw)) n' e')) with n'.
    change (st_of (unregisterCancel (ID (jw_Job jw)) n' e')) with e4. rewrite Htk5. done.
  - rewrite Hcn0. cbn. rewrite Hid. by rewrite lookup_insert_eq.
  - by eapply settled_current.
  - apply (inc_dec_active (Queue (jw_Job jw)) n1 e Hact e5).
    rewrite Hac5. change (active e4) with (active e'). rewrite Hac'. cbn. rewrite Hac2. done.
  - change (cancels e6) with (cancels e5). rewrite Hcn5. cbn. rewrite Hcn'. cbn.
    rewrite Hcn2, Hid. apply delete_insert_eq.
Qed.
End Ticket.

(** ** Theorems *)
Section Theorems.
Context {EV : Env} {JS : Json} {S : Type} {SI : StorageI S} {SV : StorageView S} {SP : StorageSpec S}.


(** C5. A dispatched ticket is processed to the end on a backend that accepts calls under every context
    (the one in memory; the others send nothing under a context that has ended) and accepts the
    outcomes of the job, whether the handler returns a result or an error or panics, provided that
    its run keeps the invariant of the backend and leaves the record of the job, the continuations,
    the in-flight counts and the cancel functions alone ([handler_ok]): the job leaves Processing
    for the state its outcome asks for, the in-flight counts are what they were and the job's
    cancel function, which was there during the run, is gone. *)
Theorem process_ticket_settles cfg run id tok jw p n (e : Engine S) :
  (forall ctx, spec_live ctx) -> outcomes_ok (eng_storage e) id jw ->
  spec_inv n (eng_storage e) -> spec_job (eng_storage e) id = Some jw ->
  CurrentState jw = StateProcessing -> runCtx e = Some p -> handler_ok run (jw_Job jw) ->
  (forall q, 0 <= default 0 (active e !! q) < 2 ^ 63 - 1) ->
  exists n' e' addr n0 e0 jw' terminal,
    processTicket cfg (NewPipeline run) (mkJobTicket id tok) n e = (n', e', Ok tt) /\
    settled jw (AttemptCount (jw_States jw)) (result_of (res_of (run addr (jw_Job jw) n0 e0)))
      jw' terminal /\
    cancels e0 !! id = Some addr /\
    spec_job (eng_storage e') id = Some jw' /\ CurrentState jw' <> StateProcessing /\
    (forall q, default 0 (active e' !! q) = default 0 (active e !! q)) /\
    cancels e' = delete id (cancels e).
Proof. apply processTicket_run. Qed.
End Theorems.

(** ** A worker over the in-memory backend *)
Section Worker.
Context {EV : Env} {JS : Json}.

(** The queues a worker may take from. *)
Definition open_queues (cfg : Config) (e : Engine Storage) : list string :=
  filter (fun q => under_limit cfg (active e) q) (Queues cfg).

(** The record of a job once dispatched. *)
Definition dispatched_record (n : nat) (jw : JobWithStates) : JobWithStates :=
  with_state jw (mkJobState StateProcessing "" (Some {[ "server_id" := "local" ]}) (clock (S n))).

Lemma dispatched_view n q id l s jw :
  spec_job s id = Some jw -> spec_job (dispatched n q id l s) id = Some (dispatched_record n jw).
Proof.
  simpl. destruct (jobs s !! id) as [j|]; [|done]. intros [= <-]. unfold dispatched_record, with_state.
  cbn. by rewrite lookup_insert_eq.
Qed.

Lemma dispatched_inv n qs q id l s jw :
  memory_inv n s -> first_nonempty (queues s) qs = Some (q, id, l) -> spec_job s id = Some jw ->
  dequeueScan qs true n s = (S (S (S n)), dispatched n q id l s, Ok (Some (ticket_of n id (jw_Job jw))))
  /\ memory_inv (S (S (S n))) (dispatched n q id l s).
Proof.
  intros HI Hf Hjw. destruct (memory_view_Some s id jw (proj1 HI) Hjw) as (h & Hj & _).
  pose proof (scan_Some qs n s q id l (jw_Job jw) Hf Hj) as Hr. split; [done|].
  eapply memory_inv_same_jobs; [done|lia| |done].
  pose proof (wf_dequeueScan qs true n s (proj1 HI)) as W. by rewrite Hr in W.
Qed.

(** C9. A turn of a worker that finds a job runs it: of the queues of the configuration that are
    below their concurrency limit it takes the front of the first non-empty one, never one of a
    queue at its limit; that job's history gets its Processing state and then the states its
    handler's outcome asks for, the in-flight counts are restored and the loop goes on. *)
Theorem worker_turn_runs_front cfg run sleeps wakes q id l jw p n (e : Engine Storage) :
  memory_inv n (eng_storage e) -> runCtx e = Some p ->
  ctx_lookup (size (contexts e)) (contexts e) p = Live ->
  first_nonempty (queues (eng_storage e)) (open_queues cfg e) = Some (q, id, l) ->
  spec_job (eng_storage e) id = Some jw -> handler_ok run (jw_Job jw) ->
  (forall q, 0 <= default 0 (active e !! q) < 2 ^ 63 - 1) ->
  exists n' e' addr n0 e0 jw' terminal,
    workerTurn cfg (NewPipeline run) sleeps wakes n e = (n', e', Ok Continue) /\
    q ∈ Queues cfg /\ under_limit cfg (active e) q = true /\
    settled (dispatched_record n jw) (AttemptCount (jw_States (dispatched_record n jw)))
      (result_of (res_of (run addr (jw_Job jw) n0 e0))) jw' terminal /\
    spec_job (eng_storage e') id = Some jw' /\ CurrentState jw' <> StateProcessing /\
    (forall q, default 0 (active e' !! q) = default 0 (active e !! q)).
Proof.
  intros HI Hp Hc Hf Hjw Hok Hact. set (s := eng_storage e) in *.
  destruct (first_nonempty_lookup _ _ _ _ _ Hf) as [Hq _].
  apply list_elem_of_filter in Hq as [Hlim Hq]. apply Is_true_true in Hlim.
  destruct (dispatched_inv n (open_queues cfg e) q id l s jw HI Hf Hjw) as [Hscan HI1].
  pose proof (spec_wf (S := Storage) n s id jw HI Hjw) as [Hid _].
  set (e1 := set_storage (dispatched n q id l s) e).
  destruct (processTicket_run cfg run id ("tok-" +:+ id +:+ "-" +:+ Itoa (UnixNano (clock (S (S n)))))
    (dispatched_record n jw) p (S (S (S n))) e1)
    as (n' & e' & addr & n0 & e0 & jw' & terminal & Hr & Hs & _ & Hj & Hcur & Ha & _); try done.
  - by apply dispatched_view.
  - apply current_snoc.
  - exists n', e', addr, n0, e0, jw', terminal. split; [|split_and!; done].
    unfold workerTurn, run_ctx_state, run_ctx.
    erewrite mbind_ok.
    2:{ erewrite mbind_ok. 2:{ erewrite mbind_ok by reflexivity. rewrite Hp. reflexivity. }
        unfold ctx_state, mgets. rewrite Hc. reflexivity. }
    cbv beta iota. erewrite mbind_ok by reflexivity. fold (open_queues cfg e).
    rewrite decide_False.
    2:{ intros H0. apply nil_length_inv in H0. by rewrite H0 in Hf. }
    erewrite mbind_ok.
    2:{ apply mtry_ok, on_storage_run. unfold storage_Dequeue, memory_StorageI.
        destruct wakes; cbn [Dequeue]; erewrite mbind_ok by exact Hscan; reflexivity. }
    cbv beta iota. unfold ticket_of. rewrite Hid. fold e1. by erewrite mbind_ok by exact Hr.
Qed.
End Worker.

(** ** The engine over the in-memory backend, on concrete jobs *)
Section Witnesses.
#[local] Instance E1 : Env := env_at 0.
#[local] Existing Instance tree_Json.

Lemma client_memory_inv os :
  forallb client_op os = true -> memory_inv (exec_all os 0 New).1 (exec_all os 0 New).2.
Proof.
  intros Hos. destruct (client_reachable_flow _ _ (exec_all_client os 0 Hos)) as [W F].
  split; [exact W|apply F].
Qed.

(** A dispatched job with a continuation, in an engine that runs. *)
Definition dispatched_ops : list op :=
  [OpEnqueue "default" echo;
   OpAddContinuation "id-0" (mkContinuationEntry "mail" (Some "{}") "" ConditionOnAny 0);
   OpScan ["default"]].

Definition running_engine : Engine Storage :=
  mkEngine (exec_all dispatched_ops 0 New).2 (Some 0%nat) ∅ ∅ {[ 0%nat := (None, Live) ]} [] true false.

Definition echo_running : JobWithStates :=
  match spec_job (eng_storage running_engine) "id-0" with
  | Some jw => jw
  | None => mkJobWithStates echo []
  end.

(** A handler that fails. *)
Definition failing : Runner (Engine Storage) := fun _ _ => mret (None, Some (ErrText "boom")).


Lemma process_ticket_settles_witness : exists n' e' jw',
  processTicket (DefaultConfig 2) (NewPipeline failing) (mkJobTicket "id-0" "tok") 20%nat running_engine
    = (n', e', Ok tt) /\
  spec_job (eng_storage e') "id-0" = Some jw' /\ CurrentState jw' <> StateProcessing.
Proof.
  destruct (process_ticket_settles (DefaultConfig 2) failing "id-0" "tok" echo_running 0%nat 20%nat
    running_engine) as (n' & e' & addr & n0 & e0 & jw' & terminal & Hr & _ & _ & Hj & Hc & _).
  - intros ctx. exact I.
  - intros s out _. split; done.
  - apply (memory_inv_le (exec_all dispatched_ops 0 New).1).
    + vm_compute. lia.
    + apply client_memory_inv. reflexivity.
  - vm_compute. reflexivity.
  - vm_compute. reflexivity.
  - reflexivity.
  - intros ctx n e HI. split_and!; done.
  - intros q. change (active running_engine) with (∅ : gmap string Z). rewrite lookup_empty. simpl. lia.
  - exists n', e', jw'. split; [exact Hr|]. split; [exact Hj|exact Hc].
Defined.

(** A waiting job, and a limit of one on its queue that is not reached. *)
Definition idle_engine : Engine Storage :=
  mkEngine (exec_all [OpEnqueue "default" echo] 0 New).2 (Some 0%nat) ∅ ∅ {[ 0%nat := (None, Live) ]} []
    true false.

Definition limited : Config :=
  let c := DefaultConfig 2 in
  mkConfig (ServerID c) 1 ["busy"; "default"] {[ "default" := 1 ]} Second Second Second Second Second 100
    Second Second Second 0 0.

Definition echo_waiting : JobWithStates :=
  match spec_job (eng_storage idle_engine) "id-0" with
  | Some jw => jw
  | None => mkJobWithStates echo []
  end.

Lemma worker_turn_runs_front_witness : exists n' e' jw',
  workerTurn limited (NewPipeline failing) [] [] 20%nat idle_engine = (n', e', Ok Continue) /\
  spec_job (eng_storage e') "id-0" = Some jw' /\ CurrentState jw' <> StateProcessing.
Proof.
  destruct (worker_turn_runs_front limited failing [] [] "default" "id-0" [] echo_waiting 0%nat 20%nat
    idle_engine) as (n' & e' & addr & n0 & e0 & jw' & terminal & Hr & _ & _ & _ & Hj & Hcur & _).
  - apply (memory_inv_le (exec_all [OpEnqueue "default" echo] 0 New).1).
    + vm_compute. lia.
    + apply client_memory_inv. reflexivity.
  - reflexivity.
  - vm_compute. reflexivity.
  - vm_compute. reflexivity.
  - vm_compute. reflexivity.
  - intros ctx n e HI. split_and!; done.
  - intros q. change (active idle_engine) with (∅ : gmap string Z). rewrite lookup_empty. simpl. lia.
  - exists n', e', jw'. split; [exact Hr|]. split; [exact Hj|exact Hcur].
Defined.
End Witnesses.
