(* ===== verification/EngineControl.v ===== *)
(** * Control of the engine

    Cancellation of jobs, start and stop, the stale-server sweep and the orphan
    scan, the pipeline and the arguments of continuations. *)
From S2P Require Import Prelude.
From S2P Require Import GoTime.
From S2P Require Import Job.
From S2P Require Import StorageI.
From S2P Require Import Memory.
From S2P Require Import MemoryInv.
From S2P Require Import MemoryFlow.
From S2P Require Import MemoryQueue.
From S2P Require Import MemoryHistory.
From S2P Require Import MemoryLife.
From S2P Require Import MemoryProps.
From S2P Require Import StorageSpec.
From S2P Require Import Retry.
From S2P Require Import Handler.
From S2P Require Import Json.
From S2P Require Import Engine.
From S2P Require Import EngineProps.

(** ** Contexts and cancellation *)
Section Contexts.
Context {S : Type}.

Lemma ctx_lookup_done fuel m addr p err :
  m !! addr = Some (p, Done err) -> ctx_lookup fuel m addr = Done err.
Proof. intros Hm. destruct fuel; simpl; by rewrite Hm; destruct p. Qed.

(** CancelJob on a job this engine is not processing is ErrNotProcessing and changes nothing;
    on one it is processing, the job's context is done afterwards, with "context canceled" unless
    it had already ended with another cause, and no other context, count, cancel function or
    stored job changes. *)
Theorem cancel_job jobID n (e : Engine S) :
  match cancels e !! jobID with
  | None => CancelJob jobID n e = (n, e, Err ErrNotProcessing)
  | Some addr => exists e',
      CancelJob jobID n e = (n, e', Ok tt) /\ eng_storage e' = eng_storage e /\
      active e' = active e /\ cancels e' = cancels e /\
      (forall a, a <> addr -> contexts e' !! a = contexts e !! a) /\
      (is_Some (contexts e !! addr) ->
       res_of (ctx_state addr n e')
       = Ok match ctx_lookup (size (contexts e)) (contexts e) addr with
            | Done err => Done err
            | Live => Done ContextCanceled
            end)
  end.
Proof.
  unfold CancelJob, cancel, end_context, ctx_state. run.
  destruct (cancels e !! jobID) as [addr|]; [|done]. cbn.
  destruct (ctx_lookup (size (contexts e)) (contexts e) addr) as [|err] eqn:Hl; cbn.
  - eexists. split; [reflexivity|]. split_and!; try done; cbn.
    + intros a Hne. by rewrite lookup_alter_ne.
    + intros [[p c] Hc]. f_equal. eapply ctx_lookup_done.
      by rewrite lookup_alter_eq, Hc.
  - exists e. split_and!; try done. intros _. by rewrite Hl.
Qed.
End Contexts.

(** ** The pipeline *)
Section PipelineOrder.
Context {EV : Env}.

(** A middleware that leaves marks in a log before and after the rest of the chain. *)
Definition tracing (name : string) : MiddlewareFunc (list string) := fun c next c' =>
  mmodify (fun log => log ++ ["enter " +:+ name]) ;;;
  out <- next c' ;;
  mmodify (fun log => log ++ ["leave " +:+ name]) ;;;
  mret out.

(** The pipeline applies its middleware outermost first: each one is entered in the order of
    the list, then the handler runs, then each one is left in the reverse order, and the handler's
    output comes back unchanged. *)
Lemma pipeline_order names (run : Runner (list string)) ctx out n log :
  (forall n log, run (jc_Context ctx) (jc_Job ctx) n log
     = (n, log ++ ["run"], Ok out)) ->
  Execute (mkPipeline (tracing <$> names) run) ctx n log
  = (n, log ++ ((fun m => "enter " +:+ m) <$> names) ++ ["run"]
            ++ ((fun m => "leave " +:+ m) <$> reverse names), Ok out).
Proof.
  intros Hrun. unfold Execute. cbn [middlewares runner]. revert n log.
  induction names as [|m names IH]; intros n log; [by cbn; rewrite Hrun|].
  cbn [fmap list_fmap foldr]. unfold tracing at 1. unfold_m. cbn [fst snd]. rewrite IH.
  do 2 f_equal. rewrite reverse_cons, fmap_app. cbn. by rewrite <- !app_assoc.
Qed.
End PipelineOrder.

(** ** Arguments of continuations *)
Section Merge.
Context {JS : Json}.

(** Merging the parent's result into a child's arguments: without a result the child gets
    its own arguments; with one it gets the encoding of the object of its arguments in which only
    "_parent_result" was set, to the decoded result when that is JSON; arguments that are not a
    JSON object contribute nothing. *)
Theorem merge_arguments parentResult childArgs :
  if decide (blen parentResult = 0)
  then mergeContinuationArgs parentResult childArgs = bclone childArgs
  else exists r out m,
    parentResult = Some r /\ mergeContinuationArgs parentResult childArgs = Some out /\
    json_Unmarshal out = Some (json_of_object m) /\
    (forall k, k <> "_parent_result" -> m !! k = args_object childArgs !! k) /\
    m !! "_parent_result" = match json_Unmarshal r with
                            | Some pr => Some pr
                            | None => args_object childArgs !! "_parent_result"
                            end.
Proof.
  unfold mergeContinuationArgs. case_decide as Hb.
  - by rewrite Hb.
  - destruct (Z.eqb_spec (blen parentResult) 0); [done|].
    destruct parentResult as [r|]; [|done].
    set (m := match json_Unmarshal r with Some pr => _ | None => _ end).
    destruct (json_Marshal_total (json_of_object m)) as [out Hout]. rewrite Hout.
    exists r, out, m. split_and!; try done.
    + by apply json_roundtrip.
    + intros k Hk. unfold m. destruct (json_Unmarshal r); [|done]. by rewrite lookup_insert_ne.
    + unfold m. destruct (json_Unmarshal r); [|done]. by rewrite lookup_insert_eq.
Qed.
End Merge.

(** ** Start *)
Section Starting.
Context {EV : Env} {S : Type} {SI : StorageI S}.

Lemma Start_started cfg parent n (e : Engine S) :
  startOnce e = true -> Start cfg parent n e = (n, e, Ok tt).
Proof. intros Hs. unfold Start. unfold_m. by rewrite Hs. Qed.

(** Follow the code of [Start] up to the answer of the storage. *)
Ltac start_run parent Hs :=
  unfold Start; unfold_m; rewrite Hs; cbn; unfold on_storage, mlift; cbn;
  match goal with |- context [storage_RegisterServer ?c ?sv ?ttl ?n ?s] =>
    destruct (storage_RegisterServer c sv ttl n s) as [[? ?] [[]|?|?|?]] end; cbn; try done;
  unfold cancel, end_context, ctx_state; unfold_m; cbn;
  match goal with |- context [ctx_lookup ?f ?m ?a] => destruct (ctx_lookup f m a) eqn:? end; cbn.

Lemma Start_sets cfg parent n (e : Engine S) :
  startOnce e = false -> startOnce (st_of (Start cfg parent n e)) = true.
Proof. intros Hs. by start_run parent Hs. Qed.

Lemma Start_launches cfg parent n (e : Engine S) :
  startOnce e = false -> res_of (Start cfg parent n e) = Ok tt ->
  loops (st_of (Start cfg parent n e))
  = loops e ++ (WorkerLoop <$> seq 0 (Z.to_nat (Workers cfg))) ++ [SchedulerLoop; CoordinatorLoop]
     ++ (if (0 <? CleanupInterval cfg) && (0 <? JobRetention cfg) then [CleanupLoop] else [])
     ++ [RecurringLoop].
Proof. intros Hs. by start_run parent Hs. Qed.

Lemma Start_fails cfg parent n (e : Engine S) err :
  startOnce e = false -> res_of (Start cfg parent n e) = Err err ->
  loops (st_of (Start cfg parent n e)) = loops e /\
  exists a c, runCtx (st_of (Start cfg parent n e)) = Some a /\
    res_of (ctx_state a n (st_of (Start cfg parent n e))) = Ok (Done c).
Proof.
  intros Hs. start_run parent Hs; intros _; (split; [done|]); do 2 eexists; (split; [reflexivity|]);
    unfold ctx_state; cbn; f_equal; [|eassumption].
  apply (ctx_lookup_done _ _ _ (Some parent)). by rewrite lookup_alter_eq, lookup_insert_eq.
Qed.

(** Start runs once: the first call either launches all its loops (one per worker, the
    scheduler, the coordinator, the cleanup when it is configured, the recurring manager) or, when
    the server cannot be registered, launches none, ends the run context and returns the wrapped
    error; every later call does nothing and reports success, after a failed start too. *)
Lemma start_once cfg parent n (e : Engine S) :
  startOnce e = false ->
  let r := Start cfg parent n e in
  (forall n', Start cfg parent n' (st_of r) = (n', st_of r, Ok tt)) /\
  (res_of r = Ok tt -> loops (st_of r) = loops e ++ (WorkerLoop <$> seq 0 (Z.to_nat (Workers cfg)))
     ++ [SchedulerLoop; CoordinatorLoop]
     ++ (if (0 <? CleanupInterval cfg) && (0 <? JobRetention cfg) then [CleanupLoop] else [])
     ++ [RecurringLoop]) /\
  (forall err, res_of r = Err err -> loops (st_of r) = loops e /\
     exists a c, runCtx (st_of r) = Some a /\
       res_of (ctx_state a n (st_of r)) = Ok (Done c)).
Proof.
  intros Hs r. split_and!.
  - intros n'. by apply Start_started, Start_sets.
  - by apply Start_launches.
  - intros err. by apply Start_fails.
Qed.
End Starting.

(** ** Sweeps over the in-memory backend *)
Section Sweeps.
Context {EV : Env}.

(** A server whose last heartbeat is more than three TTLs old at [t]. *)
Definition dead_server (cfg : Config) (t : Time) (sv : ServerInfo) : bool :=
  mul64 (ServerHeartbeatTTL cfg) 3 <? Sub t (sv_LastHeartbeat sv).

Lemma sweep_run cfg ctx t svs n (e : Engine Storage) : exists m,
  mfor svs (fun sv =>
    if dead_server cfg t sv
    then ignore_error (on_storage (storage_UnregisterServer ctx (sv_ID sv))) else mret tt) n e
  = (n, set_storage (upd_servers (fun _ => m) (eng_storage e)) e, Ok tt) /\
  forall k, m !! k = if decide (k ∈ sv_ID <$> filter (fun sv => dead_server cfg t sv) svs)
                     then None else servers (eng_storage e) !! k.
Proof.
  revert e. induction svs as [|sv svs IH]; intros e.
  - exists (servers (eng_storage e)). split; [by destruct e as [[]]|]. done.
  - cbn [mfor]. rewrite filter_bool_cons. destruct (dead_server cfg t sv) eqn:Hd.
    + destruct (IH (set_storage (upd_servers (delete (sv_ID sv)) (eng_storage e)) e)) as (m & Hr & Hm).
      exists m. erewrite mbind_ok by reflexivity. split; [exact Hr|]. intros k. rewrite Hm. cbn.
      rewrite lookup_delete. destruct (decide (sv_ID sv = k)) as [<-|Hne].
      * rewrite (decide_True (P := sv_ID sv ∈ sv_ID sv :: _)) by left. by case_decide.
      * apply decide_ext. rewrite elem_of_cons. naive_solver.
    + destruct (IH e) as (m & Hr & Hm). exists m. erewrite mbind_ok by reflexivity. by split.
Qed.

(** The stale-server sweep removes exactly the servers whose last heartbeat is more than
    three TTLs old at the instant it reads the clock, and changes nothing else. *)
Lemma stale_sweep_exact cfg p n (e : Engine Storage) :
  (forall k sv, servers (eng_storage e) !! k = Some sv -> sv_ID sv = k) -> runCtx e = Some p ->
  exists n' t m,
    staleServerSweep cfg n e
      = (n', set_storage (upd_servers (fun _ => m) (eng_storage e)) e, Ok tt) /\
    (exists i, t = clock i) /\
    forall k, m !! k = match servers (eng_storage e) !! k with
                       | Some sv => if mul64 (ServerHeartbeatTTL cfg) 3 <? Sub t (sv_LastHeartbeat sv)
                                    then None else Some sv
                       | None => None
                       end.
Proof.
  intros Hid Hp. unfold staleServerSweep.
  erewrite mbind_ok by (unfold run_ctx_state, run_ctx, ctx_state; unfold_m; by rewrite Hp).
  destruct (range_keys_spec (servers (eng_storage e)) n (eng_storage e)) as (ids & Hr & _ & _ & Hids).
  set (ctx := ctx_lookup _ _ p). set (svs := omap (fun k => servers (eng_storage e) !! k) ids).
  assert (mtry (on_storage (storage_GetServers ctx)) n e = (S n, e, Ok (inl svs))) as Hget.
  { apply mtry_ok. erewrite on_storage_run; [by rewrite set_storage_same|].
    change (storage_GetServers ctx) with (GetServers ctx). unfold GetServers.
    erewrite mbind_ok by reflexivity. by erewrite mbind_ok by exact Hr. }
  erewrite mbind_ok by exact Hget. cbv iota. erewrite mbind_ok by reflexivity. cbv zeta.
  destruct (sweep_run cfg ctx (clock (S n)) svs (S (S n)) e) as (m & Hm & Hk).
  exists (S (S n)), (clock (S n)), m. split; [exact Hm|]. split; [by eexists|].
  intros k. rewrite Hk. fold (dead_server cfg (clock (S n))).
  destruct (servers (eng_storage e) !! k) as [sv|] eqn:Hsv; [|by case_decide].
  fold (dead_server cfg (clock (S n)) sv).
  assert (k ∈ sv_ID <$> filter (fun sv => dead_server cfg (clock (S n)) sv) svs
          <-> dead_server cfg (clock (S n)) sv) as Hiff.
  { rewrite list_elem_of_fmap. split.
    - intros (sv' & -> & [Hd Hin]%list_elem_of_filter). subst svs.
      apply list_elem_of_omap in Hin as (k' & _ & Hk'). rewrite (Hid _ _ Hk') in Hsv. congruence.
    - intros Hd. exists sv. split; [by rewrite (Hid _ _ Hsv)|]. apply list_elem_of_filter.
      split; [done|]. apply list_elem_of_omap. exists k. split; [|done]. apply Hids. eauto. }
  destruct (dead_server cfg (clock (S n)) sv).
  - rewrite decide_True; [done|by apply Hiff].
  - rewrite decide_False; [done|]. intros Hin. by apply Hiff in Hin.
Qed.
End Sweeps.

Section Orphans.
Context {EV : Env}.

(** Job [id] is stored, its current state is not irreversible, and the schedule is [Sc]. *)
Definition requeuable (id : string) (Sc : gmap string Time) (s : Storage) : Prop :=
  wf s /\ scheduled s = Sc /\ exists h, jobStates s !! id = Some h /\ IrreversibleStates (current h) = false.

Lemma Requeue_books ctx x reason id Sc n s :
  requeuable id Sc s ->
  let r := Requeue ctx x reason n s in
  requeuable id Sc (st_of r) /\ (occ id (queues s) <= occ id (queues (st_of r)))%nat /\
  (x = id -> (occ id (queues s) < occ id (queues (st_of r)))%nat) /\
  no_panic (res_of r).
Proof.
  intros (W & HS & h & Hh & Hi). pose proof (wf_Requeue ctx x reason n s W) as W'. revert W'.
  assert (is_Some (jobs s !! id)) as [jid Hjid] by (apply (wf_dom _ _ _ _ _ W); eauto).
  unfold Requeue. run_env. destruct (jobs s !! x) as [j|] eqn:Hj; cbn; intros W'.
  2:{ split_and!; [by split; eauto|lia|intros ->; congruence|done]. }
  destruct (wf_dom _ _ _ _ _ W x) as [[hx Hhx] _]; [eauto|]. revert W'. rewrite Hhx. cbn.
  rewrite (wf_key _ _ _ _ _ W x j Hj).
  destruct (decide (0 < length hx)%nat) as [|Hlen]; [destruct (IrreversibleStates (current hx)) eqn:Hix|];
    cbn; intros W'; rewrite ?Hhx; cbn.
  - split_and!; [by split; eauto|lia| |done]. intros ->. congruence.
  - rewrite occ_push. split_and!; [|lia|intros ->; rewrite decide_True by done; lia|done].
    split; [done|]. split; [done|]. cbn. destruct (decide (x = id)) as [->|Hne].
    + eexists. rewrite Hhx. cbn. rewrite lookup_insert_eq. split; [done|]. by rewrite current_snoc.
    + exists h. rewrite Hhx. cbn. by rewrite lookup_insert_ne.
  - destruct Hlen. destruct hx; [|simpl; lia]. by apply (wf_hist _ _ _ _ _ W) in Hhx.
Qed.

Lemma requeue_all_books ctx id Sc tks n (e : Engine Storage) :
  requeuable id Sc (eng_storage e) ->
  let r := mfor tks (fun t =>
    ignore_error (on_storage (storage_Requeue ctx (jt_JobID t) "orphan recovery"))) n e in
  requeuable id Sc (eng_storage (st_of r)) /\
  (occ id (queues (eng_storage e)) <= occ id (queues (eng_storage (st_of r))))%nat /\
  (id ∈ jt_JobID <$> tks ->
   (occ id (queues (eng_storage e)) < occ id (queues (eng_storage (st_of r))))%nat).
Proof.
  revert n e. induction tks as [|tk tks IH]; intros n e Hq.
  { split_and!; [done|done|]. intros Hin. by apply elem_of_nil in Hin. }
  cbn [mfor]. pose proof (Requeue_books ctx (jt_JobID tk) "orphan recovery" id Sc n _ Hq) as Hb.
  cbv zeta in Hb. destruct Hb as (Hq1 & Hle & Hlt & Hnp).
  destruct (Requeue ctx (jt_JobID tk) "orphan recovery" n (eng_storage e)) as [[n1 s1] r1] eqn:Hr.
  assert (ignore_error (on_storage (storage_Requeue ctx (jt_JobID tk) "orphan recovery")) n e
          = (n1, set_storage s1 e, Ok tt)) as Hstep.
  { unfold ignore_error, on_storage, mlift. unfold_m. cbn [storage_Requeue memory_StorageI].
    rewrite Hr. cbn in Hnp. by destruct r1. }
  erewrite mbind_ok by exact Hstep. destruct (IH n1 (set_storage s1 e) Hq1) as (Hq2 & Hle2 & Hlt2).
  split_and!; [done|cbn in *; lia|]. intros [Heq|Hin]%elem_of_cons.
  - specialize (Hlt (eq_sym Heq)). cbn in *. lia.
  - specialize (Hlt2 Hin). cbn in *. lia.
Qed.

(** The orphan scan looks at heartbeats, not at states: a job that failed and waits in the
    schedule for its next attempt, but whose last heartbeat is older than the stale age, is put
    back in its queue by the next coordinator tick while it stays in the schedule, so that it is
    booked for two executions. *)
Lemma orphan_scan_double_books cfg p id at_ t h n (e : Engine Storage) :
  wf (eng_storage e) -> runCtx e = Some p ->
  jobStates (eng_storage e) !! id = Some h -> current h = StateScheduled ->
  scheduled (eng_storage e) !! id = Some at_ -> progress (eng_storage e) !! id = Some t ->
  (forall i, (n <= i)%nat ->
     Before t (Add (clock i) (wrap64 (- OrphanJobStaleAge cfg))) = true) ->
  let s' := eng_storage (st_of (coordinatorTick cfg n e)) in
  scheduled s' !! id = Some at_ /\
  (occ id (queues (eng_storage e)) < occ id (queues s'))%nat.
Proof.
  intros W Hp Hh Hc Hsc Hpr Hold. unfold coordinatorTick.
  erewrite mbind_ok by (unfold run_ctx_state, run_ctx, ctx_state; unfold_m; by rewrite Hp).
  set (ctx := ctx_lookup _ _ p).
  assert (exists n1 sv, ignore_error (on_storage (storage_Heartbeat ctx (ServerID cfg)
      (ServerHeartbeatTTL cfg))) n e
    = (n1, set_storage (upd_servers (fun _ => sv) (eng_storage e)) e, Ok tt) /\ (n <= n1)%nat)
    as (n1 & sv & Hhb & Hn1).
  { unfold ignore_error, on_storage, mlift. unfold_m. cbn. unfold Heartbeat. run_env.
    destruct (servers (eng_storage e) !! ServerID cfg).
    - do 2 eexists. split; [reflexivity|lia].
    - exists n, (servers (eng_storage e)). split; [by destruct e as [[]]|lia]. }
  erewrite mbind_ok by exact Hhb. set (s1 := upd_servers _ (eng_storage e)).
  destruct (range_keys_spec (progress s1) (S n1) s1) as (ids & Hr & _ & _ & Hids).
  set (cutoff := Add (clock n1) (wrap64 (- OrphanJobStaleAge cfg))).
  set (tks := omap (fun jobID => match progress s1 !! jobID with
    | Some lastProgress => if Before lastProgress cutoff
        then Some (mkJobTicket jobID ("orphan-" +:+ jobID)) else None
    | None => None end) ids).
  assert (mtry (on_storage (storage_GetOrphanedJobs ctx (OrphanJobStaleAge cfg))) n1 (set_storage s1 e)
          = (S (S n1), set_storage s1 e, Ok (inl tks))) as Horph.
  { apply mtry_ok. rewrite <- (set_storage_twice s1 s1 e) at 2. apply on_storage_run.
    change (storage_GetOrphanedJobs ctx) with (GetOrphanedJobs ctx). unfold GetOrphanedJobs.
    erewrite mbind_ok by reflexivity. erewrite mbind_ok by reflexivity.
    by erewrite mbind_ok by exact Hr. }
  erewrite mbind_ok by exact Horph. cbv iota.
  destruct (requeue_all_books ctx id (scheduled (eng_storage e)) tks (S (S n1)) (set_storage s1 e))
    as ((_ & Hsc' & _) & _ & Hlt).
  { split; [done|]. split; [done|]. exists h. split; [done|]. by rewrite Hc. }
  split; [by rewrite Hsc'|]. apply Hlt. apply list_elem_of_fmap.
  exists (mkJobTicket id ("orphan-" +:+ id)). split; [done|].
  apply list_elem_of_omap. exists id. split; [apply Hids; cbn; eauto|].
  cbn. rewrite Hpr. unfold cutoff. by rewrite Hold.
Qed.
End Orphans.

Section Witnesses.
#[local] Instance E2 : Env := env_at 0.

Definition log_run : Runner (list string) := fun _ _ =>
  mmodify (fun log => log ++ ["run"]) ;;; mret (Some "ok", None).

Lemma pipeline_order_witness :
  Execute (mkPipeline (tracing <$> ["a"; "b"]) log_run) (mkJobContext 0 echo 0 0) 0%nat []
  = (0%nat, ["enter a"; "enter b"; "run"; "leave b"; "leave a"], Ok (Some "ok", None)).
Proof.
  apply (pipeline_order ["a"; "b"] log_run (mkJobContext 0 echo 0 0) (Some "ok", None) 0%nat []).
  reflexivity.
Defined.

Lemma start_once_witness :
  let r := Start (DefaultConfig 1) 0 0%nat (NewEngine New) in
  res_of r = Ok tt /\ Start (DefaultConfig 1) 0 7%nat (st_of r) = (7%nat, st_of r, Ok tt).
Proof.
  split; [vm_compute; reflexivity|].
  apply (start_once (DefaultConfig 1) 0 0%nat (NewEngine New)). reflexivity.
Defined.

(** A server that has not been heard of for a long time. *)
Definition old_server : ServerInfo :=
  mkServerInfo "srv-1" (- Hour) (- Hour) 4 ["default"] ServerStatusActive.

Definition swept_engine : Engine Storage :=
  mkEngine (upd_servers <["srv-1" := old_server]> New) (Some 0%nat) ∅ ∅ ∅ [] true false.

Lemma stale_sweep_exact_witness : exists n' m,
  staleServerSweep (DefaultConfig 1) 0%nat swept_engine
    = (n', set_storage (upd_servers (fun _ => m) (eng_storage swept_engine)) swept_engine, Ok tt) /\
  servers (eng_storage swept_engine) !! "srv-1" = Some old_server.
Proof.
  destruct (stale_sweep_exact (DefaultConfig 1) 0%nat 0%nat swept_engine) as (n' & t & m & Hr & _).
  - intros k sv Hk. cbn in Hk. rewrite lookup_insert in Hk. case_decide as Hd.
    + injection Hk as <-. exact Hd.
    + rewrite lookup_empty in Hk. discriminate.
  - reflexivity.
  - exists n', m. split; [exact Hr|vm_compute; reflexivity].
Defined.

(** The job of [one_attempt] waits for its second attempt; minutes later the
    coordinator of an engine with a stale age of one second ticks. *)
Definition waiting_engine : Engine Storage :=
  mkEngine (exec_all one_attempt 0 New).2 (Some 0%nat) ∅ ∅ ∅ [] true false.

Definition nervous : Config :=
  mkConfig "local" 1 ["default"] ∅ Second Second Second Second Second 100 Second Second Second 0 0.

Definition failed_history : list JobState :=
  default [] (jobStates (eng_storage waiting_engine) !! "id-0").

Lemma orphan_scan_double_books_witness :
  let s' := eng_storage (st_of (coordinatorTick nervous 600%nat waiting_engine)) in
  scheduled s' !! "id-0" = Some (5 * Second) /\
  (occ "id-0" (queues (eng_storage waiting_engine)) < occ "id-0" (queues s'))%nat.
Proof.
  apply (orphan_scan_double_books nervous 0%nat "id-0" (5 * Second) (4 * Second) failed_history
    600%nat waiting_engine).
  - apply (reachable_inv _ _ (exec_all_reachable one_attempt 0)).
  - reflexivity.
  - vm_compute. reflexivity.
  - vm_compute. reflexivity.
  - vm_compute. reflexivity.
  - vm_compute. reflexivity.
  - intros i Hi. unfold Before, Add. apply Z.ltb_lt.
    change (clock i) with (0 + Z.of_nat i * 1000000000).
    change (wrap64 (- OrphanJobStaleAge nervous)) with (-1000000000). unfold Second. lia.
Defined.
End Witnesses.
