(* ===== verification/Recurring.v ===== *)
(** * Recurring jobs (internal/engine/recurring.go, internal/job/cronexpr.go)

    The manager that keeps a cron scheduler in step with the stored definitions,
    and the callback that fires one.  The scheduler is the library
    github.com/robfig/cron, an interface here. *)
From S2P Require Import Prelude.
From S2P Require Import GoTime.
From S2P Require Import Job.
From S2P Require Import StorageI.
From S2P Require Import Memory.
From S2P Require Import MemoryInv.
From S2P Require Import MemoryFlow.
From S2P Require Import MemoryQueue.
From S2P Require Import MemoryProps.
From S2P Require Import StorageSpec.
From S2P Require Import Handler.
From S2P Require Import Json.
From S2P Require Import Engine.
From S2P Require Import EngineProps.

(** robfig/cron: parsing an expression (six fields or a descriptor), the next
    time of a schedule, and a scheduler that keeps entries under identifiers.
    [AddFunc] fails when the expression does not parse and otherwise returns an
    identifier that was not in use; [Remove] drops one entry. *)
Class Cron := {
  cron_schedule : Type;
  cron_Parse : string -> cron_schedule + error;
  cron_Next : cron_schedule -> Time -> Time;
  cron_state : Type;
  cron_New : cron_state;
  cron_entries : cron_state -> gmap nat (string * RecurringJobEntry);
  cron_AddFunc : string -> RecurringJobEntry -> cron_state -> cron_state * (nat + error);
  cron_Remove : nat -> cron_state -> cron_state;
  cron_New_entries : cron_entries cron_New = ∅;
  cron_AddFunc_spec : forall expr f c,
    match cron_Parse expr with
    | inr err => cron_AddFunc expr f c = (c, inr err)
    | inl _ => exists c' id, cron_AddFunc expr f c = (c', inl id) /\
        cron_entries c !! id = None /\ cron_entries c' = <[id := (expr, f)]> (cron_entries c)
    end;
  cron_Remove_spec : forall id c, cron_entries (cron_Remove id c) = delete id (cron_entries c);
}.

Definition recurringLockPrefix : string := "lock:recurring:".
Definition recurringLockTTL : Duration := 30 * Second.
Definition recurringReloadInterval : Duration := 60 * Second.

(** [recurringManager]; [m_entries] maps a definition to its cron entry. *)
Record recurringManager `{Cron} := mkManager {
  m_cron : cron_state;
  m_entries : gmap string nat
}.

Section Recurring.
Context `{Env} `{Cron} {S : Type} `{StorageI S}.

(** [NextRecurringRun]. *)
Definition NextRecurringRun (expr : string) (t : Time) : Time + error :=
  match cron_Parse expr with
  | inr err => inr err
  | inl sched => inl (cron_Next sched t)
  end.

Definition newRecurringManager : recurringManager := mkManager _ cron_New ∅.

Definition schedule (entry : RecurringJobEntry) (m : recurringManager) : recurringManager :=
  match cron_AddFunc (re_CronExpr entry) entry (m_cron m) with
  | (c, inr _) => mkManager _ c (m_entries m)
  | (c, inl id) => mkManager _ c (<[re_ID entry := id]> (m_entries m))
  end.

Definition unschedule (definitionID : string) (m : recurringManager) : recurringManager :=
  match m_entries m !! definitionID with
  | Some cronID => mkManager _ (cron_Remove cronID (m_cron m)) (delete definitionID (m_entries m))
  | None => m
  end.

(** One turn of the loop of [loadAll]. *)
Definition load_entry (m : recurringManager) (entry : RecurringJobEntry) : recurringManager :=
  if negb (re_Enabled entry) then m else schedule entry m.

Definition loadAll (ctx : Ctx) (m : recurringManager) : M S recurringManager :=
  entries <- storage_GetRecurringJobs ctx ;;
  mret (fold_left load_entry entries m).

(** One turn of the first loop of [reload]. *)
Definition reload_entry (m : recurringManager) (entry : RecurringJobEntry) : recurringManager :=
  if negb (re_Enabled entry) then unschedule (re_ID entry) m
  else match m_entries m !! re_ID entry with
       | None => schedule entry m
       | Some _ => m
       end.

(** Its second loop: [seen] are the definitions in storage. *)
Definition drop_unseen (seen : list string) (ids : list string) (m : recurringManager)
    : recurringManager :=
  fold_left (fun m id => if decide (id ∈ seen) then m else unschedule id m) ids m.

Definition reload (ctx : Ctx) (m : recurringManager) : M S recurringManager :=
  entries <- storage_GetRecurringJobs ctx ;;
  let m := fold_left reload_entry entries m in
  ids <- range_keys (m_entries m) ;;
  mret (drop_unseen (re_ID <$> entries) ids m).

(** The job a firing enqueues. *)
Definition fired_job (entry : RecurringJobEntry) : Job :=
  let queue := if decide (re_Queue entry = "") then "default" else re_Queue entry in
  let args := if blen (re_Args entry) =? 0 then Some "{}" else re_Args entry in
  newJob (re_JobName entry) args queue 0.

(** The callback [fireFunc] returns; [ctx] is its ten-second context. *)
Definition fire (ctx : Ctx) (entry : RecurringJobEntry) : M S unit :=
  lock <- mtry (storage_AcquireLock ctx (recurringLockPrefix +:+ re_ID entry) recurringLockTTL) ;;
  match lock with
  | inr _ => mret tt
  | inl lock =>
    mdefer (mtry (storage_ReleaseLock ctx lock) ;;; mret tt) (
      let job := fired_job entry in
      jobID <- mtry (storage_Enqueue ctx (Queue job) job) ;;
      match jobID with
      | inr _ => mret tt
      | inl _ =>
        now <- time_Now ;;
        let nextRun := match NextRecurringRun (re_CronExpr entry) now with
                       | inl t => t
                       | inr _ => now
                       end in
        mtry (storage_UpdateRecurringLastRun ctx (re_ID entry) now nextRun) ;;;
        mret tt
      end)
  end.

(** ** The manager's invariant

    Each scheduled definition has its own cron entry, whose callback is for that
    definition, and the scheduler holds nothing else. *)
Record manager_ok (m : recurringManager) : Prop := {
  mo_entry : forall d id, m_entries m !! d = Some id ->
    exists expr entry, cron_entries (m_cron m) !! id = Some (expr, entry) /\ re_ID entry = d /\
      re_CronExpr entry = expr;
  mo_cron : forall id expr entry, cron_entries (m_cron m) !! id = Some (expr, entry) ->
    m_entries m !! re_ID entry = Some id;
}.

Definition parses (entry : RecurringJobEntry) : Prop := exists sched, cron_Parse (re_CronExpr entry) = inl sched.

Lemma parses_dec_iff entry :
  parses entry <-> match cron_Parse (re_CronExpr entry) with inl _ => True | inr _ => False end.
Proof. unfold parses. destruct (cron_Parse (re_CronExpr entry)); naive_solver. Qed.

Lemma schedule_ok entry m :
  manager_ok m -> m_entries m !! re_ID entry = None ->
  manager_ok (schedule entry m) /\
  (parses entry -> is_Some (m_entries (schedule entry m) !! re_ID entry)) /\
  (~ parses entry -> schedule entry m = m) /\
  (forall d, d <> re_ID entry -> m_entries (schedule entry m) !! d = m_entries m !! d).
Proof.
  intros [M1 M2] Hnone. unfold schedule. pose proof (cron_AddFunc_spec (re_CronExpr entry) entry (m_cron m)) as Hs.
  rewrite parses_dec_iff. destruct (cron_Parse (re_CronExpr entry)) as [sched|err].
  - destruct Hs as (c' & id & -> & Hid & Hc'). split_and!; [split; cbn| | |].
    + intros d id'. rewrite lookup_insert. case_decide as Hd.
      * intros [= <-]. subst d. rewrite Hc', lookup_insert_eq. eauto.
      * intros Hl. destruct (M1 d id' Hl) as (expr & en & He & ? & ?).
        exists expr, en. rewrite Hc', lookup_insert_ne; [done|]. intros ->. congruence.
    + intros id' expr en. rewrite Hc', lookup_insert. case_decide as Hd.
      * intros [= <- <-]. by rewrite Hd, lookup_insert_eq.
      * intros Hl. pose proof (M2 _ _ _ Hl) as Hl'. rewrite lookup_insert_ne; [done|]. congruence.
    + intros _. cbn. rewrite lookup_insert_eq. eauto.
    + intros []. done.
    + intros d Hd. cbn. by rewrite lookup_insert_ne.
  - rewrite Hs. split_and!; [by destruct m; split|done|by destruct m|done].
Qed.

Lemma unschedule_ok d m :
  manager_ok m -> manager_ok (unschedule d m) /\
  (forall x, m_entries (unschedule d m) !! x = if decide (x = d) then None else m_entries m !! x).
Proof.
  intros [M1 M2]. unfold unschedule. destruct (m_entries m !! d) as [id|] eqn:Hd.
  - split; [split; cbn|].
    + intros x id'. rewrite lookup_delete. case_decide as Hx; [done|]. intros Hl.
      destruct (M1 x id' Hl) as (expr & en & He & Hen & ?). exists expr, en.
      rewrite cron_Remove_spec, lookup_delete_ne; [done|]. intros ->.
      apply M2 in He. destruct (M1 d id' Hd) as (expr' & en' & He' & Hen' & _). apply M2 in He'.
      destruct (M1 x id' Hl) as (? & ? & Ha & Hb & _). destruct (M1 d id' Hd) as (? & ? & Ha' & Hb' & _).
      congruence.
    + intros id' expr en. rewrite cron_Remove_spec, lookup_delete. case_decide as Hx; [done|].
      intros Hl. apply M2 in Hl. rewrite lookup_delete_ne; [done|]. congruence.
    + intros x. cbn. rewrite lookup_delete. case_decide; case_decide; congruence.
  - split; [by split|]. intros x. case_decide; by subst.
Qed.

(** What reconciling with the definitions [entries] does to the scheduled map. *)
Record reconciled (entries : list RecurringJobEntry) (m m' : recurringManager) : Prop := {
  rc_disabled : forall en, en ∈ entries -> re_Enabled en = false -> m_entries m' !! re_ID en = None;
  rc_kept : forall en id, en ∈ entries -> re_Enabled en = true -> m_entries m !! re_ID en = Some id ->
    m_entries m' !! re_ID en = Some id;
  rc_new : forall en, en ∈ entries -> re_Enabled en = true -> m_entries m !! re_ID en = None ->
    (is_Some (m_entries m' !! re_ID en) <-> parses en);
}.

Ltac singletons :=
  intros; repeat match goal with H : _ ∈ [_] |- _ => apply list_elem_of_singleton in H as -> end.

Lemma reload_entry_ok en m :
  manager_ok m -> manager_ok (reload_entry m en) /\ reconciled [en] m (reload_entry m en) /\
  (forall d, d <> re_ID en -> m_entries (reload_entry m en) !! d = m_entries m !! d).
Proof.
  intros M. unfold reload_entry. destruct (re_Enabled en) eqn:Hen; cbn.
  - destruct (m_entries m !! re_ID en) as [id|] eqn:Hid.
    + split_and!; [done| |done]. split; singletons; congruence.
    + destruct (schedule_ok en m M Hid) as (M' & Hp & Hnp & Hrest). split_and!; [done| |done].
      split; singletons; try congruence. split; [|done]. intros Hs. destruct (cron_Parse (re_CronExpr en)) as [sched|err] eqn:Hc; [by exists sched|].
      assert (~ parses en) as Hn by (intros [? ?]; congruence). rewrite (Hnp Hn), Hid in Hs. by destruct Hs.
  - destruct (unschedule_ok (re_ID en) m M) as [M' Hx]. split_and!; [done| |].
    + split; singletons; try congruence. by rewrite Hx, decide_True.
    + intros d Hd. by rewrite Hx, decide_False.
Qed.

Lemma reload_fold_ok entries m :
  manager_ok m -> NoDup (re_ID <$> entries) ->
  let m' := fold_left reload_entry entries m in
  manager_ok m' /\ reconciled entries m m' /\
  (forall d, d ∉ re_ID <$> entries -> m_entries m' !! d = m_entries m !! d).
Proof.
  revert m. induction entries as [|en entries IH]; intros m M Hnd.
  - split_and!; [done| |done]. split; intros *; by intros ?%elem_of_nil.
  - apply NoDup_cons in Hnd as [Hni Hnd].
    destruct (reload_entry_ok en m M) as (M1 & R1 & Hrest1).
    destruct (IH (reload_entry m en) M1 Hnd) as (M2 & R2 & Hrest2). cbn [fold_left].
    split_and!; [done| |].
    + assert (forall en', en' ∈ entries -> re_ID en' <> re_ID en) as Hne.
      { intros en' Hin Heq. apply Hni. rewrite <- Heq. by apply list_elem_of_fmap_2. }
      split.
      * intros en' [->|Hin]%elem_of_cons He; [|by apply (rc_disabled _ _ _ R2)].
        rewrite Hrest2 by done. apply (rc_disabled _ _ _ R1); [left|done].
      * intros en' id [->|Hin]%elem_of_cons He Hid.
        -- rewrite Hrest2 by done. apply (rc_kept _ _ _ R1); [left|done|done].
        -- apply (rc_kept _ _ _ R2); [done|done|]. rewrite Hrest1 by auto. done.
      * intros en' [->|Hin]%elem_of_cons He Hid.
        -- rewrite Hrest2 by done. apply (rc_new _ _ _ R1); [left|done|done].
        -- apply (rc_new _ _ _ R2); [done|done|]. rewrite Hrest1 by auto. done.
    + intros d Hd. rewrite fmap_cons, elem_of_cons in Hd. rewrite Hrest2, Hrest1; [done|tauto|tauto].
Qed.

Lemma drop_unseen_ok seen ids m :
  manager_ok m -> manager_ok (drop_unseen seen ids m) /\
  (forall d, m_entries (drop_unseen seen ids m) !! d
     = if decide (d ∈ ids /\ d ∉ seen) then None else m_entries m !! d).
Proof.
  unfold drop_unseen. revert m. induction ids as [|id ids IH]; intros m M; cbn [fold_left].
  - split; [done|]. intros d. rewrite decide_False; [done|]. intros [Hd _]. by apply elem_of_nil in Hd.
  - destruct (decide (id ∈ seen)) as [Hs|Hs].
    + destruct (IH m M) as [M' Hd]. split; [done|]. intros d. rewrite Hd. apply decide_ext.
      rewrite elem_of_cons. naive_solver.
    + destruct (unschedule_ok id m M) as [M1 Hu1]. destruct (IH _ M1) as [M' Hd]. split; [done|].
      intros d. rewrite Hd, Hu1. destruct (decide (d = id)) as [->|Hne].
      * rewrite (decide_True (P := id ∈ id :: ids /\ id ∉ seen)) by (split; [left|done]). by case_decide.
      * apply decide_ext. rewrite elem_of_cons. naive_solver.
Qed.

(** C37. Reloading reconciles the scheduler with the stored definitions: the manager's map and the
    cron entries stay in bijection, a disabled or removed definition is no longer scheduled, an
    enabled one that was scheduled keeps its entry (and with it the expression it was first
    scheduled with), and an enabled one that was not is scheduled exactly when its expression
    parses. *)
Theorem reload_reconciles ctx m n (s : S) n1 entries :
  manager_ok m -> storage_GetRecurringJobs ctx n s = (n1, s, Ok entries) ->
  NoDup (re_ID <$> entries) -> exists n' m',
    reload ctx m n s = (n', s, Ok m') /\ manager_ok m' /\ reconciled entries m m' /\
    (forall d, d ∉ re_ID <$> entries -> m_entries m' !! d = None).
Proof.
  intros M Hget Hnd. destruct (reload_fold_ok entries m M Hnd) as (M1 & R1 & Hrest).
  set (m1 := fold_left reload_entry entries m) in *.
  destruct (range_keys_spec (m_entries m1) n1 s) as (ids & Hr & _ & _ & Hids).
  destruct (drop_unseen_ok (re_ID <$> entries) ids m1 M1) as [M2 Hd].
  assert (forall en, en ∈ entries ->
    m_entries (drop_unseen (re_ID <$> entries) ids m1) !! re_ID en = m_entries m1 !! re_ID en) as Hseen.
  { intros en Hen. rewrite Hd, decide_False; [done|]. intros [_ Hx]. destruct Hx.
    by apply list_elem_of_fmap_2. }
  eexists _, (drop_unseen (re_ID <$> entries) ids m1). split_and!.
  - unfold reload. erewrite mbind_ok by exact Hget. by erewrite mbind_ok by exact Hr.
  - done.
  - split; intros en; intros; rewrite Hseen by done;
      [by apply (rc_disabled _ _ _ R1)|by apply (rc_kept _ _ _ R1)|by apply (rc_new _ _ _ R1)].
  - intros d Hx. rewrite Hd. case_decide as Hc; [done|].
    destruct (m_entries m1 !! d) eqn:He; [|done]. destruct Hc. split; [|done]. apply Hids. eauto.
Qed.
End Recurring.

(** ** Firing, over the in-memory backend *)
Section Firing.
Context {EV : Env} {CR : Cron}.

(** Nobody holds the lock of [resource] at clock call [n]. *)
Definition lock_free (resource : string) (n : nat) (s : Storage) : Prop :=
  forall a, locks s !! resource = Some a ->
  exists l, lockHeap s !! a = Some l /\ Before (clock n) (lk_expiresAt l) = false.

Lemma AcquireLock_free ctx r ttl n s :
  lock_free r n s -> exists n' a o t,
    AcquireLock ctx r ttl n s
    = (n', upd_locks <[r := a]> (upd_lockHeap <[a := mkMemoryLock r o t false]> s), Ok a) /\ (n <= n')%nat.
Proof.
  intros Hf. unfold AcquireLock. run_env. destruct (locks s !! r) as [b|] eqn:Hr.
  - destruct (Hf b Hr) as (l & Hl & Hb). rewrite Hl. cbn. rewrite Hb. cbn.
    do 4 eexists. split; [reflexivity|lia].
  - do 4 eexists. split; [reflexivity|lia].
Qed.

Lemma Release_held ctx a r o t n s :
  lockHeap s !! a = Some (mkMemoryLock r o t false) -> locks s !! r = Some a ->
  Release ctx a n s
  = (n, upd_lockHeap <[a := mkMemoryLock r o t true]> (upd_locks (delete r) s), Ok tt).
Proof. intros Ha Hr. unfold Release. run. rewrite Ha. cbn. rewrite Hr, Ha. by rewrite decide_False by tauto. Qed.

(** An update of the recurring definitions, or its refusal. *)
Lemma UpdateRecurringLastRun_run ctx id l nx n s : exists n' m,
  (mtry (UpdateRecurringLastRun ctx id l nx) ;;; mret tt) n s
  = (n', upd_recurring (fun _ => m) s, Ok tt) /\ (n <= n')%nat.
Proof.
  unfold UpdateRecurringLastRun. run_env. destruct (recurring s !! id) as [e|].
  - do 2 eexists. split; [reflexivity|lia].
  - exists n, (recurring s). split; [by destruct s|lia].
Qed.

(** One firing with the lock free: one job is created and the lock is free again. *)
Lemma fire_run ctx entry n s :
  memory_inv n s -> lock_free (recurringLockPrefix +:+ re_ID entry) n s ->
  exists n' s' id j st,
    fire ctx entry n s = (n', s', Ok tt) /\ memory_inv n' s' /\ spec_job s id = None /\
    only_job id (mkJobWithStates j [st]) s s' /\ st_Name st = StateEnqueued /\
    Name j = re_JobName entry /\
    Args j = (if blen (re_Args entry) =? 0 then Some "{}" else re_Args entry) /\
    locks s' !! (recurringLockPrefix +:+ re_ID entry) = None.
Proof.
  intros HI Hf. set (r := recurringLockPrefix +:+ re_ID entry) in *.
  destruct (AcquireLock_free ctx r recurringLockTTL n s Hf) as (n1 & a & o & t & Hacq & Hn1).
  set (s1 := upd_locks <[r := a]> (upd_lockHeap <[a := mkMemoryLock r o t false]> s)) in *.
  assert (memory_inv n1 s1) as HI1 by (apply (memory_inv_le n n1 s Hn1 HI)).
  destruct (memory_spec_Enqueue ctx (Queue (fired_job entry)) (fired_job entry) n1 s1 HI1 eq_refl)
    as (n2 & s2 & id & j & st & Henq & HI2 & Hnew & Ho & Hst & Hname & Hargs & _).
  assert (locks s2 = locks s1 /\ lockHeap s2 = lockHeap s1) as [Hl2 Hh2].
  { clear -Henq. unfold Enqueue in Henq. rewrite decide_True in Henq by done. run_env.
    injection Henq as _ <- _. done. }
  destruct (UpdateRecurringLastRun_run ctx (re_ID entry) (clock n2)
    (match NextRecurringRun (re_CronExpr entry) (clock n2) with inl t => t | inr _ => clock n2 end)
    (S n2) s2) as (n3 & m & Hupd & Hn3).
  set (s3 := upd_recurring (fun _ => m) s2) in *.
  set (s4 := upd_lockHeap <[a := mkMemoryLock r o t true]> (upd_locks (delete r) s3)).
  assert (Release ctx a n3 s3 = (n3, s4, Ok tt)) as Hrel.
  { apply Release_held.
    - change (lockHeap s3) with (lockHeap s2). rewrite Hh2. cbn. by rewrite lookup_insert_eq.
    - change (locks s3) with (locks s2). rewrite Hl2. cbn. by rewrite lookup_insert_eq. }
  exists n3, s4, id, j, st. split_and!; try done.
  - unfold fire. erewrite mbind_ok by (apply mtry_ok; exact Hacq). cbv iota beta zeta.
    erewrite mdefer_ok.
    2:{ erewrite mbind_ok by (apply mtry_ok; exact Henq). cbv iota beta zeta.
        erewrite mbind_ok by reflexivity. exact Hupd. }
    change (@storage_ReleaseLock Storage memory_StorageI ctx a) with (Release ctx a).
    erewrite (mbind_ok (mtry (Release ctx a))) by (apply mtry_ok; exact Hrel). done.
  - apply (memory_inv_le n2 n3); [lia|]. exact HI2.
  - destruct Ho as [O1 O2 O3]. split; [exact O1|exact O2|exact O3].
  - change (locks s4) with (delete r (locks s2)). apply lookup_delete_eq.
Qed.

(** A firing of a recurring definition whose lock is held by a node that has not expired
    creates nothing and changes nothing. *)
Lemma fire_skipped ctx entry a l n s :
  locks s !! (recurringLockPrefix +:+ re_ID entry) = Some a -> lockHeap s !! a = Some l ->
  Before (clock n) (lk_expiresAt l) = true ->
  fire ctx entry n s = (S n, s, Ok tt).
Proof.
  intros Hr Ha Hb. unfold fire.
  erewrite mbind_ok by (apply mtry_err; exact (AcquireLock_busy ctx _ recurringLockTTL n s a l Hr Ha Hb)).
  done.
Qed.

(** The lock does not make a tick fire once: a callback releases the lock when it returns, so
    that two nodes whose callbacks for the same tick run one after the other both enqueue the
    job; each firing creates exactly one Enqueued job with the definition's name and arguments
    ("{}" when it has none) and leaves the lock free. *)
Theorem fire_twice ctx ctx' entry n s :
  memory_inv n s -> lock_free (recurringLockPrefix +:+ re_ID entry) n s ->
  exists n' s1 s' id1 id2 j1 j2 st1 st2,
    (fire ctx entry ;;; fire ctx' entry) n s = (n', s', Ok tt) /\
    only_job id1 (mkJobWithStates j1 [st1]) s s1 /\ only_job id2 (mkJobWithStates j2 [st2]) s1 s' /\
    id1 <> id2 /\ spec_job s id1 = None /\ spec_job s id2 = None /\
    st_Name st1 = StateEnqueued /\ st_Name st2 = StateEnqueued /\
    Name j1 = re_JobName entry /\ Name j2 = re_JobName entry /\
    Args j1 = (if blen (re_Args entry) =? 0 then Some "{}" else re_Args entry).
Proof.
  intros HI Hf.
  destruct (fire_run ctx entry n s HI Hf) as (n1 & s1 & id1 & j1 & st1 & H1 & HI1 & N1 & O1 & S1 & A1 & B1 & L1).
  assert (lock_free (recurringLockPrefix +:+ re_ID entry) n1 s1) as Hf1
    by (intros a; rewrite L1; done).
  destruct (fire_run ctx' entry n1 s1 HI1 Hf1) as (n2 & s2 & id2 & j2 & st2 & H2 & HI2 & N2 & O2 & S2 & A2 & B2 & L2).
  assert (id1 <> id2) as Hne by (intros <-; rewrite (oj_job _ _ _ _ O1) in N2; done).
  exists n2, s1, s2, id1, id2, j1, j2, st1, st2. split_and!; try done.
  - by erewrite mbind_ok by exact H1.
  - rewrite <- (oj_rest _ _ _ _ O1); done.
Qed.
End Firing.

Section Witnesses.
#[local] Instance E3 : Env := env_at 0.

(** A scheduler that accepts every expression. *)
Definition free_cron : Cron.
Proof.
  refine {| cron_schedule := unit; cron_Parse _ := inl tt; cron_Next _ t := t + Minute;
            cron_state := gmap nat (string * RecurringJobEntry); cron_New := ∅;
            cron_entries c := c;
            cron_AddFunc expr f c := let id := fresh (dom c) in (<[id := (expr, f)]> c, inl id);
            cron_Remove id c := delete id c |}.
  - reflexivity.
  - intros expr f c. do 2 eexists. split; [reflexivity|]. split; [|reflexivity].
    apply not_elem_of_dom, is_fresh.
  - reflexivity.
Defined.

#[local] Existing Instance free_cron.

Definition report : RecurringJobEntry :=
  mkRecurringJobEntry "daily" "report" None "" "@daily" None None true 0 0.

Definition one_definition : Storage := upd_recurring <["daily" := report]> New.

Lemma reload_reconciles_witness : exists n' m',
  reload Live newRecurringManager 0%nat one_definition = (n', one_definition, Ok m') /\
  is_Some (m_entries m' !! "daily").
Proof.
  destruct (reload_reconciles Live newRecurringManager 0%nat one_definition 1%nat [report])
    as (n' & m' & Hr & _ & Hrc & _).
  - split.
    + intros d id Hd. cbn in Hd. rewrite lookup_empty in Hd. discriminate.
    + intros id expr en Hd. cbn in Hd. rewrite lookup_empty in Hd. discriminate.
  - vm_compute. reflexivity.
  - apply NoDup_singleton.
  - exists n', m'. split; [exact Hr|]. apply (rc_new _ _ _ Hrc report).
    + left.
    + reflexivity.
    + reflexivity.
    + exists tt. reflexivity.
Defined.

Definition locked : Storage :=
  st_of (AcquireLock Live "lock:recurring:daily" (30 * Second) 0%nat one_definition).

Lemma fire_skipped_witness : fire Live report 3%nat locked = (4%nat, locked, Ok tt).
Proof.
  apply (fire_skipped Live report 2%nat
    (mkMemoryLock "lock:recurring:daily" "id-0" (31 * Second) false) 3%nat locked);
    vm_compute; reflexivity.
Defined.

Lemma fire_twice_witness : exists n' s' id1 id2,
  (fire Live report ;;; fire Live report) 0%nat one_definition = (n', s', Ok tt) /\ id1 <> id2 /\
  is_Some (spec_job s' id2).
Proof.
  destruct (fire_twice Live Live report 0%nat one_definition)
    as (n' & s1 & s' & id1 & id2 & j1 & j2 & st1 & st2 & Hr & _ & Ho & Hne & _).
  - apply (memory_inv_New 0).
  - intros a Ha. vm_compute in Ha. discriminate.
  - exists n', s', id1, id2. split; [exact Hr|]. split; [exact Hne|]. rewrite (oj_job _ _ _ _ Ho). eauto.
Defined.
End Witnesses.
