(* ===== verification/ConfigFile.v ===== *)
(** * The configuration document (internal/config)

    The document, its defaults and checks, and what is built from it.  Reading
    the file and the environment is the viper library's; a document here is the
    value it fills.  Names that the engine's configuration also uses live in the
    module [Doc]. *)
From S2P Require Import Prelude.
From S2P Require Import GoTime.
From S2P Require Import Handler.
From S2P Require Retry.

Module Doc.

Record ServerConfig := mkServerConfig {
  Host : string;
  Port : Z;
  Workers : Z;
  Queues : list string;
  DequeueTimeout : Duration;
  ShutdownTimeout : Duration;
  MaxBodySize : Z;
  DefaultTimeout : Duration;
  ServerID : string
}.

Record HeartbeatConfig := mkHeartbeatConfig {
  hb_Interval : Duration; hb_Timeout : Duration; hb_OrphanTimeout : Duration
}.

Record SchedulerConfig := mkSchedulerConfig { sc_Interval : Duration; sc_BatchSize : Z }.

Record CleanupConfig := mkCleanupConfig { cl_Interval : Duration; cl_JobRetention : Duration }.

Record RedisConfig := mkRedisConfig { Addr : string; Password : string; DB : Z }.

Record PostgresConfig := mkPostgresConfig { DSN : string; MaxConns : Z; MinConns : Z }.

Record StorageConfig := mkStorageConfig {
  Backend : string; Redis : RedisConfig; Postgres : PostgresConfig
}.

Record LoggingConfig := mkLoggingConfig { Level : string; Format : string }.

Record AuthConfig := mkAuthConfig { au_Enabled : bool; Token : string }.

Record HandlerEntry := mkHandlerEntry { he_Name : string; Cmd : string }.

Record Config := mkConfig {
  Server : ServerConfig;
  Heartbeat : HeartbeatConfig;
  Scheduler : SchedulerConfig;
  Cleanup : CleanupConfig;
  Storage : StorageConfig;
  Logging : LoggingConfig;
  MetricsEnabled : bool;
  Auth : AuthConfig;
  Handlers : list HandlerEntry;
  QueueLimits : gmap string Z
}.

Definition Defaults : Config := {|
  Server := {| Host := "0.0.0.0"; Port := 8080; Workers := 4; Queues := ["default"];
               DequeueTimeout := 5 * Second; ShutdownTimeout := 30 * Second;
               MaxBodySize := Z.shiftl 10 20; DefaultTimeout := 30 * Second; ServerID := "" |};
  Heartbeat := {| hb_Interval := 5 * Second; hb_Timeout := 30 * Second;
                  hb_OrphanTimeout := 5 * Minute |};
  Scheduler := {| sc_Interval := Second; sc_BatchSize := 100 |};
  Cleanup := {| cl_Interval := Hour; cl_JobRetention := 24 * Hour |};
  Storage := {| Backend := "memory"; Redis := mkRedisConfig "" "" 0;
                Postgres := mkPostgresConfig "" 0 0 |};
  Logging := {| Level := "info"; Format := "text" |};
  MetricsEnabled := true;
  Auth := mkAuthConfig false "";
  Handlers := [];
  QueueLimits := ∅
|}.

(** [c.EngineConfig(serverID)]. *)
Definition EngineConfig (c : Config) (serverID : string) : Retry.Config :=
  let serverID := if decide (serverID = "") then ServerID (Server c) else serverID in
  let serverID := if decide (serverID = "") then "local" else serverID in
  {| Retry.ServerID := serverID;
     Retry.Workers := Workers (Server c);
     Retry.Queues := Queues (Server c);
     Retry.QueueLimits := QueueLimits c;
     Retry.DequeueTimeout := DequeueTimeout (Server c);
     Retry.DefaultTimeout := DefaultTimeout (Server c);
     Retry.ShutdownTimeout := ShutdownTimeout (Server c);
     Retry.JobHeartbeatInterval := 60 * Second;
     Retry.SchedulerInterval := sc_Interval (Scheduler c);
     Retry.SchedulerBatchSize := sc_BatchSize (Scheduler c);
     Retry.ServerHeartbeatTTL := hb_Timeout (Heartbeat c);
     Retry.ServerHeartbeatEvery := hb_Interval (Heartbeat c);
     Retry.OrphanJobStaleAge := hb_OrphanTimeout (Heartbeat c);
     Retry.CleanupInterval := cl_Interval (Cleanup c);
     Retry.JobRetention := cl_JobRetention (Cleanup c) |}.

(** [c.HandlerRegistry()]: the loop over the entries. *)
Definition HandlerRegistry (c : Config) : Registry :=
  fold_left (fun m h => if decide (he_Name h <> "" /\ Cmd h <> "") then <[he_Name h := Cmd h]> m else m)
    (Handlers c) ∅.

Fixpoint contains_colon (s : string) : bool :=
  match s with
  | EmptyString => false
  | String c s => bool_decide (c = ":"%char) || contains_colon s
  end.

Definition joinHostPort (host : string) (port : Z) : string :=
  if contains_colon host && negb (String.prefix "[" host)
  then "[" +:+ host +:+ "]:" +:+ Itoa port
  else host +:+ ":" +:+ Itoa port.

Definition ListenAddr (c : Config) : string :=
  let host := if decide (Host (Server c) = "") then "0.0.0.0" else Host (Server c) in
  let port := if Port (Server c) =? 0 then 8080 else Port (Server c) in
  joinHostPort host port.

(** The error quotes the backend; the quoting is left out of the text. *)
Definition Validate (c : Config) : option error :=
  if bool_decide (Backend (Storage c) ∈ ["memory"; "postgres"; "redis"]) then None
  else Some (ErrText ("unknown storage.backend: " +:+ Backend (Storage c)
                      +:+ " (valid: memory, postgres, redis)")).

(** What [OpenStorage] opens. *)
Inductive opened := OpenMemory | OpenPostgres (dsn serverID : string)
  | OpenRedis (addr password : string) (db : Z) (serverID : string).

Definition OpenStorage (c : StorageConfig) (serverID : string) : opened + error :=
  if bool_decide (Backend c ∈ [""; "memory"]) then inl OpenMemory
  else if bool_decide (Backend c ∈ ["postgres"; "postgresql"])
  then inl (OpenPostgres (DSN (Postgres c)) serverID)
  else if bool_decide (Backend c ∈ ["redis"; "valkey"])
  then inl (OpenRedis (Addr (Redis c)) (Password (Redis c)) (DB (Redis c)) serverID)
  else inr (ErrText ("unknown storage backend " +:+ Backend c)).

(** ** Summaries for the log *)

(** [net/url]: a URL as far as the summary looks at it; [url_rest] is the part it
    leaves alone. *)
Class UrlLib := {
  url_rest : Type;
  url_Parse : string -> option (string * option (string * option string) * string * url_rest);
  url_String : string * option (string * option string) * string * url_rest -> string
}.

(** Host, user information, raw query and the rest. *)
Definition redactDSN `{UrlLib} (dsn : string) : string :=
  if decide (dsn = "") then "(default)" else
  match url_Parse dsn with
  | None => "[configured]"
  | Some (host, user, query, rest) =>
    if decide (host = "") then "[configured]" else
    let user := match user with
                | Some (name, _) => Some (name, Some "****")
                | None => None
                end in
    url_String (host, user, "", rest)
  end.

Definition redisAddrSummary (c : StorageConfig) : string :=
  let addr := if decide (Addr (Redis c) = "") then "localhost:6379" else Addr (Redis c) in
  let addr := if decide (Password (Redis c) <> "") then addr +:+ " auth=***" else addr in
  if decide (DB (Redis c) <> 0) then addr +:+ " db=" +:+ Itoa (DB (Redis c)) else addr.

Definition StorageSummary `{UrlLib} (c : Config) : string :=
  let cfg := Storage c in
  let backend := if decide (Backend cfg = "") then "memory" else Backend cfg in
  if decide (backend = "memory") then "memory"
  else if bool_decide (backend ∈ ["postgres"; "postgresql"])
  then "postgres (" +:+ redactDSN (DSN (Postgres cfg)) +:+ ")"
  else if decide (backend = "redis") then "redis (" +:+ redisAddrSummary cfg +:+ ")"
  else if decide (backend = "valkey") then "valkey (" +:+ redisAddrSummary cfg +:+ ")"
  else backend.

(** [strings.Join(names, ", ")]. *)
Fixpoint join (names : list string) : string :=
  match names with
  | [] => ""
  | [n] => n
  | n :: names => n +:+ ", " +:+ join names
  end.

Definition HandlersSummary (c : Config) : string :=
  if decide (length (Handlers c) = 0%nat) then "echo (dev default)" else
  let names := omap (fun h => if decide (he_Name h <> "") then Some (he_Name h) else None) (Handlers c) in
  if decide (length names = 0%nat) then "echo (dev default)" else join names.

(** ** Lemmas *)

(** The command of the last usable entry for a name. *)
Definition last_cmd (name : string) (hs : list HandlerEntry) : option string :=
  fold_left (fun acc h => if decide (he_Name h = name /\ Cmd h <> "") then Some (Cmd h) else acc) hs None.

Lemma registry_from hs (m : Registry) name :
  name <> "" ->
  fold_left (fun m h => if decide (he_Name h <> "" /\ Cmd h <> "") then <[he_Name h := Cmd h]> m else m) hs m
    !! name
  = fold_left (fun acc h => if decide (he_Name h = name /\ Cmd h <> "") then Some (Cmd h) else acc)
      hs (m !! name).
Proof.
  intros Hn. revert m. induction hs as [|h hs IH]; intros m; simpl; [done|]. rewrite IH. f_equal.
  destruct (decide (he_Name h = name /\ Cmd h <> "")) as [[<- Hc]|Hc].
  - rewrite decide_True by done. apply lookup_insert_eq.
  - case_decide; [|done]. apply lookup_insert_ne. naive_solver.
Qed.

(** The same document with other secrets. *)
Definition with_secrets (password dsn : string) (c : Config) : Config :=
  mkConfig (Server c) (Heartbeat c) (Scheduler c) (Cleanup c)
    (mkStorageConfig (Backend (Storage c))
      (mkRedisConfig (Addr (Redis (Storage c))) password (DB (Redis (Storage c))))
      (mkPostgresConfig dsn (MaxConns (Postgres (Storage c))) (MinConns (Postgres (Storage c)))))
    (Logging c) (MetricsEnabled c) (Auth c) (Handlers c) (QueueLimits c).

End Doc.

Section Theorems.
Import Doc.

(** The registry built from the document runs, for each non-empty name, the command of the
    last entry of that name that has one, and nothing for any other name. *)
Lemma registry_last_wins (c : Config) name :
  name <> "" -> HandlerRegistry c !! name = last_cmd name (Handlers c).
Proof. intros Hn. unfold HandlerRegistry. rewrite registry_from by done. unfold last_cmd.
  by f_equal.
Qed.

(** A document that passes Validate always selects a backend in OpenStorage, but OpenStorage
    accepts more: the names it documents as aliases and the empty name never pass Validate. *)
Theorem validate_opens (c : Config) serverID :
  (Validate c = None <->
   (exists o, OpenStorage (Storage c) serverID = inl o) /\
   Backend (Storage c) ∉ [""; "postgresql"; "valkey"]).
Proof.
  unfold Validate, OpenStorage. generalize (Backend (Storage c)) as b. intros b.
  assert (b ∉ [""; "postgresql"; "valkey"] <-> b <> "" /\ b <> "postgresql" /\ b <> "valkey") as ->
    by (rewrite !elem_of_cons, elem_of_nil; tauto).
  destruct (decide (b = "memory")) as [->|H1]; [cbn; intuition eauto; congruence|].
  destruct (decide (b = "postgres")) as [->|H2]; [cbn; intuition eauto; congruence|].
  destruct (decide (b = "redis")) as [->|H3]; [cbn; intuition eauto; congruence|].
  rewrite (bool_decide_eq_false_2 (b ∈ ["memory"; "postgres"; "redis"]))
    by (rewrite !elem_of_cons, elem_of_nil; tauto).
  split; [done|]. intros [[o Ho] Hb].
  rewrite !bool_decide_eq_false_2 in Ho by (rewrite !elem_of_cons, elem_of_nil; tauto). done.
Qed.

(** The storage summary written to the log depends on no secret: two documents that differ
    only in the Redis password (both non-empty) and in DSNs that parse to the same URL up to the
    password and the query have the same summary. *)
Lemma summary_hides_secrets `{UrlLib} (c : Config) pw1 pw2 dsn1 dsn2 host name p1 p2 q1 q2 rest :
  pw1 <> "" -> pw2 <> "" -> dsn1 <> "" -> dsn2 <> "" ->
  url_Parse dsn1 = Some (host, Some (name, p1), q1, rest) ->
  url_Parse dsn2 = Some (host, Some (name, p2), q2, rest) ->
  StorageSummary (with_secrets pw1 dsn1 c) = StorageSummary (with_secrets pw2 dsn2 c).
Proof.
  intros Hp1 Hp2 Hd1 Hd2 Hu1 Hu2. unfold StorageSummary, redisAddrSummary, redactDSN, with_secrets.
  cbn [Storage Backend Redis Postgres Password DSN Addr DB].
  rewrite Hu1, Hu2. by rewrite !(decide_True (P := _ <> "")), !(decide_False (P := dsn1 = "")),
    !(decide_False (P := dsn2 = "")) by done.
Qed.

Definition two_handlers : Config :=
  mkConfig (Server Defaults) (Heartbeat Defaults) (Scheduler Defaults) (Cleanup Defaults)
    (Storage Defaults) (Logging Defaults) true (Auth Defaults)
    [mkHandlerEntry "mail" "/bin/old"; mkHandlerEntry "mail" "/bin/new"; mkHandlerEntry "mail" ""] ∅.

Lemma registry_last_wins_witness :
  HandlerRegistry two_handlers !! "mail" = last_cmd "mail" (Handlers two_handlers) /\
  last_cmd "mail" (Handlers two_handlers) = Some "/bin/new".
Proof.
  split; [|reflexivity]. apply (registry_last_wins two_handlers "mail"). discriminate.
Defined.

(** A URL library that knows one host: the text is the password. *)
Definition one_host : UrlLib := {|
  url_rest := unit;
  url_Parse s := Some ("db", Some ("gfire", Some s), "sslmode=off", tt);
  url_String u := match u with (h, Some (n, Some p), q, _) => n +:+ ":" +:+ p +:+ "@" +:+ h | _ => "" end
|}.

Definition postgres_doc : Config :=
  mkConfig (Server Defaults) (Heartbeat Defaults) (Scheduler Defaults) (Cleanup Defaults)
    (mkStorageConfig "postgres" (mkRedisConfig "" "" 0) (mkPostgresConfig "" 0 0))
    (Logging Defaults) true (Auth Defaults) [] ∅.

Lemma summary_hides_secrets_witness :
  @StorageSummary one_host (with_secrets "a" "secret-1" postgres_doc) = "postgres (gfire:****@db)" /\
  @StorageSummary one_host (with_secrets "a" "secret-1" postgres_doc)
  = @StorageSummary one_host (with_secrets "b" "secret-2" postgres_doc).
Proof.
  split; [reflexivity|].
  apply (@summary_hides_secrets one_host postgres_doc "a" "b" "secret-1" "secret-2" "db" "gfire"
    (Some "secret-1") (Some "secret-2") "sslmode=off" "sslmode=off" tt);
    first [reflexivity | discriminate].
Defined.
End Theorems.
