(* ===== verification/Api.v ===== *)
(** * The HTTP API (internal/api)

    One definition per handler: from a request to a response, over the state of
    the engine process (which holds the storage).  Routing is the standard
    library's; a request carries the path values the route bound.  Decoding a
    body or a duration is the standard library's too, an interface here; a
    response body is the value that is encoded. *)
From S2P Require Import Prelude.
From S2P Require Import GoTime.
From S2P Require Import Strconv.
From S2P Require Import Job.
From S2P Require Import StorageI.
From S2P Require Import Handler.
From S2P Require Import Json.
From S2P Require Import Engine.
From S2P Require Import Recurring.
From S2P Require Import ConfigFile.

(** A request: [rq_id] is the value bound to [{id}] or [{name}]; a header or a
    query parameter that is absent reads "". *)
Record Request := mkRequest {
  rq_ctx : Ctx;
  rq_path : string;
  rq_id : string;
  rq_header : string -> string;
  rq_query : string -> string;
  rq_body : string;
  rq_truncated : bool      (** the body was longer than the limit *)
}.

(** What a handler encodes; a nil slice (null) and an empty one are not told apart
    where the storage returns the slice. *)
Inductive value `{Json} :=
  | VNull
  | VString (s : string)
  | VInt (z : Z)
  | VBool (b : bool)
  | VTime (t : Time)
  | VDuration (d : Duration)
  | VJson (v : json)
  | VData (m : gmap string string)
  | VBytes (b : bytes)                 (** base64 text, null for nil *)
  | VArray (l : list value)
  | VObject (l : list (string * value))
  | VText (s : string).                (** a body that is not JSON *)

Record Response `{Json} := mkResponse { status : Z; body : value }.
Arguments mkResponse {_} _ _.

Definition StatusOK : Z := 200.
Definition StatusCreated : Z := 201.
Definition StatusBadRequest : Z := 400.
Definition StatusUnauthorized : Z := 401.
Definition StatusNotFound : Z := 404.
Definition StatusConflict : Z := 409.
Definition StatusInternalServerError : Z := 500.
Definition StatusNotImplemented : Z := 501.
Definition StatusServiceUnavailable : Z := 503.

Record enqueueRequest := mkEnqueueRequest {
  er_Name : string; er_Args : bytes; er_Queue : string; er_RetryMax : Z; er_Timeout : string
}.

Record scheduleRequest := mkScheduleRequest { sr_job : enqueueRequest; sr_EnqueueAt : Time }.

Record continueRequest := mkContinueRequest {
  cr_ChildName : string; cr_ChildArgs : bytes; cr_ChildQueue : string; cr_Condition : string
}.

Record recurringRequest := mkRecurringRequest {
  rr_ID : string; rr_JobName : string; rr_Args : bytes; rr_Queue : string; rr_CronExpr : string;
  rr_Enabled : option bool
}.

(** Decoding: [json.Decoder] with unknown fields refused, for each request type
    (the flag says that the body was cut at the limit), and [time.ParseDuration].
    A number decoded into an [int] fits one. *)
Class Decoders := {
  decode_enqueue : string -> bool -> enqueueRequest + error;
  decode_batch : string -> bool -> list enqueueRequest + error;
  decode_schedule : string -> bool -> scheduleRequest + error;
  decode_continue : string -> bool -> continueRequest + error;
  decode_recurring : string -> bool -> recurringRequest + error;
  ParseDuration : string -> option Duration;
  decode_enqueue_int : forall b t req, decode_enqueue b t = inl req -> int64_ok (er_RetryMax req);
  decode_batch_int : forall b t reqs, decode_batch b t = inl reqs ->
    Forall (fun req => int64_ok (er_RetryMax req)) reqs;
}.

(** ** [fmt.Sscanf(v, "%d", &n)]

    Leading spaces are skipped, a newline is an error, a sign and the longest run
    of digits are read, the rest of the text is not looked at; the number must
    fit 64 bits. *)
Definition newline : string := byte_string [10%nat].

Definition scan_spaces : list string :=
  filter (fun p => p <> newline) spaces ++ wide_spaces.

Definition Sscanf_d (v : string) : option Z :=
  let v := trim_prefixes (String.length v) scan_spaces v in
  let n := match v with
           | String "-" v' => Z.opp <$> scan_digits None v'
           | String "+" v' => scan_digits None v'
           | _ => scan_digits None v
           end in
  match n with
  | Some n => if (- 2 ^ 63 <=? n) && (n <? 2 ^ 63) then Some n else None
  | None => None
  end.

Definition queryInt (r : Request) (key : string) (def : Z) : Z :=
  let v := rq_query r key in
  if decide (v = "") then def else
  match Sscanf_d v with
  | Some n => if n <=? 0 then def else n
  | None => def
  end.

#[global] Arguments queryInt : simpl never.

Section Api.
Context `{Env} `{Json} `{Cron} `{Decoders} {S : Type} `{StorageI S}.

Abbreviation E := (Engine S).

(** A route's handler; [None] for the engine is a server without one. *)
Definition Handle : Type := Request -> M E Response.

Definition writeJSON (code : Z) (v : value) : M E Response := mret (mkResponse code v).

Definition writeError (code : Z) (msg : string) : M E Response :=
  writeJSON code (VObject [("error", VString msg)]).

(** [if err != nil { writeError(w, code, err.Error()); return }]. *)
Definition or_error {A} (code : Z) (m : M E A) (k : A -> M E Response) : M E Response :=
  r <- mtry m ;;
  match r with
  | inr err => writeError code (Error err)
  | inl a => k a
  end.

Definition or_bad_request {A} (d : A + error) (k : A -> M E Response) : M E Response :=
  match d with
  | inr err => writeError StatusBadRequest (Error err)
  | inl a => k a
  end.

(** [args := []byte("{}"); if len(raw) > 0 { args = append(nil, raw...) }]. *)
Definition default_args (raw : bytes) : bytes := if 0 <? blen raw then bclone raw else Some "{}".

Definition default_queue (q : string) : string := if decide (q = "") then "default" else q.

(** ** Jobs *)

(** The job of an enqueue request, or the text of the refusal. *)
Definition request_job (req : enqueueRequest) : Job + unit :=
  let job := newJob (er_Name req) (default_args (er_Args req)) (default_queue (er_Queue req))
               (er_RetryMax req) in
  if decide (er_Timeout req <> "") then
    match ParseDuration (er_Timeout req) with
    | Some d => inl (set_Timeout d job)
    | None => inr tt
    end
  else inl job.

(** [EnqueueIdempotent] when the job has a key, [Enqueue] otherwise. *)
Definition enqueue_keyed (ctx : Ctx) (queue : string) (job : Job) : M E string :=
  if decide (IdempotencyKey job <> "")
  then r <- on_storage (storage_EnqueueIdempotent ctx queue job) ;; mret r.1
  else on_storage (storage_Enqueue ctx queue job).

Definition handleEnqueue : Handle := fun r =>
  or_bad_request (decode_enqueue (rq_body r) (rq_truncated r)) (fun req =>
  if decide (er_Name req = "") then writeError StatusBadRequest "name is required" else
  match request_job req with
  | inr _ => writeError StatusBadRequest "invalid timeout"
  | inl job =>
    let queue := default_queue (er_Queue req) in
    let job := set_IdempotencyKey (rq_header r "Idempotency-Key") job in
    or_error StatusInternalServerError (enqueue_keyed (rq_ctx r) queue job) (fun id =>
    writeJSON StatusCreated (VObject
      [("job_id", VString id); ("status", VString "enqueued"); ("queue", VString queue)]))
  end).

(** The two lists of a batch response. *)
Inductive entry :=
  | Accepted (job_id name queue : string)
  | Rejected (name reason : string) (index : Z).

(** One turn of the loop of [handleBatchEnqueue]. *)
Definition batch_entry (ctx : Ctx) (batchKey : string) (i : Z) (jr : enqueueRequest) : M E entry :=
  if decide (er_Name jr = "") then mret (Rejected (er_Name jr) "name is required" i) else
  match request_job jr with
  | inr _ => mret (Rejected (er_Name jr) ("invalid timeout: " +:+ er_Timeout jr) i)
  | inl job =>
    let queue := default_queue (er_Queue jr) in
    let job := if decide (batchKey <> "")
               then set_IdempotencyKey (batchKey +:+ ":" +:+ Itoa i) job else job in
    r <- mtry (enqueue_keyed ctx queue job) ;;
    match r with
    | inr err => mret (Rejected (er_Name jr) ("enqueue failed: " +:+ Error err) i)
    | inl id => mret (Accepted id (er_Name jr) queue)
    end
  end.

Fixpoint batch_entries (ctx : Ctx) (batchKey : string) (i : Z) (jobs : list enqueueRequest)
    : M E (list entry) :=
  match jobs with
  | [] => mret []
  | jr :: jobs =>
    e <- batch_entry ctx batchKey i jr ;;
    es <- batch_entries ctx batchKey (i + 1) jobs ;;
    mret (e :: es)
  end.

Definition is_accepted (e : entry) : bool := match e with Accepted _ _ _ => true | _ => false end.

Definition entry_value (e : entry) : value :=
  match e with
  | Accepted id name queue =>
    VObject [("job_id", VString id); ("name", VString name); ("queue", VString queue)]
  | Rejected name reason index =>
    VObject [("name", VString name); ("reason", VString reason); ("index", VInt index)]
  end.

(** A nil slice is encoded as null. *)
Definition slice (l : list value) : value := match l with [] => VNull | _ => VArray l end.

Definition handleBatchEnqueue : Handle := fun r =>
  or_bad_request (decode_batch (rq_body r) (rq_truncated r)) (fun jobs =>
  if decide (length jobs = 0%nat)
  then writeError StatusBadRequest "jobs array is required and must not be empty" else
  es <- batch_entries (rq_ctx r) (rq_header r "Idempotency-Key") 0 jobs ;;
  let accepted := filter (fun e => is_accepted e) es in
  let rejected := filter (fun e => negb (is_accepted e)) es in
  writeJSON (if decide (length accepted = 0%nat) then StatusBadRequest else StatusCreated)
    (VObject [("accepted", slice (entry_value <$> accepted));
              ("rejected", slice (entry_value <$> rejected));
              ("total", VInt (Z.of_nat (length jobs)))])).

Definition handleSchedule : Handle := fun r =>
  or_bad_request (decode_schedule (rq_body r) (rq_truncated r)) (fun req =>
  let jr := sr_job req in
  if decide (er_Name jr = "") then writeError StatusBadRequest "name is required" else
  if IsZero (sr_EnqueueAt req) then writeError StatusBadRequest "enqueue_at is required" else
  let job := newJob (er_Name jr) (default_args (er_Args jr)) (default_queue (er_Queue jr))
               (er_RetryMax jr) in
  or_error StatusInternalServerError
    (on_storage (storage_AddScheduled (rq_ctx r) (sr_EnqueueAt req) job)) (fun id =>
  writeJSON StatusCreated (VObject
    [("job_id", VString id); ("status", VString "scheduled");
     ("enqueue_at", VString (FormatRFC3339 (sr_EnqueueAt req)))]))).

(** [json.Unmarshal] into an [any]: what does not decode stays nil. *)
Definition decoded (b : bytes) : value :=
  match b with
  | Some s => match json_Unmarshal s with Some v => VJson v | None => VNull end
  | None => VNull
  end.

Definition state_value (st : JobState) : value :=
  VObject [("name", VString (st_Name st)); ("reason", VString (st_Reason st));
           ("data", match st_Data st with Some m => VData m | None => VNull end);
           ("created_at", VTime (st_CreatedAt st))].

Definition jobResponse (jw : JobWithStates) : value :=
  let job := jw_Job jw in
  VObject
    [("job", VObject
       [("id", VString (ID job)); ("name", VString (Name job)); ("args", decoded (Args job));
        ("queue", VString (Queue job)); ("retry_max", VInt (RetryMax job));
        ("timeout", VDuration (Timeout job)); ("created_at", VTime (CreatedAt job));
        ("result", if 0 <? blen (Result job) then decoded (Result job) else VNull)]);
     ("states", VArray (state_value <$> jw_States jw));
     ("current_state", VString (CurrentState jw))].

Definition handleGetJob : Handle := fun r =>
  jw <- mtry (on_storage (storage_GetJob (rq_ctx r) (rq_id r))) ;;
  match jw with
  | inr _ => writeError StatusNotFound "job not found"
  | inl jw => writeJSON StatusOK (jobResponse jw)
  end.

Definition handleListJobs : Handle := fun r =>
  let limit := queryInt r "limit" 50 in
  let offset := queryInt r "offset" 0 in
  or_error StatusInternalServerError
    (on_storage (storage_GetJobsByState (rq_ctx r) (rq_query r "state") offset limit)) (fun jobs =>
  writeJSON StatusOK (VObject [("jobs", VArray (jobResponse <$> jobs))])).

Definition handleRequeue : Handle := fun r =>
  or_error StatusConflict (on_storage (storage_Requeue (rq_ctx r) (rq_id r) "manual requeue"))
    (fun _ => writeJSON StatusOK (VObject [("status", VString "enqueued")])).

(** [engine] is whether the server was built with one. *)
Definition handleCancel (engine : bool) : Handle := fun r =>
  if negb engine then writeError StatusNotImplemented "engine not available" else
  or_error StatusConflict (CancelJob (rq_id r))
    (fun _ => writeJSON StatusOK (VObject [("status", VString "cancelling")])).

Definition handleDelete : Handle := fun r =>
  or_error StatusConflict (on_storage (storage_DeleteJob (rq_ctx r) (rq_id r)))
    (fun _ => writeJSON StatusOK (VObject [("status", VString "deleted")])).

Definition handleContinue : Handle := fun r =>
  or_bad_request (decode_continue (rq_body r) (rq_truncated r)) (fun req =>
  if decide (cr_ChildName req = "") then writeError StatusBadRequest "child_name is required" else
  let cond := if decide (cr_Condition req = "") then ConditionOnSucceeded else cr_Condition req in
  now <- time_Now ;;
  let entry := mkContinuationEntry (cr_ChildName req) (default_args (cr_ChildArgs req))
                 (cr_ChildQueue req) cond now in
  or_error StatusBadRequest (on_storage (storage_AddContinuation (rq_ctx r) (rq_id r) entry))
    (fun _ => writeJSON StatusCreated (VObject [("status", VString "registered")]))).

(** ** Recurring definitions *)

(** The JSON of an entry; the two run times are left out when unset. *)
Definition entry_json (e : RecurringJobEntry) : value :=
  VObject
    ([("id", VString (re_ID e)); ("job_name", VString (re_JobName e)); ("args", VBytes (re_Args e));
      ("queue", VString (re_Queue e)); ("cron_expr", VString (re_CronExpr e))]
     ++ match re_LastRun e with Some t => [("last_run", VTime t)] | None => [] end
     ++ match re_NextRun e with Some t => [("next_run", VTime t)] | None => [] end
     ++ [("enabled", VBool (re_Enabled e)); ("created_at", VTime (re_CreatedAt e));
         ("updated_at", VTime (re_UpdatedAt e))]).

Definition handleListRecurring : Handle := fun r =>
  or_error StatusInternalServerError (on_storage (storage_GetRecurringJobs (rq_ctx r))) (fun entries =>
  writeJSON StatusOK (VObject [("recurring", VArray (entry_json <$> entries))])).

Definition handleCreateRecurring : Handle := fun r =>
  or_bad_request (decode_recurring (rq_body r) (rq_truncated r)) (fun req =>
  if decide (rr_ID req = "" \/ rr_JobName req = "" \/ rr_CronExpr req = "")
  then writeError StatusBadRequest "id, job_name, and cron_expr are required" else
  match cron_Parse (rr_CronExpr req) with
  | inr err => writeError StatusBadRequest ("invalid cron_expr: " +:+ Error err)
  | inl _ =>
    now <- time_Now ;;
    let next := match NextRecurringRun (rr_CronExpr req) now with
                | inl t => Some t | inr _ => None end in
    let entry := mkRecurringJobEntry (rr_ID req) (rr_JobName req) (default_args (rr_Args req))
                   (default_queue (rr_Queue req)) (rr_CronExpr req) None next
                   (default true (rr_Enabled req)) now now in
    or_error StatusInternalServerError (on_storage (storage_UpsertRecurring (rq_ctx r) entry))
      (fun _ => writeJSON StatusCreated (VObject
        [("id", VString (re_ID entry)); ("job_name", VString (re_JobName entry));
         ("cron_expr", VString (re_CronExpr entry)); ("enabled", VBool (re_Enabled entry))]))
  end).

Definition handleDeleteRecurring : Handle := fun r =>
  if decide (rq_id r = "") then writeError StatusBadRequest "id is required" else
  or_error StatusNotFound (on_storage (storage_RemoveRecurring (rq_ctx r) (rq_id r)))
    (fun _ => writeJSON StatusOK (VObject [("status", VString "removed")])).

Definition handleTriggerRecurring : Handle := fun r =>
  let id := rq_id r in
  if decide (id = "") then writeError StatusBadRequest "id is required" else
  or_error StatusInternalServerError (on_storage (storage_GetRecurringJobs (rq_ctx r))) (fun entries =>
  match List.find (fun e => bool_decide (re_ID e = id)) entries with
  | None => writeError StatusNotFound "recurring job not found"
  | Some entry =>
    let job := fired_job entry in
    or_error StatusInternalServerError (on_storage (storage_Enqueue (rq_ctx r) (Queue job) job))
      (fun jobID =>
    now <- time_Now ;;
    let nextRun := match NextRecurringRun (re_CronExpr entry) now with
                   | inl t => t | inr _ => now end in
    ignore_error (on_storage (storage_UpdateRecurringLastRun (rq_ctx r) id now nextRun)) ;;;
    writeJSON StatusCreated (VObject
      [("recurring_id", VString id); ("job_id", VString jobID); ("status", VString "triggered")]))
  end).

(** ** Queues and servers *)

(** [depth, _ := s.store.GetQueueLength(...)]: 0 on error. *)
Definition queue_depth (ctx : Ctx) (name : string) : M E Z :=
  d <- mtry (on_storage (storage_GetQueueLength ctx name)) ;;
  mret match d with inl d => d | inr _ => 0 end.

Definition handleListQueues : Handle := fun r =>
  or_error StatusInternalServerError (on_storage (storage_GetQueues (rq_ctx r))) (fun names =>
  out <- mmap names (fun name =>
    depth <- queue_depth (rq_ctx r) name ;;
    mret (VObject [("name", VString name); ("depth", VInt depth)])) ;;
  writeJSON StatusOK (VObject [("queues", VArray out)])).

Definition handleGetQueue : Handle := fun r =>
  or_error StatusInternalServerError (on_storage (storage_GetQueueLength (rq_ctx r) (rq_id r)))
    (fun depth =>
  writeJSON StatusOK (VObject [("name", VString (rq_id r)); ("depth", VInt depth)])).

Definition server_value (sv : ServerInfo) : value :=
  VObject
    [("id", VString (sv_ID sv)); ("started_at", VTime (sv_StartedAt sv));
     ("last_heartbeat", VTime (sv_LastHeartbeat sv)); ("worker_count", VInt (sv_WorkerCount sv));
     ("queues", VArray (VString <$> sv_Queues sv)); ("status", VString (sv_Status sv))].

Definition handleListServers : Handle := fun r =>
  or_error StatusInternalServerError (on_storage (storage_GetServers (rq_ctx r))) (fun servers =>
  writeJSON StatusOK (VObject [("servers", VArray (server_value <$> servers))])).

(** [store] is whether the server has a storage. *)
Definition handleReadyz (store : bool) : Handle := fun r =>
  if negb store then writeError StatusServiceUnavailable "storage unavailable" else
  q <- mtry (on_storage (storage_GetQueues (rq_ctx r))) ;;
  match q with
  | inr _ => writeError StatusServiceUnavailable "storage unreachable"
  | inl _ => writeJSON StatusOK (VObject [("status", VString "ok")])
  end.

(** ** Middleware *)

(** [maxBody]: the body is cut at the limit. *)
Definition maxBody (max : Z) (next : Handle) : Handle := fun r =>
  let max := if max <=? 0 then Z.shiftl 10 20 else max in
  if Z.of_nat (String.length (rq_body r)) <=? max then next r
  else next (mkRequest (rq_ctx r) (rq_path r) (rq_id r) (rq_header r) (rq_query r)
    (String.substring 0 (Z.to_nat max) (rq_body r)) true).

Definition open_paths : list string := ["/healthz"; "/readyz"; "/openapi.json"; "/metrics"].

(** [strings.TrimPrefix]. *)
Definition TrimPrefix (p s : string) : string :=
  if String.prefix p s
  then String.substring (String.length p) (String.length s - String.length p) s else s.

Definition bearerAuth (token : string) (next : Handle) : Handle := fun r =>
  if bool_decide (rq_path r ∈ open_paths) then next r else
  let h := rq_header r "Authorization" in
  if negb (String.prefix "Bearer " h) then writeError StatusUnauthorized "unauthorized" else
  let got := TrimPrefix "Bearer " h in
  if decide (got <> token) then writeError StatusUnauthorized "unauthorized" else
  next r.

(** [requestID]: the response header is left out. *)
Definition requestID (next : Handle) : Handle := fun r =>
  id <- (if decide (rq_header r "X-Request-ID" = "") then uuid_NewString
         else mret (rq_header r "X-Request-ID")) ;;
  next r.

(** [(s *Server) Handler]: the whole chain around the routes. *)
Definition Handler (cfg : Doc.Config) (mux : Handle) : Handle :=
  let h := requestID mux in
  let h := maxBody (Doc.MaxBodySize (Doc.Server cfg)) h in
  if Doc.au_Enabled (Doc.Auth cfg) then bearerAuth (Doc.Token (Doc.Auth cfg)) h else h.
End Api.
