(* ===== verification/OpenApi.v ===== *)
(** * The OpenAPI document (internal/api/openapi.go)

    [openapiSpec], in four parts for its paths and one for its schemas.  The members
    of an object are in the order of the source; encoding sorts them. *)
From S2P Require Import Prelude.
From S2P Require Import Json.
From S2P Require Import Api.

Section Document.
Context `{Json}.

(** Health. *)
Definition health_paths : list (string * value) :=
  [
    ("/healthz", VObject [
      ("get", VObject [
        ("summary", VString "Health check");
        ("operationId", VString "healthz");
        ("responses", VObject [("200", VObject [("description", VString "OK")])])])]);
    ("/readyz", VObject [
      ("get", VObject [
        ("summary", VString "Readiness probe (storage reachable)");
        ("operationId", VString "readyz");
        ("responses", VObject [
          ("200", VObject [("description", VString "Storage reachable")]);
          ("503", VObject [("description", VString "Storage unreachable")])])])])].

(** Jobs. *)
Definition job_paths : list (string * value) :=
  [
    ("/v1/jobs", VObject [
      ("get", VObject [
        ("summary", VString "List jobs");
        ("operationId", VString "listJobs");
        ("parameters", VArray [
          VObject [
            ("name", VString "state");
            ("in", VString "query");
            ("schema", VObject [("type", VString "string")])];
          VObject [
            ("name", VString "limit");
            ("in", VString "query");
            ("schema", VObject [("type", VString "integer"); ("default", VInt 50)])];
          VObject [
            ("name", VString "offset");
            ("in", VString "query");
            ("schema", VObject [("type", VString "integer"); ("default", VInt 0)])]]);
        ("responses", VObject [("200", VObject [("description", VString "Paginated job list")])])])]);
    ("/v1/jobs/enqueue", VObject [
      ("post", VObject [
        ("summary", VString "Enqueue a job");
        ("operationId", VString "enqueueJob");
        ("parameters", VArray [
          VObject [
            ("name", VString "Idempotency-Key");
            ("in", VString "header");
            ("schema", VObject [("type", VString "string")]);
            ("description", VString "Client retry deduplication key")]]);
        ("requestBody", VObject [
          ("required", VBool true);
          ("content", VObject [
            ("application/json", VObject [("schema", VObject [("$ref", VString "#/components/schemas/EnqueueRequest")])])])]);
        ("responses", VObject [
          ("201", VObject [("description", VString "Job enqueued")]);
          ("400", VObject [("description", VString "Invalid request")])])])]);
    ("/v1/jobs/enqueue/batch", VObject [
      ("post", VObject [
        ("summary", VString "Batch enqueue jobs (partial acceptance)");
        ("operationId", VString "batchEnqueue");
        ("parameters", VArray [
          VObject [
            ("name", VString "Idempotency-Key");
            ("in", VString "header");
            ("schema", VObject [("type", VString "string")]);
            ("description", VString "Per-job key:index")]]);
        ("requestBody", VObject [
          ("required", VBool true);
          ("content", VObject [
            ("application/json", VObject [
              ("schema", VObject [("$ref", VString "#/components/schemas/BatchEnqueueRequest")])])])]);
        ("responses", VObject [
          ("201", VObject [("description", VString "Jobs enqueued (partial acceptance possible)")])])])]);
    ("/v1/jobs/schedule", VObject [
      ("post", VObject [
        ("summary", VString "Schedule a job for delayed execution");
        ("operationId", VString "scheduleJob");
        ("requestBody", VObject [
          ("required", VBool true);
          ("content", VObject [
            ("application/json", VObject [
              ("schema", VObject [("$ref", VString "#/components/schemas/ScheduleRequest")])])])]);
        ("responses", VObject [("201", VObject [("description", VString "Job scheduled")])])])]);
    ("/v1/jobs/{id}", VObject [
      ("get", VObject [
        ("summary", VString "Get job detail + state history");
        ("operationId", VString "getJob");
        ("parameters", VArray [
          VObject [
            ("name", VString "id");
            ("in", VString "path");
            ("required", VBool true);
            ("schema", VObject [("type", VString "string")])]]);
        ("responses", VObject [
          ("200", VObject [("description", VString "Job detail")]);
          ("404", VObject [("description", VString "Job not found")])])])]);
    ("/v1/jobs/{id}/requeue", VObject [
      ("post", VObject [
        ("summary", VString "Requeue a failed job");
        ("operationId", VString "requeueJob");
        ("parameters", VArray [
          VObject [
            ("name", VString "id");
            ("in", VString "path");
            ("required", VBool true);
            ("schema", VObject [("type", VString "string")])]]);
        ("responses", VObject [
          ("200", VObject [("description", VString "Job requeued")]);
          ("409", VObject [("description", VString "Conflict (terminal state)")])])])]);
    ("/v1/jobs/{id}/cancel", VObject [
      ("post", VObject [
        ("summary", VString "Cancel an in-flight job");
        ("operationId", VString "cancelJob");
        ("parameters", VArray [
          VObject [
            ("name", VString "id");
            ("in", VString "path");
            ("required", VBool true);
            ("schema", VObject [("type", VString "string")])]]);
        ("responses", VObject [("200", VObject [("description", VString "Job cancelled")])])])]);
    ("/v1/jobs/{id}/delete", VObject [
      ("post", VObject [
        ("summary", VString "Soft-delete a job");
        ("operationId", VString "deleteJob");
        ("parameters", VArray [
          VObject [
            ("name", VString "id");
            ("in", VString "path");
            ("required", VBool true);
            ("schema", VObject [("type", VString "string")])]]);
        ("responses", VObject [
          ("200", VObject [("description", VString "Job deleted")]);
          ("409", VObject [("description", VString "Conflict (irreversible state)")])])])]);
    ("/v1/jobs/{id}/continue", VObject [
      ("post", VObject [
        ("summary", VString "Create a continuation (child job on terminal state)");
        ("operationId", VString "continueJob");
        ("parameters", VArray [
          VObject [
            ("name", VString "id");
            ("in", VString "path");
            ("required", VBool true);
            ("schema", VObject [("type", VString "string")])]]);
        ("requestBody", VObject [
          ("required", VBool true);
          ("content", VObject [
            ("application/json", VObject [
              ("schema", VObject [("$ref", VString "#/components/schemas/ContinueRequest")])])])]);
        ("responses", VObject [("201", VObject [("description", VString "Continuation registered")])])])])].

(** Queues and servers. *)
Definition queue_paths : list (string * value) :=
  [
    ("/v1/queues", VObject [
      ("get", VObject [
        ("summary", VString "List queues + depth");
        ("operationId", VString "listQueues");
        ("responses", VObject [("200", VObject [("description", VString "Queue list")])])])]);
    ("/v1/queues/{name}", VObject [
      ("get", VObject [
        ("summary", VString "Get queue detail + stats");
        ("operationId", VString "getQueue");
        ("parameters", VArray [
          VObject [
            ("name", VString "name");
            ("in", VString "path");
            ("required", VBool true);
            ("schema", VObject [("type", VString "string")])]]);
        ("responses", VObject [("200", VObject [("description", VString "Queue detail")])])])]);
    ("/v1/servers", VObject [
      ("get", VObject [
        ("summary", VString "List registered servers");
        ("operationId", VString "listServers");
        ("responses", VObject [("200", VObject [("description", VString "Server list")])])])])].

(** Recurring definitions. *)
Definition recurring_paths : list (string * value) :=
  [
    ("/v1/recurring", VObject [
      ("get", VObject [
        ("summary", VString "List recurring job definitions");
        ("operationId", VString "listRecurring");
        ("responses", VObject [("200", VObject [("description", VString "Recurring job list")])])]);
      ("post", VObject [
        ("summary", VString "Create a recurring job");
        ("operationId", VString "createRecurring");
        ("requestBody", VObject [
          ("required", VBool true);
          ("content", VObject [
            ("application/json", VObject [
              ("schema", VObject [("$ref", VString "#/components/schemas/RecurringRequest")])])])]);
        ("responses", VObject [("201", VObject [("description", VString "Recurring job created")])])])]);
    ("/v1/recurring/{id}", VObject [
      ("delete", VObject [
        ("summary", VString "Remove a recurring job definition");
        ("operationId", VString "deleteRecurring");
        ("parameters", VArray [
          VObject [
            ("name", VString "id");
            ("in", VString "path");
            ("required", VBool true);
            ("schema", VObject [("type", VString "string")])]]);
        ("responses", VObject [("200", VObject [("description", VString "Removed")])])])]);
    ("/v1/recurring/{id}/trigger", VObject [
      ("post", VObject [
        ("summary", VString "Trigger a recurring job immediately");
        ("operationId", VString "triggerRecurring");
        ("parameters", VArray [
          VObject [
            ("name", VString "id");
            ("in", VString "path");
            ("required", VBool true);
            ("schema", VObject [("type", VString "string")])]]);
        ("responses", VObject [("201", VObject [("description", VString "Job enqueued from trigger")])])])])].

(** The bodies of the requests. *)
Definition schemas : list (string * value) :=
  [
    ("EnqueueRequest", VObject [
      ("type", VString "object");
      ("required", VArray [VString "name"]);
      ("properties", VObject [
        ("name", VObject [("type", VString "string"); ("description", VString "Job handler name")]);
        ("args", VObject [("type", VString "object"); ("description", VString "Job arguments (JSON)")]);
        ("queue", VObject [("type", VString "string"); ("default", VString "default")]);
        ("retry_max", VObject [("type", VString "integer"); ("default", VInt 10)]);
        ("timeout", VObject [("type", VString "string"); ("description", VString "Duration (e.g. 5m, 30s)")])])]);
    ("BatchEnqueueRequest", VObject [
      ("type", VString "object");
      ("required", VArray [VString "jobs"]);
      ("properties", VObject [
        ("jobs", VObject [
          ("type", VString "array");
          ("items", VObject [("$ref", VString "#/components/schemas/EnqueueRequest")])])])]);
    ("ScheduleRequest", VObject [
      ("type", VString "object");
      ("required", VArray [VString "name"; VString "enqueue_at"]);
      ("properties", VObject [
        ("name", VObject [("type", VString "string")]);
        ("args", VObject [("type", VString "object")]);
        ("queue", VObject [("type", VString "string"); ("default", VString "default")]);
        ("retry_max", VObject [("type", VString "integer")]);
        ("timeout", VObject [("type", VString "string")]);
        ("enqueue_at", VObject [
          ("type", VString "string");
          ("format", VString "date-time");
          ("description", VString "RFC 3339 timestamp")])])]);
    ("ContinueRequest", VObject [
      ("type", VString "object");
      ("required", VArray [VString "child_name"]);
      ("properties", VObject [
        ("child_name", VObject [("type", VString "string")]);
        ("child_args", VObject [("type", VString "object")]);
        ("child_queue", VObject [("type", VString "string"); ("default", VString "default")]);
        ("condition", VObject [
          ("type", VString "string");
          ("enum", VArray [VString "OnSucceeded"; VString "OnFailed"; VString "OnAny"]);
          ("default", VString "OnSucceeded")])])]);
    ("RecurringRequest", VObject [
      ("type", VString "object");
      ("required", VArray [VString "id"; VString "job_name"; VString "cron_expr"]);
      ("properties", VObject [
        ("id", VObject [("type", VString "string"); ("description", VString "Unique definition ID")]);
        ("job_name", VObject [("type", VString "string")]);
        ("args", VObject [("type", VString "object")]);
        ("queue", VObject [("type", VString "string"); ("default", VString "default")]);
        ("cron_expr", VObject [
          ("type", VString "string");
          ("description", VString "Six-field cron (seconds first) or @descriptor; invalid → 400")]);
        ("enabled", VObject [("type", VString "boolean"); ("default", VBool true)])])])].

(** [openapiSpec]. *)
Definition openapiSpec : value := VObject [
    ("openapi", VString "3.0.3");
    ("info", VObject [
      ("title", VString "GFire");
      ("description", VString "Standalone background job service — REST API");
      ("version", VString "0.6.1")]);
    ("servers", VArray [
      VObject [
        ("url", VString "http://localhost:8080");
        ("description", VString "Local development")]]);
    ("paths", VObject (health_paths ++ job_paths ++ queue_paths ++ recurring_paths));
    ("components", VObject [("schemas", VObject schemas);
      ("securitySchemes", VObject [("bearerAuth", VObject [("type", VString "http"); ("scheme", VString "bearer")])])])].
End Document.
