(* ===== verification/Routes.v ===== *)
(** * Routing of the API (internal/api/server.go, metrics.go, openapi.go)

    The table of routes, the multiplexer of net/http as far as its patterns need it, and
    the handlers that only report: health, metrics and the OpenAPI document. *)
From S2P Require Import Prelude.
From S2P Require Import GoTime.
From S2P Require Import Strconv.
From S2P Require Import Job.
From S2P Require Import StorageI.
From S2P Require Import Handler.
From S2P Require Import Json.
From S2P Require Import Engine.
From S2P Require Import Recurring.
From S2P Require Import ConfigFile.
From S2P Require Import Api.
From S2P Require Import OpenApi.

(** ** Patterns of [http.ServeMux] *)

(** [strings.Split] at one character: never empty. *)
Fixpoint split_at (c : ascii) (s : string) : list string :=
  match s with
  | EmptyString => [""]
  | String d s' =>
    if decide (c = d) then "" :: split_at c s' else
    match split_at c s' with
    | [] => [String d ""]
    | w :: ws => String d w :: ws
    end
  end.

Inductive segment := Lit (s : string) | Wild (name : string).

#[export] Instance segment_eq_dec : EqDecision segment.
Proof. solve_decision. Defined.

(** A segment "{name}" is a wildcard. *)
Definition parse_segment (s : string) : segment :=
  match s with
  | String c rest =>
    if decide (c = "{"%char) then
      match split_at "}"%char rest with
      | [name; ""] => Wild name
      | _ => Lit s
      end
    else Lit s
  | EmptyString => Lit s
  end.

(** The path of a pattern or of a request, cut at its slashes. *)
Definition path_segments (path : string) : list string := tail (split_at "/"%char path).

(** "METHOD /path". *)
Definition parse_pattern (p : string) : string * list segment :=
  match split_at " "%char p with
  | [method; path] => (method, parse_segment <$> path_segments path)
  | _ => ("", [])
  end.

(** The values of the wildcards; one matches a segment that is not empty. *)
Fixpoint match_segments (ps : list segment) (ss : list string) : option (list string) :=
  match ps, ss with
  | [], [] => Some []
  | Lit l :: ps, s :: ss => if decide (l = s) then match_segments ps ss else None
  | Wild _ :: ps, s :: ss => if decide (s = "") then None else cons s <$> match_segments ps ss
  | _, _ => None
  end.

(** A pattern for GET matches HEAD too. *)
Definition match_method (pattern method : string) : bool :=
  bool_decide (pattern = method) || (bool_decide (pattern = "GET") && bool_decide (method = "HEAD")).

Definition match_pattern (method path pattern : string) : option (list string) :=
  let '(m, ps) := parse_pattern pattern in
  if match_method m method then match_segments ps (path_segments path) else None.

(** ** [cleanPath]: [path.Clean] that keeps a final slash *)
Fixpoint clean_segments (acc ss : list string) : list string :=
  match ss with
  | [] => reverse acc
  | s :: ss =>
    if bool_decide (s ∈ [""; "."]) then clean_segments acc ss
    else if decide (s = "..") then clean_segments (tail acc) ss
    else clean_segments (s :: acc) ss
  end.

Fixpoint slashed (ss : list string) : string :=
  match ss with [] => "" | s :: ss => "/" +:+ s +:+ slashed ss end.

Definition cleanPath (p : string) : string :=
  if decide (p = "") then "/" else
  let ss := if String.prefix "/" p then path_segments p else split_at "/"%char p in
  let np := clean_segments [] ss in
  if decide (np = []) then "/" else
  if decide (last ss = Some "") then slashed np +:+ "/" else slashed np.

(** ** What the handlers report *)

(** [internal/version], set by the linker. *)
Class Build := {
  Version : string; Commit : string; BuildDate : string; GOOS : string; GOARCH : string
}.

(** The answer of net/http that sends a client to the clean path. *)
Class Redirects `{Json} := { redirect : Request -> Response }.

Section Routes.
Context `{Env} `{JS : Json} `{Cron} `{Decoders} `{Build} `{!Redirects} {S : Type} `{StorageI S}.

Abbreviation E := (Engine S).
Abbreviation Handle := (Request -> M E Response).

Definition handleHealthz : Handle := fun _ =>
  writeJSON StatusOK (VObject
    [("status", VString "ok"); ("version", VString Version); ("commit", VString Commit)]).

Definition handleOpenAPI : Handle := fun _ => writeJSON StatusOK openapiSpec.

(** ** metrics.go *)

(** [fmt.Fprintf(&b, ...)] with a final newline. *)
Definition line (s : string) : string := s +:+ newline.

(** One turn of the loop over the counters. *)
Definition counter_lines (name : string) (val : Z) : string :=
  line ("# HELP gfire_jobs_" +:+ name +:+ "_total Total jobs " +:+ name +:+ ".") +:+
  line ("# TYPE gfire_jobs_" +:+ name +:+ "_total counter") +:+
  line ("gfire_jobs_" +:+ name +:+ "_total " +:+ Itoa val).

(** A character between quotes. *)
Definition quote : string := String "034" "".

(** One turn of the loop over the queues. *)
Definition queue_lines (q : string) (n : Z) : string :=
  line "# HELP gfire_queue_depth Number of enqueued jobs per queue." +:+
  line "# TYPE gfire_queue_depth gauge" +:+
  line ("gfire_queue_depth{queue=" +:+ quote +:+ q +:+ quote +:+ "} " +:+ Itoa n).

Definition server_lines (servers : list ServerInfo) : string :=
  let active := filter (fun sv => sv_Status sv = "active") servers in
  line "# HELP gfire_servers Number of registered servers." +:+
  line "# TYPE gfire_servers gauge" +:+
  line ("gfire_servers{status=" +:+ quote +:+ "active" +:+ quote +:+ "} " +:+ Itoa (Z.of_nat (length active))) +:+
  line ("gfire_servers{status=" +:+ quote +:+ "total" +:+ quote +:+ "} " +:+ Itoa (Z.of_nat (length servers))).

Definition worker_lines (n : Z) : string :=
  line "# HELP gfire_workers_active In-flight jobs on this node." +:+
  line "# TYPE gfire_workers_active gauge" +:+
  line ("gfire_workers_active " +:+ Itoa n).

Definition text (ls : list string) : string := foldr String.append "" ls.

(** A storage call whose error is dropped: [dflt] is what is left of its value. *)
Definition or_zero {A} (dflt : A) (m : M E A) : M E A :=
  r <- mtry m ;; mret match r with inl a => a | inr _ => dflt end.

(** Nothing when the call fails. *)
Definition when_ok {A} (m : M E A) (k : A -> M E string) : M E string :=
  r <- mtry m ;; match r with inl a => k a | inr _ => mret "" end.

(** A range over a map: in the order of [map_order]. *)
Definition handleMetrics (engine : bool) : Handle := fun r =>
  counters <- or_zero ∅ (on_storage (storage_GetAllCounters (rq_ctx r) 0 100)) ;;
  names <- range_keys counters ;;
  let b1 := text ((fun name => counter_lines name (default 0 (counters !! name))) <$> names) in
  b2 <- when_ok (on_storage (storage_GetQueues (rq_ctx r))) (fun queues =>
    ls <- mmap queues (fun q =>
      n <- queue_depth (rq_ctx r) q ;; mret (queue_lines q n)) ;;
    mret (text ls)) ;;
  b3 <- when_ok (on_storage (storage_GetServers (rq_ctx r))) (fun servers => mret (server_lines servers)) ;;
  b4 <- (if engine then n <- ActiveCount ;; mret (worker_lines n) else mret "") ;;
  mret (mkResponse StatusOK (VText (b1 +:+ b2 +:+ b3 +:+ b4))).

(** ** server.go *)

(** [routes]: [store] and [engine] are whether the server was built with them. *)
Definition routes (store engine : bool) : list (string * Handle) := [
  ("GET /healthz", handleHealthz);
  ("GET /readyz", handleReadyz store);
  ("POST /v1/jobs/enqueue", handleEnqueue);
  ("POST /v1/jobs/enqueue/batch", handleBatchEnqueue);
  ("POST /v1/jobs/schedule", handleSchedule);
  ("GET /v1/jobs/{id}", handleGetJob);
  ("GET /v1/jobs", handleListJobs);
  ("POST /v1/jobs/{id}/requeue", handleRequeue);
  ("POST /v1/jobs/{id}/cancel", handleCancel engine);
  ("POST /v1/jobs/{id}/delete", handleDelete);
  ("POST /v1/jobs/{id}/continue", handleContinue);
  ("GET /v1/queues", handleListQueues);
  ("GET /v1/queues/{name}", handleGetQueue);
  ("GET /v1/servers", handleListServers);
  ("GET /metrics", handleMetrics engine);
  ("GET /openapi.json", handleOpenAPI);
  ("GET /v1/recurring", handleListRecurring);
  ("POST /v1/recurring", handleCreateRecurring);
  ("DELETE /v1/recurring/{id}", handleDeleteRecurring);
  ("POST /v1/recurring/{id}/trigger", handleTriggerRecurring)].

(** [r.SetPathValue]: the routes have one wildcard at most. *)
Definition bind_path (vals : list string) (r : Request) : Request :=
  mkRequest (rq_ctx r) (rq_path r) (default "" (head vals)) (rq_header r) (rq_query r) (rq_body r) (rq_truncated r).

Fixpoint find_route (method path : string) (l : list (string * Handle)) : option (Handle * list string) :=
  match l with
  | [] => None
  | (pattern, h) :: l =>
    match match_pattern method path pattern with
    | Some vals => Some (h, vals)
    | None => find_route method path l
    end
  end.

(** A route for this path under some method. *)
Definition path_known (path : string) (l : list (string * Handle)) : bool :=
  existsb (fun ph => bool_decide (is_Some (match_segments (parse_pattern ph.1).2 (path_segments path)))) l.

Definition StatusMethodNotAllowed : Z := 405.

(** [mux.ServeHTTP].  No two routes match the same request ([routes_disjoint]), so that
    the order of the table does not count.  [rq_path] is the decoded path, without escapes. *)
Definition serve_mux (l : list (string * Handle)) (method : string) : Handle := fun r =>
  if decide (cleanPath (rq_path r) <> rq_path r) then mret (redirect r) else
  match find_route method (rq_path r) l with
  | Some (h, vals) => h (bind_path vals r)
  | None =>
    if path_known (rq_path r) l then mret (mkResponse StatusMethodNotAllowed (VText (line "Method Not Allowed")))
    else mret (mkResponse StatusNotFound (VText (line "404 page not found")))
  end.

(** [NewServer(cfg, store, eng).Handler()]. *)
Definition api_server (cfg : Doc.Config) (store engine : bool) (method : string) : Handle :=
  Handler cfg (serve_mux (routes store engine) method).
End Routes.
