(* ===== verification/Startup.v ===== *)
(** * Start and end of the server (internal/app: run.go, startup.go; internal/config/load.go)

    Reading the configuration, the banner, and [RunServer]: how the storage, the engine and
    the HTTP server are started, and what is stopped on each way out. *)
From S2P Require Import Prelude.
From S2P Require Import GoTime.
From S2P Require Import Strconv.
From S2P Require Import Job.
From S2P Require Import StorageI.
From S2P Require Import Retry.
From S2P Require Import Handler.
From S2P Require Import Json.
From S2P Require Import Engine.
From S2P Require Import ConfigFile.
From S2P Require Import Api.
From S2P Require Import Routes.

(** ** load.go *)

(** The viper library: a state; [v_new] has the prefix GFIRE, the replacement of dots and
    AutomaticEnv. [Unmarshal] fills a document that holds defaults. *)
Class Viper := {
  viper : Type;
  v_new : viper;
  BindEnv : string -> viper -> viper;
  ReadInConfig : string -> viper -> viper + error;
  Unmarshal : viper -> Doc.Config -> Doc.Config + error;
  Getenv : string -> string
}.

Definition env_keys : list string := [
  "server.host"; "server.port"; "server.workers"; "server.server_id"; "server.dequeue_timeout";
  "server.shutdown_timeout"; "server.max_body_size"; "server.default_timeout";
  "heartbeat.interval"; "heartbeat.timeout"; "heartbeat.orphan_timeout";
  "scheduler.interval"; "scheduler.batch_size"; "cleanup.interval"; "cleanup.job_retention";
  "storage.backend"; "storage.redis.addr"; "storage.redis.password"; "storage.redis.db";
  "storage.postgres.dsn"; "storage.postgres.max_conns"; "storage.postgres.min_conns";
  "logging.level"; "logging.format"; "metrics.enabled"; "auth.enabled"; "auth.token"].

Section Loading.
Context `{Viper}.

Definition bindEnv (v : viper) : viper := fold_left (fun v k => BindEnv k v) env_keys v.

(** The file named by the argument, else by the environment, else none. *)
Definition read_config (path : string) (v : viper) : viper + error :=
  let read text p :=
    match ReadInConfig p v with
    | inl v => inl v
    | inr err => inr (ErrWrap (text +:+ ": " +:+ Error err) err)
    end in
  if decide (path <> "") then read "read config" path
  else if decide (Getenv "GFIRE_CONFIG" <> "") then read "read GFIRE_CONFIG" (Getenv "GFIRE_CONFIG")
  else inl v.

(** A nil map of limits reads like an empty one. *)
Definition Load (path : string) : Doc.Config + error :=
  match read_config path (bindEnv v_new) with
  | inr err => inr err
  | inl v =>
    match Unmarshal v Doc.Defaults with
    | inr err => inr (ErrWrap ("unmarshal config: " +:+ Error err) err)
    | inl cfg =>
      match Doc.Validate cfg with
      | Some err => inr (ErrWrap ("invalid config: " +:+ Error err) err)
      | None => inl cfg
      end
    end
  end.
End Loading.

(** ** startup.go *)
Section Banner.
Context `{Json} `{Doc.UrlLib} `{Build}.

Definition authLabel (enabled : bool) : string := if enabled then "on" else "off".

Definition joinHostPort (host : string) (port : Z) : string :=
  if Doc.contains_colon host && negb (String.prefix "[" host)
  then "[" +:+ host +:+ "]:" +:+ Itoa port
  else host +:+ ":" +:+ Itoa port.

Definition BaseURL (cfg : Doc.Config) : string :=
  let host := Doc.Host (Doc.Server cfg) in
  let host := if bool_decide (host ∈ [""; "0.0.0.0"; "::"; "[::]"]) then "127.0.0.1" else host in
  let port := if Doc.Port (Doc.Server cfg) =? 0 then 8080 else Doc.Port (Doc.Server cfg) in
  "http://" +:+ joinHostPort host port.

(** [strings.Join(l, ",")]. *)
Fixpoint join_comma (l : list string) : string :=
  match l with [] => "" | [s] => s | s :: l => s +:+ "," +:+ join_comma l end.

Definition banner (cfg : Doc.Config) : string :=
  line ("gfire " +:+ Version +:+ " | build " +:+ BuildDate +:+ " | commit " +:+ Commit
    +:+ " | platform " +:+ GOOS +:+ "/" +:+ GOARCH +:+ " | listen " +:+ Doc.ListenAddr cfg
    +:+ " | storage " +:+ Doc.StorageSummary cfg +:+ " | workers " +:+ Itoa (Doc.Workers (Doc.Server cfg))
    +:+ " | queues " +:+ join_comma (Doc.Queues (Doc.Server cfg))
    +:+ " | handlers " +:+ Doc.HandlersSummary cfg
    +:+ " | auth " +:+ authLabel (Doc.au_Enabled (Doc.Auth cfg))).

(** A record of the log: its message and its attributes. *)
Record log_record := mkLog { lg_msg : string; lg_attrs : list (string * value) }.

Definition starting (cfg : Doc.Config) (serverID : string) : log_record :=
  let base := BaseURL cfg in
  mkLog "gfire starting"
    [("version", VString Version); ("commit", VString Commit); ("server_id", VString serverID);
     ("api", VString (base +:+ "/v1")); ("health", VString (base +:+ "/healthz"));
     ("storage", VString (Doc.StorageSummary cfg)); ("workers", VInt (Doc.Workers (Doc.Server cfg)));
     ("queues", VArray (VString <$> Doc.Queues (Doc.Server cfg)));
     ("handlers", VString (Doc.HandlersSummary cfg));
     ("auth", VString (authLabel (Doc.au_Enabled (Doc.Auth cfg))));
     ("metrics", VBool (Doc.MetricsEnabled cfg))].

Definition listening (cfg : Doc.Config) : log_record :=
  let base := BaseURL cfg in
  mkLog "listening" [("url", VString base); ("api", VString (base +:+ "/v1")); ("bind", VString (Doc.ListenAddr cfg))].
End Banner.

(** ** run.go *)

(** [api.Server.httpServer], as [Shutdown] sees it. *)
Inductive http_state := NotListening | Serving | ShutDown.

(** The process: what it wrote, whether its storage was closed, the HTTP server, and the
    engine once there is one. *)
Record Process `{Json} (S : Type) := mkProcess {
  pr_stderr : list string;
  pr_log : list log_record;
  pr_engine : option (Engine S);
  pr_http : http_state;
  pr_closed : bool
}.
Arguments mkProcess {_ S}.
Arguments pr_stderr {_ S}.
Arguments pr_log {_ S}.
Arguments pr_engine {_ S}.
Arguments pr_http {_ S}.
Arguments pr_closed {_ S}.

(** What ends the wait of [RunServer]. *)
Inductive stop_cause :=
  | ListenFailed (err : error)     (** [errCh] *)
  | Signalled (name : string)      (** [sigCh] *)
  | ContextEnded.                  (** [ctx.Done()] *)

Section Run.
Context `{Env} `{JS : Json} `{Doc.UrlLib} `{Build} {S : Type} `{StorageI S}.

Abbreviation P := (Process S).

(** From outside: the host name; the number of processors; the connections that
    [OpenStorage] opens; how a handler process ends; what the loops of the engine and the
    requests do with a pipeline while the server runs, and while it drains; whether the
    goroutine of the HTTP server has begun to listen when the wait ends; the errors of the two
    ends of the grace period. *)
Variable hostname : string.
Variable ncpu : Z.
Variable connect : Doc.opened -> S + error.
Variable exec_command : nat -> string -> bytes -> M (Engine S) process_result.
Variable serving draining : Config -> Pipeline (Engine S) -> M (Engine S) unit.
Variable listens : bool.
Variable grace : option error.

Definition write_stderr (s : string) : M P unit :=
  mmodify (fun p => mkProcess (pr_stderr p ++ [s]) (pr_log p) (pr_engine p) (pr_http p) (pr_closed p)).
Definition log (r : log_record) : M P unit :=
  mmodify (fun p => mkProcess (pr_stderr p) (pr_log p ++ [r]) (pr_engine p) (pr_http p) (pr_closed p)).
Definition set_engine (e : Engine S) (p : P) : P :=
  mkProcess (pr_stderr p) (pr_log p) (Some e) (pr_http p) (pr_closed p).
Definition set_http (h : http_state) (p : P) : P :=
  mkProcess (pr_stderr p) (pr_log p) (pr_engine p) h (pr_closed p).
Definition CloseStore : M P unit :=
  mmodify (fun p => mkProcess (pr_stderr p) (pr_log p) (pr_engine p) (pr_http p) true).

(** A call to the engine. *)
Definition on_engine {A} (m : M (Engine S) A) : M P A := fun n p =>
  match pr_engine p with
  | None => (n, p, Panic "nil pointer dereference")
  | Some e => let '(n', e', r) := m n e in (n', set_engine e' p, r)
  end.

Definition LogStartup (cfg : Doc.Config) (serverID : string) : M P unit :=
  write_stderr (banner cfg) ;;; log (starting cfg serverID).

(** [ListenAndServe] in its goroutine, up to its wait. *)
Definition ListenAndServe (cfg : Doc.Config) : M P unit :=
  log (listening cfg) ;;; mmodify (set_http Serving).

(** [apiSrv.Shutdown]: nothing to stop when the goroutine has not come so far. *)
Definition Shutdown : M P unit :=
  p <- mget ;;
  match pr_http p with NotListening => mret tt | _ => mmodify (set_http ShutDown) end.

(** [runner]: EchoRunner when no handler is configured. *)
Definition server_runner (cfg : Doc.Config) : Runner (Engine S) :=
  if decide (length (Doc.Handlers cfg) = 0%nat) then EchoRunner
  else Registry_Run exec_command (Doc.HandlerRegistry cfg).

(** [cfg.Server.ServerID], or the host name. *)
Definition server_id (cfg : Doc.Config) : string :=
  if decide (Doc.ServerID (Doc.Server cfg) = "") then hostname else Doc.ServerID (Doc.Server cfg).

(** The engine is given the normalised configuration. *)
Definition engine_config (cfg : Doc.Config) : Config := normalize ncpu (Doc.EngineConfig cfg (server_id cfg)).

(** [ctx] is the address of the caller's context, among those of the engine. *)
Definition RunServer (ctx : nat) (cfg : Doc.Config) (cause : stop_cause) : M P unit :=
  LogStartup cfg (server_id cfg) ;;;
  let open := match Doc.OpenStorage (Doc.Storage cfg) (server_id cfg) with
              | inl o => connect o
              | inr err => inr err
              end in
  match open with
  | inr err => mthrow (ErrWrap ("open storage: " +:+ Error err) err)
  | inl store =>
    mdefer CloseStore (
      let pipeline := NewPipeline (server_runner cfg) in
      mmodify (set_engine (upd_contexts <[ctx := (None, Live)]> (NewEngine store))) ;;;
      started <- mtry (on_engine (Start (engine_config cfg) ctx)) ;;
      match started with
      | inr err => mthrow (ErrWrap ("start engine: " +:+ Error err) err)
      | inl _ =>
        (if listens then ListenAndServe cfg else mret tt) ;;;
        on_engine (interleave (serving (engine_config cfg) pipeline)) ;;;
        match cause with
        | ListenFailed err => mthrow err
        | _ =>
          (match cause with
           | Signalled name => log (mkLog "shutdown signal" [("signal", VString name)])
           | _ => mret tt
           end) ;;;
          Shutdown ;;;
          on_engine (Stop (engine_config cfg) (draining (engine_config cfg) pipeline) grace)
        end
      end)
  end.
End Run.
