(* ===== verification/Cli.v ===== *)
(** * The command line (internal/cli)

    One definition per command: from the configuration and the terminal to what it
    prints and to its error, which [Execute] prints before it exits with status 1.
    Parsing of flags is cobra's; a table is kept as its rows of cells, which tabwriter
    aligns. *)
From S2P Require Import Prelude.
From S2P Require Import GoTime.
From S2P Require Import Strconv.
From S2P Require Import Job.
From S2P Require Import StorageI.
From S2P Require Import Handler.
From S2P Require Import Json.
From S2P Require Import Engine.
From S2P Require Import ConfigFile.
From S2P Require Import Api.
From S2P Require Import Routes.
From S2P Require Import Startup.

(** What a command prints. *)
Inductive printed `{Json} :=
  | Text (s : string)
  | Row (cells : list string)
  | Document (v : value).

(** ** [time.Duration]: Round and String, for whole seconds *)

(** [d.Round(time.Second)]: halves away from zero; the values of this program stay far
    from the bounds of int64, where Go returns the bound. *)
Definition round_seconds (d : Duration) : Z :=
  if d <? 0 then - ((- d + 500 * Millisecond) / Second) else (d + 500 * Millisecond) / Second.

Definition seconds_String (s : Z) : string :=
  let u := Z.abs s in
  let text :=
    if u <? 60 then Itoa u +:+ "s"
    else if u <? 3600 then Itoa (u / 60) +:+ "m" +:+ Itoa (u mod 60) +:+ "s"
    else Itoa (u / 3600) +:+ "h" +:+ Itoa (u / 60 mod 60) +:+ "m" +:+ Itoa (u mod 60) +:+ "s" in
  if s <? 0 then "-" +:+ text else text.

(** "%v" of a slice of strings. *)
Fixpoint join_space (l : list string) : string :=
  match l with [] => "" | [s] => s | s :: l => s +:+ " " +:+ join_space l end.

Definition slice_String (l : list string) : string := "[" +:+ join_space l +:+ "]".

Example status_uptime : seconds_String (round_seconds (3725 * Second + 499 * Millisecond)) = "1h2m5s".
Proof. reflexivity. Qed.

(** ** The JSON of a job, by its tags *)
Section Encoding.
Context `{Json}.

Definition omit_empty (empty : bool) (kv : string * value) : list (string * value) := if empty then [] else [kv].

Definition job_json (j : Job) : value := VObject
  ([("id", VString (ID j)); ("name", VString (Name j)); ("args", VBytes (Args j)); ("queue", VString (Queue j))]
   ++ omit_empty (RetryMax j =? 0) ("retry_max", VInt (RetryMax j))
   ++ omit_empty (Timeout j =? 0) ("timeout", VDuration (Timeout j))
   ++ omit_empty (bool_decide (IdempotencyKey j = "")) ("idempotency_key", VString (IdempotencyKey j))
   ++ [("created_at", VTime (CreatedAt j))]
   ++ omit_empty (blen (Result j) =? 0) ("result", VBytes (Result j))).

Definition state_json (st : JobState) : value := VObject
  ([("name", VString (st_Name st))]
   ++ omit_empty (bool_decide (st_Reason st = "")) ("reason", VString (st_Reason st))
   ++ match st_Data st with
      | Some m => omit_empty (bool_decide (m = ∅)) ("data", VData m)
      | None => []
      end
   ++ [("created_at", VTime (st_CreatedAt st))]).

Definition job_with_states_json (jw : JobWithStates) : value :=
  VObject [("Job", job_json (jw_Job jw)); ("States", slice (state_json <$> jw_States jw))].
End Encoding.

(** ** The process of a command *)

(** What was printed, the configuration once loaded, and the backend once opened. *)
Record Terminal `{Json} (S : Type) := mkTerminal {
  stdout : list printed; cached : option Doc.Config; backend : option S; closed : bool
}.
Arguments mkTerminal {_ S}.
Arguments stdout {_ S}.
Arguments cached {_ S}.
Arguments backend {_ S}.
Arguments closed {_ S}.

Section Commands.
Context `{Env} `{JS : Json} `{Viper} {S : Type} `{StorageI S}.

Abbreviation T := (Terminal S).

(** The flag --config, and the connections that [OpenStorage] opens. *)
Variable cfgFile : string.
Variable connect : Doc.opened -> S + error.

Definition print (p : printed) : M T unit :=
  mmodify (fun t => mkTerminal (stdout t ++ [p]) (cached t) (backend t) (closed t)).

Definition loadConfig : M T Doc.Config :=
  t <- mget ;;
  match cached t with
  | Some c => mret c
  | None =>
    match Load cfgFile with
    | inr err => mthrow err
    | inl c => mmodify (fun t => mkTerminal (stdout t) (Some c) (backend t) (closed t)) ;;; mret c
    end
  end.

Definition openCLIStore (c : Doc.Config) : M T unit :=
  match Doc.OpenStorage (Doc.Storage c) (Doc.ServerID (Doc.Server c)) with
  | inr err => mthrow err
  | inl o =>
    match connect o with
    | inr err => mthrow err
    | inl s => mmodify (fun t => mkTerminal (stdout t) (cached t) (Some s) (closed t))
    end
  end.

Definition close_store : M T unit :=
  mmodify (fun t => mkTerminal (stdout t) (cached t) (backend t) true).

(** A call to the storage that was opened. *)
Definition on_backend {A} (m : M S A) : M T A := fun n t =>
  match backend t with
  | None => (n, t, Panic "nil pointer dereference")
  | Some s => let '(n', s', r) := m n s in (n', mkTerminal (stdout t) (cached t) (Some s') (closed t), r)
  end.

(** [c, err := loadConfig(); ...; store, err := openCLIStore(ctx, c); ...; defer store.Close()]. *)
Definition with_store (body : M T unit) : M T unit :=
  c <- loadConfig ;;
  openCLIStore c ;;;
  mdefer close_store body.

(** ** job.go *)

Definition job_row (jw : JobWithStates) : printed :=
  Row [ID (jw_Job jw); Name (jw_Job jw); Queue (jw_Job jw); CurrentState jw].

Definition job_list (state : string) (limit : Z) : M T unit :=
  with_store (
    jobs <- on_backend (storage_GetJobsByState Live state 0 limit) ;;
    print (Row ["ID"; "NAME"; "QUEUE"; "STATE"]) ;;;
    mfor jobs (fun jw => print (job_row jw))).

Definition job_get (id : string) : M T unit :=
  with_store (
    jw <- on_backend (storage_GetJob Live id) ;;
    print (Document (job_with_states_json jw))).

Definition job_requeue (id : string) : M T unit :=
  with_store (on_backend (storage_Requeue Live id "cli requeue")).

(** [new_request] is the error of [http.NewRequest], which refuses what is not a URL; [post]
    is [http.DefaultClient.Do] with [io.ReadAll]: the status and the body, or an error.  No
    header is set on the request. *)
Definition cancel_url (c : Doc.Config) (id : string) : string :=
  "http://" +:+ Doc.ListenAddr c +:+ "/v1/jobs/" +:+ id +:+ "/cancel".

Definition job_cancel (new_request : string -> option error) (post : string -> M T (Z * string))
    (id : string) : M T unit :=
  c <- loadConfig ;;
  match new_request (cancel_url c id) with Some err => mthrow err | None => mret tt end ;;;
  resp <- mtry (post (cancel_url c id)) ;;
  match resp with
  | inr err => mthrow (ErrWrap ("cancel request failed: " +:+ Error err +:+ " (is the server running?)") err)
  | inl (status, body) =>
    if decide (status <> StatusOK)
    then mthrow (ErrText ("cancel failed (status " +:+ Itoa status +:+ "): " +:+ TrimSpace body))
    else print (Text (line ("Job " +:+ id +:+ ": cancel request sent.")))
  end.

(** ** queue.go *)

Definition queue_list : M T unit :=
  with_store (
    queues <- on_backend (storage_GetQueues Live) ;;
    print (Row ["QUEUE"; "DEPTH"]) ;;;
    mfor queues (fun q =>
      n <- mtry (on_backend (storage_GetQueueLength Live q)) ;;
      print (Row [q; Itoa match n with inl n => n | inr _ => 0 end]))).

(** ** server_status.go *)

Definition status_row (now : Time) (sv : ServerInfo) : printed :=
  let queues := match sv_Queues sv with [] => ["default"] | l => l end in
  let uptime := seconds_String (round_seconds (Sub now (sv_StartedAt sv))) in
  let ago := seconds_String (round_seconds (Sub now (sv_LastHeartbeat sv))) in
  Row [sv_ID sv; sv_Status sv; Itoa (sv_WorkerCount sv); slice_String queues; ago +:+ " ago"; uptime].

Definition server_status : M T unit :=
  with_store (
    servers <- on_backend (storage_GetServers Live) ;;
    if decide (length servers = 0%nat) then print (Text (line "No servers registered.")) else
    print (Row ["SERVER ID"; "STATUS"; "WORKERS"; "QUEUES"; "LAST HEARTBEAT"; "UPTIME"]) ;;;
    now <- time_Now ;;
    mfor servers (fun sv => print (status_row now sv))).

(** ** migrate.go *)

Definition MigrationsPath : string := "internal/storage/postgres/migrations".

(** [look_path] is whether the tool is in the PATH; [run] runs it with these arguments. *)
Definition migrate (look_path : bool) (run : list string -> option error) : M T unit :=
  c <- loadConfig ;;
  let name := Doc.Backend (Doc.Storage c) in
  if decide (name <> "postgres") then
    mthrow (ErrText ("migrations require storage.backend = postgres (current: " +:+ name
      +:+ "); Redis/ValKey need no schema migrate"))
  else if decide (Doc.DSN (Doc.Postgres (Doc.Storage c)) = "") then mthrow (ErrText "storage.postgres.dsn is required")
  else if negb look_path then
    mthrow (ErrText "migrate CLI not found in PATH. Install: go install -tags 'postgres' github.com/golang-migrate/migrate/v4/cmd/migrate@latest")
  else
    match run ["-path"; MigrationsPath; "-database"; Doc.DSN (Doc.Postgres (Doc.Storage c)); "up"] with
    | Some err => mthrow err
    | None => mret tt
    end.

(** ** root.go *)

Definition version_command (version : string) : M T unit := print (Text (line ("gfire " +:+ version))).

(** [gfire server]: [app.RunServer] with the configuration. *)
Definition server_command (run : Doc.Config -> M T unit) : M T unit := c <- loadConfig ;; run c.

(** [Execute]: what it writes to the standard error (after cobra's own report), and the
    exit status. *)
Definition Execute (command : M T unit) (n : nat) (t : T) : T * (option string * Z) :=
  match command n t with
  | (_, t', Ok _) => (t', (None, 0))
  | (_, t', Err err) => (t', (Some (line (Error err)), 1))
  | (_, t', Panic msg) | (_, t', Fatal msg) => (t', (Some msg, 2))
  end.
End Commands.
