(* ===== verification/ApiProps.v ===== *)
(** * Properties of the HTTP API

    Authentication, the enqueue endpoints over every backend that keeps the
    contract of [StorageSpec], the retries of a client with an idempotency key
    and the pages of a listing over the in-memory backend. *)
From S2P Require Import Prelude.
From S2P Require Import GoTime.
From S2P Require Import Job.
From S2P Require Import StorageI.
From S2P Require Import Memory.
From S2P Require Import MemoryInv.
From S2P Require Import MemoryProps.
From S2P Require Import StorageSpec.
From S2P Require Import Handler.
From S2P Require Import Json.
From S2P Require Import Engine.
From S2P Require Import EngineProps.
From S2P Require Import Recurring.
From S2P Require Import ConfigFile.
From S2P Require Import Api.

(** ** Lemmas on strings *)
Lemma substring_full s : String.substring 0 (String.length s) s = s.
Proof. induction s as [|c s IH]; simpl; [done|]. by rewrite IH. Qed.

Lemma prefix_split p s :
  String.prefix p s = true ->
  s = p +:+ String.substring (String.length p) (String.length s - String.length p) s.
Proof.
  revert s. induction p as [|c p IH]; intros s Hp; simpl.
  - by rewrite Nat.sub_0_r, substring_full.
  - destruct s as [|c' s]; [done|]. simpl in Hp. destruct (ascii_dec c c') as [<-|]; [|done].
    change (String c s = String c (p +:+ String.substring (String.length p)
      (String.length s - String.length p) s)). f_equal. by apply IH.
Qed.

Lemma prefix_app p s : String.prefix p (p +:+ s) = true.
Proof.
  induction p as [|c p IH]; [by destruct s|].
  change (String.prefix (String c p) (String c (p +:+ s)) = true). simpl.
  by destruct (ascii_dec c c).
Qed.

Lemma TrimPrefix_app p s : TrimPrefix p (p +:+ s) = s.
Proof.
  unfold TrimPrefix. rewrite prefix_app. pose proof (prefix_split p (p +:+ s) (prefix_app p s)) as Hs.
  by apply (inj (String.append p)) in Hs.
Qed.

(** A header is the bearer header of a token: what the two tests of [bearerAuth] decide. *)
Lemma bearer_header h token :
  (String.prefix "Bearer " h = true /\ TrimPrefix "Bearer " h = token) <-> h = "Bearer " +:+ token.
Proof.
  split.
  - intros [Hp <-]. unfold TrimPrefix. rewrite Hp. by apply prefix_split.
  - intros ->. split; [apply prefix_app|apply TrimPrefix_app].
Qed.

Lemma queryInt_bound r key def b : b <= def -> b <= 1 -> b <= queryInt r key def.
Proof.
  intros Hd H1. unfold queryInt. case_decide; [done|].
  destruct (Sscanf_d _) as [z|]; [|done]. destruct (Z.leb_spec z 0); lia.
Qed.

(** The answer to a refused request. *)
Definition refusal `{Json} (code : Z) (msg : string) : Response :=
  mkResponse code (VObject [("error", VString msg)]).

Section Endpoints.
Context {EV : Env} {JS : Json} {CR : Cron} {DC : Decoders}.
Context {S : Type} {SI : StorageI S} {SV : StorageView S} {SP : StorageSpec S}.

(** What the checks of an enqueue request find. *)
Definition checked (req : enqueueRequest) : Job + string :=
  if decide (er_Name req = "") then inr "name is required" else
  match request_job req with inl job => inl job | inr _ => inr "invalid timeout" end.

(** Job [id] is new in [s'] and is the one the request asked for. *)
Definition created (req : enqueueRequest) (job : Job) (id : string) (s s' : S) : Prop :=
  spec_job s id = None /\
  exists j st, only_job id (mkJobWithStates j [st]) s s' /\ st_Name st = StateEnqueued /\
    Name j = er_Name req /\ Args j = spec_args (default_args (er_Args req)) /\
    Queue j = default_queue (er_Queue req) /\
    RetryMax j = (if decide (er_RetryMax req = 0) then 10 else er_RetryMax req) /\
    Timeout j = spec_timeout (Timeout job).

Lemma request_job_fields req job :
  request_job req = inl job ->
  ID job = "" /\ IdempotencyKey job = "" /\ Name job = er_Name req /\
  Args job = default_args (er_Args req) /\ Queue job = default_queue (er_Queue req) /\
  RetryMax job = er_RetryMax req.
Proof.
  unfold request_job. case_decide; [destruct (ParseDuration _)|]; intros; simplify_eq; done.
Qed.

Lemma default_queue_nonempty q : default_queue q <> "".
Proof. unfold default_queue. by case_decide. Qed.

Lemma enqueue_keyed_new ctx req job n (e : Engine S) :
  spec_live ctx -> spec_inv n (eng_storage e) -> request_job req = inl job ->
  spec_job_ok job -> exists n' s' id,
    enqueue_keyed ctx (default_queue (er_Queue req)) job n e = (n', set_storage s' e, Ok id) /\
    spec_inv n' s' /\ created req job id (eng_storage e) s'.
Proof.
  intros Hl HI Hj Hok.
  destruct (request_job_fields req job Hj) as (Hid & Hkey & Hname & Hargs & Hq & Hmax).
  destruct (spec_Enqueue ctx (default_queue (er_Queue req)) job n (eng_storage e) Hl HI Hid
    (default_queue_nonempty _) Hq Hok)
    as (n' & s' & id & j & st & Hr & HI' & Hnew & Ho & Hst & H1 & H2 & H3 & H4 & H5).
  exists n', s', id. split; [|split; [done|]].
  - unfold enqueue_keyed. rewrite decide_False by (intros Hk; by apply Hk). by apply on_storage_run.
  - split; [done|]. exists j, st. rewrite Hname in H1. rewrite Hargs in H2. rewrite Hmax in H4.
    by split_and!.
Qed.

(** Authentication: with a token configured, a request reaches the routes only on one of the
    four open paths or with exactly the header of that token; every other one is answered 401
    before anything of it is read, and changes nothing. *)
Lemma bearer_auth (cfg : Doc.Config) (mux : Handle) r n (e : Engine S) :
  Handler cfg mux r n e
  = if negb (Doc.au_Enabled (Doc.Auth cfg)) || bool_decide (rq_path r ∈ open_paths)
       || bool_decide (rq_header r "Authorization" = "Bearer " +:+ Doc.Token (Doc.Auth cfg))
    then maxBody (Doc.MaxBodySize (Doc.Server cfg)) (requestID mux) r n e
    else (n, e, Ok (refusal StatusUnauthorized "unauthorized")).
Proof.
  unfold Handler. destruct (Doc.au_Enabled _); [|done]. cbn [negb orb]. unfold bearerAuth.
  destruct (bool_decide (rq_path r ∈ open_paths)); [done|]. cbn [orb].
  pose proof (bearer_header (rq_header r "Authorization") (Doc.Token (Doc.Auth cfg))) as Hb.
  destruct (String.prefix "Bearer " _); cbn [negb].
  - case_decide as Hne; case_bool_decide; try done; exfalso; tauto.
  - rewrite bool_decide_eq_false_2; [done|]. intros Hx. apply Hb in Hx as [? _]. done.
Qed.

(** C19. POST /v1/jobs/enqueue without an Idempotency-Key header, on a live context: a body that does not
    decode (over the limit included), a missing name and an invalid timeout are answered 400 and
    change nothing; any other request whose job the backend accepts creates exactly the one job it
    describes, with the queue, arguments and retry budget defaulted, waiting in state Enqueued, and
    is answered 201 with its identifier. *)
Theorem enqueue_endpoint r n (e : Engine S) :
  spec_live (rq_ctx r) -> spec_inv n (eng_storage e) -> rq_header r "Idempotency-Key" = "" ->
  (forall req job, decode_enqueue (rq_body r) (rq_truncated r) = inl req -> checked req = inl job ->
     spec_job_ok job) ->
  match decode_enqueue (rq_body r) (rq_truncated r) with
  | inr err => handleEnqueue r n e = (n, e, Ok (refusal StatusBadRequest (Error err)))
  | inl req =>
    match checked req with
    | inr reason => handleEnqueue r n e = (n, e, Ok (refusal StatusBadRequest reason))
    | inl job => exists n' s' id,
        handleEnqueue r n e = (n', set_storage s' e, Ok (mkResponse StatusCreated (VObject
          [("job_id", VString id); ("status", VString "enqueued");
           ("queue", VString (default_queue (er_Queue req)))]))) /\
        spec_inv n' s' /\ created req job id (eng_storage e) s'
    end
  end.
Proof.
  intros Hl HI Hkey Hok. unfold handleEnqueue, or_bad_request. unfold checked in *.
  destruct (decode_enqueue _ _) as [req|err] eqn:Hd; [|done]. specialize (Hok req).
  case_decide; [done|]. destruct (request_job req) as [job|] eqn:Hj; [|done].
  destruct (enqueue_keyed_new (rq_ctx r) req job n e Hl HI Hj (Hok job eq_refl eq_refl)) as (n' & s' & id & Hr & HI' & Hc).
  exists n', s', id. split; [|done]. rewrite Hkey.
  replace (set_IdempotencyKey "" job) with job
    by (destruct (request_job_fields req job Hj) as (_ & <- & _); by destruct job).
  unfold or_error. by erewrite mbind_ok by (apply mtry_ok; exact Hr).
Qed.

(** *** Batches *)

(** The identifiers a batch answered with. *)
Definition accepted_ids (es : list entry) : list string :=
  omap (fun e => match e with Accepted id _ _ => Some id | Rejected _ _ _ => None end) es.

(** What became of request [jr], at position [i], between two states. *)
Definition entry_for (s s' : S) (i : Z) (jr : enqueueRequest) (e : entry) : Prop :=
  match e with
  | Rejected name reason i' => name = er_Name jr /\ i' = i /\
      (er_Name jr = "" /\ reason = "name is required" \/
       er_Name jr <> "" /\ request_job jr = inr tt /\
       reason = "invalid timeout: " +:+ er_Timeout jr)
  | Accepted id name queue => name = er_Name jr /\ er_Name jr <> "" /\
      queue = default_queue (er_Queue jr) /\ spec_job s id = None /\
      exists jw, spec_job s' id = Some jw /\ CurrentState jw = StateEnqueued /\
        Name (jw_Job jw) = er_Name jr /\ Args (jw_Job jw) = spec_args (default_args (er_Args jr)) /\
        Queue (jw_Job jw) = queue
  end.

Record accounted (i : Z) (jrs : list enqueueRequest) (es : list entry) (s s' : S) : Prop := {
  ac_length : length es = length jrs;
  ac_entry : forall k jr e, jrs !! k = Some jr -> es !! k = Some e ->
    entry_for s s' (i + Z.of_nat k) jr e;
  ac_NoDup : NoDup (accepted_ids es);
  ac_frame : forall id, id ∉ accepted_ids es -> spec_job s' id = spec_job s id;
}.

Lemma accounted_new i jrs es s s' id :
  accounted i jrs es s s' -> id ∈ accepted_ids es -> spec_job s id = None.
Proof.
  intros A Hid. apply list_elem_of_omap in Hid as (e & He & Hid).
  apply list_elem_of_lookup in He as [k He].
  destruct (lookup_lt_is_Some_2 jrs k) as [jr Hjr].
  { rewrite <- (ac_length _ _ _ _ _ A). by eapply lookup_lt_Some. }
  pose proof (ac_entry _ _ _ _ _ A k jr e Hjr He) as Hx. destruct e; [|done].
  simplify_eq. apply Hx.
Qed.

(** A refused request in front of a batch. *)
Lemma accounted_rejected i jr jrs name reason es s s' :
  entry_for s s' i jr (Rejected name reason i) -> accounted (i + 1) jrs es s s' ->
  accounted i (jr :: jrs) (Rejected name reason i :: es) s s'.
Proof.
  intros He [A1 A2 A3 A4]. split; [simpl; by rewrite A1| |done|done].
  intros [|k] jr' e' Hj Hk; simplify_eq/=; [by rewrite Z.add_0_r|].
  replace (i + Z.of_nat (Datatypes.S k)) with (i + 1 + Z.of_nat k) by lia. by apply A2.
Qed.

(** An accepted one. *)
Lemma accounted_accepted i jr job id jrs es s s1 s' :
  er_Name jr <> "" -> created jr job id s s1 -> accounted (i + 1) jrs es s1 s' ->
  accounted i (jr :: jrs) (Accepted id (er_Name jr) (default_queue (er_Queue jr)) :: es) s s'.
Proof.
  intros Hname (Hnew & j & st & Ho & Hst & HN & HA & HQ & _) A.
  assert (id ∉ accepted_ids es) as Hid.
  { intros Hin. pose proof (accounted_new _ _ _ _ _ _ A Hin) as Hx.
    by rewrite (oj_job _ _ _ _ Ho) in Hx. }
  split.
  - simpl. by rewrite (ac_length _ _ _ _ _ A).
  - intros [|k] jr' e' Hj Hk; simplify_eq/=.
    + split_and!; try done. exists (mkJobWithStates j [st]).
      rewrite (ac_frame _ _ _ _ _ A id Hid). split; [apply Ho|]. done.
    + pose proof (ac_entry _ _ _ _ _ A k jr' e' Hj Hk) as Hx.
      replace (i + Z.of_nat (Datatypes.S k)) with (i + 1 + Z.of_nat k) by lia.
      destruct e' as [id'|]; [|done]. destruct Hx as (-> & Hn & -> & Hnew' & Hx).
      split_and!; try done. destruct (decide (id' = id)) as [->|Hne]; [done|].
      by rewrite <- (oj_rest _ _ _ _ Ho id' Hne).
  - simpl. apply NoDup_cons. split; [done|apply A].
  - intros id' Hx. apply not_elem_of_cons in Hx as [Hne Hx].
    by rewrite (ac_frame _ _ _ _ _ A id' Hx), (oj_rest _ _ _ _ Ho id' Hne).
Qed.

Lemma batch_entries_run ctx i jrs n (e : Engine S) :
  spec_live ctx -> spec_inv n (eng_storage e) ->
  Forall (fun jr => forall job, checked jr = inl job -> spec_job_ok job) jrs ->
  exists n' s' es,
    batch_entries ctx "" i jrs n e = (n', set_storage s' e, Ok es) /\ spec_inv n' s' /\
    accounted i jrs es (eng_storage e) s'.
Proof.
  intros Hl HI Hmax. revert i n e HI. induction Hmax as [|jr jrs Hm _ IH]; intros i n e HI.
  { exists n, (eng_storage e), []. rewrite set_storage_same. split; [done|]. split; [done|].
    split; try done. constructor. }
  cbn [batch_entries]. unfold batch_entry.
  destruct (decide (er_Name jr = "")) as [Hn|Hn].
  { destruct (IH (i + 1) n e HI) as (n' & s' & es & Hr & HI' & A).
    exists n', s', (Rejected (er_Name jr) "name is required" i :: es).
    erewrite mbind_ok by reflexivity. erewrite mbind_ok by exact Hr. split; [done|].
    split; [done|]. apply accounted_rejected; [|done]. simpl. tauto. }
  unfold checked in Hm. rewrite (decide_False _ _ Hn) in Hm.
  destruct (request_job jr) as [job|[]] eqn:Hj.
  - destruct (enqueue_keyed_new ctx jr job n e Hl HI Hj (Hm job eq_refl)) as (n1 & s1 & id & H1 & HI1 & Hc).
    destruct (IH (i + 1) n1 (set_storage s1 e) HI1) as (n' & s' & es & Hr & HI' & A).
    exists n', s', (Accepted id (er_Name jr) (default_queue (er_Queue jr)) :: es).
    rewrite decide_False by (intros Hx; by apply Hx).
    erewrite mbind_ok by (erewrite mbind_ok by (apply mtry_ok; exact H1); reflexivity).
    erewrite mbind_ok by exact Hr. split; [done|]. split; [done|].
    by eapply accounted_accepted.
  - destruct (IH (i + 1) n e HI) as (n' & s' & es & Hr & HI' & A).
    exists n', s', (Rejected (er_Name jr) ("invalid timeout: " +:+ er_Timeout jr) i :: es).
    erewrite mbind_ok by reflexivity. erewrite mbind_ok by exact Hr. split; [done|].
    split; [done|]. apply accounted_rejected; [|done]. simpl. rewrite Hj. tauto.
Qed.

(** C21. POST /v1/jobs/enqueue/batch without an Idempotency-Key header, on a live context and with jobs
    the backend accepts: each request of a non-empty batch is accounted for once and at its index,
    accepted or refused by the same checks as a single one; the accepted ones have distinct
    identifiers of new jobs as requested, no other job changes, and the answer, with the fields
    accepted, rejected and total, is 201 exactly when one was accepted. *)
Theorem batch_accounting r jrs n (e : Engine S) :
  spec_live (rq_ctx r) -> spec_inv n (eng_storage e) -> rq_header r "Idempotency-Key" = "" ->
  decode_batch (rq_body r) (rq_truncated r) = inl jrs -> jrs <> [] ->
  Forall (fun jr => forall job, checked jr = inl job -> spec_job_ok job) jrs ->
  exists n' s' es accepted rejected,
    handleBatchEnqueue r n e = (n', set_storage s' e,
      Ok (mkResponse (if decide (accepted = []) then StatusBadRequest else StatusCreated)
        (VObject [("accepted", slice (entry_value <$> accepted));
                  ("rejected", slice (entry_value <$> rejected));
                  ("total", VInt (Z.of_nat (length jrs)))]))) /\
    spec_inv n' s' /\ accounted 0 jrs es (eng_storage e) s' /\
    accepted ++ rejected ≡ₚ es /\ (length accepted + length rejected = length jrs)%nat /\
    (forall x, x ∈ accepted -> is_accepted x = true) /\
    (forall x, x ∈ rejected -> is_accepted x = false).
Proof.
  intros Hl HI Hkey Hd Hne Hok. unfold handleBatchEnqueue, or_bad_request. rewrite Hd, Hkey.
  rewrite decide_False by (by destruct jrs).
  destruct (batch_entries_run (rq_ctx r) 0 jrs n e Hl HI Hok) as (n' & s' & es & Hr & HI' & A).
  set (acc := filter (fun x => is_accepted x) es).
  set (rej := filter (fun x => negb (is_accepted x)) es).
  assert (acc ++ rej ≡ₚ es) as HP.
  { unfold acc, rej. clear. induction es as [|x es IH]; [done|]. rewrite !filter_cons.
    destruct (is_accepted x); simpl; [by rewrite IH|].
    by rewrite <- Permutation_middle, IH. }
  exists n', s', es, acc, rej. split; [|split_and!; try done].
  - erewrite mbind_ok by exact Hr. cbv zeta. fold acc rej. unfold writeJSON.
    destruct acc; reflexivity.
  - rewrite <- length_app, HP. apply A.
  - unfold acc. intros x Hx. apply list_elem_of_filter in Hx as [Hx _]. by apply Is_true_true.
  - unfold rej. intros x Hx. apply list_elem_of_filter in Hx as [Hx _].
    apply Is_true_true in Hx. by apply negb_true_iff.
Qed.
End Endpoints.

(** ** Scheduling

    Unlike the enqueue endpoints, [handleSchedule] does not look at the timeout of
    the request: a job scheduled with one is stored without it, and an invalid one
    is not refused. *)
Lemma schedule_drops_timeout {EV : Env} {JS : Json} {DC : Decoders} {S : Type} {SI : StorageI S}
    r r' req req' at_ n (e : Engine S) :
  rq_ctx r' = rq_ctx r ->
  decode_schedule (rq_body r) (rq_truncated r) = inl (mkScheduleRequest req at_) ->
  decode_schedule (rq_body r') (rq_truncated r') = inl (mkScheduleRequest req' at_) ->
  req' = mkEnqueueRequest (er_Name req) (er_Args req) (er_Queue req) (er_RetryMax req) (er_Timeout req') ->
  handleSchedule r' n e = handleSchedule r n e.
Proof.
  intros Hc Hd Hd' Hreq. unfold handleSchedule, or_bad_request. rewrite Hd, Hd', Hc. cbn.
  rewrite Hreq. done.
Qed.

(** ** Over the in-memory backend *)
Section MemoryEndpoints.
Context {EV : Env} {JS : Json} {CR : Cron} {DC : Decoders}.

(** The answer to an accepted request. *)
Definition enqueued (id queue : string) : Response :=
  mkResponse StatusCreated (VObject
    [("job_id", VString id); ("status", VString "enqueued"); ("queue", VString queue)]).

Lemma IdempotencyKey_set k job : IdempotencyKey (set_IdempotencyKey k job) = k.
Proof. done. Qed.

Lemma handleEnqueue_keyed r key n (e : Engine Storage) n1 e1 resp :
  key <> "" -> rq_header r "Idempotency-Key" = key ->
  handleEnqueue r n e = (n1, e1, Ok resp) -> status resp = StatusCreated ->
  exists id queue, resp = enqueued id queue /\ keyed key id n1 (eng_storage e1).
Proof.
  intros Hk Hkey. unfold handleEnqueue, or_bad_request. rewrite Hkey.
  destruct (decode_enqueue _ _) as [req|]; [|by intros [= _ _ <-]].
  case_decide; [by intros [= _ _ <-]|].
  destruct (request_job req) as [job|]; [|by intros [= _ _ <-]].
  cbv zeta. unfold or_error, enqueue_keyed. rewrite IdempotencyKey_set, decide_True by done.
  set (jk := set_IdempotencyKey key job). unfold_m. unfold on_storage, mlift, storage_EnqueueIdempotent.
  cbn [memory_StorageI].
  destruct (EnqueueIdempotent (rq_ctx r) (default_queue (er_Queue req)) jk n (eng_storage e))
    as [[n2 s2] [[id b]| | |]] eqn:Hr; cbn; intros [= <- <- <-]; intros Hs; try discriminate Hs.
  exists id, (default_queue (er_Queue req)). split; [done|].
  exact (EnqueueIdempotent_keyed (rq_ctx r) _ jk n (eng_storage e) n2 s2 id b Hk Hr).
Qed.

(** A client that retries POST /v1/jobs/enqueue under the same Idempotency-Key after a 201 gets
    the same job identifier again, and nothing changes, whatever calls reached the storage in
    between and even if the retried body differs. *)
Lemma enqueue_retry_deduplicated r r' key req job os n (e : Engine Storage) n1 e1 resp :
  key <> "" -> rq_header r "Idempotency-Key" = key -> rq_header r' "Idempotency-Key" = key ->
  decode_enqueue (rq_body r') (rq_truncated r') = inl req -> checked req = inl job ->
  handleEnqueue r n e = (n1, e1, Ok resp) -> status resp = StatusCreated ->
  exists id queue, resp = enqueued id queue /\
    let c := exec_all os n1 (eng_storage e1) in
    handleEnqueue r' c.1 (set_storage c.2 e1)
    = (c.1, set_storage c.2 e1, Ok (enqueued id (default_queue (er_Queue req)))).
Proof.
  intros Hk Hkey Hkey' Hd Hc Hr Hs.
  destruct (handleEnqueue_keyed r key n e n1 e1 resp Hk Hkey Hr Hs) as (id & queue & -> & K).
  exists id, queue. split; [done|]. intros c.
  pose proof (keyed_exec_all key id os n1 (eng_storage e1) K) as Kc. fold c in Kc.
  unfold handleEnqueue, or_bad_request. rewrite Hd, Hkey'. unfold checked in Hc.
  case_decide; [done|]. destruct (request_job req) as [job'|]; [|done].
  cbv zeta. unfold or_error, enqueue_keyed. rewrite IdempotencyKey_set, decide_True by done.
  set (jk := set_IdempotencyKey key job').
  assert (EnqueueIdempotent (rq_ctx r') (default_queue (er_Queue req)) jk c.1 c.2
    = (c.1, c.2, Ok (id, false))) as He.
  { unfold EnqueueIdempotent. change (IdempotencyKey jk) with key. run.
    unfold keyed in Kc. by rewrite decide_True, Kc by done. }
  erewrite mbind_ok.
  2:{ apply mtry_ok. erewrite mbind_ok by (apply on_storage_run; exact He). reflexivity. }
  done.
Qed.

(** The stored jobs a listing of [state] selects ("" selects all). *)
Definition listed (s : Storage) (state : string) (jw : JobWithStates) : Prop :=
  spec_job s (ID (jw_Job jw)) = Some jw /\ (state = "" \/ CurrentState jw = state).

Lemma GetJobsByState_run ctx state offset limit n s :
  wf s -> 0 <= offset -> 0 < limit -> exists n' all,
    GetJobsByState ctx state offset limit n s
      = (n', s, Ok (take (Z.to_nat limit) (drop (Z.to_nat offset) all))) /\
    NoDup ((fun jw => ID (jw_Job jw)) <$> all) /\ (forall jw, jw ∈ all <-> listed s state jw).
Proof.
  intros W Ho Hl. unfold GetJobsByState. run. fold (@range_keys EV Storage Job (jobs s)).
  destruct (range_keys_spec (S := Storage) (jobs s) n s) as (ks & Hks & _ & Hnd & Hdom).
  unfold range_keys in *. unfold_m. injection Hks as ->.
  set (f := fun k => match jobs s !! k with Some job => _ | None => None end).
  exists (Datatypes.S n), (omap f ks). 
  assert (forall k jw, f k = Some jw <-> k = ID (jw_Job jw) /\ listed s state jw) as Hf.
  { intros k jw. unfold f, listed. split.
    - destruct (jobs s !! k) as [job|] eqn:Hj; [|done]. case_decide as Hc; [|done]. intros [= <-].
      cbn. pose proof (wf_key _ _ _ _ _ W k job Hj) as Hid. rewrite Hid in *. by rewrite Hj.
    - destruct jw as [j h]. cbn. intros (-> & Hv & Hc).
      destruct (jobs s !! ID j) as [job|] eqn:Hj; [|done]. injection Hv as -> <-.
      by rewrite decide_True. }
  split_and!.
  - destruct (Z.leb_spec (Z.of_nat (length (omap f ks))) offset).
    + rewrite drop_ge by lia. by rewrite take_nil.
    + destruct (Z.ltb_spec offset 0); [lia|]. case_decide as Hc; [done|].
      rewrite take_ge; [done|]. lia.
  - clear Hdom. induction Hnd as [|k ks Hk Hnd IH]; [constructor|]. simpl.
    destruct (f k) as [jw|] eqn:Hfk; [|done]. simpl. constructor; [|done].
    intros Hin. apply list_elem_of_fmap in Hin as (jw' & Hid & Hin).
    apply list_elem_of_omap in Hin as (k' & Hk' & Hf'). apply Hf in Hfk as [-> _].
    apply Hf in Hf' as [-> _]. by rewrite Hid in Hk.
  - intros jw. rewrite list_elem_of_omap. split.
    + intros (k & _ & Hk). by apply Hf in Hk as [_ Hk].
    + intros HL. exists (ID (jw_Job jw)). split; [|by apply Hf]. apply Hdom.
      destruct HL as [HL _]. cbn in HL. destruct (jobs s !! _); [eauto|done].
Qed.

(** GET /v1/jobs on the in-memory backend: the answer is the page that the offset and limit of
    the query cut out of a listing of exactly the stored jobs in the requested state, each once;
    the default limit is 50, no query value makes it panic, and nothing changes. *)
Theorem list_jobs_page r n (e : Engine Storage) :
  wf (eng_storage e) -> exists n' all,
    handleListJobs r n e = (n', e, Ok (mkResponse StatusOK (VObject [("jobs", VArray (jobResponse <$>
      take (Z.to_nat (queryInt r "limit" 50)) (drop (Z.to_nat (queryInt r "offset" 0)) all)))]))) /\
    NoDup ((fun jw => ID (jw_Job jw)) <$> all) /\
    (forall jw, jw ∈ all <-> listed (eng_storage e) (rq_query r "state") jw) /\
    0 < queryInt r "limit" 50 /\ 0 <= queryInt r "offset" 0.
Proof.
  intros W. pose proof (queryInt_bound r "limit" 50 1 ltac:(lia) ltac:(lia)) as Hl.
  pose proof (queryInt_bound r "offset" 0 0 ltac:(lia) ltac:(lia)) as Ho.
  destruct (GetJobsByState_run (rq_ctx r) (rq_query r "state") (queryInt r "offset" 0)
    (queryInt r "limit" 50) n (eng_storage e) W Ho) as (n' & all & Hr & Hnd & Hall); [lia|].
  exists n', all. split; [|split_and!; [done|done|lia|lia]].
  unfold handleListJobs, or_error. cbv zeta.
  erewrite mbind_ok by (apply mtry_ok; apply on_storage_run; exact Hr).
  by rewrite set_storage_same.
Qed.
End MemoryEndpoints.

(** ** On concrete requests *)
Section Witnesses.
#[local] Instance E3 : Env := env_at 0.
#[local] Existing Instance tree_Json.
#[local] Existing Instance free_cron.

(** Decoders of plain bodies: the body is the name of the job; a batch asks for
    that job and for one without a name. *)
#[local, refine] Instance plain_decoders : Decoders := {
  decode_enqueue b _ := inl (mkEnqueueRequest b (Some "[1]") "" 0 "");
  decode_batch b _ := inl [mkEnqueueRequest b None "mail" 3 ""; mkEnqueueRequest "" None "" 0 ""];
  decode_schedule b _ := inl (mkScheduleRequest (mkEnqueueRequest b None "" 0 "1h") 1);
  decode_continue b _ := inl (mkContinueRequest b None "" "");
  decode_recurring b _ := inl (mkRecurringRequest b b None "" b None);
  ParseDuration _ := None
}.
Proof.
  - intros b t req [= <-]. unfold int64_ok. simpl. lia.
  - intros b t reqs [= <-]. repeat constructor; simpl; lia.
Defined.

Definition fresh_engine : Engine Storage := mkEngine New None ∅ ∅ ∅ [] false false.

Definition post (key body : string) : Request :=
  mkRequest Live "/v1/jobs/enqueue" "" (fun h => if decide (h = "Idempotency-Key") then key else "")
    (fun _ => "") body false.

Lemma enqueue_endpoint_witness : exists n' s' id,
  handleEnqueue (post "" "report") 0%nat fresh_engine
    = (n', set_storage s' fresh_engine, Ok (enqueued id "default")) /\
  is_Some (spec_job s' id).
Proof.
  destruct (enqueue_endpoint (post "" "report") 0%nat fresh_engine) as (n' & s' & id & Hr & _ & Hc).
  - exact I.
  - apply memory_inv_New.
  - reflexivity.
  - intros req job _ _. exact I.
  - exists n', s', id. split; [exact Hr|]. destruct Hc as (_ & j & st & Ho & _).
    rewrite (oj_job _ _ _ _ Ho). eauto.
Defined.

Lemma batch_accounting_witness : exists n' s' es resp,
  handleBatchEnqueue (post "" "report") 0%nat fresh_engine
    = (n', set_storage s' fresh_engine, Ok resp) /\ length es = 2%nat /\ NoDup (accepted_ids es).
Proof.
  destruct (batch_accounting (post "" "report")
    [mkEnqueueRequest "report" None "mail" 3 ""; mkEnqueueRequest "" None "" 0 ""] 0%nat fresh_engine)
    as (n' & s' & es & acc & rej & Hr & _ & A & _).
  - exact I.
  - apply memory_inv_New.
  - reflexivity.
  - reflexivity.
  - discriminate.
  - repeat constructor.
  - do 4 eexists. split; [exact Hr|]. split; [exact (ac_length _ _ _ _ _ A)|].
    exact (ac_NoDup _ _ _ _ _ A).
Defined.

Lemma enqueue_retry_deduplicated_witness :
  let r := handleEnqueue (post "k" "report") 0%nat fresh_engine in
  let c := exec_all [OpScan ["default"]; OpRemoveExpired (60 * Second)] (tick_of r)
             (eng_storage (st_of r)) in
  handleEnqueue (post "k" "other") c.1 (set_storage c.2 (st_of r))
  = (c.1, set_storage c.2 (st_of r), Ok (enqueued "id-0" "default")).
Proof.
  destruct (enqueue_retry_deduplicated (post "k" "report") (post "k" "other") "k"
    (mkEnqueueRequest "other" (Some "[1]") "" 0 "")
    (newJob "other" (Some "[1]") "default" 0)
    [OpScan ["default"]; OpRemoveExpired (60 * Second)] 0%nat fresh_engine
    (tick_of (handleEnqueue (post "k" "report") 0%nat fresh_engine))
    (st_of (handleEnqueue (post "k" "report") 0%nat fresh_engine))
    (enqueued "id-0" "default")) as (id & queue & Hresp & Hr).
  - discriminate.
  - reflexivity.
  - reflexivity.
  - reflexivity.
  - vm_compute. reflexivity.
  - vm_compute. reflexivity.
  - reflexivity.
  - injection Hresp as <- <-. exact Hr.
Defined.

Definition one_listed : Engine Storage := st_of (handleEnqueue (post "" "report") 0%nat fresh_engine).

Lemma list_jobs_page_witness : exists n' resp,
  handleListJobs (post "" "") 9%nat one_listed = (n', one_listed, Ok resp) /\ status resp = StatusOK.
Proof.
  destruct (list_jobs_page (post "" "") 9%nat one_listed) as (n' & all & Hr & _).
  - change (eng_storage one_listed) with (exec_all [OpEnqueue "default" (newJob "report" (Some "[1]") "default" 0)] 0 New).2.
    apply (reachable_inv _ _ (exec_all_reachable _ 0)).
  - do 2 eexists. split; [exact Hr|reflexivity].
Defined.
End Witnesses.
