(* ===== verification/RoutesProps.v ===== *)
(** * Properties of the routes

    That the OpenAPI document lists the routes, which handler answers a request, that a
    request without the token changes nothing, and what /metrics reports. *)
From S2P Require Import Prelude.
From S2P Require Import GoTime.
From S2P Require Import Strconv.
From S2P Require Import Job.
From S2P Require Import StorageI.
From S2P Require Import Memory.
From S2P Require Import Handler.
From S2P Require Import Json.
From S2P Require Import Engine.
From S2P Require Import EngineProps.
From S2P Require Import Recurring.
From S2P Require Import ConfigFile.
From S2P Require Import Api.
From S2P Require Import OpenApi.
From S2P Require Import Routes.
From S2P Require Import ApiProps.

(** ** Patterns that cannot match the same request *)

(** Some list of segments matches both. *)
Fixpoint overlap (ps qs : list segment) : bool :=
  match ps, qs with
  | [], [] => true
  | Lit l :: ps, Lit l' :: qs => bool_decide (l = l') && overlap ps qs
  | _ :: ps, _ :: qs => overlap ps qs
  | _, _ => false
  end.

Lemma match_overlap ps qs ss vs ws :
  match_segments ps ss = Some vs -> match_segments qs ss = Some ws -> overlap ps qs = true.
Proof.
  revert qs ss vs ws. induction ps as [|[l|x] ps IH]; intros [|[l'|x'] qs] [|s ss] vs ws; simpl; try done.
  all: repeat case_decide; simpl; try done; subst; try done.
  - apply IH.
  - intros Hp (w' & Hq & _)%fmap_Some. by eapply IH.
  - intros (v' & Hp & _)%fmap_Some Hq. by eapply IH.
  - intros (v' & Hp & _)%fmap_Some (w' & Hq & _)%fmap_Some. by eapply IH.
Qed.

(** Some method matches both. *)
Definition methods_meet (m m' : string) : bool :=
  bool_decide (m = m') || (bool_decide (m ∈ ["GET"; "HEAD"]) && bool_decide (m' ∈ ["GET"; "HEAD"])).

Lemma match_meet m m' method : match_method m method = true -> match_method m' method = true -> methods_meet m m' = true.
Proof.
  unfold match_method, methods_meet. intros H1 H2.
  apply orb_true_iff in H1 as [->%bool_decide_eq_true|[->%bool_decide_eq_true ->%bool_decide_eq_true]%andb_true_iff];
  apply orb_true_iff in H2 as [->%bool_decide_eq_true|[->%bool_decide_eq_true H2]%andb_true_iff]; try done.
  - by rewrite bool_decide_eq_true_2.
  - by rewrite (proj1 (bool_decide_eq_true _) H2).
Qed.

Definition clash (p p' : string) : bool :=
  methods_meet (parse_pattern p).1 (parse_pattern p').1 && overlap (parse_pattern p).2 (parse_pattern p').2.

Lemma match_clash method path p p' vs ws :
  match_pattern method path p = Some vs -> match_pattern method path p' = Some ws -> clash p p' = true.
Proof.
  unfold match_pattern, clash. destruct (parse_pattern p) as [m ps], (parse_pattern p') as [m' qs]. simpl.
  destruct (match_method m method) eqn:H1, (match_method m' method) eqn:H2; try done. intros Hp Hq.
  apply andb_true_iff. split; [by eapply match_meet|by eapply match_overlap].
Qed.

(** No two entries of the table clash. *)
Fixpoint disjoint (l : list string) : bool :=
  match l with [] => true | p :: l => forallb (fun p' => negb (clash p p')) l && disjoint l end.

(** ** Paths *)

(** A segment of a path that is kept as it is. *)
Definition plain_segment (s : string) : Prop := split_at "/"%char s = [s] /\ s ∉ [""; "."; ".."].

#[export] Instance plain_segment_dec s : Decision (plain_segment s).
Proof. unfold plain_segment. apply _. Defined.

Lemma split_at_nonempty c s : split_at c s <> [].
Proof. destruct s as [|d s]; simpl; [done|]. case_decide; [done|]. by destruct (split_at c s). Qed.

Lemma split_at_app c s rest : split_at c s = [s] -> split_at c (s +:+ String c rest) = s :: split_at c rest.
Proof.
  induction s as [|d s IH]; simpl; [by rewrite decide_True|]. case_decide as Hd.
  - done.
  - destruct (split_at c s) as [|w ws] eqn:Hs; [by apply split_at_nonempty in Hs|].
    intros [= -> ->]. by rewrite IH.
Qed.

Lemma append_nil_r s : s +:+ "" = s.
Proof. induction s as [|c s IH]; [done|]. change (String c (s +:+ "") = String c s). by rewrite IH. Qed.

Lemma split_slashed s ss :
  plain_segment s -> Forall plain_segment ss -> split_at "/"%char (s +:+ slashed ss) = s :: ss.
Proof.
  intros [Hs _] Hss. revert s Hs. induction Hss as [|s' ss [Hs' _] _ IH]; intros s Hs; simpl.
  - rewrite append_nil_r. exact Hs.
  - change (split_at "/"%char (s +:+ String "/"%char (s' +:+ slashed ss)) = s :: s' :: ss).
    by rewrite split_at_app, IH.
Qed.

Lemma path_segments_slashed ss : ss <> [] -> Forall plain_segment ss -> path_segments (slashed ss) = ss.
Proof.
  intros Hne Hss. destruct Hss as [|s ss Hs Hss]; [done|]. by apply (split_slashed s ss).
Qed.

Lemma clean_plain acc ss : Forall plain_segment ss -> clean_segments acc ss = reverse acc ++ ss.
Proof.
  intros Hss. revert acc. induction Hss as [|s ss [_ Hs] _ IH]; intros acc; simpl; [by rewrite app_nil_r|].
  rewrite bool_decide_eq_false_2, decide_False by set_solver. by rewrite IH, reverse_cons, <- app_assoc.
Qed.

Lemma cleanPath_slashed ss : ss <> [] -> Forall plain_segment ss -> cleanPath (slashed ss) = slashed ss.
Proof.
  intros Hne Hss. unfold cleanPath. rewrite decide_False by (by destruct ss).
  assert (String.prefix "/" (slashed ss) = true) as ->.
  { destruct ss as [|s ss]; [done|]. change (String.prefix "/" (String "/"%char (s +:+ slashed ss)) = true).
    simpl. by destruct (s +:+ slashed ss). }
  rewrite (path_segments_slashed ss) by done. cbv zeta. rewrite clean_plain by done. simpl.
  rewrite decide_False by done. rewrite decide_False; [done|]. intros Hl.
  apply last_Some in Hl as [l ->]. apply Forall_app in Hss as [_ Hss]. apply Forall_cons in Hss as [[_ Hs] _]. set_solver.
Qed.

(** The segments of a path that fits a pattern, its wildcards filled with [args]. *)
Fixpoint fill (ps : list segment) (args : list string) : list string :=
  match ps, args with
  | Lit l :: ps, _ => l :: fill ps args
  | Wild _ :: ps, a :: args => a :: fill ps args
  | _, _ => []
  end.

Definition wildcards (ps : list segment) : list string :=
  omap (fun s => match s with Wild n => Some n | Lit _ => None end) ps.

Definition literals (ps : list segment) : list string :=
  omap (fun s => match s with Wild _ => None | Lit l => Some l end) ps.

Lemma match_fill ps args :
  length args = length (wildcards ps) -> Forall plain_segment args -> match_segments ps (fill ps args) = Some args.
Proof.
  revert args. induction ps as [|[l|x] ps IH]; intros args Hl Ha; csimpl in *.
  - by destruct args.
  - rewrite decide_True by done. by apply IH.
  - destruct args as [|a args]; [done|]. apply Forall_cons in Ha as [[_ Hn] Ha]. simpl.
    rewrite decide_False by set_solver. rewrite IH by (done || (simpl in Hl; lia)). done.
Qed.

Lemma fill_plain ps args :
  Forall plain_segment (literals ps) -> Forall plain_segment args -> Forall plain_segment (fill ps args).
Proof.
  revert args. induction ps as [|[l|x] ps IH]; intros args Hl Ha; csimpl in *; [done| |].
  - apply Forall_cons in Hl as [? ?]. constructor; [done|by apply IH].
  - destruct args as [|a args]; [done|]. apply Forall_cons in Ha as [? ?]. constructor; [done|by apply IH].
Qed.

Lemma fill_nonempty ps args : ps <> [] -> length args = length (wildcards ps) -> fill ps args <> [].
Proof. destruct ps as [|[l|x] ps]; csimpl; [done|done|]. by destruct args. Qed.

(** ** Reading *)
Section Readonly.
Context {S : Type}.

Lemma readonly_ret {A} (a : A) : readonly (S := S) (mret a).
Proof. done. Qed.

Lemma readonly_bind {A B} (m : M S A) (k : A -> M S B) : readonly m -> (forall a, readonly (k a)) -> readonly (mbind m k).
Proof.
  intros Hm Hk n s. specialize (Hm n s). unfold readonly, st_of, mbind in *.
  destruct (m n s) as [[n' s'] []]; simpl in *; subst; try done; apply Hk.
Qed.

Lemma readonly_try {A} (m : M S A) : readonly m -> readonly (mtry m).
Proof. intros Hm n s. specialize (Hm n s). unfold st_of, mtry in *. by destruct (m n s) as [[n' s'] []]. Qed.

Lemma readonly_map {A B} (l : list A) (k : A -> M S B) : (forall a, readonly (k a)) -> readonly (mmap l k).
Proof.
  intros Hk. induction l as [|a l IH]; [apply readonly_ret|]. simpl.
  apply readonly_bind; [done|]. intros y. by apply readonly_bind.
Qed.

Lemma readonly_storage {A} (m : M S A) : readonly m -> readonly (on_storage m).
Proof.
  intros Hm n e. specialize (Hm n (eng_storage e)). unfold on_storage, mlift, st_of in *.
  destruct (m n (eng_storage e)) as [[n' s'] o]. simpl in *. subst. by destruct e.
Qed.
End Readonly.

(** Follow a computation that only reads. *)
Ltac reads := repeat first
  [ apply readonly_ret | apply readonly_try | apply readonly_map; intros ? | apply readonly_storage
  | apply readonly_bind; [|intros ?] | solve [by intros ? ?] | case_match ].

Section Theorems.
Context {EV : Env} {JS : Json} {CR : Cron} {DC : Decoders} {BU : Build} {RD : Redirects}.
Context {S : Type} {SI : StorageI S}.

Lemma find_route_in method path (l : list (string * (Request -> M (Engine S) Response))) h vs :
  find_route method path l = Some (h, vs) -> exists p, (p, h) ∈ l /\ match_pattern method path p = Some vs.
Proof.
  induction l as [|[p h'] l IH]; [done|]. simpl. destruct (match_pattern method path p) as [ws|] eqn:Hm.
  - intros [= <- <-]. exists p. split; [by left|done].
  - intros (p' & Hin & Hm')%IH. exists p'. split; [by right|done].
Qed.

Lemma find_route_disjoint method path (l : list (string * (Request -> M (Engine S) Response))) p h vs :
  disjoint l.*1 = true -> (p, h) ∈ l -> match_pattern method path p = Some vs -> find_route method path l = Some (h, vs).
Proof.
  induction l as [|[p' h'] l IH]; [by intros _ ?%elem_of_nil|]. simpl.
  intros [Hd Hds]%andb_true_iff [Heq|Hin]%elem_of_cons Hm.
  - simplify_eq. by rewrite Hm.
  - destruct (match_pattern method path p') as [ws|] eqn:Hm'; [|by apply IH]. exfalso.
    rewrite forallb_forall in Hd. assert (In p l.*1) as Hp.
    { apply list_elem_of_In, list_elem_of_fmap. by exists (p, h). }
    apply Hd in Hp. by rewrite (match_clash _ _ _ _ _ _ Hm' Hm) in Hp.
Qed.

Lemma routes_disjoint store engine : disjoint (routes (S := S) store engine).*1 = true.
Proof. vm_compute. reflexivity. Qed.
End Theorems.

(** ** The OpenAPI document *)
Section Document.
Context {EV : Env} {JS : Json} {CR : Cron} {DC : Decoders} {BU : Build} {RD : Redirects}.
Context {S : Type} {SI : StorageI S}.

(** The member [k] of an object. *)
Definition member (k : string) (v : value) : option value :=
  match v with
  | VObject l => snd <$> List.find (fun kv => bool_decide (kv.1 = k)) l
  | _ => None
  end.

Definition members (v : value) : list (string * value) := match v with VObject l => l | _ => [] end.

Definition elements_of (v : value) : list value := match v with VArray l => l | _ => [] end.

Definition method_of (m : string) : string :=
  if decide (m = "get") then "GET" else if decide (m = "post") then "POST"
  else if decide (m = "delete") then "DELETE" else m.

(** The operations of a document: a pattern and what is said of it. *)
Definition operations (doc : value) : list (string * value) :=
  flat_map (fun pv : string * value => (fun mv : string * value => (method_of mv.1 +:+ " " +:+ pv.1, mv.2)) <$> members pv.2)
    (members (default VNull (member "paths" doc))).

(** The references in a value. *)
Fixpoint refs (v : value) : list string :=
  match v with
  | VObject l => flat_map (fun kv : string * value =>
      match kv with (k, VString s) => if decide (k = "$ref") then [s] else [] | (_, w) => refs w end) l
  | VArray l => flat_map refs l
  | _ => []
  end.

(** The parameters of an operation that its path carries, and requires. *)
Definition path_parameters (op : value) : list string :=
  omap (fun p => match member "in" p, member "required" p, member "name" p with
                 | Some (VString "path"), Some (VBool true), Some (VString n) => Some n
                 | _, _, _ => None
                 end)
    (elements_of (default VNull (member "parameters" op))).

Definition schema_ref (name : string) : string := "#/components/schemas/" +:+ name.

(** The document describes the routes, each once, but for /metrics and itself; it declares the
    wildcards of each path, and each reference names a schema it defines. *)
Lemma openapi_describes_routes store engine :
  (forall pattern, pattern ∈ (operations openapiSpec).*1 <->
     pattern ∈ (routes (S := S) store engine).*1 /\ pattern ∉ ["GET /metrics"; "GET /openapi.json"]) /\
  NoDup (operations openapiSpec).*1 /\
  (forall pattern op, (pattern, op) ∈ operations openapiSpec -> path_parameters op = wildcards (parse_pattern pattern).2) /\
  (forall s, s ∈ refs openapiSpec -> s ∈ schema_ref <$> schemas.*1).
Proof.
  assert (Forall (fun p => p ∈ (routes (S := S) store engine).*1 /\ p ∉ ["GET /metrics"; "GET /openapi.json"])
    (operations openapiSpec).*1) as H1 by (apply (bool_decide_unpack _); vm_compute; exact I).
  assert (Forall (fun p => p ∈ ["GET /metrics"; "GET /openapi.json"] \/ p ∈ (operations openapiSpec).*1)
    (routes (S := S) store engine).*1) as H2 by (apply (bool_decide_unpack _); vm_compute; exact I).
  assert (Forall (fun po : string * value => path_parameters po.2 = wildcards (parse_pattern po.1).2)
    (operations openapiSpec)) as H3 by (apply (bool_decide_unpack _); vm_compute; exact I).
  assert (Forall (fun s => s ∈ schema_ref <$> schemas.*1) (refs openapiSpec)) as H4
    by (apply (bool_decide_unpack _); vm_compute; exact I).
  rewrite Forall_forall in H1, H2, H4. split_and!.
  - intros p. split; [apply H1|]. intros [Hp Hn]. by destruct (H2 p Hp).
  - apply (bool_decide_unpack _). vm_compute. exact I.
  - intros p op Hin. exact (proj1 (List.Forall_forall _ _) H3 _ (proj1 (list_elem_of_In _ _) Hin)).
  - exact H4.
Qed.
End Document.

(** ** Which handler answers *)
Section Served.
Context {EV : Env} {JS : Json} {CR : Cron} {DC : Decoders} {BU : Build} {RD : Redirects}.
Context {S : Type} {SI : StorageI S}.

(** The handler of each operation of the document, by its operationId. *)
Definition handler_of (store engine : bool) (id : string) : option (Request -> M (Engine S) Response) :=
  snd <$> List.find (fun ih => bool_decide (ih.1 = id)) [
    ("healthz", handleHealthz); ("readyz", handleReadyz store);
    ("enqueueJob", handleEnqueue); ("batchEnqueue", handleBatchEnqueue); ("scheduleJob", handleSchedule);
    ("getJob", handleGetJob); ("listJobs", handleListJobs); ("requeueJob", handleRequeue);
    ("cancelJob", handleCancel engine); ("deleteJob", handleDelete); ("continueJob", handleContinue);
    ("listQueues", handleListQueues); ("getQueue", handleGetQueue); ("listServers", handleListServers);
    ("listRecurring", handleListRecurring); ("createRecurring", handleCreateRecurring);
    ("deleteRecurring", handleDeleteRecurring); ("triggerRecurring", handleTriggerRecurring)].

(** The patterns of the API: the operations of the document, and the two reports it leaves out. *)
Definition documented : list string := (operations openapiSpec).*1 ++ ["GET /metrics"; "GET /openapi.json"].

(** The operationId that the document gives to a pattern. *)
Definition operation_id (pattern : string) : option string :=
  match List.find (fun po => bool_decide (po.1 = pattern)) (operations openapiSpec) with
  | Some (_, op) => match member "operationId" op with Some (VString id) => Some id | _ => None end
  | None => None
  end.

(** The handler that a pattern calls for. *)
Definition endpoint (store engine : bool) (pattern : string) : option (Request -> M (Engine S) Response) :=
  if decide (pattern = "GET /metrics") then Some (handleMetrics engine) else
  if decide (pattern = "GET /openapi.json") then Some handleOpenAPI else
  operation_id pattern ≫= handler_of store engine.

(** The document, as patterns and identifiers. *)
Definition operation_table : list (string * string) := [
  ("GET /healthz", "healthz"); ("GET /readyz", "readyz"); ("GET /v1/jobs", "listJobs");
  ("POST /v1/jobs/enqueue", "enqueueJob"); ("POST /v1/jobs/enqueue/batch", "batchEnqueue");
  ("POST /v1/jobs/schedule", "scheduleJob"); ("GET /v1/jobs/{id}", "getJob");
  ("POST /v1/jobs/{id}/requeue", "requeueJob"); ("POST /v1/jobs/{id}/cancel", "cancelJob");
  ("POST /v1/jobs/{id}/delete", "deleteJob"); ("POST /v1/jobs/{id}/continue", "continueJob");
  ("GET /v1/queues", "listQueues"); ("GET /v1/queues/{name}", "getQueue"); ("GET /v1/servers", "listServers");
  ("GET /v1/recurring", "listRecurring"); ("POST /v1/recurring", "createRecurring");
  ("DELETE /v1/recurring/{id}", "deleteRecurring"); ("POST /v1/recurring/{id}/trigger", "triggerRecurring")].

Lemma operation_table_ok : (operations openapiSpec).*1 = operation_table.*1 /\
  Forall (fun pi => operation_id pi.1 = Some pi.2 /\ pi.1 ∉ ["GET /metrics"; "GET /openapi.json"]) operation_table.
Proof. split; [vm_compute; reflexivity|]. apply (bool_decide_unpack _). vm_compute. exact I. Qed.

Lemma endpoint_operation store engine p id :
  operation_id p = Some id -> p ∉ ["GET /metrics"; "GET /openapi.json"] ->
  endpoint store engine p = handler_of store engine id.
Proof. intros Hid Hp. unfold endpoint. rewrite !decide_False by set_solver. by rewrite Hid. Qed.

Lemma documented_routes store engine p : p ∈ documented ->
  exists h, endpoint store engine p = Some h /\ (p, h) ∈ routes store engine.
Proof.
  destruct operation_table_ok as [Heq Ho]. unfold documented. rewrite Heq.
  intros [([p' id] & -> & Hin)%list_elem_of_fmap|Hp]%elem_of_app.
  - rewrite Forall_forall in Ho. destruct (Ho _ Hin) as [Hid Hn]. simpl in Hid, Hn. simpl.
    rewrite (endpoint_operation _ _ _ _ Hid Hn). clear -Hin. unfold operation_table in Hin.
    repeat (apply elem_of_cons in Hin as [[= -> ->]|Hin]); [..|by apply elem_of_nil in Hin];
      (eexists; split; [reflexivity|]; unfold routes; repeat first [by left|right]).
  - apply elem_of_cons in Hp as [->|Hp]; [|apply list_elem_of_singleton in Hp as ->];
      (eexists; split; [reflexivity|]; unfold routes; repeat first [by left|right]).
Qed.

Lemma patterns_plain : Forall (fun p => Forall plain_segment (literals (parse_pattern p).2) /\ (parse_pattern p).2 <> [])
  documented.
Proof. apply (bool_decide_unpack _). vm_compute. exact I. Qed.

(** A request that fits a pattern of the table is answered by its handler. *)
Lemma serve_route store engine method p h args r n (e : Engine S) :
  (p, h) ∈ routes store engine -> p ∈ documented -> match_method (parse_pattern p).1 method = true ->
  length args = length (wildcards (parse_pattern p).2) -> Forall plain_segment args ->
  rq_path r = slashed (fill (parse_pattern p).2 args) ->
  serve_mux (routes store engine) method r n e = h (bind_path args r) n e.
Proof.
  intros Hin Hp Hm Hl Ha Hr. destruct (proj1 (Forall_forall _ _) patterns_plain p Hp) as [Hlit Hne].
  assert (Forall plain_segment (fill (parse_pattern p).2 args)) as Hpl by by apply fill_plain.
  pose proof (fill_nonempty _ _ Hne Hl) as Hfn.
  unfold serve_mux. rewrite Hr, decide_False by (rewrite cleanPath_slashed by done; tauto).
  erewrite find_route_disjoint; [done|apply routes_disjoint|exact Hin|].
  unfold match_pattern. destruct (parse_pattern p) as [m ps]. simpl in *.
  rewrite Hm, path_segments_slashed by done. by apply match_fill.
Qed.

Lemma documented_iff store engine p : p ∈ documented <-> p ∈ (routes (S := S) store engine).*1.
Proof.
  destruct (openapi_describes_routes store engine) as [Hd _]. unfold documented.
  rewrite elem_of_app, Hd. split.
  - intros [[? _]|Hp]; [done|].
    assert (p ∈ documented) as (h & _ & Hin)%(documented_routes store engine) by (apply elem_of_app; by right).
    apply list_elem_of_fmap. by exists (p, h).
  - intros Hp. destruct (decide (p ∈ ["GET /metrics"; "GET /openapi.json"])); tauto.
Qed.

(** A path that some documented operation has, whatever its method. *)
Definition path_documented (path : string) : bool :=
  existsb (fun p => bool_decide (is_Some (match_segments (parse_pattern p).2 (path_segments path)))) documented.

Lemma path_known_documented store engine path : path_known path (routes (S := S) store engine) = path_documented path.
Proof.
  apply eq_true_iff_eq. unfold path_known, path_documented. rewrite !existsb_exists. split.
  - intros ([p h] & Hin%list_elem_of_In & Hm). exists p. split; [|done].
    apply list_elem_of_In, (documented_iff store engine), list_elem_of_fmap. by exists (p, h).
  - intros (p & Hin%list_elem_of_In & Hm).
    apply (documented_iff store engine), list_elem_of_fmap in Hin as ([p' h] & -> & Hin).
    exists (p', h). split; [by apply list_elem_of_In|done].
Qed.

Lemma serve_unknown store engine method r n (e : Engine S) :
  cleanPath (rq_path r) = rq_path r -> (forall p, p ∈ documented -> match_pattern method (rq_path r) p = None) ->
  serve_mux (routes store engine) method r n e
  = (n, e, Ok (if path_documented (rq_path r)
               then mkResponse StatusMethodNotAllowed (VText (line "Method Not Allowed"))
               else mkResponse StatusNotFound (VText (line "404 page not found")))).
Proof.
  intros Hc Hno. unfold serve_mux. rewrite decide_False by tauto.
  destruct (find_route _ _ _) as [[h vs]|] eqn:Hf.
  - apply find_route_in in Hf as (p & Hin & Hm). rewrite Hno in Hm; [done|].
    apply (documented_iff store engine), list_elem_of_fmap. by exists (p, h).
  - rewrite path_known_documented. by destruct (path_documented _).
Qed.

(** C33. The API is the one its OpenAPI document describes, with /metrics and the document itself: a
    request for one of these operations, at its path with a plain segment for each wildcard (HEAD
    standing for GET), is answered by the handler that its operationId names ([handler_of]), the
    wildcard bound; a request on a clean path that fits none of them changes nothing, and is
    answered 405 when an operation has that path under another method and 404 otherwise. *)
Theorem routes_served store engine :
  (forall p, p ∈ documented -> exists h, endpoint store engine p = Some h /\
     forall method args r n (e : Engine S),
       match_method (parse_pattern p).1 method = true ->
       length args = length (wildcards (parse_pattern p).2) -> Forall plain_segment args ->
       rq_path r = slashed (fill (parse_pattern p).2 args) ->
       serve_mux (routes store engine) method r n e = h (bind_path args r) n e) /\
  (forall method r n (e : Engine S),
     cleanPath (rq_path r) = rq_path r -> (forall p, p ∈ documented -> match_pattern method (rq_path r) p = None) ->
     serve_mux (routes store engine) method r n e
     = (n, e, Ok (if path_documented (rq_path r)
                  then mkResponse StatusMethodNotAllowed (VText (line "Method Not Allowed"))
                  else mkResponse StatusNotFound (VText (line "404 page not found"))))).
Proof.
  split; [|apply serve_unknown]. intros p Hp.
  destruct (documented_routes store engine p Hp) as (h & He & Hin). exists h. split; [done|].
  intros. by eapply serve_route.
Qed.
End Served.

(** ** Requests without the token *)
Section Open.
Context {EV : Env} {JS : Json} {CR : Cron} {DC : Decoders} {BU : Build} {RD : Redirects}.
Context {S : Type} {SI : StorageI S}.

(** The backend's queries change nothing. *)
Record queries_read : Prop := {
  qr_counters : forall ctx skip limit, readonly (storage_GetAllCounters (S := S) ctx skip limit);
  qr_queues : forall ctx, readonly (storage_GetQueues (S := S) ctx);
  qr_length : forall ctx q, readonly (storage_GetQueueLength (S := S) ctx q);
  qr_servers : forall ctx, readonly (storage_GetServers (S := S) ctx);
}.

Hypothesis Hq : queries_read.

Lemma handleMetrics_reads engine r : readonly (handleMetrics (S := S) engine r).
Proof. unfold handleMetrics, or_zero, when_ok, queue_depth. reads; by apply Hq. Qed.

Lemma handleReadyz_reads store r : readonly (handleReadyz (S := S) store r).
Proof. unfold handleReadyz, writeError, writeJSON. reads; by apply Hq. Qed.

(** On an open path the multiplexer finds one of the four reports, or nothing. *)
Lemma open_route store engine method path h vs :
  path ∈ open_paths -> find_route method path (routes (S := S) store engine) = Some (h, vs) ->
  h = handleHealthz \/ h = handleReadyz store \/ h = handleOpenAPI \/ h = handleMetrics engine.
Proof.
  intros Hp (p & Hin & Hm)%find_route_in.
  assert (is_Some (match_segments (parse_pattern p).2 (path_segments path))) as Hs.
  { unfold match_pattern in Hm. destruct (parse_pattern p) as [m ps]. simpl. destruct (match_method m method); [eauto|done]. }
  clear Hm. unfold open_paths in Hp. unfold routes in Hin.
  repeat (apply elem_of_cons in Hp as [->|Hp]); [..|by apply elem_of_nil in Hp].
  all: repeat (apply elem_of_cons in Hin as [[= -> ->]|Hin]);
    first [by auto | by apply elem_of_nil in Hin | by vm_compute in Hs; destruct Hs].
Qed.

Lemma open_reads store engine method r :
  rq_path r ∈ open_paths -> readonly (serve_mux (routes (S := S) store engine) method r).
Proof.
  intros Hp. unfold serve_mux. case_decide; [apply readonly_ret|].
  destruct (find_route _ _ _) as [[h vs]|] eqn:Hf; [|case_match; apply readonly_ret].
  destruct (open_route _ _ _ _ _ _ Hp Hf) as [-> | [-> | [-> | ->]]];
    [apply readonly_ret|apply handleReadyz_reads|apply readonly_ret|apply handleMetrics_reads].
Qed.

Lemma unauthorized_reads (cfg : Doc.Config) store engine method r :
  Doc.au_Enabled (Doc.Auth cfg) = true -> rq_header r "Authorization" <> "Bearer " +:+ Doc.Token (Doc.Auth cfg) ->
  readonly (api_server (S := S) cfg store engine method r) /\
  (rq_path r ∉ open_paths -> forall n e,
     api_server cfg store engine method r n e = (n, e, Ok (refusal StatusUnauthorized "unauthorized"))).
Proof.
  intros Ha Hh. unfold api_server. split.
  - intros n e. rewrite bearer_auth, Ha. cbn [negb orb]. rewrite (bool_decide_eq_false_2 (_ = _)) by done.
    rewrite orb_false_r. case_bool_decide as Hp; [|done].
    assert (forall r', rq_path r' = rq_path r -> readonly (requestID (serve_mux (routes (S := S) store engine) method) r')) as Hr.
    { intros r' Hr'. unfold requestID. apply readonly_bind; [by case_decide|]. intros _.
      apply open_reads. by rewrite Hr'. }
    unfold maxBody. cbv zeta. destruct (Z.of_nat _ <=? _); by apply Hr.
  - intros Hp n e. rewrite bearer_auth, Ha. cbn [negb orb].
    by rewrite !bool_decide_eq_false_2.
Qed.
End Open.

(** ** Over the in-memory backend *)
Section MemoryRoutes.
Context {EV : Env} {JS : Json} {CR : Cron} {DC : Decoders} {BU : Build} {RD : Redirects}.

Lemma memory_reads : queries_read (S := Storage).
Proof.
  split; intros; simpl; unfold GetAllCounters, GetQueues, GetQueueLength, GetServers; reads.
Qed.

(** C32. With a token configured, a request that does not carry it changes nothing of the engine and of
    its storage, whatever its method, path and body; unless it asks for one of the four open
    paths it is answered 401. *)
Theorem unauthorized_changes_nothing (cfg : Doc.Config) store engine method r n (e : Engine Storage) :
  Doc.au_Enabled (Doc.Auth cfg) = true -> rq_header r "Authorization" <> "Bearer " +:+ Doc.Token (Doc.Auth cfg) ->
  st_of (api_server cfg store engine method r n e) = e /\
  (rq_path r ∉ open_paths ->
   res_of (api_server cfg store engine method r n e) = Ok (refusal StatusUnauthorized "unauthorized")).
Proof.
  intros Ha Hh. destruct (unauthorized_reads memory_reads cfg store engine method r Ha Hh) as [H1 H2].
  split; [apply H1|]. intros Hp. by rewrite (H2 Hp).
Qed.

Lemma on_storage_same {A} (m : M Storage A) n (e : Engine Storage) n' a :
  m n (eng_storage e) = (n', eng_storage e, Ok a) -> on_storage m n e = (n', e, Ok a).
Proof. intros Hm. unfold on_storage, mlift. rewrite Hm. by destruct e. Qed.

Lemma on_storage_get {A} (f : Storage -> A) n (e : Engine Storage) :
  on_storage (mgets f) n e = (n, e, Ok (f (eng_storage e))).
Proof. by apply on_storage_same. Qed.

Lemma servers_of_keys (m : gmap string ServerInfo) ks :
  ks ≡ₚ (map_to_list m).*1 -> omap (fun k => m !! k) ks ≡ₚ (map_to_list m).*2.
Proof.
  intros ->. assert (forall l, (forall kv, kv ∈ l -> m !! kv.1 = Some kv.2) -> omap (fun k => m !! k) l.*1 = l.*2) as Hl.
  { induction l as [|[k v] l IH]; intros Hl; [done|]. csimpl. pose proof (Hl (k, v) ltac:(by left)) as Hkv. simpl in Hkv. rewrite Hkv. f_equal.
    apply IH. intros; apply Hl. by right. }
  rewrite Hl; [done|]. intros [k v] Hkv. by apply elem_of_map_to_list.
Qed.

Lemma queue_depth_run ctx q n (e : Engine Storage) :
  queue_depth ctx q n e = (n, e, Ok (Z.of_nat (length (default [] (queues (eng_storage e) !! q))))).
Proof.
  unfold queue_depth, on_storage, mlift. unfold_m. simpl. unfold GetQueueLength. unfold_m.
  destruct e; simpl. by destruct (queues _ !! q).
Qed.

Lemma queue_lines_run ctx qs n (e : Engine Storage) :
  mmap qs (fun q => d <- queue_depth ctx q ;; mret (queue_lines q d)) n e
  = (n, e, Ok ((fun q => queue_lines q (Z.of_nat (length (default [] (queues (eng_storage e) !! q))))) <$> qs)).
Proof.
  induction qs as [|q qs IH]; [done|]. simpl. erewrite mbind_ok; [|erewrite mbind_ok by apply queue_depth_run; reflexivity].
  erewrite mbind_ok by exact IH. done.
Qed.

(** The text format: a metric is its HELP and its TYPE line and its samples, a label being
    given as the pair of its name and its value. *)
Definition sample (name : string) (label : option (string * string)) (val : Z) : string :=
  let labels := match label with
                | Some (k, v) => "{" +:+ k +:+ "=" +:+ quote +:+ v +:+ quote +:+ "}"
                | None => ""
                end in
  line (name +:+ labels +:+ " " +:+ Itoa val).

Definition metric (name help kind : string) (samples : list (option (string * string) * Z)) : string :=
  line ("# HELP " +:+ name +:+ " " +:+ help) +:+ line ("# TYPE " +:+ name +:+ " " +:+ kind) +:+
  text ((fun lv => sample name lv.1 lv.2) <$> samples).

Lemma append_assoc (s t u : string) : (s +:+ t) +:+ u = s +:+ t +:+ u.
Proof. induction s as [|c s IH]; [done|]. change (String c ((s +:+ t) +:+ u) = String c (s +:+ t +:+ u)). by rewrite IH. Qed.

(** Two texts put together from the same parts. *)
Ltac flat := rewrite ?append_assoc; simpl; rewrite ?append_assoc; reflexivity.

Lemma counter_metric name val :
  counter_lines name val
  = metric ("gfire_jobs_" +:+ name +:+ "_total") ("Total jobs " +:+ name +:+ ".") "counter" [(None, val)].
Proof. unfold counter_lines, metric, sample, text, line. flat. Qed.

Lemma queue_metric q n :
  queue_lines q n
  = metric "gfire_queue_depth" "Number of enqueued jobs per queue." "gauge" [(Some ("queue", q), n)].
Proof. unfold queue_lines, metric, sample, text, line. flat. Qed.

Lemma worker_metric n :
  worker_lines n = metric "gfire_workers_active" "In-flight jobs on this node." "gauge" [(None, n)].
Proof. unfold worker_lines, metric, sample, text, line. flat. Qed.

(** The servers of the storage in this state, and all of them. *)
Definition active_servers (s : Storage) : nat :=
  length (filter (fun sv => sv_Status sv = ServerStatusActive) (map_to_list (servers s)).*2).

Lemma server_metric (s : Storage) svs : svs ≡ₚ (map_to_list (servers s)).*2 ->
  server_lines svs
  = metric "gfire_servers" "Number of registered servers." "gauge"
      [(Some ("status", "active"), Z.of_nat (active_servers s)); (Some ("status", "total"), Z.of_nat (size (servers s)))].
Proof.
  intros Hp. unfold server_lines, active_servers. rewrite Hp, length_fmap, length_map_to_list.
  change (fun sv : ServerInfo => sv_Status sv = "active") with (fun sv : ServerInfo => sv_Status sv = ServerStatusActive).
  unfold metric, sample, text, line. flat.
Qed.

(** C35. /metrics changes nothing and reports, in the text format: every counter with its value, every
    queue with the number of jobs waiting in it (each with the HELP and TYPE lines of the one
    metric), the servers that are active and all of them, the jobs in flight. *)
Theorem metrics_exact engine r n (e : Engine Storage) :
  let s := eng_storage e in
  exists n' names qs,
    names ≡ₚ (map_to_list (counters s)).*1 /\ qs ≡ₚ (map_to_list (queues s)).*1 /\
    handleMetrics engine r n e = (n', e, Ok (mkResponse StatusOK (VText (
      text ((fun name => metric ("gfire_jobs_" +:+ name +:+ "_total") ("Total jobs " +:+ name +:+ ".") "counter"
               [(None, default 0 (counters s !! name))]) <$> names) +:+
      text ((fun q => metric "gfire_queue_depth" "Number of enqueued jobs per queue." "gauge"
               [(Some ("queue", q), Z.of_nat (length (default [] (queues s !! q))))]) <$> qs) +:+
      metric "gfire_servers" "Number of registered servers." "gauge"
        [(Some ("status", "active"), Z.of_nat (active_servers s)); (Some ("status", "total"), Z.of_nat (size (servers s)))] +:+
      (if engine then metric "gfire_workers_active" "In-flight jobs on this node." "gauge"
                        [(None, map_fold (fun _ c n => add64 n c) 0 (active e))] else ""))))).
Proof.
  intros s.
  destruct (range_keys_spec (counters s) n e) as (names & Hn & HPn & _).
  destruct (range_keys_spec (queues s) (Datatypes.S n) s) as (qs & Hqs & HPq & _).
  destruct (range_keys_spec (servers s) (Datatypes.S (Datatypes.S n)) s) as (ids & Hids & HPs & _).
  apply servers_of_keys in HPs. set (svs := omap (fun k => servers s !! k) ids) in HPs.
  exists (Datatypes.S (Datatypes.S (Datatypes.S n))), names, qs. split_and!; [done|done|].
  rewrite <- (server_metric s svs HPs), <- worker_metric.
  rewrite <- (list_fmap_ext (fun name => counter_lines name (default 0 (counters s !! name)))
    (fun name => metric _ _ _ [(None, default 0 (counters s !! name))])) by (intros; apply counter_metric).
  rewrite <- (list_fmap_ext (fun q => queue_lines q (Z.of_nat (length (default [] (queues s !! q)))))
    (fun q => metric _ _ _ [(Some ("queue", q), _)])) by (intros; apply queue_metric).
  unfold handleMetrics, or_zero, when_ok.
  erewrite mbind_ok; [|erewrite mbind_ok by (apply mtry_ok; apply (on_storage_get counters)); reflexivity].
  erewrite mbind_ok by exact Hn. cbv zeta.
  erewrite mbind_ok; [|erewrite mbind_ok by (apply mtry_ok; apply on_storage_same; exact Hqs);
    cbv beta iota; erewrite mbind_ok by apply queue_lines_run; reflexivity].
  erewrite mbind_ok; [|erewrite mbind_ok by (apply mtry_ok; apply on_storage_same; simpl; unfold GetServers;
    erewrite mbind_ok by reflexivity; erewrite mbind_ok by exact Hids; reflexivity); cbv beta iota; reflexivity].
  by destruct engine.
Qed.
End MemoryRoutes.
