(* ===== verification/Turns.v ===== *)
(** * What the requests and the loops leave alone

    Every action on a running engine (a request, a turn of a loop, a timer) keeps its run
    context, its start and its stop as they are. *)
From S2P Require Import Prelude.
From S2P Require Import GoTime.
From S2P Require Import Strconv.
From S2P Require Import Job.
From S2P Require Import StorageI.
From S2P Require Import Memory.
From S2P Require Import Retry.
From S2P Require Import Handler.
From S2P Require Import Json.
From S2P Require Import Engine.
From S2P Require Import EngineProps.
From S2P Require Import Recurring.
From S2P Require Import ConfigFile.
From S2P Require Import Api.
From S2P Require Import OpenApi.
From S2P Require Import Routes.
From S2P Require Import RoutesProps.

(** ** Computations whose tick only grows *)
Section Since.
Context {EV : Env} {S : Type}.

Definition since (k : nat) : nat -> S -> Prop := fun n _ => (k <= n)%nat.

#[export] Instance since_mono k : TickMono (since k).
Proof. unfold TickMono, since. intros. lia. Qed.

Definition forward {A} (m : M S A) : Prop := forall k, preserves (since k) m.

Lemma forward_modify k (f : S -> S) : preserves (since k) (mmodify f).
Proof. by intros n s Hk. Qed.

Lemma forward_interleave k (m : M S unit) : preserves (since k) m -> preserves (since k) (interleave m).
Proof. intros Hm n s Hk. specialize (Hm n s Hk). unfold interleave, since, tick_of in *. by destruct (m n s) as [[??] ?]. Qed.

Lemma preserves_defer {A} (I : nat -> S -> Prop) f (m : M S A) : preserves I f -> preserves I m -> preserves I (mdefer f m).
Proof.
  intros Hf Hm n s Hk. specialize (Hm n s Hk). unfold mdefer, tick_of, st_of in *.
  destruct (m n s) as [[n' s'] r]. specialize (Hf n' s'). destruct r; simpl in *; destruct (f n' s') as [[??] ?]; simpl in *; auto.
Qed.
End Since.

Create HintDb since.

(** Follow a computation. *)
Ltac forwards := intros; preserve ltac:(first
  [ apply forward_modify | apply forward_interleave | apply preserves_try | apply preserves_defer | solve [eauto 3 with since] ]).

(** The operations that the API and the loops of the engine use. *)
Class ForwardStorage (S : Type) `{StorageI S} : Prop := {
  forward_Enqueue : forall k ctx q j, preserves (since k) (storage_Enqueue (S := S) ctx q j);
  forward_Dequeue : forall k ctx qs t ws, (forall w, w ∈ ws -> preserves (since k) (wk_others w)) ->
    preserves (since k) (storage_Dequeue (S := S) ctx qs t ws);
  forward_EnqueueIdempotent : forall k ctx q j, preserves (since k) (storage_EnqueueIdempotent (S := S) ctx q j);
  forward_GetJob : forall k ctx id, preserves (since k) (storage_GetJob (S := S) ctx id);
  forward_GetJobsByState : forall k ctx st o l, preserves (since k) (storage_GetJobsByState (S := S) ctx st o l);
  forward_Requeue : forall k ctx id r, preserves (since k) (storage_Requeue (S := S) ctx id r);
  forward_ApplyState : forall k ctx id e st, preserves (since k) (storage_ApplyState (S := S) ctx id e st);
  forward_ScheduleRetry : forall k ctx id a, preserves (since k) (storage_ScheduleRetry (S := S) ctx id a);
  forward_SetJobResult : forall k ctx id r, preserves (since k) (storage_SetJobResult (S := S) ctx id r);
  forward_HeartbeatJob : forall k ctx id, preserves (since k) (storage_HeartbeatJob (S := S) ctx id);
  forward_GetOrphanedJobs : forall k ctx a, preserves (since k) (storage_GetOrphanedJobs (S := S) ctx a);
  forward_GetQueueLength : forall k ctx q, preserves (since k) (storage_GetQueueLength (S := S) ctx q);
  forward_GetQueues : forall k ctx, preserves (since k) (storage_GetQueues (S := S) ctx);
  forward_UnregisterServer : forall k ctx id, preserves (since k) (storage_UnregisterServer (S := S) ctx id);
  forward_Heartbeat : forall k ctx id t, preserves (since k) (storage_Heartbeat (S := S) ctx id t);
  forward_GetServers : forall k ctx, preserves (since k) (storage_GetServers (S := S) ctx);
  forward_AddScheduled : forall k ctx a j, preserves (since k) (storage_AddScheduled (S := S) ctx a j);
  forward_GetDueScheduled : forall k ctx t b, preserves (since k) (storage_GetDueScheduled (S := S) ctx t b);
  forward_UpsertRecurring : forall k ctx en, preserves (since k) (storage_UpsertRecurring (S := S) ctx en);
  forward_RemoveRecurring : forall k ctx id, preserves (since k) (storage_RemoveRecurring (S := S) ctx id);
  forward_GetRecurringJobs : forall k ctx, preserves (since k) (storage_GetRecurringJobs (S := S) ctx);
  forward_UpdateRecurringLastRun : forall k ctx id a b, preserves (since k) (storage_UpdateRecurringLastRun (S := S) ctx id a b);
  forward_AddContinuation : forall k ctx id en, preserves (since k) (storage_AddContinuation (S := S) ctx id en);
  forward_GetContinuations : forall k ctx id, preserves (since k) (storage_GetContinuations (S := S) ctx id);
  forward_GetAllCounters : forall k ctx s l, preserves (since k) (storage_GetAllCounters (S := S) ctx s l);
  forward_RemoveExpired : forall k ctx c, preserves (since k) (storage_RemoveExpired (S := S) ctx c);
  forward_AcquireLock : forall k ctx r t, preserves (since k) (storage_AcquireLock (S := S) ctx r t);
  forward_ReleaseLock : forall k ctx l, preserves (since k) (storage_ReleaseLock (S := S) ctx l);
  forward_DeleteJob : forall k ctx id, preserves (since k) (storage_DeleteJob (S := S) ctx id);
}.

#[export] Hint Resolve forward_Enqueue forward_EnqueueIdempotent forward_GetJob forward_GetJobsByState
    forward_Requeue forward_ApplyState forward_ScheduleRetry forward_SetJobResult forward_HeartbeatJob
    forward_GetOrphanedJobs forward_GetQueueLength forward_GetQueues forward_UnregisterServer
    forward_Heartbeat forward_GetServers forward_AddScheduled forward_GetDueScheduled forward_UpsertRecurring
    forward_RemoveRecurring forward_GetRecurringJobs forward_UpdateRecurringLastRun forward_AddContinuation
    forward_GetContinuations forward_GetAllCounters forward_RemoveExpired forward_AcquireLock
    forward_ReleaseLock forward_DeleteJob : since.

Section MemoryForward.
Context {EV : Env}.

Lemma forward_Unlock k held : preserves (since k) (Unlock held).
Proof. unfold Unlock. forwards. Qed.
#[local] Hint Resolve forward_Unlock : since.

Lemma forward_dequeueScan k qs held : preserves (since k) (dequeueScan qs held).
Proof. revert held. induction qs as [|q qs IH]; simpl; forwards. Qed.
#[local] Hint Resolve forward_dequeueScan : since.

Lemma forward_scan k ctx qs t ws :
  (forall w, w ∈ ws -> preserves (since k) (wk_others w)) -> preserves (since k) (Dequeue ctx qs t ws).
Proof.
  induction ws as [|w ws IH]; intros Hw; simpl; forwards.
  all: first [apply Hw; left | apply IH; intros; apply Hw; by right].
Qed.
#[local] Hint Resolve forward_scan : since.

Lemma forward_expireLoop k c ids d : preserves (since k) (expireLoop c ids d).
Proof. revert d. induction ids; simpl; forwards. Qed.
#[local] Hint Resolve forward_expireLoop : since.

Lemma forward_promote k id : preserves (since k) (promote id).
Proof. unfold promote. forwards. Qed.
#[local] Hint Resolve forward_promote : since.

#[export] Instance memory_forward : ForwardStorage Storage.
Proof.
  split; intros; simpl; first [solve [auto with since] |
        unfold Enqueue, EnqueueIdempotent, GetJob, GetJobsByState, Requeue, ApplyState, ScheduleRetry,
    SetJobResult, HeartbeatJob, GetOrphanedJobs, GetQueueLength, GetQueues, UnregisterServer, Heartbeat,
    GetServers, AddScheduled, GetDueScheduled, UpsertRecurring, RemoveRecurring, GetRecurringJobs,
    UpdateRecurringLastRun, AddContinuation, GetContinuations, GetAllCounters, RemoveExpired, AcquireLock,
    Release, DeleteJob; forwards].
Qed.
End MemoryForward.

(** ** What the loops and the requests leave alone *)
Section Held.
Context {EV : Env} {JS : Json} {CR : Cron} {DC : Decoders} {BU : Build} {RD : Redirects}.
Context {S : Type} {SI : StorageI S} {FS : ForwardStorage S}.

(** [a] is the run context of the engine, which derives from the caller's context [parent];
    no cancel function of a job ends either.  A stopped engine has a run context that is done. *)
Record held (parent a : nat) (stopped : bool) (n : nat) (e : Engine S) : Prop := {
  hd_run : runCtx e = Some a;
  hd_fresh : (parent < a < n)%nat;
  hd_stop : stopOnce e = stopped;
  hd_contexts : exists c cp, contexts e !! a = Some (Some parent, c) /\ contexts e !! parent = Some (None, cp) /\
    if stopped then c <> Live \/ cp <> Live else c = Live;
  hd_cancels : forall j c, cancels e !! j = Some c -> c <> a /\ c <> parent
}.

#[export] Instance held_mono parent a stopped : TickMono (held parent a stopped).
Proof. intros n e [? [? ?] ? ? ?]. split; try done. lia. Qed.

Section Preserved.
Context (parent a : nat) (stopped : bool).
Abbreviation I := (held parent a stopped).

Lemma held_storage {A} (m : M S A) : (forall k, preserves (since k) m) -> preserves I (on_storage m).
Proof.
  intros Hm n e [? [? Hf] ? ? ?]. specialize (Hm n n (eng_storage e)). unfold on_storage, mlift, since, tick_of, st_of in *.
  destruct (m n (eng_storage e)) as [[n' s'] r]. simpl in *. split; try done. lia.
Qed.

Lemma held_interleave (m : M (Engine S) unit) : preserves I m -> preserves I (interleave m).
Proof. intros Hm n s Hk. specialize (Hm n s Hk). unfold interleave, tick_of, st_of in *. by destruct (m n s) as [[??] ?]. Qed.

Lemma held_active f : preserves I (mmodify (upd_active f)).
Proof. by intros n e []. Qed.

Lemma held_ctx_state c : preserves I (ctx_state c).
Proof. by intros n e Hh. Qed.

(** Ending the context of a job. *)
Lemma held_end c err : c <> a -> c <> parent -> preserves I (end_context c err).
Proof.
  intros Ha Hp n e Hh. unfold end_context, ctx_state. unfold_m. destruct (ctx_lookup _ _ c); simpl; [|done].
  destruct Hh as [? ? ? (x & y & ? & ? & ?) ?]. split; try done. simpl. exists x, y. by rewrite !lookup_alter_ne by done.
Qed.

Lemma held_caller err : preserves I (end_context parent err).
Proof.
  intros n e Hh. unfold end_context, ctx_state. unfold_m. destruct (ctx_lookup _ _ parent); simpl; [|done].
  destruct Hh as [? [? ?] ? (x & y & Hx & Hy & Hs) ?]. split; try done. simpl. exists x, (Done err).
  rewrite lookup_alter_ne, lookup_alter_eq, Hy by lia. split_and!; [done|done|]. destruct stopped; [by right|done].
Qed.

Lemma held_cancel_job j err :
  preserves I (e <- mget ;; match cancels e !! j with Some c => end_context c err | None => mret tt end).
Proof.
  intros n e Hh. unfold mbind, mget. destruct (cancels e !! j) as [c|] eqn:Hc; [|done].
  destruct (hd_cancels _ _ _ _ _ Hh j c Hc). by apply held_end.
Qed.

Lemma held_CancelJob j : preserves I (CancelJob j).
Proof.
  intros n e Hh. unfold CancelJob, cancel, mbind, mget. destruct (cancels e !! j) as [c|] eqn:Hc; [|done].
  destruct (hd_cancels _ _ _ _ _ Hh j c Hc). by apply held_end.
Qed.

Lemma held_WithTimeout p d : ensures I (WithTimeout p d) (fun c => c <> a /\ c <> parent).
Proof.
  intros n e Hh. unfold WithTimeout, ctx_state. unfold_m. simpl. destruct Hh as [? ? ? (x & y & ? & ? & ?) ?].
  split; [|intros c [= <-]; lia]. split; try done; [lia|]. simpl. exists x, y. by rewrite !lookup_insert_ne by lia.
Qed.

Lemma held_register j c : c <> a -> c <> parent -> preserves I (registerCancel j c).
Proof.
  intros Ha Hp n e []. split; try done. simpl. intros j' c'. rewrite lookup_insert. case_decide; [by intros [= <-]|eauto].
Qed.

Lemma held_unregister j : preserves I (unregisterCancel j).
Proof. intros n e []. split; try done. simpl. intros j' c'. rewrite lookup_delete. case_decide; [done|eauto]. Qed.

Create HintDb held.

(** Follow a computation of the engine or of a handler. *)
Ltac holds := intros; repeat first
  [ assumption | solve [auto 2 with held] | apply held_CancelJob | apply held_ctx_state | apply held_unregister
  | apply held_active | apply held_storage; intros ?; solve [eauto 2 with since]
  | apply preserves_try | apply held_interleave | apply preserves_defer | progress preserve ltac:(fail) ].

Lemma held_ignore {A} (m : M (Engine S) A) : preserves I m -> preserves I (ignore_error m).
Proof. unfold ignore_error. holds. Qed.
#[local] Hint Resolve held_ignore : held.

Lemma held_run_ctx : preserves I run_ctx.
Proof. unfold run_ctx. holds. Qed.
#[local] Hint Resolve held_run_ctx : held.

Lemma held_run_ctx_state : preserves I run_ctx_state.
Proof. unfold run_ctx_state. holds. Qed.
#[local] Hint Resolve held_run_ctx_state : held.

(** *** The requests *)
Ltac served := unfold writeError, writeJSON, or_error, or_bad_request, enqueue_keyed, queue_depth, or_zero, when_ok, ignore_error in *; holds.

Lemma held_batch ctx key i jrs : preserves I (batch_entries ctx key i jrs).
Proof. revert i. induction jrs as [|jr jrs IH]; intros i; simpl; unfold batch_entry; served. Qed.
#[local] Hint Resolve held_batch : held.

Lemma held_routes store engine p h r : (p, h) ∈ routes store engine -> preserves I (h r).
Proof.
  unfold routes. intros Hin. repeat (apply elem_of_cons in Hin as [[= -> ->]|Hin]); [..|by apply elem_of_nil in Hin].
  - unfold handleHealthz. served.
  - unfold handleReadyz. served.
  - unfold handleEnqueue. served.
  - unfold handleBatchEnqueue. served.
  - unfold handleSchedule. served.
  - unfold handleGetJob. served.
  - unfold handleListJobs. served.
  - unfold handleRequeue. served.
  - unfold handleCancel. served.
  - unfold handleDelete. served.
  - unfold handleContinue. served.
  - unfold handleListQueues. served.
  - unfold handleGetQueue. served.
  - unfold handleListServers. served.
  - unfold handleMetrics, ActiveCount. served.
  - unfold handleOpenAPI. served.
  - unfold handleListRecurring. served.
  - unfold handleCreateRecurring. served.
  - unfold handleDeleteRecurring. served.
  - unfold handleTriggerRecurring. served.
Qed.

Lemma held_mux store engine method r : preserves I (serve_mux (routes store engine) method r).
Proof.
  unfold serve_mux. case_decide; [holds|]. destruct (find_route _ _ _) as [[h vs]|] eqn:Hf; [|holds].
  apply find_route_in in Hf as (p & Hin & _). by eapply held_routes.
Qed.

Lemma held_request cfg store engine method r : preserves I (api_server cfg store engine method r).
Proof.
  assert (forall r, preserves I (requestID (serve_mux (routes store engine) method) r)) as Hid.
  { intros r'. unfold requestID. apply preserves_bind; [holds|]. intros _. apply held_mux. }
  unfold api_server, Handler, maxBody. case_match; [unfold bearerAuth|]; cbv zeta; unfold writeError, writeJSON;
    repeat case_match; first [apply Hid | holds].
Qed.

(** *** The loops *)
Variable ec : Config.

Lemma held_scheduler : preserves I (tickScheduler ec).
Proof. unfold tickScheduler. holds. Qed.

Lemma held_coordinator : preserves I (coordinatorTick ec).
Proof. unfold coordinatorTick. holds. Qed.

Lemma held_sweep : preserves I (staleServerSweep ec).
Proof. unfold staleServerSweep. holds. Qed.

Lemma held_cleanup : preserves I (cleanupTick ec).
Proof. unfold cleanupTick. holds. Qed.

Lemma held_fire ctx entry : preserves I (on_storage (fire ctx entry)).
Proof.
  apply held_storage. intros k. unfold fire. forwards.
Qed.

(** The runner of the pipeline leaves the engine to its owner, too. *)
Variable run : Runner (Engine S).
Hypothesis Hrun : forall ctx job, preserves I (run ctx job).

Lemma held_Execute mctx : preserves I (Handler.Execute (NewPipeline run) mctx).
Proof.
    unfold Handler.Execute. simpl. unfold PanicRecovery, mrecover. intros n e Hh. specialize (Hrun (jc_Context
    mctx) (jc_Job mctx) n e Hh).
  unfold tick_of, st_of in *. by destruct (run _ _ n e) as [[n' e'] []].
Qed.

Lemma held_settle ctx job attempt out : preserves I (settle ctx job attempt out).
Proof. unfold settle, finalizeSuccess, finalizeFailure, fireContinuations, fireContinuation, RetryDelay, Int63n. holds. Qed.

Lemma held_processTicket t : preserves I (processTicket ec (NewPipeline run) t).
Proof.
  unfold processTicket, incActive, decActive. apply preserves_bind; [holds|]. intros [jw|]; [|holds].
  apply preserves_bind; [holds|]. intros _. apply preserves_defer; [holds|]. apply preserves_bind; [holds|]. intros p.
  eapply preserves_bind_post; [apply held_WithTimeout|]. intros c [Ha Hp].
  apply preserves_defer; [by apply held_end|]. apply preserves_bind; [by apply held_register|]. intros _.
  unfold NewJobContext. apply preserves_defer; [holds|].
  apply preserves_bind; [holds|]. intros mctx. apply preserves_bind; [apply held_Execute|]. intros out.
  apply preserves_bind; [holds|]. intros. apply held_settle.
Qed.

Lemma held_backoff b sleeps : (forall m, m ∈ sleeps -> preserves I m) -> preserves I (backoffLoop ec b sleeps).
Proof.
  revert b. induction sleeps as [|m sleeps IH]; intros b Hs; simpl; [holds|].
  apply preserves_bind; [apply held_interleave, Hs; left|]. intros _. unfold queuesUnderLimit. holds. apply IH. intros; apply Hs; by right.
Qed.

Lemma held_worker sleeps wakes :
  (forall m, m ∈ sleeps -> preserves I m) -> (forall w k, w ∈ wakes -> preserves (since k) (wk_others w)) ->
  preserves I (workerTurn ec (NewPipeline run) sleeps wakes).
Proof.
  intros Hs Hw. unfold workerTurn, queuesUnderLimit. apply preserves_bind; [holds|]. intros [|]; [|holds].
  apply preserves_bind; [holds|]. intros qs. case_decide; [by apply held_backoff|].
  apply preserves_bind; [apply preserves_try, held_storage; intros k; apply forward_Dequeue; auto|].
  intros [[t|]|]; [|holds..]. apply preserves_bind; [apply held_processTicket|]. intros _. holds.
Qed.
End Preserved.

(** What happens to the engine between its start and its stop, one action at a time. *)
Inductive turn (parent : nat) (cfg : Doc.Config) (ec : Config) (run : Runner (Engine S)) : M (Engine S) unit -> Prop :=
  | t_request method r : turn parent cfg ec run (api_server cfg true true method r ;;; mret tt)
  | t_scheduler : turn parent cfg ec run (tickScheduler ec)
  | t_coordinator : turn parent cfg ec run (coordinatorTick ec)
  | t_sweep : turn parent cfg ec run (staleServerSweep ec)
  | t_cleanup : turn parent cfg ec run (cleanupTick ec)
  | t_fire ctx entry : turn parent cfg ec run (on_storage (fire ctx entry))
  | t_timer j : turn parent cfg ec run   (** the deadline of the context of job [j] *)
      (e <- mget ;; match cancels e !! j with Some c => deadline c | None => mret tt end)
  | t_caller err : turn parent cfg ec run (end_context parent err)
  | t_worker sleeps wakes :
      (forall m, m ∈ sleeps -> turn parent cfg ec run m) ->
      (forall w k, w ∈ wakes -> preserves (since k) (wk_others w)) ->
      turn parent cfg ec run (workerTurn ec (NewPipeline run) sleeps wakes ;;; mret tt).

Definition turns (parent : nat) (cfg : Doc.Config) (ec : Config) (run : Runner (Engine S)) (m : M (Engine S) unit) : Prop :=
  exists ms, m = mfor ms interleave /\ Forall (turn parent cfg ec run) ms.

(** A runner that acts on the engine as turns do. *)
Definition quiet (run : Runner (Engine S)) : Prop :=
  forall parent a stopped ctx job, preserves (held parent a stopped) (run ctx job).

Lemma turn_held parent a stopped cfg ec run m :
  quiet run -> turn parent cfg ec run m -> preserves (held parent a stopped) m.
Proof.
  intros Hq. induction 1.
  - apply preserves_bind; [apply held_request|by intros _ n e].
  - apply held_scheduler.
  - apply held_coordinator.
  - apply held_sweep.
  - apply held_cleanup.
  - apply held_fire.
  - apply held_cancel_job.
  - apply held_caller.
  - apply preserves_bind; [|by intros _ n e]. apply held_worker; [apply Hq|done|done].
Qed.

Lemma turns_held parent a stopped cfg ec run m n e :
  quiet run -> turns parent cfg ec run m -> held parent a stopped n e ->
  exists n' e', m n e = (n', e', Ok tt) /\ held parent a stopped n' e'.
Proof.
  intros Hq (ms & -> & Hms). revert n e. induction Hms as [|m ms Hm _ IH]; intros n e Hh; [by eexists _, _|].
  pose proof (turn_held parent a stopped _ _ _ _ Hq Hm n e Hh) as Hh'. simpl.
  unfold interleave, mbind, tick_of, st_of in *. destruct (m n e) as [[n1 e1] r]. by apply IH.
Qed.
End Held.
