(* ===== verification/AppProps.v ===== *)
(** * Properties of the process and of the command line

    How [RunServer] ends, whatever the loops of the engine and the requests did; what the
    commands see of the storage; what the start writes and what [Load] accepts. *)
From S2P Require Import Prelude.
From S2P Require Import GoTime.
From S2P Require Import Strconv.
From S2P Require Import Job.
From S2P Require Import StorageI.
From S2P Require Import Memory.
From S2P Require Import Retry.
From S2P Require Import Handler.
From S2P Require Import Json.
From S2P Require Import Engine.
From S2P Require Import EngineProps.
From S2P Require Import EngineControl.
From S2P Require Import Recurring.
From S2P Require Import ConfigFile.
From S2P Require Import Api.
From S2P Require Import OpenApi.
From S2P Require Import Routes.
From S2P Require Import Startup.
From S2P Require Import Cli.
From S2P Require Import ApiProps.
From S2P Require Import RoutesProps.
From S2P Require Import Turns.

(** ** How the server ends *)
Section Ending.
Context {EV : Env} {JS : Json} {CR : Cron} {DC : Decoders} {BU : Build} {RD : Redirects} {UL : Doc.UrlLib}.
Variable hostname : string.
Variable ncpu : Z.
Variable connect : Doc.opened -> Storage + error.
Variable exec_command : nat -> string -> bytes -> M (Engine Storage) process_result.
Variable serving draining : Config -> Pipeline (Engine Storage) -> M (Engine Storage) unit.
Variable listens : bool.
Variable grace : option error.

(** Processes that the handlers start leave the engine to its owner. *)
Hypothesis Hexec : forall parent a stopped ctx cmd args,
  preserves (held parent a stopped) (exec_command ctx cmd args).

Lemma server_runner_quiet cfg : quiet (server_runner exec_command cfg).
Proof.
  intros parent a stopped ctx job. unfold server_runner, EchoRunner, Registry_Run, runSubprocess.
  intros n e Hh. repeat case_match; try done. by apply preserves_bind; [apply Hexec|by intros ? n' e'|].
Qed.

Lemma Start_held ec parent n s : (parent < n)%nat -> exists n' e',
  Start ec parent n (upd_contexts <[parent := (None, Live)]> (NewEngine s)) = (n', e', Ok tt) /\ held parent n false n' e'.
Proof.
  intros Hn. do 2 eexists. unfold Start, ctx_state, on_storage, mlift. run_env. unfold RegisterServer. run_env.
  split; [reflexivity|]. split; simpl; try done; [lia|].
  exists Live, Live. by rewrite lookup_insert_eq, lookup_insert_ne, lookup_insert_eq by lia.
Qed.

(** The run context of a stopped engine is done. *)
Lemma held_done parent a n (e : Engine Storage) :
  held parent a true n e -> exists err, ctx_lookup (size (contexts e)) (contexts e) a = Done err.
Proof.
  intros [_ _ _ (c & cp & Hc & Hp & Hd) _]. assert (exists f, size (contexts e) = Datatypes.S f) as [f ->].
  { destruct (size (contexts e)) as [|f] eqn:Hs; [|eauto]. apply map_size_empty_iff in Hs. by rewrite Hs in Hc. }
  simpl. rewrite Hc. destruct c as [|err]; [|eauto]. destruct Hd as [|Hd]; [done|].
  destruct cp as [|err]; [done|]. exists err. by eapply ctx_lookup_done.
Qed.

Lemma cancel_held parent a n (e : Engine Storage) : held parent a false n e -> exists e',
  cancel a n (set_stopOnce e) = (n, e', Ok tt) /\ held parent a true n e'.
Proof.
  intros [Hr [Hf1 Hf2] Hs (c & cp & Hc & Hp & ->) Hcs]. unfold cancel, end_context, ctx_state. unfold_m. simpl.
  destruct (ctx_lookup _ (contexts e) a) as [|err] eqn:Hl; eexists; (split; [reflexivity|]); split; simpl; try done.
  - exists (Done ContextCanceled), cp. rewrite lookup_alter_eq, Hc, lookup_alter_ne, Hp by lia. split_and!; [done|done|by left].
  - exists Live, cp. split_and!; [done|done|]. right. intros ->.
    destruct (size (contexts e)) as [|f]; simpl in Hl; rewrite Hc in Hl; [done|]. destruct f; simpl in Hl; by rewrite Hp in Hl.
Qed.

Lemma Stop_held ec parent a cfg run others n e :
  quiet run -> turns parent cfg ec run others -> held parent a false n e -> exists n' e',
  Stop ec others grace n e = (n', e', match grace with Some err => Err err | None => Ok tt end) /\
  held parent a true n' e' /\ servers (eng_storage e') !! ServerID ec = None.
Proof.
  intros Hq Ht Hh. destruct (cancel_held _ _ _ _ Hh) as (e1 & Hc & Hh1).
  destruct (turns_held _ _ _ _ _ _ _ _ _ Hq Ht Hh1) as (n2 & e2 & Hr2 & Hh2).
  exists n2, (set_storage (upd_servers (delete (ServerID ec)) (eng_storage e2)) e2). split_and!.
  - unfold Stop. erewrite mbind_ok by reflexivity. rewrite (hd_stop _ _ _ _ _ Hh). erewrite mbind_ok by reflexivity.
    rewrite (hd_run _ _ _ _ _ Hh). erewrite mbind_ok by exact Hc.
    erewrite mbind_ok by (unfold interleave; rewrite Hr2; reflexivity).
    erewrite mbind_ok by reflexivity. by destruct grace.
  - by destruct Hh2.
  - simpl. apply lookup_delete_eq.
Qed.

Lemma on_engine_run {A} (m : M (Engine Storage) A) n (p : Process Storage) e n' e' r :
  pr_engine p = Some e -> m n e = (n', e', r) -> on_engine m n p = (n', set_engine e' p, r).
Proof. intros He Hm. unfold on_engine. by rewrite He, Hm. Qed.

Definition shut_down (p : Process Storage) : Process Storage :=
  match pr_http p with NotListening => p | _ => set_http ShutDown p end.

Lemma Shutdown_run n (p : Process Storage) : Shutdown n p = (n, shut_down p, Ok tt).
Proof. unfold Shutdown, shut_down. erewrite mbind_ok by reflexivity. by destruct (pr_http p). Qed.

Lemma Shutdown_keeps (p : Process Storage) : pr_engine (shut_down p) = pr_engine p.
Proof. unfold shut_down. by destruct (pr_http p). Qed.

(** The records of the log of a run. *)
Definition logged (cfg : Doc.Config) (cause : stop_cause) : list log_record :=
  [starting cfg (server_id hostname cfg)] ++ (if listens then [listening cfg] else []) ++
  match cause with Signalled name => [mkLog "shutdown signal" [("signal", VString name)]] | _ => [] end.

(** The way out that stops the server and the engine. *)
Ltac by_stop p1 p2 Hp H3 Hh3 :=
  erewrite mbind_ok by reflexivity; erewrite mbind_ok by apply Shutdown_run;
  erewrite on_engine_run by (rewrite ?Shutdown_keeps; first [reflexivity|exact H3]);
  pose proof (held_done _ _ _ _ Hh3) as Hx; destruct Hh3 as [? ? ? ? ?];
  eexists _, _, _, _; (split; [by destruct grace|]);
  destruct listens; subst p1 p2; unfold shut_down; simpl; rewrite ?Hp; simpl; rewrite <- ?app_assoc; by split_and!.

(** C31. However the wait of RunServer ends, after any sequence of requests and of turns of the loops, the
    banner and the records of the log were written and the storage is closed.  After a signal,
    or the end of the caller's context, the HTTP server no longer serves, the run context of
    the engine is done, its server is no longer registered, and the result is that of the
    grace period.  When listening fails its error is returned, and the engine is left as it
    was: its run context lives on, over a storage that is closed. *)
Theorem run_server_ends ctx cfg cause o n p :
  let ec := engine_config hostname ncpu cfg in
  let run := server_runner exec_command cfg in
  Doc.OpenStorage (Doc.Storage cfg) (server_id hostname cfg) = inl o -> connect o = inl New ->
  (ctx < n)%nat -> pr_http p = NotListening ->
  turns ctx cfg ec run (serving ec (NewPipeline run)) ->
  turns ctx cfg ec run (draining ec (NewPipeline run)) ->
  exists n' p' e' a,
    RunServer hostname ncpu connect exec_command serving draining listens grace ctx cfg cause n p
    = (n', p', match cause, grace with
               | ListenFailed err, _ => Err err
               | _, Some err => Err err
               | _, None => Ok tt
               end) /\
    pr_closed p' = true /\ pr_stderr p' = pr_stderr p ++ [banner cfg] /\ pr_log p' = pr_log p ++ logged cfg cause /\
    pr_engine p' = Some e' /\ runCtx e' = Some a /\
    match cause with
    | ListenFailed _ => stopOnce e' = false /\ contexts e' !! a = Some (Some ctx, Live) /\
        exists n1 e1, Start ec ctx n (upd_contexts <[ctx := (None, Live)]> (NewEngine New)) = (n1, e1, Ok tt) /\
          e' = st_of (serving ec (NewPipeline run) n1 e1)
    | _ => stopOnce e' = true /\ (exists err, ctx_lookup (size (contexts e')) (contexts e') a = Done err) /\
        servers (eng_storage e') !! ServerID ec = None /\ pr_http p' <> Serving
    end.
Proof.
  intros ec run Ho Hc Hn Hp Hs Hd. unfold logged. assert (quiet run) as Hq by apply server_runner_quiet.
  destruct (Start_held ec ctx n New Hn) as (n1 & e1 & H1 & Hh1).
  destruct (turns_held _ _ _ _ _ _ _ _ _ Hq Hs Hh1) as (n2 & e2 & H2 & Hh2).
  destruct (Stop_held ec _ _ _ _ _ _ _ Hq Hd Hh2) as (n3 & e3 & H3 & Hh3 & Hsv).
  unfold RunServer, LogStartup. erewrite mbind_ok by reflexivity. rewrite Ho, Hc. cbv zeta iota.
  fold run ec. unfold mdefer. set (p1 := mkProcess _ _ _ _ _).
  erewrite mbind_ok by reflexivity. erewrite mbind_ok by (apply mtry_ok; eapply on_engine_run; [reflexivity|exact H1]).
  cbv iota. set (p2 := if listens then set_http Serving
    (mkProcess (pr_stderr p1) (pr_log p1 ++ [listening cfg]) (Some e1) (pr_http p1) (pr_closed p1)) else set_engine e1 p1).
  assert ((if listens then ListenAndServe cfg else mret tt) n1 (set_engine e1 p1) = (n1, p2, Ok tt)) as Hl
    by (subst p2; by destruct listens).
  erewrite mbind_ok by exact Hl.
  assert (pr_engine p2 = Some e1) as He by (subst p2; by destruct listens).
  erewrite mbind_ok by (eapply on_engine_run; [exact He|]; unfold interleave; rewrite H2; reflexivity).
  destruct cause as [err|name|].
  - eexists _, _, e2, n. split; [reflexivity|]. destruct Hh2 as [? ? ? (c & cp & ? & ? & ->) ?].
    destruct listens; subst p2; simpl; rewrite <- ?app_assoc; split_and!; try done; exists n1, e1; by rewrite H2.
  - by_stop p1 p2 Hp H3 Hh3.
  - by_stop p1 p2 Hp H3 Hh3.
Qed.
End Ending.

(** ** The command line *)
Section CommandLine.
Context {EV : Env} {JS : Json} {CR : Cron} {DC : Decoders} {BU : Build} {RD : Redirects} {VI : Viper}.
Variable cfgFile : string.
Variable connect : Doc.opened -> Storage + error.

(** The configuration that [loadConfig] returns: cached, or loaded now. *)
Definition loads (t : Terminal Storage) (c : Doc.Config) : Prop :=
  cached t = Some c \/ cached t = None /\ Load cfgFile = inl c.

Lemma loadConfig_run c n t :
  loads t c -> loadConfig cfgFile n t = (n, mkTerminal (stdout t) (Some c) (backend t) (closed t), Ok c).
Proof.
  intros Hc. unfold loadConfig. erewrite mbind_ok by reflexivity. destruct t as [out ch b cl].
  destruct Hc as [Hc|[Hc Hl]]; simpl in *; rewrite Hc; [done|]. by rewrite Hl.
Qed.

(** What a command leaves of the terminal, when the backend is the in-memory one. *)
Definition after (t : Terminal Storage) (c : Doc.Config) (out : list printed) (s : Storage) : Terminal Storage :=
  mkTerminal (stdout t ++ out) (Some c) (Some s) true.

Lemma with_store_run c body n t n' out s r :
  loads t c -> Doc.Backend (Doc.Storage c) = "memory" -> connect Doc.OpenMemory = inl New ->
  (forall t, backend t = Some New ->
     body n t = (n', mkTerminal (stdout t ++ out) (cached t) (Some s) (closed t), r)) ->
  (forall p, r <> Fatal p) ->
  with_store cfgFile connect body n t = (n', after t c out s, r).
Proof.
  intros Hc Hb Ho Hbody Hr. unfold with_store. erewrite mbind_ok by by apply loadConfig_run.
  unfold openCLIStore, Doc.OpenStorage. rewrite Hb. rewrite bool_decide_eq_true_2 by set_solver. rewrite Ho.
  erewrite mbind_ok by reflexivity. unfold mdefer. rewrite Hbody by done. by destruct r; [..|edestruct Hr].
Qed.

Lemma on_backend_run {A} (m : M Storage A) n t s n' s' r :
  backend t = Some s -> m n s = (n', s', r) ->
  on_backend m n t = (n', mkTerminal (stdout t) (cached t) (Some s') (closed t), r).
Proof. intros Hb Hm. unfold on_backend. by rewrite Hb, Hm. Qed.

(** C36. With the in-memory backend a command works on an empty store of its own, whatever the server
    holds: it finds no job, requeues none, and lists no job, no queue and no server; it closes
    that store. *)
Theorem cli_memory_sees_nothing c n t :
  loads t c -> Doc.Backend (Doc.Storage c) = "memory" -> connect Doc.OpenMemory = inl New ->
  (forall id, job_get cfgFile connect id n t = (n, after t c [] New, Err ErrNotFound)) /\
  (forall id, job_requeue cfgFile connect id n t = (n, after t c [] New, Err ErrNotFound)) /\
  (forall state limit, exists n',
     job_list cfgFile connect state limit n t = (n', after t c [Row ["ID"; "NAME"; "QUEUE"; "STATE"]] New, Ok tt)) /\
  (exists n', queue_list cfgFile connect n t = (n', after t c [Row ["QUEUE"; "DEPTH"]] New, Ok tt)) /\
  (exists n', server_status cfgFile connect n t
     = (n', after t c [Text (line "No servers registered.")] New, Ok tt)).
Proof.
  intros Hc Hb Ho. assert (forall m, map_order m [] = []) as Hm
    by (intros m; apply Permutation_nil_r, (map_order_perm m [])).
  split_and!.
  - intros id. apply with_store_run; [done..| |done]. intros t' Ht.
    erewrite mbind_err by (eapply on_backend_run; [exact Ht|reflexivity]). by rewrite app_nil_r.
  - intros id. apply with_store_run; [done..| |done]. intros t' Ht.
    erewrite on_backend_run by (first [exact Ht|reflexivity]). by rewrite app_nil_r.
  - intros state limit. exists (Datatypes.S n). apply with_store_run; [done..| |done]. intros t' Ht.
    erewrite mbind_ok.
    2:{ eapply on_backend_run; [exact Ht|]. simpl. unfold GetJobsByState. run_env. rewrite Hm. simpl.
        destruct (0 <=? 0) eqn:E; [reflexivity|done]. }
    reflexivity.
  - eexists. apply with_store_run; [done..| |done]. intros t' Ht.
    erewrite mbind_ok.
    2:{ eapply on_backend_run; [exact Ht|]. simpl. unfold GetQueues. run_env. rewrite Hm. reflexivity. }
    reflexivity.
  - eexists. apply with_store_run; [done..| |done]. intros t' Ht.
    erewrite mbind_ok.
    2:{ eapply on_backend_run; [exact Ht|]. simpl. unfold GetServers. run_env. rewrite Hm. reflexivity. }
    reflexivity.
Qed.

(** *** [gfire job cancel] and the server it calls *)

Definition cancel_path (id : string) : string := "/v1/jobs/" +:+ id +:+ "/cancel".

(** The request that the command sends: no header, no body. *)
Definition cancel_request (id : string) : Request :=
  mkRequest Live (cancel_path id) "" (fun _ => "") (fun _ => "") "" false.

Lemma serve_cancel (c : Doc.Config) id n (e : Engine Storage) :
  plain_segment id -> Doc.au_Enabled (Doc.Auth c) = false ->
  api_server c true true "POST" (cancel_request id) n e
  = handleCancel true (bind_path [id] (cancel_request id)) (Datatypes.S n) e.
Proof.
  intros Hid Ha. unfold api_server, Handler, maxBody. rewrite Ha. cbv zeta. simpl rq_body. simpl String.length.
  assert (forall z, (Z.of_nat 0 <=? (if z <=? 0 then Z.shiftl 10 20 else z)) = true) as -> 
    by (intros z; destruct (Z.leb_spec z 0); apply Z.leb_le; [done|lia]).
  unfold requestID. rewrite decide_True by done. erewrite mbind_ok by reflexivity.
  apply (serve_route true true "POST" "POST /v1/jobs/{id}/cancel" (handleCancel true) [id]); try done.
  - do 8 right. left.
  - unfold documented. rewrite (proj1 operation_table_ok). vm_compute. set_solver.
  - by constructor.
Qed.

(** What the end of a context leaves: nothing but it changes, and it is done, with the cause
    it had already when it had ended before. *)
Record context_ended (addr : nat) (e e' : Engine Storage) : Prop := {
  cn_only : e' = upd_contexts (fun _ => contexts e') e;
  cn_others : forall a, a <> addr -> contexts e' !! a = contexts e !! a;
  cn_done : is_Some (contexts e !! addr) ->
    ctx_lookup (size (contexts e')) (contexts e') addr
    = match ctx_lookup (size (contexts e)) (contexts e) addr with
      | Done err => Done err
      | Live => Done ContextCanceled
      end;
}.

Lemma CancelJob_run id n (e : Engine Storage) :
  match cancels e !! id with
  | None => CancelJob id n e = (n, e, Err ErrNotProcessing)
  | Some addr => exists e', CancelJob id n e = (n, e', Ok tt) /\ context_ended addr e e'
  end.
Proof.
  pose proof (cancel_job id n e) as Hc. destruct (cancels e !! id) as [addr|] eqn:Ha; [|done].
  destruct Hc as (e' & Hr & _ & _ & _ & Ho & Hd). exists e'. split; [done|]. split; [|done|].
  - unfold CancelJob, cancel, end_context, ctx_state, mbind, mget, mgets, mmodify, mret in Hr. rewrite Ha in Hr. cbn in Hr.
    destruct (ctx_lookup _ _ _); injection Hr as <-; [done|by destruct e].
  - intros Hs. specialize (Hd Hs). unfold ctx_state, mgets, res_of in Hd. by injection Hd.
Qed.

Lemma handleCancel_run id r n (e : Engine Storage) :
  match cancels e !! id with
  | None => handleCancel true (bind_path [id] r) n e = (n, e, Ok (refusal StatusConflict (Error ErrNotProcessing)))
  | Some addr => exists e', context_ended addr e e' /\
      handleCancel true (bind_path [id] r) n e = (n, e', Ok (mkResponse StatusOK (VObject [("status", VString "cancelling")])))
  end.
Proof.
  pose proof (CancelJob_run id n e) as Hc. unfold handleCancel, or_error. cbn [negb].
  destruct (cancels e !! id) as [addr|].
  - destruct Hc as (e' & Hr & He). exists e'. split; [done|]. by erewrite mbind_ok by (apply mtry_ok; exact Hr).
  - by erewrite mbind_ok by (apply mtry_err; exact Hc).
Qed.

(** C34. The command sends no token; its request reaching the server at the address it binds, the
    server refuses it when authentication is configured, whatever the job, and nothing is
    cancelled.  Without authentication the command fails with the server's 409 when no cancel
    function is registered for the job, nothing changing; otherwise it succeeds, and the context
    behind that function is done afterwards (with "context canceled" unless it had ended with
    another cause), nothing else of the engine and of its storage changing. *)
Theorem cli_cancel (c : Doc.Config) new_request post (encode : value -> string) id n t m (e : Engine Storage) :
  loads t c -> new_request (cancel_url c id) = None -> plain_segment id ->
  let served := api_server c true true "POST" (cancel_request id) m e in
  (forall n t resp, res_of served = Ok resp ->
     post ("http://" +:+ Doc.ListenAddr c +:+ cancel_path id) n t = (n, t, Ok (status resp, encode (body resp)))) ->
  let loaded out := mkTerminal (stdout t ++ out) (Some c) (backend t) (closed t) in
  let failed code msg := ErrText ("cancel failed (status " +:+ Itoa code +:+ "): "
    +:+ TrimSpace (encode (VObject [("error", VString msg)]))) in
  if Doc.au_Enabled (Doc.Auth c) then
    st_of served = e /\
    job_cancel cfgFile new_request post id n t = (n, loaded [], Err (failed StatusUnauthorized "unauthorized"))
  else
    match cancels e !! id with
    | None => st_of served = e /\
        job_cancel cfgFile new_request post id n t = (n, loaded [], Err (failed StatusConflict (Error ErrNotProcessing)))
    | Some addr => context_ended addr e (st_of served) /\
        job_cancel cfgFile new_request post id n t
        = (n, loaded [Text (line ("Job " +:+ id +:+ ": cancel request sent."))], Ok tt)
    end.
Proof.
  intros Hc Hn Hid served Hpost loaded failed.
  assert (forall resp, res_of served = Ok resp -> job_cancel cfgFile new_request post id n t =
    if decide (status resp <> StatusOK)
    then (n, loaded [], Err (ErrText ("cancel failed (status " +:+ Itoa (status resp) +:+ "): " +:+ TrimSpace (encode (body resp)))))
    else (n, loaded [Text (line ("Job " +:+ id +:+ ": cancel request sent."))], Ok tt)) as Hj.
  { intros resp Hr. unfold job_cancel. erewrite mbind_ok by (apply loadConfig_run; exact Hc).
    rewrite Hn. erewrite mbind_ok by reflexivity. erewrite mbind_ok by (apply mtry_ok; by apply Hpost).
    cbv iota beta. unfold loaded. rewrite app_nil_r. by case_decide. }
  destruct (Doc.au_Enabled (Doc.Auth c)) eqn:Ha.
  - destruct (unauthorized_reads memory_reads c true true "POST" (cancel_request id) Ha) as [H1 H2]; [by simpl|].
    assert (served = (m, e, Ok (refusal StatusUnauthorized "unauthorized"))) as Hs
      by (apply H2; unfold open_paths; simpl; set_solver).
    rewrite Hs. split; [done|]. by rewrite (Hj (refusal StatusUnauthorized "unauthorized")) by (by rewrite Hs).
  - assert (served = handleCancel true (bind_path [id] (cancel_request id)) (Datatypes.S m) e) as Hs by by apply serve_cancel.
    pose proof (handleCancel_run id (cancel_request id) (Datatypes.S m) e) as Hr. rewrite <- Hs in Hr.
    destruct (cancels e !! id) as [addr|].
    + destruct Hr as (e' & Hcj & Hr). rewrite Hr. split; [done|].
      by rewrite (Hj (mkResponse StatusOK (VObject [("status", VString "cancelling")]))) by (by rewrite Hr).
    + rewrite Hr. split; [done|]. by rewrite (Hj (refusal StatusConflict (Error ErrNotProcessing))) by (by rewrite Hr).
Qed.
End CommandLine.

(** ** What the start writes, and what is loaded *)
Section StartAndLoad.
Context {JS : Json} {BU : Build} {UL : Doc.UrlLib} {VI : Viper}.

(** The banner and the first record of the log depend on no secret: not on the token, and on
    the password and the DSN only as far as the summary shows them. *)
Lemma startup_hides_secrets (c : Doc.Config) sid pw1 pw2 dsn1 dsn2 host name p1 p2 q1 q2 rest :
  pw1 <> "" -> pw2 <> "" -> dsn1 <> "" -> dsn2 <> "" ->
  Doc.url_Parse dsn1 = Some (host, Some (name, p1), q1, rest) ->
  Doc.url_Parse dsn2 = Some (host, Some (name, p2), q2, rest) ->
  banner (Doc.with_secrets pw1 dsn1 c) = banner (Doc.with_secrets pw2 dsn2 c) /\
  starting (Doc.with_secrets pw1 dsn1 c) sid = starting (Doc.with_secrets pw2 dsn2 c) sid.
Proof.
  intros Hp1 Hp2 Hd1 Hd2 Hu1 Hu2.
  pose proof (summary_hides_secrets c _ _ _ _ _ _ _ _ _ _ _ Hp1 Hp2 Hd1 Hd2 Hu1 Hu2) as Hs.
  unfold banner, starting. by rewrite Hs.
Qed.

(** What [Load] returns passed the checks, so that [OpenStorage] knows its backend. *)
Lemma load_validates path c sid : Load path = inl c ->
  Doc.Validate c = None /\ exists o, Doc.OpenStorage (Doc.Storage c) sid = inl o.
Proof.
  unfold Load. destruct (read_config path _) as [v|]; [|done]. destruct (Unmarshal v Doc.Defaults) as [d|]; [|done].
  destruct (Doc.Validate d) eqn:Hv; [done|]. intros [= ->]. split; [done|]. by apply (validate_opens c sid).
Qed.

(** The address that clients are given is the one that is listened on, when a host is set. *)
Lemma base_url_listens c : Doc.Host (Doc.Server c) ∉ [""; "0.0.0.0"; "::"; "[::]"] ->
  BaseURL c = "http://" +:+ Doc.ListenAddr c.
Proof.
  intros Hh. unfold BaseURL, Doc.ListenAddr. rewrite bool_decide_eq_false_2 by done.
  rewrite decide_False by set_solver. done.
Qed.
End StartAndLoad.

(** ** On concrete runs *)
Section Witnesses.
#[local] Instance E4 : Env := env_at 0.
#[local] Existing Instance tree_Json.
#[local] Existing Instance free_cron.
#[local] Existing Instance plain_decoders.
#[local] Existing Instance one_host.
#[local] Instance some_build : Build :=
  {| Version := "1.0.3"; Commit := "abc"; BuildDate := "today"; GOOS := "linux"; GOARCH := "amd64" |}.
#[local] Instance moved : Redirects := {| redirect r := mkResponse 307 (VText (cleanPath (rq_path r))) |}.
(** A viper that finds the defaults. *)
#[local] Instance no_file : Viper := {|
  viper := unit; v_new := tt; BindEnv _ v := v; ReadInConfig _ v := inl v; Unmarshal _ c := inl c; Getenv _ := "" |}.

Lemma routes_served_witness :
  serve_mux (S := Storage) (routes true true) "POST" (cancel_request "id-0") 0%nat fresh_engine
  = handleCancel true (bind_path ["id-0"] (cancel_request "id-0")) 0%nat fresh_engine.
Proof.
  destruct (proj1 (routes_served (S := Storage) true true) "POST /v1/jobs/{id}/cancel") as (h & Hh & Hs).
  - apply (bool_decide_unpack _). vm_compute. exact I.
  - assert (endpoint (S := Storage) true true "POST /v1/jobs/{id}/cancel" = Some (handleCancel true)) as He by reflexivity.
    rewrite He in Hh. injection Hh as <-. apply (Hs "POST" ["id-0"]).
    + reflexivity.
    + reflexivity.
    + apply (bool_decide_unpack _). vm_compute. exact I.
    + reflexivity.
Defined.

(** The defaults, with a token. *)
Definition with_token (token : string) : Doc.Config :=
  let d := Doc.Defaults in
  Doc.mkConfig (Doc.Server d) (Doc.Heartbeat d) (Doc.Scheduler d) (Doc.Cleanup d) (Doc.Storage d) (Doc.Logging d) true
    (Doc.mkAuthConfig true token) [] ∅.

Lemma unauthorized_changes_nothing_witness :
  st_of (api_server (with_token "t") true true "POST" (post "" "report") 0%nat fresh_engine) = fresh_engine.
Proof.
  apply (unauthorized_changes_nothing (with_token "t") true true "POST" (post "" "report") 0%nat fresh_engine).
  - reflexivity.
  - discriminate.
Defined.

(** A subprocess that answers at once. *)
Definition instant (ctx : nat) (cmd : string) (args : bytes) : M (Engine Storage) process_result :=
  mret (Exited (Some "ok") "" None).

(** Two requests, the loops, and a worker that finds the job of the first. *)
Definition some_turns (ec : Config) (pl : Pipeline (Engine Storage)) : M (Engine Storage) unit :=
  mfor [api_server Doc.Defaults true true "POST" (post "" "report") ;;; mret tt;
        tickScheduler ec; coordinatorTick ec;
        workerTurn ec pl [] [] ;;; mret tt;
        api_server Doc.Defaults true true "POST" (cancel_request "id-0") ;;; mret tt;
        cleanupTick ec] interleave.

Lemma run_server_ends_witness : exists n' p' e',
  RunServer "host" 4 (fun _ => inl New) instant some_turns (fun _ _ => mret tt) true None 0 Doc.Defaults
    (Signalled "terminated") 1%nat (mkProcess [] [] None NotListening false) = (n', p', Ok tt) /\
  pr_closed p' = true /\ pr_engine p' = Some e' /\ stopOnce e' = true.
Proof.
  destruct (run_server_ends "host" 4 (fun _ => inl New) instant some_turns (fun _ _ => mret tt) true None
    (fun p a st c cmd args n e Hh => Hh) 0 Doc.Defaults (Signalled "terminated") Doc.OpenMemory 1%nat
    (mkProcess [] [] None NotListening false)) as (n' & p' & e' & a & Hr & Hcl & _ & _ & He & _ & Hst & _).
  - reflexivity.
  - reflexivity.
  - constructor.
  - reflexivity.
  - eexists. split; [reflexivity|]. repeat constructor; intros ? ?%elem_of_nil || (intros ? ? ?%elem_of_nil); done.
  - exists []. split; [reflexivity|constructor].
  - exists n', p', e'. exact (conj Hr (conj Hcl (conj He Hst))).
Defined.

Definition terminal : Terminal Storage := mkTerminal [] None None false.

Lemma cli_memory_sees_nothing_witness :
  job_get "" (fun _ => inl New) "id-0" 0%nat terminal
  = (0%nat, mkTerminal [] (Some Doc.Defaults) (Some New) true, Err ErrNotFound).
Proof.
  apply (cli_memory_sees_nothing "" (fun _ => inl New) Doc.Defaults 0%nat terminal).
  - right. split; reflexivity.
  - reflexivity.
  - reflexivity.
Defined.

(** The engine runs job "id-0" under context 3. *)
Definition running_engine : Engine Storage :=
  mkEngine New (Some 1%nat) ∅ {["id-0" := 3%nat]} {[3%nat := (None, Live)]} [] true false.

Definition answer (v : value) : string := "{}".

Lemma cli_cancel_witness :
  context_ended 3%nat running_engine
    (st_of (api_server Doc.Defaults true true "POST" (cancel_request "id-0") 5%nat running_engine)) /\
  job_cancel "" (fun _ => None) (fun _ => mret (StatusOK, "{}")) "id-0" 0%nat terminal
  = (0%nat, mkTerminal [Text (line "Job id-0: cancel request sent.")] (Some Doc.Defaults) None false, Ok tt).
Proof.
  apply (cli_cancel "" Doc.Defaults (fun _ => None) (fun _ => mret (StatusOK, "{}")) answer "id-0" 0%nat terminal
    5%nat running_engine).
  - right. split; reflexivity.
  - reflexivity.
  - split; [reflexivity|]. apply (bool_decide_unpack _). reflexivity.
  - intros n t resp Hr. vm_compute in Hr. injection Hr as <-. reflexivity.
Defined.
End Witnesses.
