(* ===== verification/RedisServer.v ===== *)
(** * The Redis server and its client, as the backend sees them

    A server is not part of this program: it is an abstract state [R] with a
    function that answers commands ([Redis]), of which we rely on what the
    documentation of each command says ([documented], over the key space).  The
    client (go-redis) sends a batch of commands and waits for the replies; the
    network may cut the batch short, and other clients work on the same server
    in between ([Network]). *)
From S2P Require Import Prelude.
From S2P Require Import GoTime.
From S2P Require Import Strconv.

(** ** Values and commands *)

(** A value of the key space.  [RLease] is a string with a time to live. *)
Inductive rvalue :=
  | RString (s : string)
  | RLease (s : string) (expires : Time)
  | RHash (h : gmap string string)
  | RList (l : list string)
  | RSet (X : gset string)
  | RZSet (z : gmap string Z).

Abbreviation keyspace := (gmap string rvalue).

(** The commands the backend uses.  [HSET] takes the pairs of a Go map, in any
    order; [SETNX] is SET with NX and a time to live (none when 0, never negative here); [LRANGE] and
    [LREM] are used for the whole list; [BRPOP] is the attempt to pop, without the
    wait; [ZRANGEBYSCORE] has the bounds -inf and [max] and a LIMIT from 0. *)
Inductive cmd :=
  | EXISTS (k : string) | DEL (k : string)
  | GET (k : string) | SET (k v : string) | SETNX (k v : string) (ttl : Duration)
  | INCRBY (k : string) (d : Z)
  | HSET (k : string) (fs : gmap string string) | HGET (k f : string) | HGETALL (k : string)
  | HDEL (k f : string)
  | RPUSH (k v : string) | LPUSH (k v : string) | LRANGE (k : string) | LLEN (k : string)
  | LREM (k v : string) | BRPOP (ks : list string)
  | SADD (k x : string) | SREM (k x : string) | SMEMBERS (k : string)
  | ZADD (k : string) (score : Z) (x : string) | ZREM (k x : string)
  | ZRANGEBYSCORE (k : string) (max count : Z).

(** [RMap] and [RMembers] are the replies whose order says nothing. *)
Inductive reply :=
  | RInt (z : Z) | RBulk (s : string) | RNil | RStatus
  | RArray (l : list string) | RMap (h : gmap string string) | RMembers (X : gset string)
  | RErr (msg : string).

(** The keys a command works on. *)
Definition cmd_keys (c : cmd) : list string :=
  match c with
  | EXISTS k | DEL k | GET k | SET k _ | SETNX k _ _ | INCRBY k _ | HSET k _ | HGET k _
  | HGETALL k | HDEL k _ | RPUSH k _ | LPUSH k _ | LRANGE k | LLEN k | LREM k _ | SADD k _
  | SREM k _ | SMEMBERS k | ZADD k _ _ | ZREM k _ | ZRANGEBYSCORE k _ _ => [k]
  | BRPOP ks => ks
  end.

(** Commands that only read. *)
Definition reads (c : cmd) : bool :=
  match c with
  | EXISTS _ | GET _ | HGET _ _ | HGETALL _ | LRANGE _ | LLEN _ | SMEMBERS _
  | ZRANGEBYSCORE _ _ _ => true
  | _ => false
  end.

(** ** The documented effect of a command

    Left out: the error of INCRBY past 64 bits, which a counter of this program
    reaches after 2^63 increments. *)

Definition wrongtype : string :=
  "WRONGTYPE Operation against a key holding the wrong kind of value".

(** A container that became empty is removed with its key. *)
Definition is_empty_value (v : rvalue) : bool :=
  match v with
  | RHash h => bool_decide (h = ∅)
  | RList l => bool_decide (l = [])
  | RSet X => bool_decide (X = ∅)
  | RZSet z => bool_decide (z = ∅)
  | _ => false
  end.

Definition put (k : string) (v : rvalue) (m : keyspace) : keyspace :=
  if is_empty_value v then delete k m else <[k := v]> m.

(** The string at a key; the container at a key, an absent one being empty;
    [None] when the key holds another kind of value. *)
Definition str_at (m : keyspace) (k : string) : option (option string) :=
  match m !! k with
  | None => Some None
  | Some (RString s) | Some (RLease s _) => Some (Some s)
  | Some _ => None
  end.
Definition hash_at (m : keyspace) (k : string) : option (gmap string string) :=
  match m !! k with None => Some ∅ | Some (RHash h) => Some h | Some _ => None end.
Definition list_at (m : keyspace) (k : string) : option (list string) :=
  match m !! k with None => Some [] | Some (RList l) => Some l | Some _ => None end.
Definition set_at (m : keyspace) (k : string) : option (gset string) :=
  match m !! k with None => Some ∅ | Some (RSet X) => Some X | Some _ => None end.
Definition zset_at (m : keyspace) (k : string) : option (gmap string Z) :=
  match m !! k with None => Some ∅ | Some (RZSet z) => Some z | Some _ => None end.

Definition on {A} (v : option A) (m : keyspace) (k : A -> keyspace * reply) : keyspace * reply :=
  match v with Some a => k a | None => (m, RErr wrongtype) end.

(** The order of a sorted set: by score, then by member. *)
Definition zle (p q : string * Z) : Prop :=
  p.2 < q.2 \/ (p.2 = q.2 /\ String.le p.1 q.1).

#[export] Instance zle_dec : RelDecision zle.
Proof. intros p q. unfold zle. apply _. Defined.

Definition zrange (z : gmap string Z) (max : Z) : list string :=
  (merge_sort zle (filter (fun p => p.2 <= max) (map_to_list z))).*1.

(** The first of the lists that is not empty: its key, its last element and the rest. *)
Fixpoint rpop_first (m : keyspace) (ks : list string) : option (option (string * string * list string)) :=
  match ks with
  | [] => Some None
  | k :: ks =>
    match list_at m k with
    | None => None
    | Some l => match reverse l with
                | [] => rpop_first m ks
                | x :: l' => Some (Some (k, x, reverse l'))
                end
    end
  end.

Definition as_status (m : keyspace) (b : bool) : keyspace * reply := (m, RInt (if b then 1 else 0)).

Definition documented (c : cmd) (t : Time) (m : keyspace) : keyspace * reply :=
  match c with
  | EXISTS k => as_status m (bool_decide (is_Some (m !! k)))
  | DEL k => as_status (delete k m) (bool_decide (is_Some (m !! k)))
  | GET k => on (str_at m k) m (fun s => (m, match s with Some s => RBulk s | None => RNil end))
  | SET k v => (<[k := RString v]> m, RStatus)
  | SETNX k v ttl =>
    if decide (is_Some (m !! k)) then as_status m false
    else as_status (<[k := if decide (ttl = 0) then RString v else RLease v (t + ttl)]> m) true
  | INCRBY k d =>
    on (str_at m k) m (fun s =>
      match signed (default "0" s) with
      | None => (m, RErr "ERR value is not an integer or out of range")
      | Some z =>
        (<[k := match m !! k with Some (RLease _ e) => RLease (Itoa (z + d)) e
                                | _ => RString (Itoa (z + d)) end]> m, RInt (z + d))
      end)
  | HSET k fs => on (hash_at m k) m (fun h =>
      (put k (RHash (fs ∪ h)) m, RInt (Z.of_nat (size (dom fs ∖ dom h)))))
  | HGET k f => on (hash_at m k) m (fun h =>
      (m, match h !! f with Some v => RBulk v | None => RNil end))
  | HGETALL k => on (hash_at m k) m (fun h => (m, RMap h))
  | HDEL k f => on (hash_at m k) m (fun h =>
      as_status (put k (RHash (delete f h)) m) (bool_decide (is_Some (h !! f))))
  | RPUSH k v => on (list_at m k) m (fun l =>
      (put k (RList (l ++ [v])) m, RInt (Z.of_nat (S (length l)))))
  | LPUSH k v => on (list_at m k) m (fun l =>
      (put k (RList (v :: l)) m, RInt (Z.of_nat (S (length l)))))
  | LRANGE k => on (list_at m k) m (fun l => (m, RArray l))
  | LLEN k => on (list_at m k) m (fun l => (m, RInt (Z.of_nat (length l))))
  | LREM k v => on (list_at m k) m (fun l =>
      let l' := filter (fun x => x <> v) l in
      (put k (RList l') m, RInt (Z.of_nat (length l - length l'))))
  | BRPOP ks => on (rpop_first m ks) m (fun p =>
      match p with
      | Some (k, x, l) => (put k (RList l) m, RArray [k; x])
      | None => (m, RNil)
      end)
  | SADD k x => on (set_at m k) m (fun X =>
      as_status (put k (RSet ({[ x ]} ∪ X)) m) (negb (bool_decide (x ∈ X))))
  | SREM k x => on (set_at m k) m (fun X =>
      as_status (put k (RSet (X ∖ {[ x ]})) m) (bool_decide (x ∈ X)))
  | SMEMBERS k => on (set_at m k) m (fun X => (m, RMembers X))
  | ZADD k score x => on (zset_at m k) m (fun z =>
      as_status (put k (RZSet (<[x := score]> z)) m) (bool_decide (z !! x = None)))
  | ZREM k x => on (zset_at m k) m (fun z =>
      as_status (put k (RZSet (delete x z)) m) (bool_decide (is_Some (z !! x))))
  | ZRANGEBYSCORE k max count => on (zset_at m k) m (fun z =>
      (m, RArray (take (Z.to_nat count) (zrange z max))))
  end.

(** The keys that have not expired at [t]. *)
Definition alive (t : Time) (v : rvalue) : Prop :=
  match v with RLease _ e => t <= e | _ => True end.

#[export] Instance alive_dec t v : Decision (alive t v).
Proof. destruct v; simpl; apply _. Defined.

Definition live_at (t : Time) (m : keyspace) : keyspace := filter (fun kv => alive t kv.2) m.

(** A server: its key space is read off its state, a command that only reads does not
    change it, and every command does and answers what is documented, on the
    keys that have not expired at the instant it runs.  [scan_pages] are the pages a
    cursor iteration of SCAN from 0 back to 0 goes through for the keys with a
    prefix; together they hold every such key, perhaps more than once. *)
Class Redis (R : Type) := {
  keys_of : R -> keyspace;
  exec : cmd -> Time -> R -> R * reply;
  scan_pages : Time -> R -> string -> list (list string);
  exec_reads : forall c t r, reads c = true -> (exec c t r).1 = r;
  exec_writes : forall c t r, reads c = false ->
    keys_of (exec c t r).1 = (documented c t (live_at t (keys_of r))).1;
  exec_reply : forall c t r, (exec c t r).2 = (documented c t (live_at t (keys_of r))).2;
  scan_complete : forall t r p k,
    k ∈ concat (scan_pages t r p) <-> String.prefix p k = true /\ is_Some (live_at t (keys_of r) !! k);
}.

(** The network, at the n-th call to the environment: where it cuts a batch of
    commands (how many of them reach the server, and the error the client
    reports), and what other clients have done to the server since the last
    command. *)
Class Network (R : Type) := {
  fault_at : nat -> option (nat * error);
  others_at : nat -> R -> R;
}.

(** ** The client *)

(** The struct [Storage] of the backend: the client (here the server behind it)
    and the identifier of this process. *)
Record Storage (R : Type) := mkStorage { client : R; serverID : string }.
Arguments mkStorage {R} _ _.
Arguments client {R} _.
Arguments serverID {R} _.

Definition set_client {R} (c : R) (s : Storage R) : Storage R := mkStorage c (serverID s).

(** One command or script of a batch. *)
Definition request (R : Type) : Type := Time -> R -> R * reply.

Section Client.
Context {EV : Env} {R : Type} {RD : Redis R} {NW : Network R}.

Abbreviation St := (Storage R).

Definition command (c : cmd) : request R := fun t r => exec c t r.

Definition serve (q : request R) : M St reply := fun n s =>
  let '(c, rep) := q (clock n) (others_at n (client s)) in (S n, set_client c s, Ok rep).

Fixpoint serve_all (qs : list (request R)) : M St (list reply) :=
  match qs with
  | [] => mret []
  | q :: qs => rep <- serve q ;; reps <- serve_all qs ;; mret (rep :: reps)
  end.

(** Send a batch: a context that is done sends nothing. *)
Definition send (ctx : Ctx) (qs : list (request R)) : M St (list reply) := fun n s =>
  match ctx with
  | Done err => (S n, s, Err err)
  | Live =>
    match fault_at n with
    | None => serve_all qs n s
    | Some (k, err) => let '(n', s', _) := serve_all (take k qs) n s in (S n', s', Err err)
    end
  end.

Definition first_error (reps : list reply) : option error :=
  head (omap (fun rep => match rep with RErr msg => Some (ErrText msg) | _ => None end) reps).

(** [pipe.Exec(ctx)]. *)
Definition pipeline (ctx : Ctx) (qs : list (request R)) : M St unit :=
  reps <- send ctx qs ;;
  match first_error reps with Some err => mthrow err | None => mret tt end.

(** A single command or script. *)
Definition call (ctx : Ctx) (q : request R) : M St reply :=
  reps <- send ctx [q] ;;
  match reps with
  | [RErr msg] => mthrow (ErrText msg)
  | rep :: _ => mret rep
  | [] => mret RNil
  end.

Definition unexpected : error := ErrText "redis: unexpected type for the reply".

(** [.Result()], [.Int64()] at the type the command has. *)
Definition as_int (rep : reply) : M St Z :=
  match rep with RInt z => mret z | RNil => mthrow RedisNil | _ => mthrow unexpected end.
Definition as_string (rep : reply) : M St string :=
  match rep with RBulk s => mret s | RNil => mthrow RedisNil | _ => mthrow unexpected end.
Definition as_map (rep : reply) : M St (gmap string string) :=
  match rep with RMap h => mret h | _ => mthrow unexpected end.
Definition as_list (rep : reply) : M St (list string) :=
  match rep with RArray l => mret l | _ => mthrow unexpected end.
(** The members of a set, in the order the server sends them. *)
Definition as_members (rep : reply) : M St (list string) :=
  match rep with
  | RMembers X => fun n s => (S n, s, Ok (map_order n (elements X)))
  | _ => mthrow unexpected
  end.

(** ** Lua scripts

    A script runs in the server, in one piece and at one instant; an error reply
    to one of its commands ends it. *)
Definition lua (A : Type) : Type := R -> R * (A + string).

Definition lua_ret {A} (a : A) : lua A := fun r => (r, inl a).

Definition lua_bind {A B} (m : lua A) (k : A -> lua B) : lua B := fun r =>
  match m r with
  | (r', inl a) => k a r'
  | (r', inr msg) => (r', inr msg)
  end.

Definition redis_call (t : Time) (c : cmd) : lua reply := fun r =>
  match exec c t r with
  | (r', RErr msg) => (r', inr msg)
  | (r', rep) => (r', inl rep)
  end.

Fixpoint lua_for {A} (l : list A) (body : A -> lua unit) : lua unit :=
  match l with
  | [] => lua_ret tt
  | x :: l => lua_bind (body x) (fun _ => lua_for l body)
  end.

(** What the script returns is its reply. *)
Definition script (body : Time -> lua reply) : request R := fun t r =>
  match body t r with
  | (r', inl rep) => (r', rep)
  | (r', inr msg) => (r', RErr msg)
  end.
End Client.

Notation "'let!' x := m 'in' k" := (lua_bind m (fun x => k))
  (at level 10, x name, m at level 100, k at level 200) : go_scope.
Notation "'do!' m 'in' k" := (lua_bind m (fun _ => k))
  (at level 10, m at level 100, k at level 200) : go_scope.

(** ** A concrete server: the documentation, executed *)
#[export, refine] Instance reference_redis : Redis keyspace := {
  keys_of m := m;
  exec c t m := let '(m', rep) := documented c t (live_at t m) in (if reads c then m else m', rep);
  scan_pages t m p := [filter (fun k => String.prefix p k = true) (map_to_list (live_at t m)).*1]
}.
Proof.
  - intros c t m ->. by destruct (documented c t (live_at t m)).
  - intros c t m ->. by destruct (documented c t (live_at t m)).
  - intros c t m. by destruct (documented c t (live_at t m)).
  - intros t m p k. simpl. rewrite app_nil_r, list_elem_of_filter, elem_of_map_keys. done.
Defined.

(** No faults, and nobody else. *)
Definition quiet_network {R} : Network R := {| fault_at _ := None; others_at _ r := r |}.
