(* ===== verification/RedisCodec.v ===== *)
(** * Keys and encodings of the Redis backend (internal/storage/redis: keys.go, codec.go)

    Which key holds what, and how jobs, states, servers, recurring definitions
    and continuations are written as text.  [encoding/json] on a struct and the
    RFC 3339 text of an instant are the standard library's: an interface here,
    with the round trips the backend relies on and a concrete instance. *)
From S2P Require Import Prelude.
From S2P Require Import GoTime.
From S2P Require Import Strconv.
From S2P Require Import Job.
From S2P Require Import Json.
From S2P Require Import RedisServer.

(** ** Keys *)
Definition keyPrefix : string := "gfire:".

Definition jobKey (id : string) : string := keyPrefix +:+ "job:" +:+ id.
Definition jobStatesKey (id : string) : string := keyPrefix +:+ "job:" +:+ id +:+ ":states".
Definition queueKey (name : string) : string := keyPrefix +:+ "queue:" +:+ name.
Definition stateIndexKey (state : string) : string := keyPrefix +:+ "state:" +:+ state.

Definition processingKey : string := keyPrefix +:+ "processing".
Definition scheduledKey : string := keyPrefix +:+ "scheduled".
Definition recurringKey : string := keyPrefix +:+ "recurring".
Definition serversKey : string := keyPrefix +:+ "servers".
Definition serverHBKey : string := keyPrefix +:+ "server:heartbeats".
Definition queuesIndexKey : string := keyPrefix +:+ "queues".
Definition counterKeyPrefix : string := keyPrefix +:+ "counter:".
Definition lockKeyPrefix : string := keyPrefix +:+ "lock:".

Definition counterKey (name : string) : string := counterKeyPrefix +:+ name.
Definition lockKey (resource : string) : string := lockKeyPrefix +:+ resource.
Definition continuationsKey (parentID : string) : string := keyPrefix +:+ "continuations:" +:+ parentID.
Definition continuationEntryKey (parentID entryID : string) : string :=
  keyPrefix +:+ "continuation:" +:+ parentID +:+ ":" +:+ entryID.
(** The key [EnqueueIdempotent] builds. *)
Definition idempotencyKey (key : string) : string := keyPrefix +:+ "idempotency:" +:+ key.

(** ** Text *)

Fixpoint ascii_text (s : string) : bool :=
  match s with
  | EmptyString => true
  | String c s => (nat_of_ascii c <? 128)%nat && ascii_text s
  end.

(** The years RFC 3339 can write: 0 to 9999. *)
Definition time_ok (t : Time) : Prop := -62167219200 * Second <= t < 253402300800 * Second.

(** A state whose texts are plain ASCII and whose data is not an empty map. *)
Definition state_plain (st : JobState) : Prop :=
  ascii_text (st_Name st) = true /\ ascii_text (st_Reason st) = true /\
  match st_Data st with
  | None => True
  | Some m => m <> ∅ /\ map_Forall (fun k v => ascii_text k = true /\ ascii_text v = true) m
  end.

(** [time.RFC3339Nano] and [encoding/json] on the four structs.  Encoding fails for
    an instant outside the years above; decoding what was encoded gives the value
    back as JSON can hold it ([json_state] and the like): text that is not UTF-8 is
    replaced, an empty map is left out. *)
Class StructJson := {
  FormatNano : Time -> string;
  ParseNano : string -> option Time;
  nano_roundtrip : forall t, time_ok t -> ParseNano (FormatNano t) = Some t;
  nano_nonempty : forall t, FormatNano t <> "";
  nano_empty : ParseNano "" = None;
  state_Marshal : JobState -> string + error;
  state_Unmarshal : string -> JobState + error;
  json_state : JobState -> JobState;
  state_roundtrip : forall st, time_ok (st_CreatedAt st) ->
    exists raw, state_Marshal st = inl raw /\ state_Unmarshal raw = inl (json_state st);
  json_state_name : forall st, ascii_text (st_Name st) = true -> st_Name (json_state st) = st_Name st;
  json_state_plain : forall st, state_plain st -> json_state st = st;
  server_Marshal : ServerInfo -> string + error;
  server_Unmarshal : string -> ServerInfo + error;
  json_server : ServerInfo -> ServerInfo;
  server_roundtrip : forall sv, time_ok (sv_StartedAt sv) -> time_ok (sv_LastHeartbeat sv) ->
    exists raw, server_Marshal sv = inl raw /\ server_Unmarshal raw = inl (json_server sv);
  recurring_Marshal : RecurringJobEntry -> string + error;
  recurring_Unmarshal : string -> RecurringJobEntry + error;
  json_recurring : RecurringJobEntry -> RecurringJobEntry;
  recurring_roundtrip : forall e,
    time_ok (re_CreatedAt e) -> time_ok (re_UpdatedAt e) ->
    (forall t, re_LastRun e = Some t \/ re_NextRun e = Some t -> time_ok t) ->
    exists raw, recurring_Marshal e = inl raw /\ recurring_Unmarshal raw = inl (json_recurring e);
  continuation_Marshal : ContinuationEntry -> string + error;
  continuation_Unmarshal : string -> ContinuationEntry + error;
  json_continuation : ContinuationEntry -> ContinuationEntry;
  continuation_roundtrip : forall e, time_ok (ce_CreatedAt e) ->
    exists raw, continuation_Marshal e = inl raw /\ continuation_Unmarshal raw = inl (json_continuation e);
}.

(** ** Durations *)
Definition timeoutMS (d : Duration) : Z := if d <=? 0 then 0 else Z.quot d Millisecond.

Definition durationFromMS (ms : Z) : Duration := if ms <=? 0 then 0 else mul64 ms Millisecond.

(** ** Structs *)
Definition wrapped {A} (text : string) (r : A + error) : A + error :=
  match r with
  | inl a => inl a
  | inr err => inr (ErrWrap (text +:+ ": " +:+ Error err) err)
  end.

Section Codec.
Context `{Env} `{StructJson}.

Definition marshalState (st : JobState) : string + error := wrapped "marshal state" (state_Marshal st).
Definition unmarshalState (raw : string) : JobState + error :=
  wrapped "unmarshal state" (state_Unmarshal raw).
Definition marshalServer (sv : ServerInfo) : string + error := wrapped "marshal server" (server_Marshal sv).
Definition unmarshalServer (raw : string) : ServerInfo + error :=
  wrapped "unmarshal server" (server_Unmarshal raw).
Definition marshalRecurring (e : RecurringJobEntry) : string + error :=
  wrapped "marshal recurring" (recurring_Marshal e).
Definition unmarshalRecurring (raw : string) : RecurringJobEntry + error :=
  wrapped "unmarshal recurring" (recurring_Unmarshal raw).
Definition marshalContinuation (e : ContinuationEntry) : string + error :=
  wrapped "marshal continuation" (continuation_Marshal e).
Definition unmarshalContinuation (raw : string) : ContinuationEntry + error :=
  wrapped "unmarshal continuation" (continuation_Unmarshal raw).

(** [string(b)]. *)
Definition text_of (b : bytes) : string := default "" b.

(** The fields that are always there, given the reading of the clock for "updated_at". *)
Definition base_fields (now : Time) (job : Job) (state : string) : gmap string string :=
  {[ "id" := ID job; "name" := Name job; "args" := text_of (Args job); "queue" := Queue job;
     "retry_max" := Itoa (RetryMax job); "timeout_ms" := Itoa (timeoutMS (Timeout job));
     "created_at" := FormatNano (CreatedAt job); "updated_at" := FormatNano now; "state" := state ]}.

Definition hash_fields (now : Time) (job : Job) (state : string) (progressAt : Time)
    : gmap string string :=
  let fields := base_fields now job state in
  let fields := if IsZero progressAt then fields
                else <["progress_at" := FormatNano progressAt]> fields in
  if 0 <? blen (Result job) then <["result" := text_of (Result job)]> fields else fields.

Definition jobHashFields {S} (job : Job) (state : string) (progressAt : Time)
    : M S (gmap string string) :=
  now <- time_Now ;; mret (hash_fields now job state progressAt).

(** A field of a Go map, "" when absent. *)
Definition field (fields : gmap string string) (k : string) : string := default "" (fields !! k).

(** The job, its state and its last heartbeat. *)
Definition jobFromHash (fields : gmap string string) : (Job * string * Time) + error :=
  let id := field fields "id" in
  if decide (id = "") then inr (ErrText "job hash missing id") else
  let retryMax := ParseIntValue (field fields "retry_max") in
  let timeoutMSVal := ParseIntValue (field fields "timeout_ms") in
  let createdAt := default time_zero (ParseNano (field fields "created_at")) in
  let progressAt := default time_zero (ParseNano (field fields "progress_at")) in
  let j := mkJob id (field fields "name") (Some (field fields "args")) (field fields "queue") retryMax
             (durationFromMS timeoutMSVal) "" createdAt None in
  let r := field fields "result" in
  let j := if decide (r <> "") then set_Result (Some r) j else j in
  inl (j, field fields "state", progressAt).

(** What survives of a job: the idempotency key is not stored, a nil result and an
    empty one are the same, the timeout is kept in milliseconds. *)
Definition stored_job (j : Job) : Job :=
  mkJob (ID j) (Name j) (Some (text_of (Args j))) (Queue j) (RetryMax j)
    (durationFromMS (timeoutMS (Timeout j))) "" (CreatedAt j) (bclone (Result j)).

End Codec.

#[global] Arguments jobFromHash : simpl never.
#[global] Arguments hash_fields : simpl never.
#[global] Arguments timeoutMS : simpl never.
#[global] Arguments durationFromMS : simpl never.

(** ** Round trips *)
Section RoundTrip.
Context {EV : Env} {SJ : StructJson}.

Lemma timeoutMS_ok d : int64_ok d -> int64_ok (timeoutMS d).
Proof.
  unfold int64_ok, timeoutMS, Millisecond. intros Hd. destruct (Z.leb_spec d 0); [lia|].
  rewrite Z.quot_div_nonneg by lia.
  pose proof (Z.div_pos d 1000000). pose proof (Z.div_lt_upper_bound d 1000000 (2 ^ 63)). lia.
Qed.

(** The timeout that is kept: the largest multiple of a millisecond below it. *)
Lemma timeout_kept d :
  int64_ok d -> durationFromMS (timeoutMS d) = if d <=? 0 then 0 else d - d mod Millisecond.
Proof.
  intros Hd. unfold durationFromMS, timeoutMS. destruct (Z.leb_spec d 0); [done|].
  unfold Millisecond, int64_ok in *. rewrite Z.quot_div_nonneg by lia.
  pose proof (Z.div_mod d 1000000). pose proof (Z.mod_pos_bound d 1000000).
  destruct (Z.leb_spec (d / 1000000) 0).
  - assert (d / 1000000 = 0) by (pose proof (Z.div_pos d 1000000); lia). lia.
  - unfold mul64. rewrite wrap64_small by (unfold int64_ok; lia). lia.
Qed.

Lemma bclone_result r : 0 < blen r -> bclone r = r /\ exists s, r = Some s /\ s <> "".
Proof.
  destruct r as [[|c s]|]; unfold blen; simpl; try lia. intros _. split; [done|]. by eexists.
Qed.

Lemma bclone_empty r : blen r <= 0 -> bclone r = None.
Proof. destruct r as [[|c s]|]; unfold blen; simpl; done || lia. Qed.

(** The fields of a hash, whatever the optional ones are. *)
Lemma hash_field now j st p k :
  k <> "progress_at" -> k <> "result" -> hash_fields now j st p !! k = base_fields now j st !! k.
Proof.
  intros H1 H2. unfold hash_fields.
  destruct (0 <? blen (Result j)), (IsZero p); by rewrite ?lookup_insert_ne by done.
Qed.

Lemma field_result now j st p : field (hash_fields now j st p) "result" = text_of (bclone (Result j)).
Proof.
  unfold field, hash_fields. destruct (Z.ltb_spec 0 (blen (Result j))) as [Hr|Hr].
  - rewrite lookup_insert_eq. by destruct (bclone_result _ Hr) as [-> _].
  - rewrite (bclone_empty _ Hr). destruct (IsZero p); [|rewrite lookup_insert_ne by done]; reflexivity.
Qed.

Lemma field_progress now j st p :
  field (hash_fields now j st p) "progress_at" = if IsZero p then "" else FormatNano p.
Proof.
  unfold field, hash_fields. destruct (0 <? blen (Result j)); [rewrite lookup_insert_ne by done|];
    destruct (IsZero p); rewrite ?lookup_insert_eq; reflexivity.
Qed.

(** What reading the fields of a job gives, whatever its timeout. *)
Definition read_job (j : Job) : Job :=
  mkJob (ID j) (Name j) (Some (text_of (Args j))) (Queue j) (RetryMax j)
    (durationFromMS (ParseIntValue (Itoa (timeoutMS (Timeout j))))) "" (CreatedAt j) (bclone (Result j)).

Lemma hash_fields_read now (j : Job) state p :
  ID j <> "" -> int64_ok (RetryMax j) -> time_ok (CreatedAt j) -> time_ok p ->
  jobFromHash (hash_fields now j state p) = inl (read_job j, state, p).
Proof.
  intros Hid Hmax Hc Hp. unfold jobFromHash. rewrite field_result, field_progress.
  unfold field. rewrite !(hash_field now j state p) by done.
  change (base_fields now j state !! "id") with (Some (ID j)).
  change (base_fields now j state !! "name") with (Some (Name j)).
  change (base_fields now j state !! "args") with (Some (text_of (Args j))).
  change (base_fields now j state !! "queue") with (Some (Queue j)).
  change (base_fields now j state !! "retry_max") with (Some (Itoa (RetryMax j))).
  change (base_fields now j state !! "timeout_ms") with (Some (Itoa (timeoutMS (Timeout j)))).
  change (base_fields now j state !! "created_at") with (Some (FormatNano (CreatedAt j))).
  change (base_fields now j state !! "state") with (Some state).
  cbn [from_option id]. rewrite decide_False by done.
  rewrite (ParseIntValue_Itoa (RetryMax j)), nano_roundtrip by done. cbn [from_option id].
  assert (default time_zero (ParseNano (if IsZero p then "" else FormatNano p)) = p) as ->.
  { destruct (IsZero p) eqn:Hz; [|by rewrite nano_roundtrip].
    rewrite nano_empty. unfold IsZero in Hz. cbn. lia. }
  do 3 f_equal. unfold read_job. destruct (bclone (Result j)) as [r|] eqn:Hr; cbn [text_of from_option id].
  - rewrite decide_True; [done|]. intros ->. by destruct (Result j) as [[]|].
  - by rewrite decide_False by tauto.
Qed.

End RoundTrip.

(** ** A concrete codec

    A struct is written as the binary numeral of its encoding as a positive
    number, an instant in decimal. *)
Section Concrete.
#[local] Instance JobState_countable : Countable JobState.
Proof.
  apply (inj_countable' (fun st => (st_Name st, st_Reason st, st_Data st, st_CreatedAt st))
    (fun '(n, r, d, t) => mkJobState n r d t)). by intros [].
Defined.
#[local] Instance ServerInfo_countable : Countable ServerInfo.
Proof.
  apply (inj_countable'
    (fun sv => (sv_ID sv, sv_StartedAt sv, sv_LastHeartbeat sv, sv_WorkerCount sv, sv_Queues sv, sv_Status sv))
    (fun '(i, a, h, w, q, s) => mkServerInfo i a h w q s)). by intros [].
Defined.
#[local] Instance Recurring_countable : Countable RecurringJobEntry.
Proof.
  apply (inj_countable'
    (fun e => (re_ID e, re_JobName e, re_Args e, re_Queue e, re_CronExpr e, re_LastRun e, re_NextRun e,
               re_Enabled e, re_CreatedAt e, re_UpdatedAt e))
    (fun '(i, j, a, q, c, l, n, b, t, u) => mkRecurringJobEntry i j a q c l n b t u)). by intros [].
Defined.
#[local] Instance Continuation_countable : Countable ContinuationEntry.
Proof.
  apply (inj_countable'
    (fun e => (ce_ChildName e, ce_ChildArgs e, ce_ChildQueue e, ce_Condition e, ce_CreatedAt e))
    (fun '(n, a, q, c, t) => mkContinuationEntry n a q c t)). by intros [].
Defined.

Definition to_text `{Countable A} (a : A) : string + error := inl (bits (encode a)).
Definition of_text `{Countable A} (s : string) : A + error :=
  match unbits s with
  | Some p => match decode p with Some a => inl a | None => inr (ErrText "invalid") end
  | None => inr (ErrText "invalid")
  end.

Lemma text_roundtrip `{Countable A} (a : A) :
  exists raw, to_text a = inl raw /\ of_text raw = inl a.
Proof.
  eexists. split; [done|]. unfold of_text. by rewrite unbits_bits, decode_encode.
Qed.

Definition plain_json : StructJson.
Proof.
  refine {| FormatNano := Itoa; ParseNano := signed;
            state_Marshal := to_text; state_Unmarshal := of_text; json_state st := st;
            server_Marshal := to_text; server_Unmarshal := of_text; json_server sv := sv;
            recurring_Marshal := to_text; recurring_Unmarshal := of_text; json_recurring e := e;
            continuation_Marshal := to_text; continuation_Unmarshal := of_text;
            json_continuation e := e |};
    intros; auto using text_roundtrip, signed_Itoa, Itoa_nonempty.
Defined.
End Concrete.
