(* ===== verification/Redis.v ===== *)
(** * The Redis backend (internal/storage/redis: storage.go, jobs.go, scheduled.go, misc.go, retry.go)

    One definition per method.  Every command goes through [call] or [pipeline],
    so that it can be refused, cut short or delayed after what other clients did;
    the four Lua scripts are translated command by command. *)
From S2P Require Import Prelude.
From S2P Require Import GoTime.
From S2P Require Import Strconv.
From S2P Require Import Job.
From S2P Require Import StorageI.
From S2P Require Import RedisServer.
From S2P Require Import RedisCodec.

(** A lock handle; [lk_owner] is drawn by [AcquireLock]. *)
Record redisLock := mkRedisLock { lk_resource : string; lk_owner : string }.

Section Operations.
Context {EV : Env} {R : Type} {RD : Redis R} {NW : Network R} {SJ : StructJson}.

Abbreviation St := (Storage R).

(** ** storage.go *)
Definition New (c : R) : St := mkStorage c "local".

Definition NewWithServerID (c : R) (serverID : string) : St :=
  mkStorage c (if decide (serverID = "") then "local" else serverID).

Definition SetServerID (id : string) : M St unit :=
  mmodify (fun s => mkStorage (client s) (if decide (id = "") then "local" else id)).

Definition bumpCounter (ctx : Ctx) (key : string) (delta : Z) : M St unit :=
  wrap_err ("bump counter " +:+ key) (call ctx (command (INCRBY (counterKey key) delta)) ;;; mret tt).

(** [if err != nil { return err }] around a marshalling function. *)
Definition encoded (r : string + error) : M St string :=
  match r with inl raw => mret raw | inr err => mthrow err end.

Definition decoded {A} (r : A + error) : M St A :=
  match r with inl a => mret a | inr err => mthrow err end.

(** [rep, err := ...; if err != nil { return fmt.Errorf(text, err) }]. *)
Definition call_map (text : string) (ctx : Ctx) (k : string) : M St (gmap string string) :=
  wrap_err text (rep <- call ctx (command (HGETALL k)) ;; as_map rep).
Definition call_members (text : string) (ctx : Ctx) (k : string) : M St (list string) :=
  wrap_err text (rep <- call ctx (command (SMEMBERS k)) ;; as_members rep).
Definition call_exists (text : string) (ctx : Ctx) (k : string) : M St Z :=
  wrap_err text (rep <- call ctx (command (EXISTS k)) ;; as_int rep).

(** ** jobs.go: the scripts *)

Definition finalizeDequeueScript (job_key states_key processing_key state_old state_new counter_key
    jobID now stateJSON processingVal : string) : request R := script (fun t =>
  let! e := redis_call t (EXISTS job_key) in
  match e with
  | RInt 0 => lua_ret (RInt (-1))
  | _ =>
    do! redis_call t (HSET job_key
      {[ "state" := "Processing"; "progress_at" := now; "updated_at" := now ]}) in
    do! redis_call t (RPUSH states_key stateJSON) in
    do! redis_call t (HSET processing_key {[ jobID := processingVal ]}) in
    do! redis_call t (SREM state_old jobID) in
    do! redis_call t (SADD state_new jobID) in
    do! redis_call t (INCRBY counter_key 1) in
    lua_ret (RInt 1)
  end).

Definition applyStateScript (job_key states_key processing_key state_old state_new counter_key
    expected state now clear stateJSON jobID counterName : string) : request R := script (fun t =>
  let! current := redis_call t (HGET job_key "state") in
  match current with
  | RBulk current =>
    if decide (current <> expected) then lua_ret (RInt (-2)) else
    do! redis_call t (HSET job_key {[ "state" := state; "updated_at" := now ]}) in
    do! (if decide (clear = "1")
         then do! redis_call t (HDEL job_key "progress_at") in lua_ret tt else lua_ret tt) in
    do! redis_call t (RPUSH states_key stateJSON) in
    do! redis_call t (SREM state_old jobID) in
    do! redis_call t (SADD state_new jobID) in
    do! (if decide (expected = "Processing" /\ state <> "Processing")
         then do! redis_call t (HDEL processing_key jobID) in lua_ret tt else lua_ret tt) in
    do! (if decide (counterName <> "")
         then do! redis_call t (INCRBY counter_key 1) in lua_ret tt else lua_ret tt) in
    lua_ret (RInt 1)
  | _ => lua_ret (RInt (-1))
  end).

(** ** jobs.go *)

(** What [Enqueue] and [AddScheduled] assign to the caller's job. *)
Definition named_job (id : string) (now : Time) (queue : string) (job : Job) : Job :=
  let job := set_Queue queue (set_ID id job) in
  let job := if decide (RetryMax job = 0) then set_RetryMax 10 job else job in
  let job := match Args job with None => set_Args (Some "[]") job | Some _ => job end in
  set_CreatedAt now job.

Definition Enqueue (ctx : Ctx) (queue : string) (job : Job) : M St string :=
  id <- (if decide (ID job = "") then uuid_NewString else mret (ID job)) ;;
  let queue := if decide (queue = "") then "default" else queue in
  now <- time_Now ;;
  let job := named_job id now queue job in
  stateJSON <- encoded (marshalState (mkJobState StateEnqueued "" None now)) ;;
  fields <- jobHashFields job StateEnqueued time_zero ;;
  wrap_err "enqueue" (pipeline ctx
    [ command (HSET (jobKey (ID job)) fields);
      command (RPUSH (jobStatesKey (ID job)) stateJSON);
      command (LPUSH (queueKey queue) (ID job));
      command (SADD queuesIndexKey queue);
      command (SADD (stateIndexKey StateEnqueued) (ID job));
      command (INCRBY (counterKey "enqueued") 1) ]) ;;;
  mret (ID job).

Definition strconvUnix (t : Time) : string := Itoa (UnixNano t).

(** What a blocking pop comes back with; [PopBlocked] is one still blocked when its
    awakenings end. *)
Inductive pop :=
  | PopBlocked
  | Popped (result : list string) (rest : list (wake St))
  | PopNil
  | PopErr (ctx_err : option error) (err : error).

(** The wait in the server: each awakening comes after what others did. *)
Fixpoint brpop_wait (keys : list string) (wakes : list (wake St)) : M St pop :=
  match wakes with
  | [] => mret PopBlocked
  | w :: wakes =>
    interleave (wk_others w) ;;;
    match wk_kind w with
    | WakeCtx err => mret (PopErr (Some err) err)
    | WakeTimeout => mret PopNil
    | WakeSignal | WakeTick =>
      rep <- serve (command (BRPOP keys)) ;;
      match rep with
      | RArray l => mret (Popped l wakes)
      | RErr msg => mret (PopErr None (ErrText msg))
      | _ => brpop_wait keys wakes
      end
    end
  end.

Definition BRPop (ctx : Ctx) (keys : list string) (wakes : list (wake St)) : M St pop :=
  rep <- mtry (call ctx (command (BRPOP keys))) ;;
  match rep with
  | inr err => mret (PopErr (match ctx with Done e => Some e | Live => None end) err)
  | inl (RArray l) => mret (Popped l wakes)
  | inl _ => brpop_wait keys wakes
  end.

(** The second half of [Dequeue], once a job is popped: [None] when it is gone. *)
Definition finalizeDequeue (ctx : Ctx) (jobID : string) : M St (option JobTicket) :=
  now <- time_Now ;;
  s <- mget ;;
  let token := "tok-" +:+ jobID +:+ "-" +:+ Itoa (UnixNano now) in
  stateJSON <- encoded (marshalState
    (mkJobState StateProcessing "" (Some {[ "server_id" := serverID s ]}) now)) ;;
  let processingVal := serverID s +:+ "|" +:+ token +:+ "|" +:+ strconvUnix now in
  res <- wrap_err "dequeue finalize" (rep <- call ctx (finalizeDequeueScript
      (jobKey jobID) (jobStatesKey jobID) processingKey (stateIndexKey StateEnqueued)
      (stateIndexKey StateProcessing) (counterKey "dequeued")
      jobID (FormatNano now) stateJSON processingVal) ;; as_int rep) ;;
  if res =? -1 then mret None else mret (Some (mkJobTicket jobID token)).

(** The loop of [Dequeue]: a popped job that is gone is dropped and the wait begins
    again. *)
Fixpoint dequeueLoop (fuel : nat) (ctx : Ctx) (keys : list string) (wakes : list (wake St))
    : M St (option JobTicket) :=
  match fuel with
  | O => mret None
  | S fuel =>
    p <- BRPop ctx keys wakes ;;
    match p with
    | PopBlocked => mret None
    | PopNil => mthrow ErrQueueEmpty
    | PopErr (Some ctx_err) _ => mthrow ctx_err
    | PopErr None err => mthrow (ErrWrap ("dequeue brpop: " +:+ Error err) err)
    | Popped (_ :: jobID :: _) wakes =>
      ticket <- finalizeDequeue ctx jobID ;;
      match ticket with
      | Some t => mret (Some t)
      | None => dequeueLoop fuel ctx keys wakes
      end
    | Popped _ wakes => dequeueLoop fuel ctx keys wakes
    end
  end.

(** Entries waiting in the queues. *)
Definition backlog (keys : list string) (s : St) : nat :=
  sum_list ((fun k => length (default [] (list_at (keys_of (client s)) k))) <$> keys).

(** The fuel: one turn per entry that waits at the call, and one per awakening. *)
Definition Dequeue (ctx : Ctx) (queues : list string) (timeout : Duration) (wakes : list (wake St))
    : M St (option JobTicket) :=
  if decide (length queues = 0%nat) then mthrow ErrQueueEmpty else
  let keys := queueKey <$> queues in
  s <- mget ;;
  dequeueLoop (S (backlog keys s + length wakes)) ctx keys wakes.

Definition Requeue (ctx : Ctx) (jobID reason : string) : M St unit :=
  exists_ <- call_exists "requeue exists" ctx (jobKey jobID) ;;
  if exists_ =? 0 then mthrow ErrNotFound else
  currentState <- wrap_err "requeue hget state"
    (rep <- call ctx (command (HGET (jobKey jobID) "state")) ;; as_string rep) ;;
  if IrreversibleStates currentState then mthrow ErrTerminalState else
  fields <- call_map "requeue hgetall" ctx (jobKey jobID) ;;
  let queue := if decide (field fields "queue" = "") then "default" else field fields "queue" in
  now <- time_Now ;;
  stateJSON <- encoded (marshalState (mkJobState StateEnqueued reason None now)) ;;
  wrap_err "requeue" (pipeline ctx
    [ command (HSET (jobKey jobID) {[ "state" := StateEnqueued; "updated_at" := FormatNano now ]});
      command (HDEL (jobKey jobID) "progress_at");
      command (RPUSH (jobStatesKey jobID) stateJSON);
      command (LPUSH (queueKey queue) jobID);
      command (HDEL processingKey jobID);
      command (SREM (stateIndexKey StateProcessing) jobID);
      command (SADD (stateIndexKey StateEnqueued) jobID) ]).

Definition ApplyState (ctx : Ctx) (jobID expectedCurrent : string) (newState : JobState)
    : M St unit :=
  newState <- (if IsZero (st_CreatedAt newState)
               then now <- time_Now ;; mret (set_st_CreatedAt now newState)
               else mret newState) ;;
  stateJSON <- encoded (marshalState newState) ;;
  let clearProgress := if decide (st_Name newState <> StateProcessing) then "1" else "0" in
  let counterName := if decide (st_Name newState = StateSucceeded) then "succeeded"
                     else if decide (st_Name newState = StateFailed) then "failed" else "" in
  res <- wrap_err "applystate" (rep <- call ctx (applyStateScript
      (jobKey jobID) (jobStatesKey jobID) processingKey (stateIndexKey expectedCurrent)
      (stateIndexKey (st_Name newState)) (counterKey counterName)
      expectedCurrent (st_Name newState) (FormatNano (st_CreatedAt newState))
      clearProgress stateJSON jobID counterName) ;; as_int rep) ;;
  if res =? -1 then mthrow ErrNotFound
  else if res =? -2 then mthrow ErrStateConflict
  else mret tt.

Definition HeartbeatJob (ctx : Ctx) (jobID : string) : M St unit :=
  exists_ <- call_exists "heartbeat exists" ctx (jobKey jobID) ;;
  if exists_ =? 0 then mthrow ErrNotFound else
  now <- time_Now ;;
  let now := FormatNano now in
  wrap_err "heartbeat job" (call ctx (command (HSET (jobKey jobID) {[ "progress_at" := now ]}))) ;;;
  s <- mget ;;
  wrap_err "heartbeat processing"
    (call ctx (command (HSET processingKey {[ jobID := serverID s +:+ "|heartbeat|" +:+ now ]}))) ;;;
  mret tt.

(** One turn of the loop of [GetOrphanedJobs]: whether the job is reported. *)
Definition orphaned (ctx : Ctx) (cutoff : Time) (jobID : string) : M St bool :=
  raw <- mtry (rep <- call ctx (command (HGET (jobKey jobID) "progress_at")) ;; as_string rep) ;;
  match raw with
  | inr _ => mret true
  | inl raw =>
    if decide (raw = "") then mret true else
    match ParseNano raw with
    | None => mret true
    | Some progressAt => mret (Before progressAt cutoff)
    end
  end.

Definition GetOrphanedJobs (ctx : Ctx) (staleAge : Duration) : M St (list JobTicket) :=
  now <- time_Now ;;
  let cutoff := Add now (wrap64 (- staleAge)) in
  members <- call_members "orphaned smembers" ctx (stateIndexKey StateProcessing) ;;
  found <- mmap members (fun jobID => b <- orphaned ctx cutoff jobID ;; mret (jobID, b)) ;;
  mret ((fun p => mkJobTicket p.1 ("orphan-" +:+ p.1)) <$> filter (fun p => p.2 = true) found).

Definition loadStates (ctx : Ctx) (jobID : string) : M St (list JobState) :=
  raw <- wrap_err "load states" (rep <- call ctx (command (LRANGE (jobStatesKey jobID))) ;; as_list rep) ;;
  mmap raw (fun r => decoded (unmarshalState r)).

Definition GetJob (ctx : Ctx) (jobID : string) : M St JobWithStates :=
  fields <- call_map "get job" ctx (jobKey jobID) ;;
  if decide (fields = ∅) then mthrow ErrNotFound else
  job <- decoded (jobFromHash fields) ;;
  states <- loadStates ctx jobID ;;
  mret (mkJobWithStates job.1.1 states).

(** The states [GetJobsByState] looks through for "". *)
Definition indexed_states : list string :=
  [StateEnqueued; StateProcessing; StateScheduled; StateSucceeded; StateFailed; StateDeleted].

(** One turn of its last loop. *)
Definition listed_job (ctx : Ctx) (state id : string) : M St (option JobWithStates) :=
  jws <- mtry (GetJob ctx id) ;;
  match jws with
  | inr err => if errors_Is err ErrNotFound then mret None else mthrow err
  | inl jws => if decide (state <> "" /\ CurrentState jws <> state) then mret None else mret (Some jws)
  end.

Definition GetJobsByState (ctx : Ctx) (state : string) (offset limit : Z) : M St (list JobWithStates) :=
  let limit := if limit <=? 0 then 100 else limit in
  jobIDs <- (if decide (state = "")
             then idss <- mmap indexed_states (fun st =>
                    call_members "jobs by state smembers" ctx (stateIndexKey st)) ;; mret (concat idss)
             else call_members "jobs by state" ctx (stateIndexKey state)) ;;
  if Z.of_nat (length jobIDs) <=? offset then mret [] else
  if offset <? 0 then mpanic "slice bounds out of range" else
  let jobIDs := take (Z.to_nat limit) (drop (Z.to_nat offset) jobIDs) in
  result <- mmap jobIDs (listed_job ctx state) ;;
  mret (omap (fun o => o) result).

Definition GetQueueLength (ctx : Ctx) (queue : string) : M St Z :=
  wrap_err "queue length" (rep <- call ctx (command (LLEN (queueKey queue))) ;; as_int rep).

Definition GetQueues (ctx : Ctx) : M St (list string) := call_members "get queues" ctx queuesIndexKey.

Definition DeleteJob (ctx : Ctx) (jobID : string) : M St unit :=
  exists_ <- call_exists "delete exists" ctx (jobKey jobID) ;;
  if exists_ =? 0 then mthrow ErrNotFound else
  currentState <- wrap_err "delete hget"
    (rep <- call ctx (command (HGET (jobKey jobID) "state")) ;; as_string rep) ;;
  if IrreversibleStates currentState then mthrow ErrTerminalState else
  now <- time_Now ;;
  stateJSON <- encoded (marshalState (mkJobState StateDeleted "" None now)) ;;
  wrap_err "delete pipeline" (pipeline ctx
    [ command (HSET (jobKey jobID) {[ "state" := StateDeleted; "updated_at" := FormatNano now ]});
      command (HDEL (jobKey jobID) "progress_at");
      command (RPUSH (jobStatesKey jobID) stateJSON) ]).

Definition EnqueueIdempotent (ctx : Ctx) (queue : string) (job : Job) : M St (string * bool) :=
  let key := IdempotencyKey job in
  existing <- (if decide (key <> "")
               then mtry (rep <- call ctx (command (GET (idempotencyKey key))) ;; as_string rep)
               else mret (inl "")) ;;
  match existing with
  | inl (String _ _ as id) => mret (id, false)
  | _ =>
    id <- Enqueue ctx queue job ;;
    (if decide (key <> "")
     then mtry (call ctx (command (SET (idempotencyKey key) id))) ;;; mret tt else mret tt) ;;;
    mret (id, true)
  end.

(** ** scheduled.go *)

Definition promoteScheduledScript (scheduled_key : string) (now batch : Z) : request R := script (fun t =>
  let! ids := redis_call t (ZRANGEBYSCORE scheduled_key now batch) in
  match ids with
  | RArray ids =>
    do! lua_for ids (fun job_id => do! redis_call t (ZREM scheduled_key job_id) in lua_ret tt) in
    lua_ret (RArray ids)
  | _ => lua_ret (RArray [])
  end).

Definition AddScheduled (ctx : Ctx) (enqueueAt : Time) (job : Job) : M St string :=
  id <- (if decide (ID job = "") then uuid_NewString else mret (ID job)) ;;
  now <- time_Now ;;
  let job := named_job id now (if decide (Queue job = "") then "default" else Queue job) job in
  stateJSON <- encoded (marshalState (mkJobState StateScheduled ""
    (Some {[ "enqueue_at" := FormatRFC3339 enqueueAt ]}) now)) ;;
  fields <- jobHashFields job StateScheduled time_zero ;;
  wrap_err "add scheduled" (pipeline ctx
    [ command (HSET (jobKey (ID job)) fields);
      command (RPUSH (jobStatesKey (ID job)) stateJSON);
      command (ZADD scheduledKey (Unix enqueueAt) (ID job));
      command (SADD (stateIndexKey StateScheduled) (ID job));
      command (INCRBY (counterKey "scheduled") 1) ]) ;;;
  mret (ID job).

(** One turn of the loop of [GetDueScheduled]. *)
Definition promote (ctx : Ctx) (ts : Time) (jobID : string) : M St (option JobTicket) :=
  fields <- mtry (rep <- call ctx (command (HGETALL (jobKey jobID))) ;; as_map rep) ;;
  match fields with
  | inr _ => mret None
  | inl fields =>
    if decide (fields = ∅) then mret None else
    let queue := if decide (field fields "queue" = "") then "default" else field fields "queue" in
    stateJSON <- encoded (marshalState (mkJobState StateEnqueued "scheduled" None ts)) ;;
    wrap_err ("promote scheduled " +:+ jobID) (pipeline ctx
      [ command (HSET (jobKey jobID) {[ "state" := StateEnqueued; "updated_at" := FormatNano ts ]});
        command (RPUSH (jobStatesKey jobID) stateJSON);
        command (LPUSH (queueKey queue) jobID);
        command (SADD queuesIndexKey queue);
        command (SREM (stateIndexKey StateScheduled) jobID);
        command (SADD (stateIndexKey StateEnqueued) jobID);
        command (INCRBY (counterKey "scheduled") (-1));
        command (INCRBY (counterKey "enqueued") 1) ]) ;;;
    mret (Some (mkJobTicket jobID ("sched-" +:+ jobID)))
  end.

Definition GetDueScheduled (ctx : Ctx) (now : Time) (batchSize : Z) : M St (list JobTicket) :=
  let batchSize := if batchSize <=? 0 then 100 else batchSize in
  raw <- wrap_err "due scheduled"
    (rep <- call ctx (promoteScheduledScript scheduledKey (Unix now) batchSize) ;; as_list rep) ;;
  ts <- time_Now ;;
  tickets <- mmap raw (promote ctx ts) ;;
  mret (omap (fun o => o) tickets).

Definition RemoveScheduled (ctx : Ctx) (jobID : string) : M St unit :=
  wrap_err "remove scheduled" (call ctx (command (ZREM scheduledKey jobID)) ;;; mret tt).

Definition UpsertRecurring (ctx : Ctx) (entry : RecurringJobEntry) : M St unit :=
  now <- time_Now ;;
  let created := if IsZero (re_CreatedAt entry) then now else re_CreatedAt entry in
  let args := match re_Args entry with None => Some "[]" | Some a => Some a end in
  let queue := if decide (re_Queue entry = "") then "default" else re_Queue entry in
  let entry := mkRecurringJobEntry (re_ID entry) (re_JobName entry) args queue (re_CronExpr entry)
                 (re_LastRun entry) (re_NextRun entry) (re_Enabled entry) created now in
  raw <- encoded (marshalRecurring entry) ;;
  wrap_err "upsert recurring" (call ctx (command (HSET recurringKey {[ re_ID entry := raw ]})) ;;; mret tt).

Definition RemoveRecurring (ctx : Ctx) (id : string) : M St unit :=
  wrap_err "remove recurring" (call ctx (command (HDEL recurringKey id)) ;;; mret tt).

(** A loop over the values of a Go map. *)
Definition decode_values {A} (unmarshal : string -> A + error) (m : gmap string string) : M St (list A) :=
  ks <- range_keys m ;;
  mmap (omap (fun k => m !! k) ks) (fun v => decoded (unmarshal v)).

Definition GetRecurringJobs (ctx : Ctx) : M St (list RecurringJobEntry) :=
  raw <- call_map "get recurring" ctx recurringKey ;;
  decode_values unmarshalRecurring raw.

(** [raw, err := HGet(...)]: a missing field is ErrNotFound. *)
Definition hget_or_not_found (text : string) (ctx : Ctx) (k f : string) : M St string :=
  raw <- mtry (rep <- call ctx (command (HGET k f)) ;; as_string rep) ;;
  match raw with
  | inl raw => mret raw
  | inr err => if decide (err = RedisNil) then mthrow ErrNotFound
               else mthrow (ErrWrap (text +:+ ": " +:+ Error err) err)
  end.

Definition UpdateRecurringLastRun (ctx : Ctx) (id : string) (lastRun nextRun : Time) : M St unit :=
  raw <- hget_or_not_found "update recurring last_run get" ctx recurringKey id ;;
  entry <- decoded (unmarshalRecurring raw) ;;
  now <- time_Now ;;
  let entry := mkRecurringJobEntry (re_ID entry) (re_JobName entry) (re_Args entry) (re_Queue entry)
                 (re_CronExpr entry) (Some lastRun) (Some nextRun) (re_Enabled entry)
                 (re_CreatedAt entry) now in
  raw <- encoded (marshalRecurring entry) ;;
  wrap_err "update recurring last_run" (call ctx (command (HSET recurringKey {[ id := raw ]})) ;;; mret tt).

Definition AddContinuation (ctx : Ctx) (parentID : string) (entry : ContinuationEntry) : M St unit :=
  now <- time_Now ;;
  let entry := mkContinuationEntry (ce_ChildName entry)
    (match ce_ChildArgs entry with None => Some "[]" | Some a => Some a end)
    (if decide (ce_ChildQueue entry = "") then "default" else ce_ChildQueue entry)
    (ce_Condition entry) now in
  entryID <- uuid_NewString ;;
  raw <- encoded (marshalContinuation entry) ;;
  wrap_err "add continuation" (pipeline ctx
    [ command (SADD (continuationsKey parentID) entryID);
      command (SET (continuationEntryKey parentID entryID) raw) ]).

(** One turn of the loop of [GetContinuations]. *)
Definition load_continuation (ctx : Ctx) (parentID id : string) : M St (option ContinuationEntry) :=
  raw <- mtry (rep <- call ctx (command (GET (continuationEntryKey parentID id))) ;; as_string rep) ;;
  match raw with
  | inr err => if decide (err = RedisNil) then mret None else mthrow err
  | inl raw => e <- decoded (unmarshalContinuation raw) ;; mret (Some e)
  end.

Definition GetContinuations (ctx : Ctx) (parentID : string) : M St (list ContinuationEntry) :=
  ids <- call_members "get continuations" ctx (continuationsKey parentID) ;;
  es <- mmap ids (load_continuation ctx parentID) ;;
  mret (omap (fun o => o) es).

Definition RemoveContinuations (ctx : Ctx) (parentID : string) : M St unit :=
  ids <- call_members "remove continuations list" ctx (continuationsKey parentID) ;;
  wrap_err "remove continuations" (pipeline ctx
    (command (DEL (continuationsKey parentID))
     :: ((fun id => command (DEL (continuationEntryKey parentID id))) <$> ids))).

(** ** misc.go *)

Definition releaseLockScript (k owner : string) : request R := script (fun t =>
  let! v := redis_call t (GET k) in
  match v with
  | RBulk v => if decide (v = owner) then redis_call t (DEL k) else lua_ret (RInt 0)
  | _ => lua_ret (RInt 0)
  end).

(** An empty list of queues is nil: the engine copies it with append. *)
Definition RegisterServer (ctx : Ctx) (server : ServerInfo) (ttl : Duration) : M St unit :=
  now <- time_Now ;;
  let server := mkServerInfo (sv_ID server)
    (if IsZero (sv_StartedAt server) then now else sv_StartedAt server) now (sv_WorkerCount server)
    (match sv_Queues server with [] => ["default"] | l => l end)
    (if decide (sv_Status server = "") then ServerStatusActive else sv_Status server) in
  raw <- encoded (marshalServer server) ;;
  wrap_err "register server" (pipeline ctx
    [ command (HSET serversKey {[ sv_ID server := raw ]});
      command (ZADD serverHBKey (Unix now) (sv_ID server)) ]).

Definition UnregisterServer (ctx : Ctx) (id : string) : M St unit :=
  wrap_err "unregister server" (pipeline ctx
    [ command (HDEL serversKey id); command (ZREM serverHBKey id) ]).

Definition Heartbeat (ctx : Ctx) (id : string) (ttl : Duration) : M St unit :=
  raw <- hget_or_not_found "server heartbeat get" ctx serversKey id ;;
  sv <- decoded (unmarshalServer raw) ;;
  now <- time_Now ;;
  let sv := mkServerInfo (sv_ID sv) (sv_StartedAt sv) now (sv_WorkerCount sv) (sv_Queues sv)
              ServerStatusActive in
  updated <- encoded (marshalServer sv) ;;
  wrap_err "server heartbeat" (pipeline ctx
    [ command (HSET serversKey {[ id := updated ]}); command (ZADD serverHBKey (Unix now) id) ]).

Definition GetServers (ctx : Ctx) : M St (list ServerInfo) :=
  raw <- call_map "get servers" ctx serversKey ;;
  decode_values unmarshalServer raw.

Definition IncrementCounter (ctx : Ctx) (key : string) (delta : Z) : M St unit := bumpCounter ctx key delta.

(** [.Int64()] on a string reply. *)
Definition as_int64 (rep : reply) : M St Z :=
  s <- as_string rep ;;
  match ParseInt s with Some z => mret z | None => mthrow (ErrText "invalid syntax") end.

Definition GetCounter (ctx : Ctx) (key : string) : M St Z :=
  v <- mtry (rep <- call ctx (command (GET (counterKey key))) ;; as_int64 rep) ;;
  match v with
  | inl v => mret v
  | inr err => if decide (err = RedisNil) then mret 0
               else mthrow (ErrWrap ("get counter: " +:+ Error err) err)
  end.

(** The loop over the keys of the pages: the counters collected so far, and how many
    keys were skipped; it stops when [limit] counters are collected. *)
Fixpoint collect_counters (ctx : Ctx) (skip limit skipped : Z) (ks : list string)
    (result : gmap string Z) : M St (gmap string Z) :=
  match ks with
  | [] => mret result
  | k :: ks =>
    let name := String.substring (String.length counterKeyPrefix)
                  (String.length k - String.length counterKeyPrefix) k in
    if skipped <? skip then collect_counters ctx skip limit (skipped + 1) ks result else
    if limit <=? Z.of_nat (size result) then mret result else
    v <- mtry (rep <- call ctx (command (GET k)) ;; as_int64 rep) ;;
    match v with
    | inl v => collect_counters ctx skip limit skipped ks (<[name := v]> result)
    | inr err => if decide (err = RedisNil)
                 then collect_counters ctx skip limit skipped ks (<[name := 0]> result)
                 else mthrow err
    end
  end.

(** The pages of the iteration are read at its start. *)
Definition GetAllCounters (ctx : Ctx) (skip limit : Z) : M St (gmap string Z) :=
  let limit := if limit <=? 0 then 1000 else limit in
  wrap_err "scan counters" (send ctx []) ;;;
  now <- time_Now ;;
  s <- mget ;;
  collect_counters ctx skip limit 0 (concat (scan_pages now (client s) counterKeyPrefix)) ∅.

Definition Release (ctx : Ctx) (l : redisLock) : M St unit :=
  res <- wrap_err "release lock"
    (rep <- call ctx (releaseLockScript (lockKey (lk_resource l)) (lk_owner l)) ;; as_int rep) ;;
  if res =? 0 then mthrow ErrLockNotHeld else mret tt.

Definition AcquireLock (ctx : Ctx) (resource : string) (ttl : Duration) : M St redisLock :=
  ownerID <- uuid_NewString ;;
  ok <- wrap_err "acquire lock"
    (rep <- call ctx (command (SETNX (lockKey resource) ownerID ttl)) ;; as_int rep) ;;
  if ok =? 0 then mthrow ErrLockNotHeld else mret (mkRedisLock resource ownerID).

(** An error of the first read is ignored. *)
Definition deleteJob (ctx : Ctx) (jobID state : string) : M St unit :=
  fields <- mtry (rep <- call ctx (command (HGETALL (jobKey jobID))) ;; as_map rep) ;;
  let queue := match fields with inl fields => field fields "queue" | inr _ => "" end in
  wrap_err ("delete job " +:+ jobID) (pipeline ctx
    ([ command (DEL (jobKey jobID));
       command (DEL (jobStatesKey jobID));
       command (SREM (stateIndexKey state) jobID);
       command (HDEL processingKey jobID);
       command (ZREM scheduledKey jobID) ]
     ++ (if decide (queue <> "") then [ command (LREM (queueKey queue) jobID) ] else [])
     ++ [ command (DEL (continuationsKey jobID)) ])).

(** One turn of the inner loop of [RemoveExpired]: how many jobs it deletes. *)
Definition expire_job (ctx : Ctx) (cutoff : Time) (st jobID : string) : M St Z :=
  raw <- mtry (rep <- call ctx (command (HGET (jobKey jobID) "updated_at")) ;; as_string rep) ;;
  match raw with
  | inr err => if decide (err = RedisNil) then mret 0 else mthrow err
  | inl raw =>
    match ParseNano raw with
    | None => mret 0
    | Some updatedAt =>
      if Before updatedAt cutoff then deleteJob ctx jobID st ;;; mret 1 else mret 0
    end
  end.

Definition RemoveExpired (ctx : Ctx) (cutoff : Time) : M St Z :=
  counts <- mmap [StateSucceeded; StateFailed; StateDeleted] (fun st =>
    ids <- call_members "remove expired smembers" ctx (stateIndexKey st) ;;
    ds <- mmap ids (expire_job ctx cutoff st) ;;
    mret (foldr Z.add 0 ds)) ;;
  mret (foldr Z.add 0 counts).

(** ** retry.go *)

Definition ScheduleRetry (ctx : Ctx) (jobID : string) (enqueueAt : Time) : M St unit :=
  fields <- call_map "schedule retry get" ctx (jobKey jobID) ;;
  if decide (fields = ∅) then mthrow ErrNotFound else
  if decide (field fields "state" <> StateFailed) then mthrow ErrStateConflict else
  now <- time_Now ;;
  stateJSON <- encoded (marshalState (mkJobState StateScheduled ""
    (Some {[ "enqueue_at" := FormatRFC3339 enqueueAt ]}) now)) ;;
  wrap_err "schedule retry" (pipeline ctx
    [ command (HSET (jobKey jobID) {[ "state" := StateScheduled; "updated_at" := FormatNano now ]});
      command (RPUSH (jobStatesKey jobID) stateJSON);
      command (ZADD scheduledKey (Unix enqueueAt) jobID);
      command (SREM (stateIndexKey StateFailed) jobID);
      command (SADD (stateIndexKey StateScheduled) jobID);
      command (INCRBY (counterKey "scheduled") 1) ]).

Definition SetJobResult (ctx : Ctx) (jobID : string) (result : bytes) : M St unit :=
  let result := if 65536 <? blen result then bprefix 65536 result else result in
  exists_ <- call_exists "set result exists" ctx (jobKey jobID) ;;
  if exists_ =? 0 then mthrow ErrNotFound else
  wrap_err "set result"
    (call ctx (command (HSET (jobKey jobID) {[ "result" := text_of result ]})) ;;; mret tt).

(** The backend as an implementation of the interface. *)
#[export] Instance redis_StorageI : StorageI St := {
  storage_Lock := redisLock;
  storage_Enqueue := Enqueue;
  storage_Dequeue := Dequeue;
  storage_Requeue := Requeue;
  storage_ApplyState := ApplyState;
  storage_HeartbeatJob := HeartbeatJob;
  storage_GetOrphanedJobs := GetOrphanedJobs;
  storage_GetJob := GetJob;
  storage_GetJobsByState := GetJobsByState;
  storage_GetQueueLength := GetQueueLength;
  storage_GetQueues := GetQueues;
  storage_RegisterServer := RegisterServer;
  storage_UnregisterServer := UnregisterServer;
  storage_Heartbeat := Heartbeat;
  storage_GetServers := GetServers;
  storage_AddScheduled := AddScheduled;
  storage_GetDueScheduled := GetDueScheduled;
  storage_RemoveScheduled := RemoveScheduled;
  storage_UpsertRecurring := UpsertRecurring;
  storage_RemoveRecurring := RemoveRecurring;
  storage_GetRecurringJobs := GetRecurringJobs;
  storage_UpdateRecurringLastRun := UpdateRecurringLastRun;
  storage_AddContinuation := AddContinuation;
  storage_GetContinuations := GetContinuations;
  storage_RemoveContinuations := RemoveContinuations;
  storage_IncrementCounter := IncrementCounter;
  storage_GetCounter := GetCounter;
  storage_GetAllCounters := GetAllCounters;
  storage_AcquireLock := AcquireLock;
  storage_ReleaseLock := Release;
  storage_RemoveExpired := RemoveExpired;
  storage_ScheduleRetry := ScheduleRetry;
  storage_SetJobResult := SetJobResult;
  storage_DeleteJob := DeleteJob;
  storage_EnqueueIdempotent := EnqueueIdempotent
}.
End Operations.
