(* ===== verification/RedisTyped.v ===== *)
(** * The key space of the Redis backend stays well typed

    Each family of keys holds one kind of value.  This is an invariant of every
    command the backend sends, hence of every operation, wherever the network
    cuts it and whatever other clients that keep it do meanwhile. *)
From S2P Require Import Prelude.
From S2P Require Import GoTime.
From S2P Require Import Strconv.
From S2P Require Import Job.
From S2P Require Import StorageI.
From S2P Require Import RedisServer.
From S2P Require Import RedisCodec.
From S2P Require Import Redis.

(** ** Kinds *)

(** [KQueue] is a list, [KIndex] a set, and [KSchedule] a sorted set, of identifiers
    of jobs. *)
Inductive kind := KText | KCount | KLock | KHash | KQueue | KList | KSet | KIndex | KSchedule | KZSet.

(** Identifiers of jobs have no colon (a UUID has none). *)
Fixpoint colon_free (s : string) : bool :=
  match s with
  | EmptyString => true
  | String c s => negb (bool_decide (c = ":"%char)) && colon_free s
  end.

Definition job_id (id : string) : Prop := colon_free id = true.

Definition has_kind (kd : kind) (v : rvalue) : Prop :=
  match kd, v with
  | KText, RString _ | KHash, RHash _ | KList, RList _ | KSet, RSet _ | KZSet, RZSet _ => True
  | KLock, (RString _ | RLease _ _) => True
  | KCount, RString s => is_Some (signed s)
  | KQueue, RList l => Forall job_id l
  | KIndex, RSet X => set_Forall job_id X
  | KSchedule, RZSet z => map_Forall (fun id _ => job_id id) z
  | _, _ => False
  end.

(** The families of keys, by prefix. *)
Definition families : list (string * kind) :=
  [("queue:", KQueue); ("state:", KIndex); ("counter:", KCount); ("lock:", KLock);
   ("continuations:", KSet); ("continuation:", KText); ("idempotency:", KText)].

Definition single_keys : list (string * kind) :=
  [(processingKey, KHash); (scheduledKey, KSchedule); (recurringKey, KHash); (serversKey, KHash);
   (serverHBKey, KZSet); (queuesIndexKey, KSet)].

Fixpoint starts (p k : string) : bool :=
  match p, k with
  | EmptyString, _ => true
  | String a p, String b k => if decide (a = b) then starts p k else false
  | _, EmptyString => false
  end.

Fixpoint family_of (fams : list (string * kind)) (k : string) : option kind :=
  match fams with
  | [] => None
  | (p, kd) :: fams => if starts (keyPrefix +:+ p) k then Some kd else family_of fams k
  end.

Fixpoint single_of (ks : list (string * kind)) (k : string) : option kind :=
  match ks with
  | [] => None
  | (k', kd) :: ks => if decide (k' = k) then Some kd else single_of ks k
  end.

(** A job's hash, or the list of its states, whose key has one more colon. *)
Definition kind_of (k : string) : option kind :=
  if starts (keyPrefix +:+ "job:") k
  then Some (if colon_free (String.substring 10 (String.length k - 10) k) then KHash else KList)
  else match single_of single_keys k with
       | Some kd => Some kd
       | None => family_of families k
       end.

#[global] Arguments kind_of : simpl never.

Lemma substring_all s : String.substring 0 (String.length s) s = s.
Proof. induction s as [|c s IH]; simpl; [done|]. by rewrite IH. Qed.

Lemma prefix_true_split p k : String.prefix p k = true -> exists rest, k = p +:+ rest.
Proof.
  revert k. induction p as [|a p IH]; intros k Hk; [by exists k|].
  destruct k as [|b k]; [done|]. simpl in Hk. destruct (ascii_dec a b) as [->|]; [|done].
  destruct (IH k Hk) as [rest ->]. by exists rest.
Qed.

Lemma colon_free_app s t : colon_free (s +:+ t) = colon_free s && colon_free t.
Proof.
  induction s as [|c s IH]; [done|]. change (String c s +:+ t) with (String c (s +:+ t)). simpl.
  by rewrite IH, andb_assoc.
Qed.

Lemma kind_job_family rest :
  kind_of (keyPrefix +:+ "job:" +:+ rest) = Some (if colon_free rest then KHash else KList).
Proof.
  unfold kind_of. change (starts (keyPrefix +:+ "job:") (keyPrefix +:+ "job:" +:+ rest)) with true.
  cbv beta iota. do 2 f_equal.
  change (String.length (keyPrefix +:+ "job:" +:+ rest) - 10)%nat with (String.length rest - 0)%nat.
  change (String.substring 10 (String.length rest - 0) (keyPrefix +:+ "job:" +:+ rest))
    with (String.substring 0 (String.length rest - 0) rest).
  by rewrite Nat.sub_0_r, substring_all.
Qed.

Lemma kind_job id : job_id id -> kind_of (jobKey id) = Some KHash.
Proof. intros Hid. unfold jobKey. by rewrite kind_job_family, (Hid : colon_free id = true). Qed.

Lemma kind_states id : kind_of (jobStatesKey id) = Some KList.
Proof.
  unfold jobStatesKey. rewrite kind_job_family, colon_free_app. by rewrite andb_false_r.
Qed.

(** The prefix of another family decides. *)
Lemma kind_queue q : kind_of (queueKey q) = Some KQueue.
Proof. reflexivity. Qed.
Lemma kind_state st : kind_of (stateIndexKey st) = Some KIndex.
Proof. reflexivity. Qed.
Lemma kind_counter name : kind_of (counterKey name) = Some KCount.
Proof. reflexivity. Qed.
Lemma kind_lock r : kind_of (lockKey r) = Some KLock.
Proof. reflexivity. Qed.
Lemma kind_continuations p : kind_of (continuationsKey p) = Some KSet.
Proof. reflexivity. Qed.
Lemma kind_continuation p e : kind_of (continuationEntryKey p e) = Some KText.
Proof. reflexivity. Qed.
Lemma kind_idempotency key : kind_of (idempotencyKey key) = Some KText.
Proof. reflexivity. Qed.
Lemma kind_processing : kind_of processingKey = Some KHash. Proof. reflexivity. Qed.
Lemma kind_scheduled : kind_of scheduledKey = Some KSchedule. Proof. reflexivity. Qed.
Lemma kind_recurring : kind_of recurringKey = Some KHash. Proof. reflexivity. Qed.
Lemma kind_servers : kind_of serversKey = Some KHash. Proof. reflexivity. Qed.
Lemma kind_serverHB : kind_of serverHBKey = Some KZSet. Proof. reflexivity. Qed.
Lemma kind_queues : kind_of queuesIndexKey = Some KSet. Proof. reflexivity. Qed.

Create Rewrite HintDb kinds.
#[export] Hint Rewrite kind_states kind_queue kind_state kind_counter kind_lock kind_continuations
  kind_continuation kind_idempotency kind_processing kind_scheduled kind_recurring kind_servers
  kind_serverHB kind_queues : kinds.

(** ** Well-typed key spaces

    Keys outside the families are not the program's. *)
Definition typed (m : keyspace) : Prop :=
  forall k v kd, m !! k = Some v -> kind_of k = Some kd -> has_kind kd v.

(** The commands that fit: reading asks for a value of the right sort, and what is
    written has the kind of its key. *)
Definition fits (c : cmd) : Prop :=
  match c with
  | EXISTS _ | DEL _ => True
  | GET k => kind_of k = Some KText \/ kind_of k = Some KCount \/ kind_of k = Some KLock
  | SET k _ => kind_of k = Some KText
  | SETNX k _ _ => kind_of k = Some KLock
  | INCRBY k _ => kind_of k = Some KCount
  | HSET k _ | HGET k _ | HGETALL k | HDEL k _ => kind_of k = Some KHash
  | RPUSH k _ | LRANGE k => kind_of k = Some KList
  | LPUSH k x => kind_of k = Some KQueue /\ job_id x
  | LLEN k | LREM k _ => kind_of k = Some KQueue
  | BRPOP ks => Forall (fun k => kind_of k = Some KQueue) ks
  | SADD k x => kind_of k = Some KSet \/ (kind_of k = Some KIndex /\ job_id x)
  | SREM k _ | SMEMBERS k => kind_of k = Some KSet \/ kind_of k = Some KIndex
  | ZADD k _ x => kind_of k = Some KZSet \/ (kind_of k = Some KSchedule /\ job_id x)
  | ZREM k _ => kind_of k = Some KZSet \/ kind_of k = Some KSchedule
  | ZRANGEBYSCORE k _ _ => kind_of k = Some KSchedule
  end.

Lemma typed_empty : typed ∅.
Proof. intros k v kd Hk. by rewrite lookup_empty in Hk. Qed.

Lemma typed_insert k v m :
  typed m -> (forall kd, kind_of k = Some kd -> has_kind kd v) -> typed (<[k := v]> m).
Proof.
  intros Hm Hv k' v' kd. rewrite lookup_insert. case_decide as Hk; [|by apply Hm].
  subst. intros [= <-]. apply Hv.
Qed.

Lemma typed_delete k m : typed m -> typed (delete k m).
Proof. intros Hm k' v kd Hk. apply lookup_delete_Some in Hk as [_ Hk]. by apply Hm. Qed.

Lemma typed_put k v m :
  typed m -> (forall kd, kind_of k = Some kd -> has_kind kd v) -> typed (put k v m).
Proof. intros. unfold put. destruct (is_empty_value v); auto using typed_delete, typed_insert. Qed.

Lemma typed_live t m : typed m -> typed (live_at t m).
Proof. intros Hm k v kd Hk. apply map_lookup_filter_Some in Hk as [Hk _]. by apply Hm. Qed.

(** What a key of a kind holds. *)
Section At.
Context (m : keyspace) (k : string).
Hypothesis Hm : typed m.

Ltac at_kind := intros Hk; destruct (m !! k) as [v|] eqn:Hv;
  [pose proof (Hm k v _ Hv Hk); destruct v; simpl in *; try done; eauto|eauto].

Lemma hash_at_kind : kind_of k = Some KHash -> exists h, hash_at m k = Some h.
Proof. unfold hash_at. at_kind. Qed.
Lemma set_at_kind : kind_of k = Some KSet -> exists X, set_at m k = Some X.
Proof. unfold set_at. at_kind. Qed.
Lemma list_at_kind : kind_of k = Some KList -> exists l, list_at m k = Some l.
Proof. unfold list_at. at_kind. Qed.
Lemma queue_at_kind : kind_of k = Some KQueue -> exists l, list_at m k = Some l /\ Forall job_id l.
Proof. unfold list_at. at_kind. Qed.
Lemma zset_at_kind : kind_of k = Some KZSet -> exists z, zset_at m k = Some z.
Proof. unfold zset_at. at_kind. Qed.
Lemma index_at_kind : kind_of k = Some KIndex -> exists X, set_at m k = Some X /\ set_Forall job_id X.
Proof. unfold set_at. at_kind. eexists. split; [done|]. apply set_Forall_empty. Qed.
Lemma schedule_at_kind :
  kind_of k = Some KSchedule -> exists z, zset_at m k = Some z /\ map_Forall (fun id _ => job_id id) z.
Proof. unfold zset_at. at_kind. eexists. split; [done|]. apply map_Forall_empty. Qed.
Lemma count_at_kind : kind_of k = Some KCount ->
  exists o, str_at m k = Some o /\ is_Some (signed (default "0" o)) /\ forall s e, m !! k <> Some (RLease s e).
Proof. unfold str_at. at_kind. Qed.
Lemma str_at_kind : kind_of k = Some KText \/ kind_of k = Some KCount \/ kind_of k = Some KLock ->
  exists o, str_at m k = Some o.
Proof. unfold str_at. intros [Hk|[Hk|Hk]]; revert Hk; at_kind. Qed.
End At.

(** What a command that fits answers: never an error; an identifier where one is read. *)
Definition reply_fits (c : cmd) (rep : reply) : Prop :=
  match c, rep with
  | _, RErr _ => False
  | BRPOP _, RArray [_; x] => job_id x
  | BRPOP _, RArray _ => False
  | ZRANGEBYSCORE _ _ _, RArray l => Forall job_id l
  | SMEMBERS k, RMembers X => kind_of k = Some KIndex -> set_Forall job_id X
  | _, _ => True
  end.

Lemma rpop_first_typed m ks :
  typed m -> Forall (fun k => kind_of k = Some KQueue) ks ->
  exists o, rpop_first m ks = Some o /\
    forall k x l, o = Some (k, x, l) -> kind_of k = Some KQueue /\ job_id x /\ Forall job_id l.
Proof.
  intros Hm Hks. induction Hks as [|k ks Hk Hks IH]; simpl; [by eexists|].
  destruct (queue_at_kind m k Hm Hk) as (l & -> & Hl). apply Forall_reverse in Hl.
  destruct (reverse l) as [|x l'] eqn:Hr; [done|]. eexists. split; [done|].
  intros ? ? ? [= <- <- <-]. inversion Hl; subst. split_and!; try done. by apply Forall_reverse.
Qed.

Lemma zrange_elem z max x : x ∈ zrange z max -> is_Some (z !! x).
Proof.
  unfold zrange. intros Hx. apply list_elem_of_fmap in Hx as ([y s] & -> & Hx).
  rewrite (merge_sort_Permutation zle) in Hx. apply list_elem_of_filter in Hx as [_ Hx].
  apply elem_of_map_to_list in Hx. eauto.
Qed.

Lemma kind_value kd kd' (v : rvalue) :
  kd = Some kd' -> has_kind kd' v -> forall kd0, kd = Some kd0 -> has_kind kd0 v.
Proof. by intros -> Hv kd0 [= <-]. Qed.

Lemma documented_typed c t m :
  fits c -> typed m -> typed (documented c t m).1 /\ reply_fits c (documented c t m).2.
Proof.
  intros Hf Hm.
  assert (forall k v kd, kind_of k = Some kd -> has_kind kd v -> typed (put k v m)) as Hput
    by eauto using typed_put, kind_value.
  assert (forall k v kd, kind_of k = Some kd -> has_kind kd v -> typed (<[k := v]> m)) as Hins
    by eauto using typed_insert, kind_value.
  destruct c; simpl in Hf |- *; unfold as_status;
    try (by split; auto using typed_delete);
    try (destruct (hash_at_kind m k Hm Hf) as [h ->]; simpl; split;
      [first [exact Hm | by apply (Hput _ _ KHash)]|by repeat case_match]);
    try (destruct (list_at_kind m k Hm Hf) as [l ->]; simpl; split;
      [first [exact Hm | by apply (Hput _ _ KList)]|by repeat case_match]).
  - destruct (str_at_kind m k Hm Hf) as [[s|] ->]; by simpl.
  - by split; [apply (Hins _ _ KText)|].
  - case_decide as Hk; simpl; [done|]. split; [|done].
    apply (Hins _ _ KLock); [done|]. by case_decide.
  - destruct (count_at_kind m k Hm Hf) as (o & -> & [z Hz] & Hl). simpl. rewrite Hz. simpl.
    split; [|done]. apply (Hins _ _ KCount); [done|].
    destruct (m !! k) as [[]|]; simpl; rewrite ?signed_Itoa; eauto. by edestruct Hl.
  - destruct Hf as [Hf Hx]. destruct (queue_at_kind m k Hm Hf) as (l & -> & Hl). simpl.
    split; [|done]. by apply (Hput _ _ KQueue), Forall_cons.
  - destruct (queue_at_kind m k Hm Hf) as (l & -> & Hl). by simpl.
  - destruct (queue_at_kind m k Hm Hf) as (l & -> & Hl). simpl. split; [|done].
    apply (Hput _ _ KQueue); [done|]. simpl. apply Forall_forall. intros x Hx.
    apply list_elem_of_filter in Hx as [_ Hx]. by eapply Forall_forall in Hl.
  - destruct (rpop_first_typed m ks Hm Hf) as (o & -> & Ho). simpl.
    destruct o as [[[k x] l]|]; [|done]. destruct (Ho _ _ _ eq_refl) as (Hk & Hx & Hl).
    split; [by apply (Hput _ _ KQueue)|done].
  - destruct Hf as [Hf|[Hf Hx]].
    + destruct (set_at_kind m k Hm Hf) as [X ->]. simpl. split; [|done]. by apply (Hput _ _ KSet).
    + destruct (index_at_kind m k Hm Hf) as (X & -> & HX). simpl. split; [|done].
      apply (Hput _ _ KIndex); [done|]. by apply set_Forall_union; [apply set_Forall_singleton|].
  - destruct Hf as [Hf|Hf].
    + destruct (set_at_kind m k Hm Hf) as [X ->]. simpl. split; [|done]. by apply (Hput _ _ KSet).
    + destruct (index_at_kind m k Hm Hf) as (X & -> & HX). simpl. split; [|done].
      apply (Hput _ _ KIndex); [done|]. intros y Hy. apply HX. set_solver.
  - destruct Hf as [Hf|Hf].
    + destruct (set_at_kind m k Hm Hf) as [X ->]. simpl. by rewrite Hf.
    + destruct (index_at_kind m k Hm Hf) as (X & -> & HX). by simpl.
  - destruct Hf as [Hf|[Hf Hx]].
    + destruct (zset_at_kind m k Hm Hf) as [z ->]. simpl. split; [|done]. by apply (Hput _ _ KZSet).
    + destruct (schedule_at_kind m k Hm Hf) as (z & -> & Hz). simpl. split; [|done].
      apply (Hput _ _ KSchedule); [done|]. by apply map_Forall_insert_2.
  - destruct Hf as [Hf|Hf].
    + destruct (zset_at_kind m k Hm Hf) as [z ->]. simpl. split; [|done]. by apply (Hput _ _ KZSet).
    + destruct (schedule_at_kind m k Hm Hf) as (z & -> & Hz). simpl. split; [|done].
      apply (Hput _ _ KSchedule); [done|]. by apply map_Forall_delete.
  - destruct (schedule_at_kind m k Hm Hf) as (z & -> & Hz). simpl. split; [done|].
    apply Forall_take, Forall_forall. intros x Hx. apply zrange_elem in Hx as [s Hs]. by apply (Hz x s).
Qed.

(** ** Requests *)
Section Operations.
Context {EV : Env} {R : Type} {RD : Redis R} {NW : Network R} {SJ : StructJson}.

(** What the theorems ask of the other clients, and of the UUIDs. *)
Hypothesis polite : forall n r, typed (keys_of r) -> typed (keys_of (others_at n r)).
Hypothesis uuid_job_id : forall n, job_id (uuid n).

Abbreviation St := (Storage R).

Definition well_typed (_ : nat) (s : St) : Prop := typed (keys_of (client s)).

#[local] Instance well_typed_mono : TickMono well_typed.
Proof. by intros n s. Qed.

Definition request_ok (Q : reply -> Prop) (q : request R) : Prop :=
  forall t r, typed (keys_of r) -> typed (keys_of (q t r).1) /\ Q (q t r).2.

Lemma exec_ok c t r :
  fits c -> typed (keys_of r) -> typed (keys_of (exec c t r).1) /\ reply_fits c (exec c t r).2.
Proof.
  intros Hc Hr. destruct (documented_typed c t _ Hc (typed_live t _ Hr)) as [Hd HQ].
  rewrite exec_reply. split; [|done]. destruct (reads c) eqn:Hrd.
  - by rewrite exec_reads.
  - by rewrite exec_writes.
Qed.

Lemma request_command c : fits c -> request_ok (reply_fits c) (command c).
Proof. intros Hc t r. by apply exec_ok. Qed.

(** The same for a step of a script, which an error reply would end. *)
Definition lua_ok {A} (Q : A -> Prop) (m : lua (R := R) A) : Prop :=
  forall r, typed (keys_of r) ->
    typed (keys_of (m r).1) /\ exists a, (m r).2 = inl a /\ Q a.

Lemma lua_ok_ret {A} (Q : A -> Prop) a : Q a -> lua_ok Q (lua_ret a).
Proof. intros Ha r Hr. split; [done|]. by exists a. Qed.

Lemma lua_ok_bind {A B} (Q : A -> Prop) (Q' : B -> Prop) m (k : A -> lua B) :
  lua_ok Q m -> (forall a, Q a -> lua_ok Q' (k a)) -> lua_ok Q' (lua_bind m k).
Proof.
  intros Hm Hk r Hr. destruct (Hm r Hr) as (Hr' & a & Ha & HQ). unfold lua_bind.
  destruct (m r) as [r' o]. simpl in *. subst o. by apply Hk.
Qed.

Lemma lua_ok_call t c : fits c -> lua_ok (reply_fits c) (redis_call t c).
Proof.
  intros Hc r Hr. destruct (exec_ok c t r Hc Hr) as [Hr' HQ]. unfold redis_call.
  destruct (exec c t r) as [r' rep]. simpl in *. destruct rep; simpl; (split; [done|eauto]).
  by destruct c.
Qed.

Lemma lua_ok_for {A} (l : list A) body :
  (forall x, x ∈ l -> lua_ok (fun _ => True) (body x)) -> lua_ok (fun _ => True) (lua_for l body).
Proof.
  induction l as [|x l IH]; intros Hb; [by apply lua_ok_ret|].
  eapply lua_ok_bind; [apply Hb; left|]. intros _ _. apply IH. intros y Hy. apply Hb. by right.
Qed.

Lemma request_script Q body : (forall t, lua_ok Q (body t)) -> request_ok Q (script body).
Proof.
  intros Hb t r Hr. destruct (Hb t r Hr) as (Hr' & rep & Hrep & HQ). unfold script.
  destruct (body t r) as [r' o]. simpl in *. by subst o.
Qed.

Lemma request_weaken (Q Q' : reply -> Prop) q :
  request_ok Q q -> (forall rep, Q rep -> Q' rep) -> request_ok Q' q.
Proof. intros Hq HQ t r Hr. destruct (Hq t r Hr). auto. Qed.

(** ** Batches *)
Lemma serve_ok Q q : request_ok Q q -> ensures well_typed (serve q) Q.
Proof.
  intros Hq n s Hs. unfold serve. destruct (Hq (clock n) _ (polite n _ Hs)) as [Hr HQ].
  destruct (q (clock n) (others_at n (client s))) as [r rep]. simpl in *. split; [done|].
  by intros ? [= <-].
Qed.

Abbreviation anything := (fun _ : reply => True).

Lemma serve_all_ok qs : Forall (request_ok anything) qs -> preserves well_typed (serve_all qs).
Proof.
  induction 1 as [|q qs Hq Hqs IH]; [apply preserves_ret|]. simpl.
  apply preserves_bind; [by eapply preserves_ensures, serve_ok|]. intros rep.
  apply preserves_bind; [done|]. intros reps. apply preserves_ret.
Qed.

Lemma send_ok ctx qs : Forall (request_ok anything) qs -> preserves well_typed (send ctx qs).
Proof.
  intros Hqs n s Hs. unfold send. destruct ctx; [|done].
  destruct (fault_at n) as [[k err]|]; [|by apply serve_all_ok].
  pose proof (serve_all_ok (take k qs) (Forall_take _ _ _ Hqs) n s Hs) as Hs'.
  by destruct (serve_all (take k qs) n s) as [[n' s'] o].
Qed.

Lemma pipeline_ok ctx qs : Forall (request_ok anything) qs -> preserves well_typed (pipeline ctx qs).
Proof.
  intros Hqs. apply preserves_bind; [by apply send_ok|]. intros reps.
  destruct (first_error reps); [apply preserves_throw|apply preserves_ret].
Qed.

Lemma call_ok ctx Q q : request_ok Q q -> ensures well_typed (call ctx q) Q.
Proof.
  intros Hq n s Hs.
  assert (Forall (request_ok anything) [q]) as Hqs by (repeat constructor; by eapply request_weaken).
  pose proof (send_ok ctx [q] Hqs n s Hs) as Hp. split.
  - unfold call. revert Hp. unfold_m. destruct (send ctx [q] n s) as [[n' s'] []]; simpl; try done.
    intros. by repeat case_match.
  - intros rep. unfold call, send. destruct ctx; [|done]. unfold_m.
    destruct (fault_at n) as [[k err]|]; [by destruct (serve_all (take k [q]) n s) as [[??] ?]|].
    simpl. unfold serve. unfold_m. destruct (Hq (clock n) _ (polite n _ Hs)) as [_ HQ].
    destruct (q (clock n) (others_at n (client s))) as [r rep']. simpl in *.
    destruct rep'; simpl; (done || by intros [= <-]).
Qed.

Lemma preserves_call ctx Q q : request_ok Q q -> preserves well_typed (call ctx q).
Proof. intros Hq. by eapply preserves_ensures, call_ok. Qed.

(** ** Operations *)
Lemma preserves_wrap {A} text (m : M St A) : preserves well_typed m -> preserves well_typed (wrap_err text m).
Proof.
  intros Hm n s Hs. specialize (Hm n s Hs). unfold wrap_err, st_of, tick_of in *.
  by destruct (m n s) as [[n' s'] []].
Qed.

Lemma ensures_wrap {A} text (m : M St A) Q : ensures well_typed m Q -> ensures well_typed (wrap_err text m) Q.
Proof.
  intros Hm n s Hs. specialize (Hm n s Hs). unfold wrap_err, st_of, tick_of, res_of in *.
  destruct (m n s) as [[n' s'] []]; simpl in *; try done. split; [tauto|by intros ? [=]].
Qed.

Lemma preserves_as_members rep : preserves well_typed (as_members rep).
Proof. intros n s Hs. destruct rep; exact Hs. Qed.

Lemma request_any q Q : request_ok Q q -> request_ok anything q.
Proof. intros. by eapply request_weaken. Qed.

#[local] Opaque call pipeline wrap_err as_members.

Ltac fit :=
  first [ assumption
        | simpl; autorewrite with kinds; rewrite ?kind_job by assumption;
          solve [auto 6 | repeat constructor; auto] ].

(** The rules above, and [fit] for the commands. *)
Ltac follow :=
  preserve ltac:(first
    [ apply preserves_wrap | apply preserves_try | apply preserves_as_members
    | eapply preserves_call, request_command; fit
    | apply pipeline_ok; repeat (constructor; [eapply request_any, request_command; fit|]);
      constructor ]).

Lemma ok_bumpCounter ctx key delta : preserves well_typed (bumpCounter ctx key delta).
Proof. unfold bumpCounter. follow. Qed.

Lemma ok_named id now queue job : ID (named_job id now queue job) = id.
Proof. unfold named_job. by repeat (case_match || case_decide). Qed.

Lemma ok_fresh_id id Q :
  (id <> "" -> job_id id) -> (forall i, job_id i -> Q i) ->
  ensures well_typed (if decide (id = "") then uuid_NewString else mret id) Q.
Proof.
  intros Hid HQ. case_decide as Hd; [|by apply ensures_ret, HQ, Hid].
  intros n s Hs. split; [done|]. intros ? [= <-]. auto.
Qed.

Lemma ok_Enqueue ctx queue job :
  (ID job <> "" -> job_id (ID job)) -> ensures well_typed (Enqueue ctx queue job) job_id.
Proof.
  intros Hid. eapply ensures_bind; [apply ok_fresh_id; eauto|]. intros id Hj. simpl in Hj.
  eapply ensures_bind with (Q := fun _ => True); [by apply ensures_preserves; [follow|]|]. intros now _.
  cbv beta zeta. rewrite ok_named.
  repeat (eapply ensures_bind with (Q := fun _ => True);
    [apply ensures_preserves; [|done]; unfold encoded, jobHashFields; by follow|intros ? _]).
  by apply ensures_ret.
Qed.

(** A wait, given that those who run during it are polite too. *)
Definition polite_wake (w : wake St) : Prop := preserves well_typed (wk_others w).

Definition pop_ok (p : pop) : Prop :=
  match p with
  | Popped [_; id] rest => job_id id /\ Forall polite_wake rest
  | Popped _ _ => False
  | _ => True
  end.

Lemma ensures_call ctx c : fits c -> ensures well_typed (call ctx (command c)) (reply_fits c).
Proof. intros. by apply call_ok, request_command. Qed.

Lemma ensures_try {A} (m : M St A) Q :
  ensures well_typed m Q ->
  ensures well_typed (mtry m) (fun r => match r with inl a => Q a | inr _ => True end).
Proof.
  intros Hm n s Hs. specialize (Hm n s Hs). unfold mtry, st_of, tick_of, res_of in *.
  destruct (m n s) as [[n' s'] []]; simpl in *; destruct Hm; split; try done; intros ? [= <-]; auto.
Qed.

Lemma fits_pop queues : fits (BRPOP (queueKey <$> queues)).
Proof. apply Forall_fmap, Forall_true. apply kind_queue. Qed.

Lemma ok_brpop_wait queues wakes :
  Forall polite_wake wakes -> ensures well_typed (brpop_wait (queueKey <$> queues) wakes) pop_ok.
Proof.
  induction 1 as [|w wakes Hw Hwakes IH]; [by apply ensures_ret|]. simpl.
  eapply ensures_bind with (Q := fun _ => True).
  { intros n s Hs. split; [|done]. specialize (Hw n s Hs). unfold interleave, st_of, tick_of in *.
    by destruct (wk_others w n s) as [[n' s'] o]. }
  intros _ _. destruct (wk_kind w); try by apply ensures_ret.
  all: eapply ensures_bind; [apply serve_ok, request_command, fits_pop|]; intros rep Hrep.
  all: destruct rep as [| | | |[|? [|? []]]| | |]; simpl in Hrep; try done; by apply ensures_ret.
Qed.

Lemma ok_BRPop ctx queues wakes :
  Forall polite_wake wakes -> ensures well_typed (BRPop ctx (queueKey <$> queues) wakes) pop_ok.
Proof.
  intros Hw. eapply ensures_bind; [apply ensures_try, ensures_call, fits_pop|].
  intros [rep|err] Hrep; [|by apply ensures_ret].
  destruct rep as [| | | |[|? [|? []]]| | |]; simpl in Hrep; try done;
    try (by apply ensures_ret); by apply ok_brpop_wait.
Qed.

Lemma ok_encoded r : preserves well_typed (encoded r).
Proof. unfold encoded. follow. Qed.

Lemma ok_decoded {A} (r : A + error) : preserves well_typed (decoded r).
Proof. unfold decoded. follow. Qed.

Lemma ok_as_int rep : preserves well_typed (as_int rep).
Proof. unfold as_int. follow. Qed.
Lemma ok_as_string rep : preserves well_typed (as_string rep).
Proof. unfold as_string. follow. Qed.
Lemma ok_as_map rep : preserves well_typed (as_map rep).
Proof. unfold as_map. follow. Qed.
Lemma ok_as_list rep : preserves well_typed (as_list rep).
Proof. unfold as_list. follow. Qed.

Lemma ok_call_map text ctx k : kind_of k = Some KHash -> preserves well_typed (call_map text ctx k).
Proof. intros Hk. unfold call_map, as_map. follow. Qed.
Lemma ok_call_members text ctx k : kind_of k = Some KSet -> preserves well_typed (call_members text ctx k).
Proof. intros Hk. unfold call_members. follow. Qed.
Lemma ok_call_exists text ctx k : preserves well_typed (call_exists text ctx k).
Proof. unfold call_exists, as_int. follow. Qed.
#[local] Opaque encoded decoded as_int as_string as_map call_map call_members call_exists.

(** [follow], with the lemmas so far and those of the operation at hand. *)
Ltac steps tac :=
  repeat first
    [ tac
    | apply ok_encoded | apply ok_decoded | apply ok_as_int | apply ok_as_string
    | apply ok_as_map | apply ok_as_list | apply ok_call_exists
    | apply ok_call_map; fit | apply ok_call_members; fit
    | progress follow ].

(** Scripts, command by command. *)
Lemma lua_ok_seq {A} t c (k : reply -> lua A) Q :
  fits c -> (forall rep, reply_fits c rep -> lua_ok Q (k rep)) -> lua_ok Q (lua_bind (redis_call t c) k).
Proof. intros Hc. by apply lua_ok_bind, lua_ok_call. Qed.

Ltac script_ok :=
  apply request_script; intros t;
  repeat first
    [ apply lua_ok_ret; exact I
    | apply lua_ok_seq; [fit|intros ? _]
    | apply (lua_ok_bind (fun _ => True)); [|intros ? _]
    | case_match ].

Lemma ok_finalizeDequeueScript id st1 st2 c now st pv : job_id id ->
  request_ok anything (finalizeDequeueScript (jobKey id) (jobStatesKey id) processingKey
    (stateIndexKey st1) (stateIndexKey st2) (counterKey c) id now st pv).
Proof. intros Hid. unfold finalizeDequeueScript. script_ok. Qed.

Lemma ok_applyStateScript id st1 st2 c e st now clear stJ cn : job_id id ->
  request_ok anything (applyStateScript (jobKey id) (jobStatesKey id) processingKey
    (stateIndexKey st1) (stateIndexKey st2) (counterKey c) e st now clear stJ id cn).
Proof. intros Hid. unfold applyStateScript. script_ok. Qed.

Lemma ok_finalizeDequeue ctx id : job_id id -> preserves well_typed (finalizeDequeue ctx id).
Proof.
  intros Hid. unfold finalizeDequeue.
  steps ltac:(eapply preserves_call, ok_finalizeDequeueScript; done).
Qed.

Lemma ok_dequeueLoop fuel ctx queues wakes :
  Forall polite_wake wakes -> preserves well_typed (dequeueLoop fuel ctx (queueKey <$> queues) wakes).
Proof.
  revert wakes. induction fuel as [|fuel IH]; intros wakes Hw; [apply preserves_ret|]. simpl.
  eapply preserves_bind_post; [by apply ok_BRPop|].
  intros [|[|k [|id []]] rest| |[e|] err] Hp; simpl in Hp; try done;
    try apply preserves_ret; try apply preserves_throw.
  destruct Hp as [Hid Hrest]. apply preserves_bind; [by apply ok_finalizeDequeue|].
  intros [tk|]; [apply preserves_ret|by apply IH].
Qed.

#[local] Opaque Enqueue dequeueLoop.

Lemma ok_Dequeue ctx queues timeout wakes :
  Forall polite_wake wakes -> preserves well_typed (Dequeue ctx queues timeout wakes).
Proof.
  intros Hw. unfold Dequeue. case_decide; [apply preserves_throw|].
  apply preserves_bind; [apply preserves_get|]. intros s. by apply ok_dequeueLoop.
Qed.

Lemma ok_Requeue ctx id reason : job_id id -> preserves well_typed (Requeue ctx id reason).
Proof. intros Hid. unfold Requeue. steps fail. Qed.

Lemma ok_ApplyState ctx id e st : job_id id -> preserves well_typed (ApplyState ctx id e st).
Proof. intros Hid. unfold ApplyState. steps ltac:(eapply preserves_call, ok_applyStateScript; done). Qed.

Lemma ok_HeartbeatJob ctx id : job_id id -> preserves well_typed (HeartbeatJob ctx id).
Proof. intros Hid. unfold HeartbeatJob. steps fail. Qed.

Lemma ok_orphaned ctx cutoff id : job_id id -> preserves well_typed (orphaned ctx cutoff id).
Proof. intros Hid. unfold orphaned. steps fail. Qed.

Lemma ok_GetQueueLength ctx queue : preserves well_typed (GetQueueLength ctx queue).
Proof. unfold GetQueueLength. steps fail. Qed.

Lemma ok_GetQueues ctx : preserves well_typed (GetQueues ctx).
Proof. unfold GetQueues. steps fail. Qed.

Lemma ok_DeleteJob ctx id : job_id id -> preserves well_typed (DeleteJob ctx id).
Proof. intros Hid. unfold DeleteJob. steps fail. Qed.

Lemma ok_EnqueueIdempotent ctx queue job :
  (ID job <> "" -> job_id (ID job)) -> preserves well_typed (EnqueueIdempotent ctx queue job).
Proof.
  intros Hid. unfold EnqueueIdempotent.
  steps ltac:(eapply preserves_ensures, ok_Enqueue; done).
Qed.

Lemma ok_AddScheduled ctx at_ job :
  (ID job <> "" -> job_id (ID job)) -> ensures well_typed (AddScheduled ctx at_ job) job_id.
Proof.
  intros Hid. eapply ensures_bind; [apply ok_fresh_id; eauto|]. intros id Hj. simpl in Hj.
  eapply ensures_bind with (Q := fun _ => True); [by apply ensures_preserves; [follow|]|]. intros now _.
  cbv beta zeta. rewrite ok_named.
  repeat (eapply ensures_bind with (Q := fun _ => True);
    [apply ensures_preserves; [|done]; unfold jobHashFields; by steps fail|intros ? _]).
  by apply ensures_ret.
Qed.

Lemma ok_promote ctx ts id : job_id id -> preserves well_typed (promote ctx ts id).
Proof. intros Hid. unfold promote. steps fail. Qed.

Lemma ok_promoteScript now batch :
  request_ok (fun rep => match rep with RArray ids => Forall job_id ids | _ => True end)
    (promoteScheduledScript scheduledKey now batch).
Proof.
  apply request_script. intros t. apply lua_ok_seq; [fit|]. intros rep Hrep.
  destruct rep; try by apply lua_ok_ret.
  apply (lua_ok_bind (fun _ => True)); [|intros _ _; by apply lua_ok_ret].
  apply lua_ok_for. intros x _. apply lua_ok_seq; [fit|]. intros ? _. by apply lua_ok_ret.
Qed.

#[local] Opaque promote.

Lemma ok_GetDueScheduled ctx now batch : preserves well_typed (GetDueScheduled ctx now batch).
Proof.
  unfold GetDueScheduled. eapply preserves_bind_post.
  - apply ensures_wrap. eapply ensures_bind; [apply call_ok, ok_promoteScript|].
    intros rep Hrep. simpl in Hrep. instantiate (1 := Forall job_id).
    destruct rep; simpl; (by apply ensures_ret) || apply ensures_throw.
  - intros ids Hids. simpl in Hids. apply preserves_bind; [follow|]. intros ts.
    apply preserves_bind; [|intros ?; follow]. apply preserves_map. intros x Hx.
    apply ok_promote. by eapply Forall_forall in Hids.
Qed.

Lemma ok_RemoveScheduled ctx id : preserves well_typed (RemoveScheduled ctx id).
Proof. unfold RemoveScheduled. steps fail. Qed.

Lemma ok_UpsertRecurring ctx e : preserves well_typed (UpsertRecurring ctx e).
Proof. unfold UpsertRecurring. steps fail. Qed.

Lemma ok_RemoveRecurring ctx id : preserves well_typed (RemoveRecurring ctx id).
Proof. unfold RemoveRecurring. steps fail. Qed.

Lemma ok_decode_values {A} (u : string -> A + error) m : preserves well_typed (decode_values u m).
Proof. unfold decode_values. steps fail. Qed.

Lemma ok_hget text ctx k f : kind_of k = Some KHash -> preserves well_typed (hget_or_not_found text ctx k f).
Proof. intros Hk. unfold hget_or_not_found. steps fail. Qed.
#[local] Opaque decode_values hget_or_not_found.

Lemma ok_GetRecurringJobs ctx : preserves well_typed (GetRecurringJobs ctx).
Proof. unfold GetRecurringJobs. steps ltac:(apply ok_decode_values). Qed.

Lemma ok_UpdateRecurringLastRun ctx id l nx : preserves well_typed (UpdateRecurringLastRun ctx id l nx).
Proof. unfold UpdateRecurringLastRun. steps ltac:(apply ok_hget; fit). Qed.

Lemma ok_AddContinuation ctx p e : preserves well_typed (AddContinuation ctx p e).
Proof. unfold AddContinuation. steps fail. Qed.

Lemma ok_GetContinuations ctx p : preserves well_typed (GetContinuations ctx p).
Proof. unfold GetContinuations, load_continuation. steps fail. Qed.

Lemma ok_RemoveContinuations ctx p : preserves well_typed (RemoveContinuations ctx p).
Proof.
  unfold RemoveContinuations. apply preserves_bind; [by steps fail|]. intros ids.
  apply preserves_wrap, pipeline_ok. constructor; [by eapply request_any, request_command|].
  apply Forall_fmap, Forall_true. intros id. simpl. by eapply request_any, request_command.
Qed.

Lemma ok_RegisterServer ctx sv ttl : preserves well_typed (RegisterServer ctx sv ttl).
Proof. unfold RegisterServer. steps fail. Qed.

Lemma ok_UnregisterServer ctx id : preserves well_typed (UnregisterServer ctx id).
Proof. unfold UnregisterServer. steps fail. Qed.

Lemma ok_Heartbeat ctx id ttl : preserves well_typed (Heartbeat ctx id ttl).
Proof. unfold Heartbeat. steps ltac:(apply ok_hget; fit). Qed.

Lemma ok_GetServers ctx : preserves well_typed (GetServers ctx).
Proof. unfold GetServers. steps ltac:(apply ok_decode_values). Qed.

Lemma ok_GetCounter ctx key : preserves well_typed (GetCounter ctx key).
Proof. unfold GetCounter, as_int64. steps fail. Qed.

Lemma ok_collect_counters ctx skip limit ks : forall skipped result,
  Forall (fun k => kind_of k = Some KCount) ks ->
  preserves well_typed (collect_counters ctx skip limit skipped ks result).
Proof.
  induction ks as [|k ks IH]; intros skipped result Hks; [apply preserves_ret|].
  inversion Hks; subst. cbn [collect_counters]. unfold as_int64.
  steps ltac:(apply IH; done).
Qed.

Lemma kind_counter_prefix k : String.prefix counterKeyPrefix k = true -> kind_of k = Some KCount.
Proof. intros Hk. apply prefix_true_split in Hk as [rest ->]. apply kind_counter. Qed.

Lemma ok_GetAllCounters ctx skip limit : preserves well_typed (GetAllCounters ctx skip limit).
Proof.
  unfold GetAllCounters. apply preserves_bind; [by apply preserves_wrap, send_ok|]. intros _.
  apply preserves_bind; [follow|]. intros now. apply preserves_bind; [follow|]. intros s.
  apply ok_collect_counters, Forall_forall. intros k Hk.
  apply scan_complete in Hk as [Hk _]. by apply kind_counter_prefix.
Qed.

Lemma ok_Release ctx l : preserves well_typed (Release ctx l).
Proof.
  unfold Release. steps ltac:(eapply preserves_call with (Q := anything)).
  unfold releaseLockScript. apply request_script. intros t. apply lua_ok_seq; [fit|].
  intros rep _. destruct rep; try by apply lua_ok_ret. case_decide; [|by apply lua_ok_ret].
  intros r Hr. destruct (lua_ok_call t (DEL (lockKey (lk_resource l))) I r Hr) as (? & ? & ? & ?). eauto.
Qed.

Lemma ok_AcquireLock ctx res ttl : preserves well_typed (AcquireLock ctx res ttl).
Proof. unfold AcquireLock. steps fail. Qed.

Lemma ok_deleteJob ctx id st : job_id id -> preserves well_typed (deleteJob ctx id st).
Proof.
  intros Hid. unfold deleteJob. apply preserves_bind; [by steps fail|]. intros fields.
  apply preserves_wrap, pipeline_ok.
  repeat (constructor; [eapply request_any, request_command; fit|]). apply Forall_app. split.
  - case_decide; constructor; [|constructor]. eapply request_any, request_command; fit.
  - constructor; [|constructor]. by eapply request_any, request_command.
Qed.

Lemma ok_expire_job ctx cutoff st id : job_id id -> preserves well_typed (expire_job ctx cutoff st id).
Proof. intros Hid. unfold expire_job. steps ltac:(apply ok_deleteJob; done). Qed.

Lemma ok_ScheduleRetry ctx id at_ : job_id id -> preserves well_typed (ScheduleRetry ctx id at_).
Proof. intros Hid. unfold ScheduleRetry. steps fail. Qed.

Lemma ok_SetJobResult ctx id r : job_id id -> preserves well_typed (SetJobResult ctx id r).
Proof. intros Hid. unfold SetJobResult. steps fail. Qed.

Lemma ok_loadStates ctx id : job_id id -> preserves well_typed (loadStates ctx id).
Proof. intros Hid. unfold loadStates. steps ltac:(apply ok_as_list). Qed.
#[local] Opaque loadStates.

Lemma ok_GetJob ctx id : job_id id -> preserves well_typed (GetJob ctx id).
Proof. intros Hid. unfold GetJob. steps ltac:(apply ok_loadStates; done). Qed.
#[local] Opaque GetJob.

Lemma ok_listed_job ctx st id : job_id id -> preserves well_typed (listed_job ctx st id).
Proof. intros Hid. unfold listed_job. steps ltac:(apply ok_GetJob; done). Qed.

(** The members of a state's index are identifiers of jobs. *)
#[local] Transparent call_members as_members.
Lemma ok_members text ctx st :
  ensures well_typed (call_members text ctx (stateIndexKey st)) (Forall job_id).
Proof.
  apply ensures_wrap. eapply ensures_bind; [apply ensures_call; fit|]. intros rep Hrep.
  destruct rep; simpl; try apply ensures_throw. simpl in Hrep.
  intros n s Hs. split; [done|]. intros ? [= <-]. apply Forall_forall. intros x.
  rewrite map_order_perm, elem_of_elements. apply Hrep, kind_state.
Qed.
#[local] Opaque call_members as_members orphaned listed_job expire_job.

Lemma ensures_map {A B} (l : list A) (body : A -> M St B) Q :
  (forall x, x ∈ l -> ensures well_typed (body x) Q) -> ensures well_typed (mmap l body) (Forall Q).
Proof.
  induction l as [|x l IH]; intros Hb; [by apply ensures_ret|]. simpl.
  eapply ensures_bind; [apply Hb; left|]. intros y Hy.
  eapply ensures_bind; [apply IH; intros z Hz; apply Hb; by right|].
  intros ys Hys. by apply ensures_ret, Forall_cons.
Qed.

Lemma ok_GetOrphanedJobs ctx age : preserves well_typed (GetOrphanedJobs ctx age).
Proof.
  unfold GetOrphanedJobs. apply preserves_bind; [follow|]. intros now.
  eapply preserves_bind_post; [apply ok_members|]. intros ids Hids.
  apply preserves_bind; [|intros; apply preserves_ret]. apply preserves_map. intros x Hx.
  apply preserves_bind; [|intros; apply preserves_ret]. apply ok_orphaned. by eapply Forall_forall in Hids.
Qed.

Lemma ok_GetJobsByState ctx st offset limit : preserves well_typed (GetJobsByState ctx st offset limit).
Proof.
  unfold GetJobsByState. eapply preserves_bind_post with (Q := Forall job_id).
  - case_decide; [|apply ok_members].
    eapply ensures_bind; [apply ensures_map; intros x _; apply ok_members|].
    intros idss Hidss. by apply ensures_ret, Forall_concat.
  - intros ids Hids. case_match; [apply preserves_ret|]. case_match; [apply preserves_panic|].
    cbv zeta. apply preserves_bind; [|intros; apply preserves_ret].
    apply preserves_map. intros x Hx. apply ok_listed_job.
    apply (Forall_drop _ (Z.to_nat offset)) in Hids.
    eapply Forall_take, Forall_forall in Hids; done.
Qed.

Lemma ok_RemoveExpired ctx cutoff : preserves well_typed (RemoveExpired ctx cutoff).
Proof.
  unfold RemoveExpired. apply preserves_bind; [|intros; apply preserves_ret].
  apply preserves_map. intros st _. eapply preserves_bind_post; [apply ok_members|]. intros ids Hids.
  apply preserves_bind; [|intros; apply preserves_ret]. apply preserves_map. intros x Hx.
  apply ok_expire_job. by eapply Forall_forall in Hids.
Qed.

(** The calls of the backend, with identifiers of jobs where jobs are meant. *)
Definition fresh_or_id (job : Job) : Prop := ID job <> "" -> job_id (ID job).

Inductive operation : forall {A}, M St A -> Prop :=
  | op_Enqueue ctx q job : fresh_or_id job -> operation (Enqueue ctx q job)
  | op_EnqueueIdempotent ctx q job : fresh_or_id job -> operation (EnqueueIdempotent ctx q job)
  | op_Dequeue ctx qs timeout wakes : Forall polite_wake wakes -> operation (Dequeue ctx qs timeout wakes)
  | op_Requeue ctx id reason : job_id id -> operation (Requeue ctx id reason)
  | op_ApplyState ctx id e st : job_id id -> operation (ApplyState ctx id e st)
  | op_HeartbeatJob ctx id : job_id id -> operation (HeartbeatJob ctx id)
  | op_GetOrphanedJobs ctx age : operation (GetOrphanedJobs ctx age)
  | op_GetJob ctx id : job_id id -> operation (GetJob ctx id)
  | op_GetJobsByState ctx st o l : operation (GetJobsByState ctx st o l)
  | op_GetQueueLength ctx q : operation (GetQueueLength ctx q)
  | op_GetQueues ctx : operation (GetQueues ctx)
  | op_DeleteJob ctx id : job_id id -> operation (DeleteJob ctx id)
  | op_AddScheduled ctx at_ job : fresh_or_id job -> operation (AddScheduled ctx at_ job)
  | op_GetDueScheduled ctx now b : operation (GetDueScheduled ctx now b)
  | op_RemoveScheduled ctx id : operation (RemoveScheduled ctx id)
  | op_ScheduleRetry ctx id at_ : job_id id -> operation (ScheduleRetry ctx id at_)
  | op_SetJobResult ctx id r : job_id id -> operation (SetJobResult ctx id r)
  | op_RemoveExpired ctx c : operation (RemoveExpired ctx c)
  | op_UpsertRecurring ctx e : operation (UpsertRecurring ctx e)
  | op_RemoveRecurring ctx id : operation (RemoveRecurring ctx id)
  | op_GetRecurringJobs ctx : operation (GetRecurringJobs ctx)
  | op_UpdateRecurringLastRun ctx id l nx : operation (UpdateRecurringLastRun ctx id l nx)
  | op_AddContinuation ctx p e : operation (AddContinuation ctx p e)
  | op_GetContinuations ctx p : operation (GetContinuations ctx p)
  | op_RemoveContinuations ctx p : operation (RemoveContinuations ctx p)
  | op_RegisterServer ctx sv ttl : operation (RegisterServer ctx sv ttl)
  | op_UnregisterServer ctx id : operation (UnregisterServer ctx id)
  | op_Heartbeat ctx id ttl : operation (Heartbeat ctx id ttl)
  | op_GetServers ctx : operation (GetServers ctx)
  | op_IncrementCounter ctx key d : operation (IncrementCounter ctx key d)
  | op_GetCounter ctx key : operation (GetCounter ctx key)
  | op_GetAllCounters ctx a b : operation (GetAllCounters ctx a b)
  | op_AcquireLock ctx res ttl : operation (AcquireLock ctx res ttl)
  | op_Release ctx l : operation (Release ctx l).

Lemma operation_ok {A} (m : M St A) : operation m -> preserves well_typed m.
Proof.
  destruct 1; auto using ok_EnqueueIdempotent, ok_Dequeue, ok_Requeue, ok_ApplyState, ok_HeartbeatJob,
    ok_GetOrphanedJobs, ok_GetJob, ok_GetJobsByState, ok_GetQueueLength, ok_GetQueues, ok_DeleteJob,
    ok_GetDueScheduled, ok_RemoveScheduled, ok_ScheduleRetry, ok_SetJobResult, ok_RemoveExpired,
    ok_UpsertRecurring, ok_RemoveRecurring, ok_GetRecurringJobs, ok_UpdateRecurringLastRun,
    ok_AddContinuation, ok_GetContinuations, ok_RemoveContinuations, ok_RegisterServer,
    ok_UnregisterServer, ok_Heartbeat, ok_GetServers, ok_GetCounter, ok_GetAllCounters,
    ok_AcquireLock, ok_Release.
  - by eapply preserves_ensures, ok_Enqueue.
  - by eapply preserves_ensures, ok_AddScheduled.
  - apply ok_bumpCounter.
Qed.
End Operations.
