(* ===== verification/RedisRun.v ===== *)
(** * Running the Redis backend when nothing interferes

    A client alone with its server on a network without faults: what the key
    space becomes after a command, a batch or a script, as a function of what it
    was.  The keys of locks, which expire, are left aside. *)
From S2P Require Import Prelude.
From S2P Require Import GoTime.
From S2P Require Import Strconv.
From S2P Require Import Job.
From S2P Require Import StorageI.
From S2P Require Import RedisServer.
From S2P Require Import RedisCodec.
From S2P Require Import Redis.
From S2P Require Import RedisTyped.

(** ** Commands are local to their keys *)
Definition agree (ks : list string) (m m' : keyspace) : Prop := forall k, k ∈ ks -> m !! k = m' !! k.

Lemma lookup_put k v (m : keyspace) : put k v m !! k = if is_empty_value v then None else Some v.
Proof. unfold put. destruct (is_empty_value v); by rewrite ?lookup_delete_eq, ?lookup_insert_eq. Qed.

Lemma lookup_put_ne k k' v (m : keyspace) : k <> k' -> put k v m !! k' = m !! k'.
Proof. intros. unfold put. destruct (is_empty_value v); by rewrite ?lookup_delete_ne, ?lookup_insert_ne. Qed.

Lemma agree_put k v m m' : agree [k] (put k v m) (put k v m').
Proof. intros k' Hk. apply list_elem_of_singleton in Hk as ->. by rewrite !lookup_put. Qed.

Lemma agree_insert k v (m m' : keyspace) : agree [k] (<[k := v]> m) (<[k := v]> m').
Proof. intros k' Hk. apply list_elem_of_singleton in Hk as ->. by rewrite !lookup_insert_eq. Qed.

Lemma rpop_first_agree ks m m' : agree ks m m' -> rpop_first m ks = rpop_first m' ks.
Proof.
  induction ks as [|k ks IH]; intros Ha; [done|]. simpl.
  assert (list_at m k = list_at m' k) as <- by (unfold list_at; rewrite (Ha k); [done|left]).
  rewrite IH by (intros k' Hk'; apply Ha; by right). done.
Qed.

Lemma rpop_first_key ks m k x l : rpop_first m ks = Some (Some (k, x, l)) -> k ∈ ks.
Proof.
  induction ks as [|k' ks IH]; [done|]. simpl. destruct (list_at m k') as [l0|]; [|done].
  destruct (reverse l0); [|intros [= <- <- <-]; left]. intros Hr. right. by apply IH.
Qed.

Lemma documented_local c t m m' :
  agree (cmd_keys c) m m' ->
  (documented c t m).2 = (documented c t m').2 /\
  agree (cmd_keys c) (documented c t m).1 (documented c t m').1.
Proof.
  intros Ha. destruct c;
    try (assert (m !! k = m' !! k) as Hk by (apply Ha; left));
    simpl; unfold as_status, str_at, hash_at, list_at, set_at, zset_at; rewrite <- ?Hk.
  all: try (destruct (m !! k) as [[]|] eqn:Hm; simpl; by auto using agree_put, agree_insert).
  - split; [done|]. intros k' Hk'. apply list_elem_of_singleton in Hk' as ->. by rewrite !lookup_delete_eq.
  - destruct (m !! k) as [[]|] eqn:Hm; simpl;
      repeat (destruct (signed _); simpl); auto using agree_insert.
  - rewrite <- (rpop_first_agree ks m m' Ha).
    destruct (rpop_first m ks) as [[[[k x] l]|]|]; simpl; split; try done.
    intros k' Hk'. destruct (decide (k = k')) as [->|Hne].
    + by rewrite !lookup_put.
    + rewrite !lookup_put_ne by done. by apply Ha.
Qed.

Lemma documented_frame c t m k : k ∉ cmd_keys c -> (documented c t m).1 !! k = m !! k.
Proof.
  intros Hk. destruct c; try (apply not_elem_of_cons in Hk as [Hk _]);
    simpl; unfold as_status, str_at, hash_at, list_at, set_at, zset_at; try done.
  all: try (by rewrite lookup_delete_ne by done); try (by rewrite lookup_insert_ne by done).
  all: try (by case_decide; simpl; rewrite ?lookup_insert_ne by done).
  all: try (destruct (m !! k0) as [[]|] eqn:Hm; simpl; by rewrite ?lookup_put_ne by done).
  - destruct (m !! k0) as [[]|] eqn:Hm; simpl; repeat (destruct (signed _); simpl);
      by rewrite ?lookup_insert_ne by done.
  - destruct (rpop_first m ks) as [[[[k' x] l]|]|] eqn:Hr; simpl; try done.
    apply rpop_first_key in Hr. apply lookup_put_ne. by intros ->.
Qed.

(** ** Lasting keys

    Those of the program that never expire. *)
Definition lasting (k : string) : Prop :=
  match kind_of k with Some KLock | None => False | Some _ => True end.

#[export] Instance lasting_dec k : Decision (lasting k).
Proof. unfold lasting. destruct (kind_of k) as [[]|]; apply _. Defined.

Definition lasting_part (m : keyspace) : keyspace := filter (fun kv => lasting kv.1) m.

(** A command that fits, on lasting keys. *)
Definition plain (c : cmd) : Prop := fits c /\ Forall lasting (cmd_keys c).

Lemma lookup_lasting m k : lasting k -> lasting_part m !! k = m !! k.
Proof.
  intros Hk. unfold lasting_part. destruct (m !! k) as [v|] eqn:Hv.
  - by apply map_lookup_filter_Some.
  - apply map_lookup_filter_None. by left.
Qed.

Lemma lookup_not_lasting m k : ~ lasting k -> lasting_part m !! k = None.
Proof. intros Hk. apply map_lookup_filter_None. right. intros v _. done. Qed.

Lemma lookup_live t m k : typed m -> lasting k -> live_at t m !! k = m !! k.
Proof.
  intros Hm Hk. unfold live_at. destruct (m !! k) as [v|] eqn:Hv.
  - apply map_lookup_filter_Some. split; [done|]. unfold lasting in Hk. simpl.
    destruct (kind_of k) as [kd|] eqn:Hkd; [|done]. pose proof (Hm k v kd Hv Hkd) as Hkind.
    by destruct v, kd.
  - apply map_lookup_filter_None. by left.
Qed.

Lemma typed_lasting m : typed m -> typed (lasting_part m).
Proof. intros Hm k v kd Hk. apply map_lookup_filter_Some in Hk as [Hk _]. by apply Hm. Qed.

Definition effect (c : cmd) (m : keyspace) : keyspace := (documented c 0 m).1.
Definition answer (c : cmd) (m : keyspace) : reply := (documented c 0 m).2.
Definition effects (cs : list cmd) (m : keyspace) : keyspace := fold_left (fun m c => effect c m) cs m.

Lemma plain_timeless c t m : plain c -> documented c t m = (effect c m, answer c m).
Proof.
  intros [Hf Hl]. unfold effect, answer. rewrite <- surjective_pairing.
  destruct c; try done. exfalso. simpl in Hf. inversion Hl as [|? ? Hk]; subst. unfold lasting in Hk.
  by rewrite Hf in Hk.
Qed.

Lemma plain_exec_keys c t m :
  plain c -> typed m ->
  lasting_part (documented c t (live_at t m)).1 = effect c (lasting_part m) /\
  (documented c t (live_at t m)).2 = answer c (lasting_part m).
Proof.
  intros Hc Hm. pose proof (proj2 Hc) as Hl. rewrite Forall_forall in Hl.
  assert (agree (cmd_keys c) (live_at t m) (lasting_part m)) as Ha.
  { intros k Hk. rewrite lookup_live, lookup_lasting; auto. }
  destruct (documented_local c t _ _ Ha) as [Hr Hk].
  rewrite Hr, (plain_timeless c t (lasting_part m) Hc).
  split; [|done]. apply map_eq. intros k.
  pose proof (plain_timeless c t (lasting_part m) Hc) as Ht.
  destruct (decide (k ∈ cmd_keys c)) as [Hin|Hin].
  - rewrite lookup_lasting by auto. rewrite (Hk k Hin), Ht. done.
  - assert (effect c (lasting_part m) !! k = lasting_part m !! k) as ->.
    { replace (effect c (lasting_part m)) with (documented c t (lasting_part m)).1 by (by rewrite Ht).
      by apply documented_frame. }
    destruct (decide (lasting k)) as [Hlk|Hlk]; [|by rewrite !lookup_not_lasting].
    rewrite !lookup_lasting by done. rewrite documented_frame by done. by apply lookup_live.
Qed.

Lemma read_documented c t m : reads c = true -> (documented c t m).1 = m.
Proof.
  destruct c; try done; intros _; simpl; unfold on, as_status; try done.
  - by destruct (str_at m k).
  - by destruct (hash_at m k).
  - by destruct (hash_at m k).
  - by destruct (list_at m k).
  - by destruct (list_at m k).
  - by destruct (set_at m k).
  - by destruct (zset_at m k).
Qed.

(** ** Runs *)
Section Alone.
Context {EV : Env} {R : Type} {RD : Redis R}.
#[local] Existing Instance quiet_network.

Abbreviation St := (Storage R).

(** The lasting keys of the server behind a client. *)
Definition keyspace_of (s : St) : keyspace := lasting_part (keys_of (client s)).

(** [s'] has the key space [m], and is otherwise like [s]. *)
Record ran (s : St) (m : keyspace) (s' : St) : Prop := {
  ran_keys : keyspace_of s' = m;
  ran_typed : typed (keys_of (client s'));
  ran_server : serverID s' = serverID s;
}.

Lemma exec_plain c t r :
  plain c -> typed (keys_of r) ->
  lasting_part (keys_of (exec c t r).1) = effect c (lasting_part (keys_of r)) /\
  (exec c t r).2 = answer c (lasting_part (keys_of r)) /\ typed (keys_of (exec c t r).1).
Proof.
  intros Hc Hr. destruct (plain_exec_keys c t _ Hc Hr) as [He Ha].
  destruct (exec_ok c t r (proj1 Hc) Hr) as [Ht _]. rewrite exec_reply. split_and!; [|done..].
  destruct (reads c) eqn:Hrd; [|by rewrite exec_writes].
  rewrite exec_reads by done. rewrite <- He, read_documented by done.
  apply map_eq. intros k. destruct (decide (lasting k)) as [Hk|Hk]; [|by rewrite !lookup_not_lasting].
  by rewrite !lookup_lasting, lookup_live.
Qed.

Lemma read_effect c m : reads c = true -> effect c m = m.
Proof. apply read_documented. Qed.

Lemma serve_plain c n s :
  plain c -> typed (keys_of (client s)) -> exists s',
    serve (command c) n s = (S n, s', Ok (answer c (keyspace_of s))) /\
    ran s (effect c (keyspace_of s)) s' /\ (reads c = true -> s' = s).
Proof.
  intros Hc Hs. destruct (exec_plain c (clock n) (client s) Hc Hs) as (He & Ha & Ht).
  pose proof (exec_reads c (clock n) (client s)) as Hrd.
  unfold serve, command. simpl. destruct (exec c (clock n) (client s)) as [r rep]. simpl in *.
  exists (set_client r s). rewrite Ha. split_and!; [done|by split|].
  intros Hr. destruct s. unfold set_client. simpl in *. by rewrite Hrd.
Qed.

Lemma call_serve (q : request R) n s n' s' rep :
  serve q n s = (n', s', Ok rep) -> (forall msg, rep <> RErr msg) ->
  call Live q n s = (n', s', Ok rep).
Proof.
  intros Hq Hrep. unfold call, send. simpl. unfold_m. rewrite Hq.
  destruct rep; try done. by edestruct Hrep.
Qed.

Lemma answer_fits c m : plain c -> typed m -> reply_fits c (answer c m).
Proof. intros [Hc _] Hm. by apply documented_typed. Qed.

Lemma answer_ok c m : plain c -> typed m -> forall msg, answer c m <> RErr msg.
Proof.
  intros Hc Hm msg He. pose proof (answer_fits c m Hc Hm) as Hf. rewrite He in Hf. by destruct c.
Qed.

Lemma call_run c n s :
  plain c -> typed (keys_of (client s)) -> exists s',
    call Live (command c) n s = (S n, s', Ok (answer c (keyspace_of s))) /\
    ran s (effect c (keyspace_of s)) s'.
Proof.
  intros Hc Hs. destruct (serve_plain c n s Hc Hs) as (s' & Hq & Hr & _). exists s'. split; [|done].
  apply call_serve; [done|]. apply answer_ok; [done|]. by apply typed_lasting.
Qed.

Lemma call_read c n s :
  plain c -> reads c = true -> typed (keys_of (client s)) ->
  call Live (command c) n s = (S n, s, Ok (answer c (keyspace_of s))).
Proof.
  intros Hc Hrd Hs. destruct (serve_plain c n s Hc Hs) as (s' & Hq & _ & Heq). rewrite Heq in Hq by done.
  apply call_serve; [done|]. apply answer_ok; [done|]. by apply typed_lasting.
Qed.

Lemma serve_all_run cs n s :
  Forall plain cs -> typed (keys_of (client s)) -> exists s' reps,
    serve_all (command <$> cs) n s = ((length cs + n)%nat, s', Ok reps) /\
    ran s (effects cs (keyspace_of s)) s' /\ first_error reps = None.
Proof.
  intros Hcs. revert n s. induction Hcs as [|c cs Hc Hcs IH]; intros n s Hs.
  - exists s, []. by split_and!.
  - destruct (serve_plain c n s Hc Hs) as (s1 & Hq & [Hk1 Ht1 Hi1] & _).
    destruct (IH (S n) s1 Ht1) as (s2 & reps & Hall & [Hk2 Ht2 Hi2] & Herr).
    exists s2, (answer c (keyspace_of s) :: reps). split_and!.
    + simpl. erewrite mbind_ok by done. erewrite mbind_ok by done. unfold mret.
      do 2 f_equal. f_equal. lia.
    + split; [|done|congruence]. rewrite Hk2, Hk1. done.
    + pose proof (answer_ok c (keyspace_of s) Hc (typed_lasting _ Hs)) as Ha.
      unfold first_error. simpl. destruct (answer c (keyspace_of s)); try done. by edestruct Ha.
Qed.

Lemma pipeline_run cs n s :
  Forall plain cs -> typed (keys_of (client s)) -> exists s',
    pipeline Live (command <$> cs) n s = ((length cs + n)%nat, s', Ok tt) /\
    ran s (effects cs (keyspace_of s)) s'.
Proof.
  intros Hcs Hs. destruct (serve_all_run cs n s Hcs Hs) as (s' & reps & Hall & Hr & He).
  exists s'. split; [|done]. unfold pipeline, send. simpl. erewrite mbind_ok by done. by rewrite He.
Qed.

(** A step of a script that runs the commands [cs] and gives [a]. *)
Definition lua_runs {A} (m : lua (R := R) A) (cs : list cmd) (a : A) (r : R) : Prop :=
  exists r', m r = (r', inl a) /\ typed (keys_of r') /\
    lasting_part (keys_of r') = effects cs (lasting_part (keys_of r)) /\
    (Forall (fun c => reads c = true) cs -> r' = r).

Lemma lua_runs_ret {A} (a : A) r : typed (keys_of r) -> lua_runs (lua_ret a) [] a r.
Proof. intros Hr. by exists r. Qed.

Lemma lua_runs_seq {A} t c (k : reply -> lua A) cs a r :
  plain c -> typed (keys_of r) ->
  (forall r', typed (keys_of r') -> lasting_part (keys_of r') = effect c (lasting_part (keys_of r)) ->
    lua_runs (k (answer c (lasting_part (keys_of r)))) cs a r') ->
  lua_runs (lua_bind (redis_call t c) k) (c :: cs) a r.
Proof.
  intros Hc Hr Hk. destruct (exec_plain c t r Hc Hr) as (He & Ha & Ht).
  pose proof (exec_reads c t r) as Hrd.
  pose proof (answer_ok c _ Hc (typed_lasting _ Hr)) as Hok.
  unfold lua_runs, lua_bind, redis_call. destruct (exec c t r) as [r1 rep] eqn:Hx. simpl in *. subst rep.
  destruct (Hk r1 Ht He) as (r2 & Hr2 & Ht2 & He2 & Hrd2). exists r2.
  assert ((let (r', rep) := (r1, answer c (lasting_part (keys_of r))) in
           match rep with RErr msg => (r', inr msg) | _ => (r', inl rep) end)
          = (r1, @inl _ string (answer c (lasting_part (keys_of r))))) as Heq.
  { destruct (answer c (lasting_part (keys_of r))); try done. by edestruct Hok. }
  simpl in Heq. rewrite Heq. split_and!; [done|done|by rewrite He2, He|].
  intros Hall. inversion Hall; subst. rewrite Hrd2 by done. auto.
Qed.

Lemma lua_runs_if {A} (b : Prop) `{Decision b} t c (k : unit -> lua A) cs a r :
  plain c -> typed (keys_of r) ->
  (forall r', typed (keys_of r') ->
    lasting_part (keys_of r') = effects (if decide b then [c] else []) (lasting_part (keys_of r)) ->
    lua_runs (k tt) cs a r') ->
  lua_runs (lua_bind (if decide b then lua_bind (redis_call t c) (fun _ => lua_ret tt) else lua_ret tt) k)
    ((if decide b then [c] else []) ++ cs) a r.
Proof.
  intros Hc Hr Hk. case_decide; [|by apply (Hk r)].
  destruct (lua_runs_seq t c (fun _ => lua_ret tt) [] tt r Hc Hr) as (r1 & Hr1 & Ht1 & He1 & Hrd1).
  { intros. by apply lua_runs_ret. }
  destruct (Hk r1 Ht1 He1) as (r2 & Hr2 & Ht2 & He2 & Hrd2). exists r2.
  unfold lua_bind at 1. rewrite Hr1. split_and!; [done|done|by rewrite He2, He1|].
  intros Hall. inversion Hall; subst. rewrite Hrd2 by done. apply Hrd1. by repeat constructor.
Qed.

(** The same of a request, which answers [rep]. *)
Definition request_runs (q : request R) (t : Time) (cs : list cmd) (rep : reply) (r : R) : Prop :=
  exists r', q t r = (r', rep) /\ typed (keys_of r') /\
    lasting_part (keys_of r') = effects cs (lasting_part (keys_of r)) /\
    (Forall (fun c => reads c = true) cs -> r' = r).

Lemma script_runs body t cs rep r : lua_runs (body t) cs rep r -> request_runs (script body) t cs rep r.
Proof. intros (r' & Hb & Ht & He & Hrd). exists r'. split_and!; try done. unfold script. by rewrite Hb. Qed.

Lemma call_request q cs rep n s :
  request_runs q (clock n) cs rep (client s) -> (forall msg, rep <> RErr msg) ->
  exists s', call Live q n s = (S n, s', Ok rep) /\
    ran s (effects cs (keyspace_of s)) s' /\ (Forall (fun c => reads c = true) cs -> s' = s).
Proof.
  intros (r' & Hb & Ht & He & Hrd) Hrep. exists (set_client r' s). split_and!.
  - apply call_serve; [|done]. unfold serve. simpl. by rewrite Hb.
  - by split.
  - intros Hall. rewrite Hrd by done. by destruct s.
Qed.
End Alone.

(** ** The effect of the commands on their key *)
Lemma effect_ne c m k : k ∉ cmd_keys c -> effect c m !! k = m !! k.
Proof. apply documented_frame. Qed.

Lemma effects_ne cs m k : Forall (fun c => k ∉ cmd_keys c) cs -> effects cs m !! k = m !! k.
Proof.
  unfold effects. intros Hcs. revert m. induction Hcs as [|c cs Hc _ IH]; intros m; simpl; [done|].
  rewrite IH. by apply effect_ne.
Qed.

Lemma effect_HSET k fs h m :
  hash_at m k = Some h -> fs ∪ h <> ∅ -> effect (HSET k fs) m !! k = Some (RHash (fs ∪ h)).
Proof. intros Hh Hne. unfold effect. simpl. rewrite Hh. simpl. rewrite lookup_put. simpl. by rewrite bool_decide_false. Qed.

Lemma effect_HDEL k f h m :
  hash_at m k = Some h -> delete f h <> ∅ -> effect (HDEL k f) m !! k = Some (RHash (delete f h)).
Proof. intros Hh Hne. unfold effect. simpl. rewrite Hh. simpl. rewrite lookup_put. simpl. by rewrite bool_decide_false. Qed.

Lemma effect_RPUSH k v l m :
  list_at m k = Some l -> effect (RPUSH k v) m !! k = Some (RList (l ++ [v])).
Proof.
  intros Hl. unfold effect. simpl. rewrite Hl. simpl. rewrite lookup_put. simpl.
  rewrite bool_decide_false; [done|]. by destruct l.
Qed.
