(* ===== verification/RedisSpec.v ===== *)
(** * The Redis backend keeps the contract of a backend

    The representation of jobs and continuations in the key space, that every
    operation the engine settles a job with keeps it, and what it does to the view:
    the laws of [StorageSpec], for a client alone with its server. *)
From S2P Require Import Prelude.
From S2P Require Import GoTime.
From S2P Require Import Strconv.
From S2P Require Import Job.
From S2P Require Import StorageI.
From S2P Require Import MemoryFlow.
From S2P Require Import MemoryLife.
From S2P Require Import StorageSpec.
From S2P Require Import RedisServer.
From S2P Require Import RedisCodec.
From S2P Require Import Redis.
From S2P Require Import RedisTyped.
From S2P Require Import RedisRun.

(** ** The view *)
Section View.
Context {EV : Env} {SJ : StructJson}.

Definition right_of {A B} (r : A + B) : option A := match r with inl a => Some a | inr _ => None end.

Definition decode_states (raws : list string) : option (list JobState) :=
  mapM (fun raw => right_of (unmarshalState raw)) raws.

Definition view_job (m : keyspace) (id : string) : option JobWithStates :=
  match m !! jobKey id with
  | Some (RHash h) =>
    match jobFromHash h, decode_states (default [] (list_at m (jobStatesKey id))) with
    | inl (j, _, _), Some sts => Some (mkJobWithStates j sts)
    | _, _ => None
    end
  | _ => None
  end.

Definition view_entry (m : keyspace) (p e : string) : option ContinuationEntry :=
  match m !! continuationEntryKey p e with
  | Some (RString raw) => right_of (unmarshalContinuation raw)
  | _ => None
  end.

Definition view_conts (m : keyspace) (p : string) : list ContinuationEntry :=
  match m !! continuationsKey p with
  | Some (RSet X) => omap (view_entry m p) (elements X)
  | _ => []
  end.

(** ** The representation

    A stored job has its identifier in its hash, a history that can be read, and the
    name of the last state of it in its hash; a history belongs to a stored job;
    continuations can be read. *)
Record stored (n : nat) (m : keyspace) (id : string) (h : gmap string string) : Prop := {
  stored_id : field h "id" = id;
  stored_used : used n id;
  stored_states : exists raws sts st, m !! jobStatesKey id = Some (RList raws) /\
    decode_states raws = Some sts /\ last sts = Some st /\ h !! "state" = Some (st_Name st);
}.

Record represents (n : nat) (m : keyspace) : Prop := {
  rep_stored : forall id h, job_id id -> m !! jobKey id = Some (RHash h) -> stored n m id h;
  rep_absent : forall id, job_id id -> m !! jobKey id = None -> m !! jobStatesKey id = None;
  rep_entries : forall p e raw, m !! continuationEntryKey p e = Some (RString raw) ->
    is_Some (right_of (unmarshalContinuation raw));
}.

(** The keys the view looks at. *)
Definition watched (k : string) : Prop :=
  (exists id, k = jobKey id) \/ (exists id, k = jobStatesKey id) \/
  (exists p, k = continuationsKey p) \/ (exists p e, k = continuationEntryKey p e).

Lemma jobKey_inj id id' : jobKey id = jobKey id' -> id = id'.
Proof. by intros [=]. Qed.

Lemma length_append s t : String.length (s +:+ t) = (String.length s + String.length t)%nat.
Proof. induction s as [|c s IH]; [done|]. simpl. by rewrite <- IH. Qed.

Lemma append_inj_l s t u : s +:+ u = t +:+ u -> s = t.
Proof.
  revert t. induction s as [|c s IH]; intros [|d t] Heq; [done| | |].
  - apply (f_equal String.length) in Heq. rewrite !length_append in Heq. simpl in Heq. lia.
  - apply (f_equal String.length) in Heq. rewrite !length_append in Heq. simpl in Heq. lia.
  - injection Heq as -> Heq. f_equal. by apply IH.
Qed.

Lemma states_inj id id' : jobStatesKey id = jobStatesKey id' -> id = id'.
Proof. intros [= Heq]. by eapply append_inj_l. Qed.

Lemma job_not_states id id' : job_id id -> jobKey id <> jobStatesKey id'.
Proof.
  intros Hid Heq. apply (f_equal kind_of) in Heq. by rewrite kind_job, kind_states in Heq.
Qed.

Definition job_fields : list string :=
  ["id"; "name"; "args"; "queue"; "retry_max"; "timeout_ms"; "created_at"; "result"].

(** The job in a hash depends on these fields only. *)
Lemma jobFromHash_same h h' j st p :
  jobFromHash h = inl (j, st, p) -> (forall k, k ∈ job_fields -> h' !! k = h !! k) ->
  exists st' p', jobFromHash h' = inl (j, st', p').
Proof.
  intros Hh Hf. unfold jobFromHash, field in *. rewrite !(Hf _) by (unfold job_fields; set_solver).
  case_decide; [done|]. simplify_eq. eauto.
Qed.

Lemma jobFromHash_ok h : field h "id" <> "" -> exists j st p, jobFromHash h = inl (j, st, p) /\ ID j = field h "id".
Proof.
  intros Hid. unfold jobFromHash. rewrite decide_False by done. do 3 eexists. split; [done|].
  by case_decide.
Qed.

(** Another result in the hash. *)
Lemma bclone_text b : bclone b = if decide (text_of b = "") then None else Some (text_of b).
Proof. by destruct b as [[]|]. Qed.

Lemma jobFromHash_result text h j st p :
  jobFromHash h = inl (j, st, p) ->
  jobFromHash ({[ "result" := text ]} ∪ h)
  = inl (set_Result (if decide (text = "") then None else Some text) j, st, p).
Proof.
  assert (forall k, k <> "result" -> ({[ "result" := text ]} ∪ h) !! k = h !! k) as Hne
    by (intros k Hk; rewrite lookup_union_r; [done|by apply lookup_singleton_ne]).
  unfold jobFromHash, field.
  rewrite (lookup_union_Some_l _ _ "result" text) by apply lookup_singleton_eq. rewrite !Hne by done.
  cbn [from_option id]. case_decide; [done|]. intros [= <- <- <-]. repeat case_decide; done || tauto.
Qed.

Lemma not_job_field k : bool_decide (k ∈ job_fields) = false -> k ∉ job_fields.
Proof. apply bool_decide_eq_false_1. Qed.

Lemma used_nonempty n id : used n id -> id <> "".
Proof. intros (i & _ & ->). apply uuid_nonempty. Qed.

Lemma view_colon m id : typed m -> ~ job_id id -> view_job m id = None.
Proof.
  intros Hm Hid. unfold view_job. destruct (m !! jobKey id) as [[]|] eqn:Hk; try done.
  assert (kind_of (jobKey id) = Some KList) as Hkd.
  { unfold jobKey. rewrite kind_job_family. unfold job_id in Hid. by destruct (colon_free id). }
  by pose proof (Hm _ _ _ Hk Hkd).
Qed.

Lemma view_stored n m id h :
  represents n m -> job_id id -> m !! jobKey id = Some (RHash h) ->
  exists j s p raws sts st, jobFromHash h = inl (j, s, p) /\ ID j = id /\
    m !! jobStatesKey id = Some (RList raws) /\ decode_states raws = Some sts /\ last sts = Some st /\
    h !! "state" = Some (st_Name st) /\ view_job m id = Some (mkJobWithStates j sts).
Proof.
  intros Hrep Hid Hh. destruct (rep_stored _ _ Hrep id h Hid Hh) as [Hf Hu (raws & sts & st & Hr & Hd & Hl & Hs)].
  destruct (jobFromHash_ok h) as (j & s & p & Hj & Hji); [rewrite Hf; by eapply used_nonempty|].
  exists j, s, p, raws, sts, st. split_and!; try done; [by rewrite Hji|].
  unfold view_job. rewrite Hh, Hj. unfold list_at. rewrite Hr. simpl. by rewrite Hd.
Qed.

(** A job in the view is in the key space. *)
Lemma view_Some n m id jw :
  typed m -> represents n m -> view_job m id = Some jw ->
  job_id id /\ exists h, m !! jobKey id = Some (RHash h).
Proof.
  intros Hm Hrep Hv. destruct (decide (colon_free id = true)) as [Hid|Hid].
  - split; [done|]. unfold view_job in Hv. destruct (m !! jobKey id) as [[]|]; try done. eauto.
  - by rewrite view_colon in Hv.
Qed.

Section Write.
Context (n n' : nat) (m m' : keyspace) (id : string) (h' : gmap string string) (raws' : list string)
  (sts' : list JobState) (st' : JobState) (j' : Job) (s' : string) (p' : Time).
Hypotheses (Hm : typed m) (Hm' : typed m') (Hrep : represents n m) (Hn : (n <= n')%nat)
  (Hid : job_id id) (Hu : used n' id)
  (Hframe : forall k, watched k -> k <> jobKey id -> k <> jobStatesKey id -> m' !! k = m !! k)
  (Hh : m' !! jobKey id = Some (RHash h')) (Hf : field h' "id" = id)
  (Hj : jobFromHash h' = inl (j', s', p')) (Hr : m' !! jobStatesKey id = Some (RList raws'))
  (Hd : decode_states raws' = Some sts') (Hl : last sts' = Some st')
  (Hs : h' !! "state" = Some (st_Name st')).

Lemma frame_job id' : job_id id' -> id' <> id ->
  m' !! jobKey id' = m !! jobKey id' /\ m' !! jobStatesKey id' = m !! jobStatesKey id'.
Proof.
  intros Hid' Hne. split; apply Hframe.
  - left. eauto.
  - intros Heq. by apply jobKey_inj in Heq.
  - by apply job_not_states.
  - right; left. eauto.
  - intros Heq. symmetry in Heq. by apply job_not_states in Heq.
  - intros Heq. by apply states_inj in Heq.
Qed.

Lemma frame_conts p e :
  m' !! continuationsKey p = m !! continuationsKey p /\
  m' !! continuationEntryKey p e = m !! continuationEntryKey p e.
Proof. split; apply Hframe; [right; right; left; eauto|done|done|do 3 right; eauto|done|done]. Qed.

Lemma write_represents : represents n' m'.
Proof.
  split.
  - intros id' h Hid' Hk. destruct (decide (id' = id)) as [->|Hne].
    + assert (h = h') as -> by congruence. split; [done|done|]. exists raws', sts', st'. by split_and!.
    + destruct (frame_job id' Hid' Hne) as [H1 H2]. rewrite H1 in Hk.
      destruct (rep_stored _ _ Hrep id' h Hid' Hk) as [Hf' Hu' Hs'].
      split; [done|by eapply used_mono|by rewrite H2].
  - intros id' Hid' Hk. destruct (decide (id' = id)) as [->|Hne]; [congruence|].
    destruct (frame_job id' Hid' Hne) as [H1 H2]. rewrite H1 in Hk. rewrite H2.
    by apply (rep_absent _ _ Hrep).
  - intros p e raw. destruct (frame_conts p e) as [_ ->]. apply (rep_entries _ _ Hrep).
Qed.

Lemma write_job : view_job m' id = Some (mkJobWithStates j' sts').
Proof. unfold view_job, list_at. rewrite Hh, Hj, Hr. simpl. by rewrite Hd. Qed.

Lemma write_rest id' : id' <> id -> view_job m' id' = view_job m id'.
Proof.
  intros Hne. destruct (decide (colon_free id' = true)) as [Hid'|Hid']; [|by rewrite !view_colon].
  destruct (frame_job id' Hid' Hne) as [H1 H2]. unfold view_job, list_at. by rewrite H1, H2.
Qed.

Lemma write_conts p : view_conts m' p = view_conts m p.
Proof.
  unfold view_conts. destruct (frame_conts p "") as [-> _]. destruct (m !! continuationsKey p) as [[]|]; try done.
  apply list_omap_ext, Forall2_same_length_lookup_2; [done|]. intros i e1 e2 H1 H2.
  assert (e1 = e2) as -> by congruence. unfold view_entry. by destruct (frame_conts p e2) as [_ ->].
Qed.
End Write.
End View.

(** ** Automation

    A command that fits on lasting keys; commands on the keys of one job and on keys
    that are not watched; commands on other keys than that of a lookup. *)
Ltac plain_tac :=
  split; [simpl; autorewrite with kinds; rewrite ?kind_job by assumption;
            solve [auto 6 | repeat constructor; auto]
         |simpl; repeat constructor; unfold lasting; autorewrite with kinds;
            rewrite ?kind_job by assumption; exact I].

Definition touches (id k : string) : Prop := k = jobKey id \/ k = jobStatesKey id \/ ~ watched k.

Ltac apart := right; right; intros [[? Hw]|[[? Hw]|[[? Hw]|(? & ? & Hw)]]]; discriminate Hw.

Ltac touch :=
  repeat (apply Forall_app_2 || apply Forall_cons_2 || apply Forall_nil_2 || case_decide);
  first [by left | by right; left | apart].

Ltac off_key :=
  repeat first
    [ apply Forall_nil_2 | apply Forall_cons_2 | apply Forall_app_2 | case_decide
    | match goal with |- _ ∉ _ => intros Hin%list_elem_of_singleton end ];
  first [discriminate | contradiction | by eapply job_not_states | by eapply job_not_states; [|symmetry]; eassumption].


(** ** What is sent *)
(** The commands of [Enqueue]. *)
Definition created (id q raw : string) (fields : gmap string string) : list cmd :=
  [ HSET (jobKey id) fields;
    RPUSH (jobStatesKey id) raw;
    LPUSH (queueKey q) id;
    SADD queuesIndexKey q;
    SADD (stateIndexKey StateEnqueued) id;
    INCRBY (counterKey "enqueued") 1 ].

Section Sent.
Context {EV : Env} {R : Type} {RD : Redis R} {NW : Network R} {SJ : StructJson}.

(** The job is named by a UUID, and its fields, its first state and its place in the
    queue are sent in one batch. *)
Lemma Enqueue_sends q j raw n (s : Storage R) :
  ID j = "" -> q <> "" -> marshalState (mkJobState StateEnqueued "" None (clock (S n))) = inl raw ->
  Enqueue Live q j n s
  = mbind (wrap_err "enqueue" (pipeline Live (command <$> created (uuid n) q raw
      (hash_fields (clock (S (S n))) (named_job (uuid n) (clock (S n)) q j) StateEnqueued time_zero))))
      (fun _ => mret (uuid n)) (3 + n)%nat s.
Proof.
  intros Hj Hq Hm. unfold Enqueue. rewrite decide_True by done. erewrite mbind_ok by done. cbv zeta.
  rewrite decide_False by done. erewrite mbind_ok by done. rewrite Hm. cbn [encoded]. rewrite mbind_ret_l.
  erewrite mbind_ok by done. by rewrite ok_named.
Qed.
End Sent.

(** ** Reading *)
Section Laws.
Context {EV : Env} {R : Type} {RD : Redis R} {SJ : StructJson}.
#[local] Existing Instance quiet_network.

(** What the laws ask of the clock and of the UUIDs. *)
Hypothesis clock_ok : forall n, time_ok (clock n).
Hypothesis uuid_job_id : forall n, job_id (uuid n).

Abbreviation St := (Storage R).

#[local] Instance redis_view : StorageView St := {
  spec_job s id := view_job (keyspace_of s) id;
  spec_conts s p := view_conts (keyspace_of s) p
}.

Definition redis_inv (n : nat) (s : St) : Prop :=
  typed (keys_of (client s)) /\ represents n (keyspace_of s).

Lemma redis_inv_le n n' s : (n <= n')%nat -> redis_inv n s -> redis_inv n' s.
Proof.
  intros Hle [Ht [H1 H2 H3]]. split; [done|]. split; [|done|done].
  intros id h Hid Hh. destruct (H1 id h Hid Hh). split; [done|by eapply used_mono|done].
Qed.

Lemma typed_of n s : redis_inv n s -> typed (keyspace_of s).
Proof. intros [Ht _]. by apply typed_lasting. Qed.

Lemma wrap_run {A} text (m : M St A) n s n' s' a :
  m n s = (n', s', Ok a) -> wrap_err text m n s = (n', s', Ok a).
Proof. unfold wrap_err. by intros ->. Qed.

Lemma call_map_run text k h n s :
  typed (keys_of (client s)) -> plain (HGETALL k) -> hash_at (keyspace_of s) k = Some h ->
  call_map text Live k n s = (S n, s, Ok h).
Proof.
  intros Ht Hp Hh. apply wrap_run. erewrite mbind_ok by (by apply call_read).
  unfold answer. simpl. by rewrite Hh.
Qed.

Lemma call_exists_run text k n s :
  typed (keys_of (client s)) -> plain (EXISTS k) ->
  call_exists text Live k n s
  = (S n, s, Ok (if bool_decide (is_Some (keyspace_of s !! k)) then 1 else 0)).
Proof. intros Ht Hp. apply wrap_run. by erewrite mbind_ok by (by apply call_read). Qed.

Lemma call_members_run text k X n s :
  typed (keys_of (client s)) -> plain (SMEMBERS k) -> set_at (keyspace_of s) k = Some X ->
  call_members text Live k n s = (S (S n), s, Ok (map_order (S n) (elements X))).
Proof.
  intros Ht Hp HX. apply wrap_run. erewrite mbind_ok by (by apply call_read).
  unfold answer. simpl. by rewrite HX.
Qed.

Lemma mmap_decoded {A B} (f : B -> A + error) l (ys : list A) n s :
  mapM (fun x => right_of (f x)) l = Some ys -> mmap l (fun x => decoded (f x)) n s = (n, s : St, Ok ys).
Proof.
  revert ys. induction l as [|x l IH]; intros ys; simpl; [by intros [= <-]|].
  destruct (f x) as [y|]; [|done]. simpl. destruct (mapM _ l) as [zs|]; [|done]. intros [= <-].
  erewrite mbind_ok by done. by erewrite mbind_ok by (by apply IH).
Qed.

Lemma loadStates_run id raws sts n s :
  typed (keys_of (client s)) -> keyspace_of s !! jobStatesKey id = Some (RList raws) ->
  decode_states raws = Some sts -> loadStates Live id n s = (S n, s, Ok sts).
Proof.
  intros Ht Hr Hd. unfold loadStates. erewrite mbind_ok.
  - by apply mmap_decoded.
  - apply wrap_run. erewrite mbind_ok by (by apply call_read; [plain_tac|..]).
    unfold answer. simpl. unfold list_at. by rewrite Hr.
Qed.

(** A read of a key that may hold anything. *)
Lemma call_any c n s : reads c = true ->
  call Live (command c) n s
  = (S n, s, match (documented c (clock n) (live_at (clock n) (keys_of (client s)))).2 with
             | RErr msg => Err (ErrText msg)
             | rep => Ok rep
             end).
Proof.
  intros Hc. pose proof (exec_reads c (clock n) (client s) Hc) as Hr.
  pose proof (exec_reply c (clock n) (client s)) as Hrep.
  unfold call, send. simpl. unfold_m. unfold serve, command. simpl.
  destruct (exec c (clock n) (client s)) as [r rep]. simpl in *. subst r rep.
  destruct (documented c _ _).2; by destruct s.
Qed.

Lemma redis_GetJob id n s : redis_inv n s -> exists n' r,
  GetJob Live id n s = (n', s, r) /\ (n <= n')%nat /\
  match view_job (keyspace_of s) id with Some jw => r = Ok jw | None => exists err, r = Err err end.
Proof.
  intros [Ht Hrep]. pose proof (typed_lasting _ Ht : typed (keyspace_of s)) as Htl.
  destruct (decide (colon_free id = true)) as [Hid|Hid].
  - change (job_id id) in Hid. unfold GetJob.
    destruct (keyspace_of s !! jobKey id) as [v|] eqn:Hk.
    + pose proof (Htl _ _ _ Hk (kind_job id Hid)) as Hv. destruct v; try done.
      destruct (view_stored n _ id h Hrep Hid Hk) as (j & s0 & p & raws & sts & st & Hj & Hji & Hr & Hd & _ & Hs & ->).
      do 2 eexists. split_and!; [|shelve|reflexivity].
      erewrite mbind_ok by (apply call_map_run; [done|plain_tac|by unfold hash_at; rewrite Hk]).
      cbv beta iota. rewrite decide_False by (intros ->; by rewrite lookup_empty in Hs).
      rewrite Hj. erewrite mbind_ok by done. cbv beta.
      erewrite mbind_ok by (by eapply loadStates_run). reflexivity. Unshelve. lia.
    + unfold view_job. rewrite Hk. do 2 eexists. split_and!; [|shelve|by eexists].
      erewrite mbind_ok by (apply call_map_run; [done|plain_tac|by unfold hash_at; rewrite Hk]).
      reflexivity. Unshelve. lia.
  - rewrite view_colon by done. unfold GetJob, call_map.
    assert (kind_of (jobKey id) = Some KList) as Hkd.
    { unfold jobKey. rewrite kind_job_family. by destruct (colon_free id). }
    unfold wrap_err. unfold_m. rewrite call_any by done. simpl.
    pose proof (typed_live (clock n) _ Ht (jobKey id)) as Hl. unfold hash_at.
    destruct (live_at _ _ !! jobKey id) as [v|] eqn:Hv; rewrite ?Hv.
    + pose proof (Hl v _ eq_refl Hkd). destruct v; try done. simpl. do 2 eexists. split_and!; [done|lia|eauto].
    + simpl. do 2 eexists. split_and!; [done|lia|eauto].
Qed.

(** ** Writing *)
Lemma effects_frame id cs m k :
  Forall (fun c => Forall (touches id) (cmd_keys c)) cs ->
  watched k -> k <> jobKey id -> k <> jobStatesKey id -> effects cs m !! k = m !! k.
Proof.
  intros Hcs Hk H1 H2. apply effects_ne. eapply Forall_impl; [done|]. intros c Hc Hin.
  rewrite Forall_forall in Hc. by destruct (Hc k Hin) as [|[|]].
Qed.

(** The commands of an operation left the job [id] with the hash [h'] and the history
    [raws']. *)
Lemma redis_wrote id h' raws' sts' st' j' p0 t0 cs n n' s s' :
  redis_inv n s -> ran s (effects cs (keyspace_of s)) s' -> (n <= n')%nat -> job_id id -> used n' id ->
  Forall (fun c => Forall (touches id) (cmd_keys c)) cs ->
  effects cs (keyspace_of s) !! jobKey id = Some (RHash h') ->
  effects cs (keyspace_of s) !! jobStatesKey id = Some (RList raws') ->
  field h' "id" = id -> jobFromHash h' = inl (j', p0, t0) ->
  decode_states raws' = Some sts' -> last sts' = Some st' -> h' !! "state" = Some (st_Name st') ->
  redis_inv n' s' /\ only_job id (mkJobWithStates j' sts') s s'.
Proof.
  intros HI [Hk Ht Hsv] Hn Hid Hu Hcs Hh Hr Hf Hj Hd Hl Hs. rewrite <- Hk in Hh, Hr.
  assert (forall k, watched k -> k <> jobKey id -> k <> jobStatesKey id ->
    keyspace_of s' !! k = keyspace_of s !! k) as Hframe by (intros; rewrite Hk; by apply effects_frame with id).
  destruct HI as [Hts Hrep]. pose proof (typed_lasting _ Hts : typed (keyspace_of s)) as Htl.
  pose proof (typed_lasting _ Ht : typed (keyspace_of s')) as Htl'.
  split; [split; [done|]|split].
  - by eapply write_represents.
  - by eapply write_job.
  - intros id' Hne. simpl. eapply (write_rest (keyspace_of s) (keyspace_of s') id); done.
  - intros p. simpl. eapply write_conts; done.
Qed.

Lemma marshal_state_ok st : time_ok (st_CreatedAt st) ->
  exists raw, marshalState st = inl raw /\ unmarshalState raw = inl (json_state st).
Proof.
  intros Ht. destruct (state_roundtrip st Ht) as (raw & Hm & Hu). exists raw.
  unfold marshalState, unmarshalState. by rewrite Hm, Hu.
Qed.

Lemma decode_snoc raws raw sts st :
  decode_states raws = Some sts -> unmarshalState raw = inl st ->
  decode_states (raws ++ [raw]) = Some (sts ++ [st]).
Proof.
  unfold decode_states. intros Hs Hr. revert sts Hs. induction raws as [|r raws IH]; intros sts; simpl.
  - intros [= <-]. by rewrite Hr.
  - destruct (unmarshalState r) as [x|]; simpl; [|done].
    destruct (mapM _ raws) as [xs|]; [|done]. intros [= <-]. by rewrite (IH xs).
Qed.

(** The commands of [applyStateScript] when the states agree. *)
Definition transition (id e st now raw clear cname : string) : list cmd :=
  [HGET (jobKey id) "state"; HSET (jobKey id) {[ "state" := st; "updated_at" := now ]}]
  ++ (if decide (clear = "1") then [HDEL (jobKey id) "progress_at"] else [])
  ++ [RPUSH (jobStatesKey id) raw; SREM (stateIndexKey e) id; SADD (stateIndexKey st) id]
  ++ (if decide (e = "Processing" /\ st <> "Processing") then [HDEL processingKey id] else [])
  ++ (if decide (cname <> "") then [INCRBY (counterKey cname) 1] else []).

Lemma applyStateScript_runs t id e st now raw clear cname h r :
  job_id id -> typed (keys_of r) -> lasting_part (keys_of r) !! jobKey id = Some (RHash h) ->
  h !! "state" = Some e ->
  request_runs (applyStateScript (jobKey id) (jobStatesKey id) processingKey (stateIndexKey e)
    (stateIndexKey st) (counterKey cname) e st now clear raw id cname) t
    (transition id e st now raw clear cname) (RInt 1) r.
Proof.
  intros Hid Hr Hh Hs. apply script_runs. unfold transition.
  apply lua_runs_seq; [plain_tac|done|]. intros r1 Hr1 _.
  unfold answer. simpl. unfold hash_at. rewrite Hh. simpl. rewrite Hs, decide_False by tauto.
  apply lua_runs_seq; [plain_tac|done|]. intros r2 Hr2 _.
  apply lua_runs_if; [plain_tac|done|]. intros r3 Hr3 _.
  do 3 (apply lua_runs_seq; [plain_tac|done|]; intros ? ? _).
  apply lua_runs_if; [plain_tac|done|]. intros r7 Hr7 _.
  rewrite <- (app_nil_r (if decide (cname <> "") then _ else _)).
  apply lua_runs_if; [plain_tac|done|]. intros r8 Hr8 _. by apply lua_runs_ret.
Qed.

(** The state of a job in a server. *)
Definition state_at (id : string) (r : R) : option string :=
  match lasting_part (keys_of r) !! jobKey id with Some (RHash h) => h !! "state" | _ => None end.

Lemma applyStateScript_refuses t id e st now raw clear cname r :
  job_id id -> typed (keys_of r) -> state_at id r <> Some e ->
  request_runs (applyStateScript (jobKey id) (jobStatesKey id) processingKey (stateIndexKey e)
    (stateIndexKey st) (counterKey cname) e st now clear raw id cname) t
    [HGET (jobKey id) "state"] (RInt (if decide (state_at id r = None) then -1 else -2)) r.
Proof.
  intros Hid Hr Hs. apply script_runs. apply lua_runs_seq; [plain_tac|done|]. intros r1 Hr1 _.
  revert Hs. unfold answer, state_at. simpl. unfold hash_at.
  destruct (lasting_part (keys_of r) !! jobKey id) as [v|] eqn:Hv; [|intros _; by apply lua_runs_ret].
  pose proof (typed_lasting _ Hr _ _ _ Hv (kind_job id Hid)). destruct v; try done. simpl.
  destruct (h !! "state") as [cur|] eqn:Hc; [|intros _; by apply lua_runs_ret].
  intros Hne. rewrite decide_True by congruence. by apply lua_runs_ret.
Qed.

Lemma applyStateScript_run id e st now raw clear cname h n s :
  job_id id -> typed (keys_of (client s)) -> keyspace_of s !! jobKey id = Some (RHash h) ->
  h !! "state" = Some e -> exists s',
    call Live (applyStateScript (jobKey id) (jobStatesKey id) processingKey (stateIndexKey e)
      (stateIndexKey st) (counterKey cname) e st now clear raw id cname) n s = (S n, s', Ok (RInt 1)) /\
    ran s (effects (transition id e st now raw clear cname) (keyspace_of s)) s'.
Proof.
  intros Hid Hr Hh Hs.
  destruct (call_request _ _ _ n s (applyStateScript_runs (clock n) id e st now raw clear cname h
    (client s) Hid Hr Hh Hs)) as (s' & Hc & Hran & _); [done|]. eauto.
Qed.

Lemma applyStateScript_conflict id e cur st now raw clear cname h n s :
  job_id id -> typed (keys_of (client s)) -> keyspace_of s !! jobKey id = Some (RHash h) ->
  h !! "state" = Some cur -> cur <> e ->
  call Live (applyStateScript (jobKey id) (jobStatesKey id) processingKey (stateIndexKey e)
    (stateIndexKey st) (counterKey cname) e st now clear raw id cname) n s = (S n, s, Ok (RInt (-2))).
Proof.
  intros Hid Hr Hh Hs Hne.
  assert (state_at id (client s) = Some cur) as Hcur by (unfold state_at; fold (keyspace_of s); by rewrite Hh).
  destruct (call_request _ _ _ n s (applyStateScript_refuses (clock n) id e st now raw clear cname
    (client s) Hid Hr ltac:(congruence))) as (s' & Hc & _ & Hrd); [done|].
  rewrite Hrd, Hcur in Hc by (by repeat constructor). exact Hc.
Qed.

Lemma effects_app cs cs' m : effects (cs ++ cs') m = effects cs' (effects cs m).
Proof. apply fold_left_app. Qed.

Lemma effects_cons c cs m : effects (c :: cs) m = effects cs (effect c m).
Proof. done. Qed.

Lemma new_state st now (h : gmap string string) :
  ({[ "state" := st; "updated_at" := now ]} ∪ h) !! "state" = Some st.
Proof. apply lookup_union_Some_l, lookup_insert_eq. Qed.

Definition moved_hash (st now clear : string) (h : gmap string string) : gmap string string :=
  let h := {[ "state" := st; "updated_at" := now ]} ∪ h in
  if decide (clear = "1") then delete "progress_at" h else h.

Lemma not_empty_field {A} (h : gmap string A) k : is_Some (h !! k) -> h <> ∅.
Proof. intros [v Hv] ->. by rewrite lookup_empty in Hv. Qed.

Lemma moved_hash_state st now clear h : moved_hash st now clear h !! "state" = Some st.
Proof. unfold moved_hash. case_decide; [rewrite lookup_delete_ne by done|]; apply new_state. Qed.

Lemma moved_hash_field st now clear h k :
  k <> "state" -> k <> "updated_at" -> k <> "progress_at" -> moved_hash st now clear h !! k = h !! k.
Proof.
  intros H1 H2 H3. unfold moved_hash.
  assert (({[ "state" := st; "updated_at" := now ]} ∪ h) !! k = h !! k) as Hu.
  { rewrite lookup_union_r; [done|]. by rewrite lookup_insert_ne, lookup_singleton_ne. }
  case_decide; [by rewrite lookup_delete_ne|done].
Qed.

Lemma transition_job id e st now raw clear cname h m :
  job_id id -> m !! jobKey id = Some (RHash h) ->
  effects (transition id e st now raw clear cname) m !! jobKey id = Some (RHash (moved_hash st now clear h)).
Proof.
  intros Hid Hh. unfold transition. rewrite !effects_app, effects_ne by off_key.
  rewrite effects_ne by off_key. rewrite effects_ne by off_key.
  rewrite !effects_cons, (read_effect (HGET _ _)) by done.
  assert (effect (HSET (jobKey id) {[ "state" := st; "updated_at" := now ]}) m !! jobKey id
    = Some (RHash ({[ "state" := st; "updated_at" := now ]} ∪ h))) as H1.
  { apply effect_HSET; [unfold hash_at; by rewrite Hh|]. apply (not_empty_field _ "state").
    by rewrite new_state. }
  unfold moved_hash. case_decide; [|done]. rewrite effects_cons. simpl. apply effect_HDEL.
  - unfold hash_at. simpl. by rewrite H1.
  - apply (not_empty_field _ "state"). by rewrite lookup_delete_ne, new_state by done.
Qed.

Lemma transition_states id e st now raw clear cname raws m :
  job_id id -> m !! jobStatesKey id = Some (RList raws) ->
  effects (transition id e st now raw clear cname) m !! jobStatesKey id = Some (RList (raws ++ [raw])).
Proof.
  intros Hid Hr. unfold transition. rewrite !effects_app, effects_ne by off_key.
  rewrite effects_ne by off_key. rewrite effects_cons, effects_ne by off_key.
  apply effect_RPUSH. unfold list_at. by rewrite !effects_ne, Hr by off_key.
Qed.

Lemma transition_touches id e st now raw clear cname :
  Forall (fun c => Forall (touches id) (cmd_keys c)) (transition id e st now raw clear cname).
Proof.
  unfold transition. touch.
Qed.

(** The hash [h'] is of the same job as [h], in the state [name]. *)
Definition same_job (name : string) (h h' : gmap string string) : Prop :=
  h' !! "state" = Some name /\ forall k, k ∈ job_fields -> h' !! k = h !! k.

Lemma moved_same_job st now clear h : same_job st h (moved_hash st now clear h).
Proof.
  split; [apply moved_hash_state|]. intros k Hk.
  apply moved_hash_field; intros ->; by apply not_job_field in Hk.
Qed.

(** Nothing the view looks at changed. *)
Record unseen (s s' : St) : Prop := {
  us_job : forall id, spec_job s' id = spec_job s id;
  us_conts : forall p, spec_conts s' p = spec_conts s p;
}.

Lemma redis_unseen n n' s s' :
  redis_inv n s -> (n <= n')%nat -> typed (keys_of (client s')) ->
  (forall k, watched k -> keyspace_of s' !! k = keyspace_of s !! k) ->
  redis_inv n' s' /\ unseen s s'.
Proof.
  intros HI Hn Ht Hf. pose proof HI as [Hts Hrep].
  assert (forall id, keyspace_of s' !! jobKey id = keyspace_of s !! jobKey id) as HJ
    by (intros id; apply Hf; left; eauto).
  assert (forall id, keyspace_of s' !! jobStatesKey id = keyspace_of s !! jobStatesKey id) as HS
    by (intros id; apply Hf; right; left; eauto).
  assert (forall p, keyspace_of s' !! continuationsKey p = keyspace_of s !! continuationsKey p) as HC
    by (intros p; apply Hf; right; right; left; eauto).
  assert (forall p e, keyspace_of s' !! continuationEntryKey p e = keyspace_of s !! continuationEntryKey p e) as HE
    by (intros p e; apply Hf; do 3 right; eauto).
  split; [split; [done|split]|split].
  - intros id h Hid. rewrite HJ. intros Hh. destruct (rep_stored _ _ Hrep id h Hid Hh).
    split; [done|by eapply used_mono|by rewrite HS].
  - intros id Hid. rewrite HJ, HS. by apply (rep_absent _ _ Hrep).
  - intros p e raw. rewrite HE. apply (rep_entries _ _ Hrep).
  - intros id. simpl. unfold view_job, list_at. by rewrite HJ, HS.
  - intros p. simpl. unfold view_conts. rewrite HC.
    destruct (keyspace_of s !! continuationsKey p) as [[]|]; try done.
    apply list_omap_ext, Forall2_same_length_lookup_2; [done|]. intros i e1 e2 H1 H2.
    assert (e1 = e2) as -> by congruence. unfold view_entry. by rewrite HE.
Qed.

(** A job with its state and its history one step further. *)
Lemma redis_moved id raw data cs n n' s s' jw :
  redis_inv n s -> view_job (keyspace_of s) id = Some jw -> (n <= n')%nat ->
  ran s (effects cs (keyspace_of s)) s' ->
  Forall (fun c => Forall (touches id) (cmd_keys c)) cs ->
  (forall h, keyspace_of s !! jobKey id = Some (RHash h) ->
     exists h', effects cs (keyspace_of s) !! jobKey id = Some (RHash h') /\ same_job (st_Name data) h h') ->
  (forall raws, keyspace_of s !! jobStatesKey id = Some (RList raws) ->
     effects cs (keyspace_of s) !! jobStatesKey id = Some (RList (raws ++ [raw]))) ->
  unmarshalState raw = inl data ->
  redis_inv n' s' /\ only_job id (with_state jw data) s s'.
Proof.
  intros HI Hv Hn Hran Hcs HJ HS Hraw. pose proof HI as [Hts Hrep].
  destruct (view_Some n _ id jw (typed_of n s HI) Hrep Hv) as (Hid & h & Hh).
  destruct (view_stored n _ id h Hrep Hid Hh) as (j & s0 & p & raws & sts & x & Hj & Hji & Hr & Hd & Hl & Hs & Hv').
  assert (jw = mkJobWithStates j sts) as -> by congruence.
  destruct (rep_stored _ _ Hrep id h Hid Hh) as [Hf Hu _].
  destruct (HJ h Hh) as (h' & Hh' & Hs' & Hsame).
  destruct (jobFromHash_same h h' j s0 p Hj Hsame) as (s1 & p1 & Hj').
  eapply (redis_wrote id); try done.
  - by eapply used_mono.
  - by apply HS.
  - unfold field in *. by rewrite Hsame by (apply (bool_decide_unpack _); reflexivity).
  - by apply decode_snoc.
  - apply last_snoc.
Qed.

Lemma current_of sts (x : JobState) j : last sts = Some x -> CurrentState (mkJobWithStates j sts) = st_Name x.
Proof. intros Hl. unfold CurrentState. by apply current_last. Qed.

Lemma redis_ApplyState id e name reason data jw n s :
  redis_inv n s -> view_job (keyspace_of s) id = Some jw -> known_state name ->
  if decide (CurrentState jw = e) then exists n' s' t,
    ApplyState Live id e (newJobState name reason data) n s = (n', s', Ok tt) /\ redis_inv n' s' /\
    only_job id (with_state jw (json_state (mkJobState name reason data t))) s s'
  else exists n', ApplyState Live id e (newJobState name reason data) n s = (n', s, Err ErrStateConflict)
    /\ redis_inv n' s.
Proof.
  intros HI Hv Hname. pose proof HI as [Hts Hrep].
  destruct (view_Some n _ id jw (typed_of n s HI) Hrep Hv) as (Hid & h & Hh).
  destruct (view_stored n _ id h Hrep Hid Hh) as (j & s0 & p & raws & sts & x & Hj & Hji & Hr & Hd & Hl & Hs & Hv').
  assert (jw = mkJobWithStates j sts) as -> by congruence. rewrite (current_of sts x) by done.
  assert (st_Name (json_state (mkJobState name reason data (clock n))) = name) as Hjs.
  { apply json_state_name. unfold known_state in Hname. simpl.
    repeat (apply elem_of_cons in Hname as [-> | Hname]; [reflexivity|]). by apply not_elem_of_nil in Hname. }
  destruct (marshal_state_ok (mkJobState name reason data (clock n)) (clock_ok n)) as (raw & Hm & Hu).
  unfold ApplyState, newJobState. cbn [st_CreatedAt]. change (IsZero time_zero) with true. cbv iota.
  assert (forall k : JobState -> M St unit,
    mbind (now <- time_Now ;; mret (set_st_CreatedAt now (mkJobState name reason data time_zero))) k n s
    = k (mkJobState name reason data (clock n)) (S n) s) as Hnow by done.
  rewrite Hnow, Hm. cbn [st_Name st_CreatedAt encoded]. rewrite mbind_ret_l. cbv zeta.
  case_decide as He.
  - destruct (applyStateScript_run id e name (FormatNano (clock n))
      raw (if decide (name <> StateProcessing) then "1" else "0")
      (if decide (name = StateSucceeded) then "succeeded"
       else if decide (name = StateFailed) then "failed" else "") h (S n) s)
      as (s' & Hc & Hran); [done|done|done|congruence|].
    do 2 eexists. exists (clock n). split.
    + erewrite mbind_ok by (apply wrap_run; erewrite mbind_ok by exact Hc; reflexivity). reflexivity.
    + eapply redis_moved; [done|done|lia|exact Hran|apply transition_touches| | |exact Hu].
      * intros h' Hh'. rewrite Hjs. eexists. split; [by apply transition_job|apply moved_same_job].
      * intros raws' Hr'. by apply transition_states.
  - exists (S (S n)). split; [|by eapply redis_inv_le, HI; lia].
    erewrite mbind_ok by (apply wrap_run; erewrite mbind_ok by (by eapply applyStateScript_conflict);
      reflexivity). reflexivity.
Qed.

(** ** The time of a retry is plain text *)
Lemma ascii_app s t : ascii_text (s +:+ t) = ascii_text s && ascii_text t.
Proof.
  induction s as [|c s IH]; [done|]. change (String c s +:+ t) with (String c (s +:+ t)). simpl.
  by rewrite IH, andb_assoc.
Qed.

Lemma ascii_digits s : all_digits s = true -> ascii_text s = true.
Proof.
  induction s as [|c s IH]; [done|]. simpl. unfold digit.
  destruct (_ && _) eqn:Hd; [|done]. intros Hs. rewrite IH by done. rewrite andb_true_r.
  apply andb_true_iff in Hd as [_ Hd]. apply Z.leb_le in Hd. apply Nat.ltb_lt. lia.
Qed.

Lemma ascii_Itoa z : ascii_text (Itoa z) = true.
Proof.
  unfold Itoa. destruct z as [|p|p]; [reflexivity| |].
  - apply ascii_digits. apply (scan_pretty (N.pos p)).
  - change (pretty (Z.neg p)) with (String "-"%char (pretty (N.pos p))).
    simpl. apply ascii_digits. apply (scan_pretty (N.pos p)).
Qed.

Lemma ascii_zeros w : ascii_text (zeros w) = true.
Proof. induction w as [|w IH]; [done|exact IH]. Qed.

Lemma ascii_pad w z : ascii_text (pad w z) = true.
Proof. unfold pad. by rewrite ascii_app, ascii_zeros, ascii_Itoa. Qed.

Lemma ascii_RFC3339 t : ascii_text (FormatRFC3339 t) = true.
Proof.
  unfold FormatRFC3339. destruct (civil _) as [[y m] d]. by rewrite !ascii_app, !ascii_pad.
Qed.

(** ** [ScheduleRetry] *)
Definition retried (id now raw : string) (at_ : Time) : list cmd :=
  [ HSET (jobKey id) {[ "state" := StateScheduled; "updated_at" := now ]};
    RPUSH (jobStatesKey id) raw;
    ZADD scheduledKey (Unix at_) id;
    SREM (stateIndexKey StateFailed) id;
    SADD (stateIndexKey StateScheduled) id;
    INCRBY (counterKey "scheduled") 1 ].

Lemma set_state_hash id st now h m :
  m !! jobKey id = Some (RHash h) ->
  effect (HSET (jobKey id) {[ "state" := st; "updated_at" := now ]}) m !! jobKey id
  = Some (RHash (moved_hash st now "0" h)).
Proof.
  intros Hh. apply effect_HSET; [unfold hash_at; by rewrite Hh|].
  apply (not_empty_field _ "state"). by rewrite new_state.
Qed.

Lemma redis_ScheduleRetry id at_ jw n s :
  redis_inv n s -> view_job (keyspace_of s) id = Some jw -> CurrentState jw = StateFailed ->
  exists n' s' st, ScheduleRetry Live id at_ n s = (n', s', Ok tt) /\ redis_inv n' s' /\
    st_Name st = StateScheduled /\ st_Data st = Some {[ "enqueue_at" := FormatRFC3339 at_ ]} /\
    only_job id (with_state jw st) s s'.
Proof.
  intros HI Hv Hfailed. pose proof HI as [Hts Hrep].
  destruct (view_Some n _ id jw (typed_of n s HI) Hrep Hv) as (Hid & h & Hh).
  destruct (view_stored n _ id h Hrep Hid Hh) as (j & s0 & p & raws & sts & x & Hj & Hji & Hr & Hd & Hl & Hs & Hv').
  assert (jw = mkJobWithStates j sts) as -> by congruence. rewrite (current_of sts x) in Hfailed by done.
  set (st := mkJobState StateScheduled "" (Some {[ "enqueue_at" := FormatRFC3339 at_ ]}) (clock (S n))).
  destruct (marshal_state_ok st (clock_ok (S n))) as (raw & Hm & Hu).
  rewrite json_state_plain in Hu.
  2:{ split_and!; [done|done|]. split; [apply map_non_empty_singleton|].
      apply map_Forall_singleton. split; [done|apply ascii_RFC3339]. }
  assert (Forall plain (retried id (FormatNano (clock (S n))) raw at_)) as Hp.
  { unfold retried. repeat (apply Forall_cons_2; [plain_tac|]). apply Forall_nil_2. }
  destruct (pipeline_run _ (S (S n)) s Hp Hts) as (s' & Hpipe & Hran).
  assert (redis_inv (8 + n) s' /\ only_job id (with_state (mkJobWithStates j sts) st) s s') as [HI' Ho].
  { eapply (redis_moved id raw st);
      [done|done|lia|exact Hran|unfold retried; touch| | |exact Hu].
    - intros h' Hh'. unfold retried. rewrite effects_cons, effects_ne by off_key.
      eexists. split; [by apply set_state_hash|apply moved_same_job].
    - intros raws' Hr'. unfold retried. rewrite 2!effects_cons, effects_ne by off_key.
      apply effect_RPUSH. unfold list_at. by rewrite effect_ne, Hr' by off_key. }
  exists (8 + n)%nat, s', st. split; [|by split_and!].
  unfold ScheduleRetry.
  erewrite mbind_ok by (apply call_map_run; [done|plain_tac|by unfold hash_at; rewrite Hh]).
  cbv beta. rewrite decide_False by (intros ->; by rewrite lookup_empty in Hs).
  rewrite decide_False by (unfold field; rewrite Hs; simpl; rewrite Hfailed; tauto).
  erewrite mbind_ok by done. fold st. rewrite Hm. cbn [encoded]. rewrite mbind_ret_l.
  apply wrap_run. exact Hpipe.
Qed.

(** ** [SetJobResult] *)
Lemma redis_SetJobResult id r jw n s :
  redis_inv n s -> view_job (keyspace_of s) id = Some jw ->
  exists n' s', SetJobResult Live id r n s = (n', s', Ok tt) /\ redis_inv n' s' /\
    only_job id (with_result jw (memory_result r)) s s'.
Proof.
  intros HI Hv. pose proof HI as [Hts Hrep].
  destruct (view_Some n _ id jw (typed_of n s HI) Hrep Hv) as (Hid & h & Hh).
  destruct (view_stored n _ id h Hrep Hid Hh) as (j & s0 & p & raws & sts & x & Hj & Hji & Hr & Hd & Hl & Hs & Hv').
  assert (jw = mkJobWithStates j sts) as -> by congruence.
  destruct (rep_stored _ _ Hrep id h Hid Hh) as [Hf Hu _].
  set (text := text_of (if 65536 <? blen r then bprefix 65536 r else r)).
  assert (plain (HSET (jobKey id) {[ "result" := text ]})) as Hp by plain_tac.
  destruct (call_run _ (S n) s Hp Hts) as (s' & Hc & Hran).
  exists (S (S n)), s'. split.
  - unfold SetJobResult. erewrite mbind_ok by (apply call_exists_run; [done|plain_tac]).
    rewrite bool_decide_true by eauto. cbv beta. change (1 =? 0) with false. cbv iota.
    apply wrap_run. by erewrite mbind_ok by exact Hc.
  - assert (({[ "result" := text ]} ∪ h) !! "state" = Some (st_Name x)) as Hs'
      by (rewrite lookup_union_r; [done|by apply lookup_singleton_ne]).
    assert (forall k, k <> "result" -> ({[ "result" := text ]} ∪ h) !! k = h !! k) as Hne
      by (intros k Hk; rewrite lookup_union_r; [done|by apply lookup_singleton_ne]).
    destruct Hran as [Hk Ht Hsv].
    change (effect (HSET (jobKey id) {[ "result" := text ]}) (keyspace_of s))
      with (effects [HSET (jobKey id) {[ "result" := text ]}] (keyspace_of s)) in Hk.
    eapply (redis_wrote id ({[ "result" := text ]} ∪ h) raws sts x _ s0 p); try done.
    + lia.
    + eapply used_mono; [|done]; lia.
    + touch.
    + rewrite effects_cons. apply effect_HSET; [by unfold hash_at; rewrite Hh|].
      apply (not_empty_field _ "state"). by rewrite Hs'.
    + by rewrite effects_ne by off_key.
    + unfold field. by rewrite Hne.
    + unfold memory_result. rewrite bclone_text. by apply jobFromHash_result.
Qed.

(** ** [Enqueue] *)
Lemma absent_uuid n s : redis_inv n s ->
  keyspace_of s !! jobKey (uuid n) = None /\ keyspace_of s !! jobStatesKey (uuid n) = None.
Proof.
  intros HI. pose proof HI as [Hts Hrep].
  assert (keyspace_of s !! jobKey (uuid n) = None) as Hn.
  { destruct (keyspace_of s !! jobKey (uuid n)) as [v|] eqn:Hv; [|done].
    pose proof (typed_of n s HI _ _ _ Hv (kind_job _ (uuid_job_id n))). destruct v; try done.
    destruct (rep_stored _ _ Hrep _ _ (uuid_job_id n) Hv) as [_ (i & Hi & Heq) _].
    apply (inj uuid) in Heq. lia. }
  split; [done|]. by apply (rep_absent _ _ Hrep).
Qed.

Lemma hash_fields_state now j st p : hash_fields now j st p !! "state" = Some st.
Proof. by rewrite hash_field. Qed.

Lemma hash_fields_id now j st p : field (hash_fields now j st p) "id" = ID j.
Proof. unfold field. by rewrite hash_field. Qed.

(** What the backend keeps of a timeout. *)
Definition redis_timeout (d : Duration) : Duration :=
  durationFromMS (ParseIntValue (Itoa (timeoutMS d))).

Lemma named_job_eq id now q j :
  named_job id now q j
  = mkJob id (Name j) (Some (match Args j with Some a => a | None => "[]" end)) q
      (if decide (RetryMax j = 0) then 10 else RetryMax j) (Timeout j) (IdempotencyKey j) now (Result j).
Proof. destruct j as [? ? [] ? ? ? ? ? ?]; unfold named_job; simpl; by case_decide. Qed.

Lemma redis_Enqueue_run q j n s :
  typed (keys_of (client s)) -> ID j = "" -> q <> "" -> exists s' raw,
    let job := named_job (uuid n) (clock (S n)) q j in
    let fields := hash_fields (clock (S (S n))) job StateEnqueued time_zero in
    Enqueue Live q j n s = ((9 + n)%nat, s', Ok (uuid n)) /\
    unmarshalState raw = inl (json_state (mkJobState StateEnqueued "" None (clock (S n)))) /\
    ran s (effects (created (uuid n) q raw fields) (keyspace_of s)) s'.
Proof.
  intros Hts Hj Hq. pose proof (uuid_job_id n) as Hid.
  set (now := clock (S n)). set (job := named_job (uuid n) now q j).
  set (st := mkJobState StateEnqueued "" None now).
  destruct (marshal_state_ok st (clock_ok (S n))) as (raw & Hm & Hu).
  set (fields := hash_fields (clock (S (S n))) job StateEnqueued time_zero).
  assert (Forall plain (created (uuid n) q raw fields)) as Hp.
  { unfold created. repeat (apply Forall_cons_2; [plain_tac|]). apply Forall_nil_2. }
  destruct (pipeline_run _ (S (S (S n))) s Hp Hts) as (s' & Hpipe & Hran).
  exists s', raw. split_and!; [|done|done].
  rewrite (Enqueue_sends q j raw) by done. by erewrite mbind_ok by (apply wrap_run; exact Hpipe).
Qed.

Lemma redis_Enqueue q j n s :
  redis_inv n s -> ID j = "" -> q <> "" -> int64_ok (RetryMax j) -> exists n' s' id j' st,
    Enqueue Live q j n s = (n', s', Ok id) /\ redis_inv n' s' /\ view_job (keyspace_of s) id = None /\
    only_job id (mkJobWithStates j' [st]) s s' /\
    st_Name st = StateEnqueued /\ Name j' = Name j /\
    Args j' = Some (match Args j with Some a => a | None => "[]" end) /\
    Queue j' = q /\ RetryMax j' = (if decide (RetryMax j = 0) then 10 else RetryMax j) /\
    Timeout j' = redis_timeout (Timeout j).
Proof.
  intros HI Hj Hq Hmax. destruct (absent_uuid n s HI) as [Hk1 Hk2]. pose proof (uuid_job_id n) as Hid.
  destruct (redis_Enqueue_run q j n s (proj1 HI) Hj Hq) as (s' & raw & Hrun & Hu & Hran).
  set (job := named_job (uuid n) (clock (S n)) q j) in *.
  set (st := mkJobState StateEnqueued "" None (clock (S n))) in *.
  set (fields := hash_fields (clock (S (S n))) job StateEnqueued time_zero) in *.
  assert (jobFromHash fields = inl (read_job job, StateEnqueued, time_zero)) as Hread.
  { apply hash_fields_read.
    - unfold job. rewrite ok_named. apply uuid_nonempty.
    - unfold job. rewrite named_job_eq. simpl. case_decide; [by vm_compute|done].
    - unfold job. rewrite named_job_eq. apply clock_ok.
    - by vm_compute. }
  assert (redis_inv (9 + n) s' /\ only_job (uuid n) (mkJobWithStates (read_job job) [json_state st]) s s')
    as [HI' Ho].
  { eapply (redis_wrote (uuid n) fields [raw] [json_state st] (json_state st));
      [done|exact Hran|lia|done|exists n; split; [lia|done]|unfold created; touch| | | |exact Hread| |done|].
    - unfold created. rewrite effects_cons, effects_ne by off_key.
      replace (Some (RHash fields)) with (Some (RHash (fields ∪ ∅))) by (by rewrite map_union_empty).
      apply effect_HSET; [by unfold hash_at; rewrite Hk1|].
      rewrite map_union_empty. apply (not_empty_field _ "state"). unfold fields. by rewrite hash_fields_state.
    - unfold created. rewrite 2!effects_cons, effects_ne by off_key.
      apply (effect_RPUSH _ _ []). unfold list_at. by rewrite effect_ne, Hk2 by off_key.
    - unfold fields. rewrite hash_fields_id. apply ok_named.
    - unfold decode_states. simpl. by rewrite Hu.
    - unfold fields. rewrite hash_fields_state, json_state_name; done. }
  exists (9 + n)%nat, s', (uuid n), (read_job job), (json_state st).
  split_and!; [exact Hrun|exact HI'| |exact Ho|by rewrite json_state_name|..];
    [unfold view_job; by rewrite Hk1|unfold job; by rewrite named_job_eq..].
Qed.

(** ** [GetContinuations] *)
Lemma redis_load_continuation p e n s :
  redis_inv n s -> load_continuation Live p e n s = (S n, s, Ok (view_entry (keyspace_of s) p e)).
Proof.
  intros HI. pose proof HI as [Hts Hrep]. unfold load_continuation, view_entry.
  assert (plain (GET (continuationEntryKey p e))) as Hp by plain_tac.
  destruct (keyspace_of s !! continuationEntryKey p e) as [v|] eqn:Hv.
  - pose proof (typed_of n s HI _ _ _ Hv (kind_continuation p e)) as Hk. destruct v as [raw| | | | |]; try done.
    destruct (rep_entries _ _ Hrep p e raw Hv) as [ce Hce].
    erewrite mbind_ok.
    2:{ apply mtry_ok. erewrite mbind_ok by (by apply call_read). unfold answer. simpl.
        unfold str_at. rewrite Hv. reflexivity. }
    cbv beta iota. destruct (unmarshalContinuation raw); [|done]. by injection Hce as ->.
  - erewrite mbind_ok.
    2:{ apply mtry_err. erewrite mbind_ok by (by apply call_read). unfold answer. simpl.
        unfold str_at. rewrite Hv. reflexivity. }
    done.
Qed.

Lemma redis_load_all p l n s :
  redis_inv n s -> mmap l (load_continuation Live p) n s
  = ((length l + n)%nat, s, Ok (view_entry (keyspace_of s) p <$> l)).
Proof.
  revert n. induction l as [|e l IH]; intros n HI; [done|]. simpl.
  erewrite mbind_ok by (by apply redis_load_continuation).
  erewrite mbind_ok by (apply IH; by eapply redis_inv_le, HI; lia).
  unfold mret. do 2 f_equal. f_equal. lia.
Qed.

Lemma omap_fmap_id {A B} (f : A -> option B) (l : list A) : omap (fun o => o) (f <$> l) = omap f l.
Proof. induction l as [|x l IH]; [done|]. csimpl. destruct (f x); by rewrite IH. Qed.

Lemma redis_GetContinuations p n s : redis_inv n s -> exists n' l,
  GetContinuations Live p n s = (n', s, Ok l) /\ l ≡ₚ view_conts (keyspace_of s) p /\ redis_inv n' s.
Proof.
  intros HI. pose proof HI as [Hts Hrep].
  assert (exists X, set_at (keyspace_of s) (continuationsKey p) = Some X /\
    view_conts (keyspace_of s) p = omap (view_entry (keyspace_of s) p) (elements X)) as (X & HX & Hview).
  { unfold set_at, view_conts. destruct (keyspace_of s !! continuationsKey p) as [v|] eqn:Hv; [|by eexists].
    pose proof (typed_of n s HI _ _ _ Hv (kind_continuations p)). destruct v; try done. eauto. }
  do 2 eexists. split; [|split; [|eapply redis_inv_le, HI]].
  - unfold GetContinuations.
    erewrite mbind_ok by (apply call_members_run; [done|plain_tac|exact HX]).
    erewrite mbind_ok by (apply redis_load_all; eapply redis_inv_le, HI; lia). reflexivity.
  - rewrite omap_fmap_id, Hview. by rewrite map_order_perm.
  - lia.
Qed.

#[local, refine] Instance redis_StorageSpec : StorageSpec St := {
  spec_inv := redis_inv;
  spec_live ctx := ctx = Live;
  spec_result_ok _ := True;
  spec_text_ok _ := True;
  spec_job_ok j := int64_ok (RetryMax j);
  spec_ids _ := True;
  spec_result := memory_result;
  spec_args a := Some (match a with Some a => a | None => "[]" end);
  spec_timeout := redis_timeout;
  spec_state := json_state
}.
Proof.
  - done.
  - done.
  - intros st Hst. apply json_state_name. unfold known_state in Hst.
    repeat (apply elem_of_cons in Hst as [Heq | Hst]; [by rewrite Heq|]). by apply not_elem_of_nil in Hst.
  - intros n s. apply redis_inv_le. lia.
  - intros n s id jw HI Hv. simpl in Hv. pose proof HI as [Hts Hrep].
    destruct (view_Some n _ id jw (typed_of n s HI) Hrep Hv) as (Hid & h & Hh).
    destruct (view_stored n _ id h Hrep Hid Hh) as (j & s0 & p & raws & sts & x & Hj & Hji & Hr & Hd & Hl & Hs & Hv').
    assert (jw = mkJobWithStates j sts) as -> by congruence. split_and!; [done| |done]. intros Hn. simpl in Hn. by subst.
  - intros ctx id n s -> HI _. destruct (redis_GetJob id n s HI) as (n' & r & Hr & Hle & Hjob).
    exists n', r. split_and!; [done|by eapply redis_inv_le|done].
  - intros ctx id e name reason data jw n s -> HI Hv Hn _ _. by apply redis_ApplyState.
  - intros ctx id at_ jw n s -> HI Hv Hc. by apply redis_ScheduleRetry.
  - intros ctx id r jw n s -> HI Hv _. by apply redis_SetJobResult.
  - intros ctx q j n s -> HI Hj Hq _ Hmax. by apply redis_Enqueue.
  - intros ctx p n s -> HI _. by apply redis_GetContinuations.
Defined.
End Laws.
