(* ===== verification/RedisFlow.v ===== *)
(** * Queues over the Redis backend

    [Dequeue] serves the oldest entry of the first queue that is not empty, for a
    client alone with its server; with [StorageSpec] this carries a job from its
    queue through its handler to the state its outcome asks for. *)
From S2P Require Import Prelude.
From S2P Require Import GoTime.
From S2P Require Import Strconv.
From S2P Require Import Job.
From S2P Require Import StorageI.
From S2P Require Import MemoryFlow.
From S2P Require Import MemoryLife.
From S2P Require Import StorageSpec.
From S2P Require Import RedisServer.
From S2P Require Import RedisCodec.
From S2P Require Import Redis.
From S2P Require Import RedisTyped.
From S2P Require Import RedisRun.
From S2P Require Import RedisSpec.

Section Flow.
Context {EV : Env} {R : Type} {RD : Redis R} {SJ : StructJson}.
#[local] Existing Instance quiet_network.
#[local] Existing Instance redis_view.
Hypothesis clock_ok : forall n, time_ok (clock n).
Hypothesis uuid_job_id : forall n, job_id (uuid n).

Abbreviation St := (Storage R).

(** The commands of [finalizeDequeueScript] when the job exists. *)
Definition finalized (id now raw val : string) : list cmd :=
  [ EXISTS (jobKey id);
    HSET (jobKey id) {[ "state" := "Processing"; "progress_at" := now; "updated_at" := now ]};
    RPUSH (jobStatesKey id) raw;
    HSET processingKey {[ id := val ]};
    SREM (stateIndexKey StateEnqueued) id;
    SADD (stateIndexKey StateProcessing) id;
    INCRBY (counterKey "dequeued") 1 ].

Lemma finalizeDequeueScript_run id now raw val h n s :
  job_id id -> typed (keys_of (client s)) -> keyspace_of s !! jobKey id = Some (RHash h) -> exists s',
    call Live (finalizeDequeueScript (jobKey id) (jobStatesKey id) processingKey
      (stateIndexKey StateEnqueued) (stateIndexKey StateProcessing) (counterKey "dequeued")
      id now raw val) n s = (S n, s', Ok (RInt 1)) /\
    ran s (effects (finalized id now raw val) (keyspace_of s)) s'.
Proof.
  intros Hid Hr Hh. unfold finalizeDequeueScript.
  edestruct call_request with (rep := RInt 1) as (s' & Hc & Hran & _);
    [apply script_runs|done|exists s'; split; [exact Hc|exact Hran]].
  unfold finalized. apply lua_runs_seq; [plain_tac|done|]. intros r1 Hr1 _.
  fold (keyspace_of s). unfold answer. simpl. rewrite Hh. simpl.
  do 6 (apply lua_runs_seq; [plain_tac|done|]; intros ? ? _). by apply lua_runs_ret.
Qed.

Lemma finalizeDequeueScript_gone id now raw val n s :
  job_id id -> typed (keys_of (client s)) -> keyspace_of s !! jobKey id = None ->
  call Live (finalizeDequeueScript (jobKey id) (jobStatesKey id) processingKey
    (stateIndexKey StateEnqueued) (stateIndexKey StateProcessing) (counterKey "dequeued")
    id now raw val) n s = (S n, s, Ok (RInt (-1))).
Proof.
  intros Hid Hr Hh. unfold finalizeDequeueScript.
  edestruct call_request with (cs := [EXISTS (jobKey id)]) (rep := RInt (-1)) as (s' & Hc & _ & Hrd);
    [apply script_runs|done|rewrite Hrd in Hc by (by repeat constructor); exact Hc].
  apply lua_runs_seq; [plain_tac|done|]. intros r1 Hr1 _.
  fold (keyspace_of s). unfold answer. simpl. rewrite Hh. by apply lua_runs_ret.
Qed.

(** The record of a job once dispatched by the server [sv]. *)
Definition processing_state (sv : string) (t : Time) : JobState :=
  mkJobState StateProcessing "" (Some {[ "server_id" := sv ]}) t.

Lemma finalized_hash id now raw val h m :
  job_id id -> m !! jobKey id = Some (RHash h) -> exists h',
    effects (finalized id now raw val) m !! jobKey id = Some (RHash h') /\ same_job StateProcessing h h'.
Proof.
  intros Hid Hh.
  exists ({[ "state" := "Processing"; "progress_at" := now; "updated_at" := now ]} ∪ h). split; [|split].
  - unfold finalized. rewrite 2!effects_cons, effects_ne by off_key. rewrite (read_effect (EXISTS _)) by done.
    apply effect_HSET; [by unfold hash_at; rewrite Hh|]. apply (not_empty_field _ "state").
    rewrite (lookup_union_Some_l _ _ _ "Processing"); [done|]. apply lookup_insert_eq.
  - apply lookup_union_Some_l, lookup_insert_eq.
  - intros k Hk. rewrite lookup_union_r; [done|].
    rewrite !lookup_insert_ne, lookup_singleton_ne; [done|..]; intros <-; by apply not_job_field in Hk.
Qed.

Lemma finalizeDequeue_run id jw n s :
  redis_inv n s -> view_job (keyspace_of s) id = Some jw -> exists s',
    finalizeDequeue Live id n s
      = (S (S n), s', Ok (Some (mkJobTicket id ("tok-" +:+ id +:+ "-" +:+ Itoa (UnixNano (clock n)))))) /\
    redis_inv (S (S n)) s' /\
    only_job id (with_state jw (json_state (processing_state (serverID s) (clock n)))) s s' /\
    forall q, list_at (keyspace_of s') (queueKey q) = list_at (keyspace_of s) (queueKey q).
Proof.
  intros HI Hv. pose proof HI as [Hts Hrep].
  destruct (view_Some n _ id jw (typed_of n s HI) Hrep Hv) as (Hid & h & Hh).
  set (st := processing_state (serverID s) (clock n)).
  destruct (marshal_state_ok st (clock_ok n)) as (raw & Hm & Hu).
  destruct (finalizeDequeueScript_run id (FormatNano (clock n)) raw
    (serverID s +:+ "|" +:+ ("tok-" +:+ id +:+ "-" +:+ Itoa (UnixNano (clock n))) +:+ "|" +:+ strconvUnix (clock n))
    h (S n) s Hid Hts Hh) as (s' & Hc & Hran).
  exists s'. split; [|apply and_assoc; split].
  - unfold finalizeDequeue. erewrite mbind_ok by done. erewrite mbind_ok by done. cbv zeta.
    fold (processing_state (serverID s) (clock n)). fold st. rewrite Hm. cbn [encoded]. rewrite mbind_ret_l.
    erewrite mbind_ok by (apply wrap_run; erewrite mbind_ok by exact Hc; reflexivity). reflexivity.
  - eapply (redis_moved id raw (json_state st)); [done|done|lia|exact Hran|unfold finalized; touch| | |exact Hu].
    + intros h0 Hh0. rewrite json_state_name by done. by apply finalized_hash.
    + intros raws Hr. unfold finalized. rewrite 3!effects_cons, effects_ne by off_key.
      apply effect_RPUSH. unfold list_at. by rewrite !effect_ne, Hr by off_key.
  - intros q. rewrite (ran_keys _ _ _ Hran). unfold list_at. by rewrite effects_ne by (unfold finalized; off_key).
Qed.

(** ** [Dequeue] *)
Lemma rpop_first_last m before q after l id :
  Forall (fun q' => list_at m (queueKey q') = Some []) before ->
  list_at m (queueKey q) = Some (l ++ [id]) ->
  rpop_first m (queueKey <$> before ++ q :: after) = Some (Some (queueKey q, id, l)).
Proof.
  intros Hb Hq. induction Hb as [|q' before Hq' _ IH]; simpl.
  - rewrite Hq, reverse_snoc. by rewrite reverse_involutive.
  - by rewrite Hq'.
Qed.

Lemma BRPOP_call before q after l id n s :
  redis_inv n s -> Forall (fun q' => list_at (keyspace_of s) (queueKey q') = Some []) before ->
  list_at (keyspace_of s) (queueKey q) = Some (l ++ [id]) -> exists s',
    call Live (command (BRPOP (queueKey <$> before ++ q :: after))) n s
      = (S n, s', Ok (RArray [queueKey q; id])) /\
    redis_inv (S n) s' /\ unseen s s' /\ serverID s' = serverID s /\
    keyspace_of s' = put (queueKey q) (RList l) (keyspace_of s).
Proof.
  intros HI Hb Hq. pose proof HI as [Hts _].
  assert (plain (BRPOP (queueKey <$> before ++ q :: after))) as Hp.
  { split; [apply fits_pop|]. apply Forall_fmap, Forall_true. intros x.
    change (lasting (queueKey x)). unfold lasting. by rewrite kind_queue. }
  destruct (call_run _ n s Hp Hts) as (s' & Hc & [Hk Ht Hsv]).
  pose proof (rpop_first_last _ before q after l id Hb Hq) as Hpop.
  unfold answer, effect in *. simpl in Hc, Hk. rewrite Hpop in Hc, Hk. simpl in Hc, Hk.
  exists s'. split; [exact Hc|apply and_assoc; split; [|done]].
  eapply redis_unseen; [done|lia|done|]. intros k Hw. rewrite Hk. apply lookup_put_ne.
  intros <-. destruct Hw as [[? Hw]|[[? Hw]|[[? Hw]|(? & ? & Hw)]]]; discriminate Hw.
Qed.

Lemma BRPop_run before q after l id wakes n s :
  redis_inv n s -> Forall (fun q' => list_at (keyspace_of s) (queueKey q') = Some []) before ->
  list_at (keyspace_of s) (queueKey q) = Some (l ++ [id]) -> exists s',
    BRPop Live (queueKey <$> before ++ q :: after) wakes n s
      = (S n, s', Ok (Popped [queueKey q; id] wakes)) /\
    redis_inv (S n) s' /\ unseen s s' /\ serverID s' = serverID s /\
    keyspace_of s' = put (queueKey q) (RList l) (keyspace_of s).
Proof.
  intros HI Hb Hq. destruct (BRPOP_call before q after l id n s HI Hb Hq) as (s' & Hc & Hrest).
  exists s'. split; [|done]. unfold BRPop. by erewrite mbind_ok by (apply mtry_ok; exact Hc).
Qed.

Lemma list_at_put q q' l m :
  list_at (put (queueKey q) (RList l) m) (queueKey q')
  = if decide (q' = q) then Some l else list_at m (queueKey q').
Proof.
  unfold list_at. case_decide as Hq.
  - subst. rewrite lookup_put. simpl. by destruct l.
  - rewrite lookup_put_ne; [done|]. intros [= Heq]. done.
Qed.

Lemma finalizeDequeue_gone id n s :
  redis_inv n s -> job_id id -> view_job (keyspace_of s) id = None ->
  finalizeDequeue Live id n s = (S (S n), s, Ok None).
Proof.
  intros HI Hid Hv. pose proof HI as [Hts Hrep].
  assert (keyspace_of s !! jobKey id = None) as Hk.
  { destruct (keyspace_of s !! jobKey id) as [v|] eqn:Hh; [|done].
    pose proof (typed_of n s HI _ _ _ Hh (kind_job id Hid)). destruct v; try done.
    destruct (view_stored n _ id h Hrep Hid Hh) as (? & ? & ? & ? & ? & ? & ? & ? & ? & ? & ? & ? & Hv').
    congruence. }
  set (st := processing_state (serverID s) (clock n)).
  destruct (marshal_state_ok st (clock_ok n)) as (raw & Hm & Hu).
  unfold finalizeDequeue. erewrite mbind_ok by done. erewrite mbind_ok by done. cbv zeta.
  fold (processing_state (serverID s) (clock n)). fold st. rewrite Hm. cbn [encoded]. rewrite mbind_ret_l.
  erewrite mbind_ok by (apply wrap_run; erewrite mbind_ok by (by apply finalizeDequeueScript_gone);
    reflexivity). reflexivity.
Qed.

(** What a served job leaves behind. *)
Record served (q id : string) (l : list string) (jw : JobWithStates) (s s' : St) : Prop := {
  sv_job : exists t, only_job id (with_state jw (json_state (processing_state (serverID s) t))) s s';
  sv_queue : list_at (keyspace_of s') (queueKey q) = Some l;
  sv_queues : forall q', q' <> q -> list_at (keyspace_of s') (queueKey q') = list_at (keyspace_of s) (queueKey q');
}.

Lemma only_job_unseen id jw (s s1 s2 : St) : unseen s s1 -> only_job id jw s1 s2 -> only_job id jw s s2.
Proof.
  intros [U1 U2] [O1 O2 O3]. split; [done| |].
  - intros id' Hne. by rewrite O2, U1.
  - intros p. by rewrite O3, U2.
Qed.

Lemma dequeueLoop_run fuel before q after l id gone jw wakes n s :
  redis_inv n s -> Forall (fun q' => list_at (keyspace_of s) (queueKey q') = Some []) before ->
  list_at (keyspace_of s) (queueKey q) = Some (l ++ id :: gone) ->
  Forall (fun g => job_id g /\ view_job (keyspace_of s) g = None) gone ->
  view_job (keyspace_of s) id = Some jw -> (length gone < fuel)%nat -> exists n' s' tok,
    dequeueLoop fuel Live (queueKey <$> before ++ q :: after) wakes n s
      = (n', s', Ok (Some (mkJobTicket id tok))) /\
    (n <= n')%nat /\ redis_inv n' s' /\ served q id l jw s s'.
Proof.
  revert fuel n s. induction gone as [|g gone IH] using rev_ind;
    intros fuel n s HI Hb Hq Hgone Hv Hfuel; (destruct fuel as [|fuel]; [simpl in Hfuel; lia|]); simpl.
  - destruct (BRPop_run before q after l id wakes n s HI Hb Hq) as (s1 & Hp & HI1 & [U1 U2] & Hsv & Hk).
    assert (view_job (keyspace_of s1) id = Some jw) as Hv1 by (rewrite <- Hv; apply U1).
    destruct (finalizeDequeue_run id jw (S n) s1 HI1 Hv1) as (s2 & Hf & HI2 & Ho & Hl).
    do 3 eexists. split_and!; [|shelve|exact HI2|split].
    + erewrite mbind_ok by exact Hp. cbv beta iota. erewrite mbind_ok by exact Hf. reflexivity.
    + exists (clock (S n)). rewrite <- Hsv. by eapply only_job_unseen.
    + rewrite Hl, Hk, list_at_put. by rewrite decide_True.
    + intros q' Hne. rewrite Hl, Hk, list_at_put. by rewrite decide_False.
    Unshelve. lia.
  - apply Forall_app in Hgone as [Hgone Hg]. apply Forall_singleton in Hg as [Hgid Hgv].
    rewrite app_comm_cons, app_assoc in Hq. rewrite length_app in Hfuel. simpl in Hfuel.
    destruct (BRPop_run before q after (l ++ id :: gone) g wakes n s HI Hb Hq)
      as (s1 & Hp & HI1 & HU & Hsv & Hk).
    destruct HU as [U1 U2]. simpl in U1.
    destruct (IH fuel (S (S (S n))) s1) as (n' & s' & tok & Hd & Hle & HI' & [[t Ho] Hs2 Hs3]).
    + eapply redis_inv_le, HI1. lia.
    + eapply Forall_impl; [exact Hb|]. intros q' Hq'. simpl in Hq'. rewrite Hk, list_at_put.
      case_decide; [|done]. subst. rewrite Hq in Hq'. by destruct l.
    + rewrite Hk, list_at_put. by rewrite decide_True.
    + eapply Forall_impl; [exact Hgone|]. intros x [? ?]. by rewrite U1.
    + by rewrite U1.
    + lia.
    + exists n', s', tok. split_and!; [|lia|done|split].
      * erewrite mbind_ok by exact Hp. cbv beta iota.
        erewrite mbind_ok by (apply finalizeDequeue_gone; [done|done|by rewrite U1]). exact Hd.
      * exists t. rewrite <- Hsv. apply (only_job_unseen _ _ s s1); [by split|done].
      * done.
      * intros q' Hne. rewrite Hs3, Hk, list_at_put by done. by rewrite decide_False.
Qed.

Lemma Dequeue_run before q after l id gone jw timeout wakes n s :
  redis_inv n s -> Forall (fun q' => list_at (keyspace_of s) (queueKey q') = Some []) before ->
  list_at (keyspace_of s) (queueKey q) = Some (l ++ id :: gone) ->
  Forall (fun g => job_id g /\ view_job (keyspace_of s) g = None) gone ->
  view_job (keyspace_of s) id = Some jw -> exists n' s' tok,
    Dequeue Live (before ++ q :: after) timeout wakes n s = (n', s', Ok (Some (mkJobTicket id tok))) /\
    (n <= n')%nat /\ redis_inv n' s' /\ served q id l jw s s'.
Proof.
  intros HI Hb Hq Hg Hv. unfold Dequeue.
  rewrite decide_False by (rewrite length_app; simpl; lia).
  apply dequeueLoop_run with (gone := gone); [done..|].
  assert (lasting (queueKey q)) as Hl by (unfold lasting; by rewrite kind_queue).
  assert (list_at (keys_of (client s)) (queueKey q) = Some (l ++ id :: gone)) as Hq'.
  { rewrite <- Hq. unfold list_at, keyspace_of. by rewrite lookup_lasting. }
  unfold backlog. rewrite fmap_app, fmap_app, sum_list_with_app. simpl. rewrite Hq'. simpl.
  rewrite length_app. simpl. lia.
Qed.

(** ** [Enqueue] puts the job behind those that wait *)
Lemma effect_LPUSH k v l m :
  list_at m k = Some l -> list_at (effect (LPUSH k v) m) k = Some (v :: l).
Proof. intros Hl. unfold effect. simpl. rewrite Hl. simpl. unfold list_at. by rewrite lookup_put. Qed.

Lemma created_queue id q q' raw fields l m :
  job_id id -> list_at m (queueKey q) = Some l ->
  list_at (effects (created id q raw fields) m) (queueKey q')
  = if decide (q' = q) then Some (id :: l) else list_at m (queueKey q').
Proof.
  intros Hid Hl. case_decide as Hq.
  - subst q'. unfold created, list_at. rewrite 3!effects_cons, effects_ne by off_key. apply effect_LPUSH.
    unfold list_at. by rewrite !effect_ne by off_key.
  - unfold list_at, created. rewrite effects_ne; [done|].
    assert (queueKey q' <> queueKey q) by (intros [=]; done). off_key.
Qed.

Lemma Enqueue_queue q j l n s :
  typed (keys_of (client s)) -> ID j = "" -> q <> "" -> list_at (keyspace_of s) (queueKey q) = Some l ->
  exists s',
    Enqueue Live q j n s = ((9 + n)%nat, s', Ok (uuid n)) /\ typed (keys_of (client s')) /\
    serverID s' = serverID s /\
    list_at (keyspace_of s') (queueKey q) = Some (uuid n :: l) /\
    (forall q', q' <> q -> list_at (keyspace_of s') (queueKey q') = list_at (keyspace_of s) (queueKey q')).
Proof.
  intros Hts Hj Hq Hl. pose proof (uuid_job_id n) as Hid.
  destruct (redis_Enqueue_run clock_ok uuid_job_id q j n s Hts Hj Hq) as (s' & raw & Hrun & _ & [Hk Ht Hsv]).
  exists s'. rewrite Hk. split_and!; [done|done|done| |].
  - erewrite created_queue by done. by rewrite decide_True.
  - intros q' Hne. erewrite created_queue by done. by rewrite decide_False.
Qed.
End Flow.
