(* ===== verification/RedisProps.v ===== *)
(** * Theorems on the Redis backend

    What holds of it whatever the network and the other clients do, what it does
    when nothing interferes, and where it falls short. *)
From S2P Require Import Prelude.
From S2P Require Import GoTime.
From S2P Require Import Strconv.
From S2P Require Import Job.
From S2P Require Import StorageI.
From S2P Require Import MemoryFlow.
From S2P Require Import MemoryLife.
From S2P Require Import StorageSpec.
From S2P Require Import Retry.
From S2P Require Import Handler.
From S2P Require Import Json.
From S2P Require Import Engine.
From S2P Require Import EngineProps.
From S2P Require Import RedisServer.
From S2P Require Import RedisCodec.
From S2P Require Import Redis.
From S2P Require Import RedisTyped.
From S2P Require Import RedisRun.
From S2P Require Import RedisSpec.
From S2P Require Import RedisFlow.

(** ** What is stored *)
Section Stored.
Context {EV : Env} {SJ : StructJson}.

(** C17. What the backend stores of a job is read back: every field of the hash written for a job
    decodes to the job itself, with the name of its state and its last heartbeat, except for the
    idempotency key, which is not stored, the timeout, which is cut to milliseconds, and the
    difference between nil and empty bytes. *)
Theorem job_hash_roundtrip now (j : Job) state p :
  ID j <> "" -> int64_ok (RetryMax j) -> int64_ok (Timeout j) -> time_ok (CreatedAt j) -> time_ok p ->
  jobFromHash (hash_fields now j state p) = inl (stored_job j, state, p).
Proof.
  intros Hid Hmax Ht Hc Hp. rewrite hash_fields_read by done. unfold read_job, stored_job.
  by rewrite ParseIntValue_Itoa by auto using timeoutMS_ok.
Qed.
End Stored.

(** ** Under any network *)
Section AnyNetwork.
Context {EV : Env} {R : Type} {RD : Redis R} {NW : Network R} {SJ : StructJson}.

Abbreviation St := (Storage R).


(** A single request: not sent, or run at one instant after what others did. *)
Lemma call_cases ctx (q : request R) n s n' s' res :
  call ctx q n s = (n', s', res) ->
  (s' = s /\ exists err, res = Err err) \/
  (ctx = Live /\ serverID s' = serverID s /\
   client s' = (q (clock n) (others_at n (client s))).1 /\
   ((fault_at n = None /\ (forall msg, (q (clock n) (others_at n (client s))).2 <> RErr msg) /\
     res = Ok (q (clock n) (others_at n (client s))).2) \/
    exists err, res = Err err)).
Proof.
  unfold call, send. destruct ctx as [|derr]; unfold_m; [|intros [= <- <- <-]; left; eauto].
  destruct (fault_at n) as [[[|k] err]|] eqn:Hf; simpl.
  - intros [= <- <- <-]. left. eauto.
  - rewrite take_nil. simpl. unfold serve. unfold_m. destruct (q (clock n) _) as [r rep]. simpl.
    intros [= <- <- <-]. right. split_and!; eauto.
  - unfold serve. unfold_m. destruct (q (clock n) _) as [r rep]. simpl.
    destruct rep; intros [= <- <- <-]; right; (split_and!; [done..|]); eauto;
      left; by split_and!.
Qed.

(** From the server [r0] to [r] the job went from the state [e] to [st], in one step. *)
Record moved (id e : string) (st : JobState) (r0 r : R) : Prop := {
  mv_before : state_at id r0 = Some e;
  mv_after : state_at id r = Some (st_Name st);
  mv_effect : exists t raw clear cname, marshalState (set_st_CreatedAt t st) = inl raw /\
    lasting_part (keys_of r)
    = effects (transition id e (st_Name st) (FormatNano t) raw clear cname) (lasting_part (keys_of r0));
}.

Lemma applyState_call ctx id e t st raw clear cname n s n' s' res :
  (forall n r, typed (keys_of r) -> typed (keys_of (others_at n r))) -> job_id id ->
  typed (keys_of (client s)) -> marshalState (set_st_CreatedAt t st) = inl raw ->
  (res0 <- wrap_err "applystate" (rep <- call ctx (applyStateScript
      (jobKey id) (jobStatesKey id) processingKey (stateIndexKey e)
      (stateIndexKey (st_Name st)) (counterKey cname)
      e (st_Name st) (FormatNano t) clear raw id cname) ;; as_int rep) ;;
   if res0 =? -1 then mthrow ErrNotFound
   else if res0 =? -2 then mthrow ErrStateConflict else mret tt) n s = (n', s', res) ->
  (client s' = client s /\ exists err, res = Err err) \/
  exists m, let r0 := others_at m (client s) in
    (moved id e st r0 (client s') /\ (res = Ok tt \/ exists err, res = Err err)) \/
    (state_at id r0 <> Some e /\ client s' = r0 /\ exists err, res = Err err).
Proof.
  intros Hp Hid Hs Hm. unfold mbind at 1. unfold wrap_err. unfold mbind at 1.
  destruct (call _ _ n s) as [[n1 s1] o] eqn:Hc.
  apply call_cases in Hc as [[-> [err ->]]|(-> & _ & Hcl & Hres)].
  { intros [= <- <- <-]. left. eauto. }
  pose proof (Hp n _ Hs) as Ht. set (r0 := others_at n (client s)) in *.
  destruct (decide (state_at id r0 = Some e)) as [Hst|Hst].
  - assert (exists h, lasting_part (keys_of r0) !! jobKey id = Some (RHash h) /\ h !! "state" = Some e)
      as (h & Hh & Hhs).
    { unfold state_at in Hst. destruct (lasting_part (keys_of r0) !! jobKey id) as [[]|]; try done. eauto. }
    destruct (applyStateScript_runs (clock n) id e (st_Name st) (FormatNano t) raw clear cname h r0
      Hid Ht Hh Hhs) as (r' & Hq & Ht' & He & _).
    rewrite Hq in Hcl, Hres. simpl in Hcl, Hres.
    assert (moved id e st r0 (client s1)) as Hmv.
    { rewrite Hcl. split; [done| |by exists t, raw, clear, cname].
      unfold state_at. rewrite He, (transition_job id e (st_Name st) _ raw clear cname h) by done.
      apply moved_hash_state. }
    destruct Hres as [(_ & _ & ->)|[err ->]]; intros [= <- <- <-]; right; exists n; left; eauto.
  - destruct (applyStateScript_refuses (clock n) id e (st_Name st) (FormatNano t) raw clear cname r0
      Hid Ht Hst) as (r' & Hq & Ht' & He & Hrd).
    rewrite Hq in Hcl, Hres. simpl in Hcl, Hres. rewrite Hrd in Hcl by (by repeat constructor).
    destruct Hres as [(_ & _ & ->)|[err ->]]; [simpl; case_decide; simpl|];
      intros [= <- <- <-]; right; exists n; right; eauto.
Qed.

(** C11. A transition is a compare-and-set in one step, on whatever server other clients have left:
    unless the call never reached it, the job is found in another state and nothing is written, or
    it goes from the expected state to the new one with all that belongs to it; only the second is
    reported as a success, and an error of the network leaves open which it was. *)
Theorem redis_apply_state_atomic ctx id e st n s n' s' res :
  (forall n r, typed (keys_of r) -> typed (keys_of (others_at n r))) -> job_id id ->
  typed (keys_of (client s)) -> ApplyState ctx id e st n s = (n', s', res) ->
  (client s' = client s /\ exists err, res = Err err) \/
  exists m, let r0 := others_at m (client s) in
    (moved id e st r0 (client s') /\ (res = Ok tt \/ exists err, res = Err err)) \/
    (state_at id r0 <> Some e /\ client s' = r0 /\ exists err, res = Err err).
Proof.
  intros Hp Hid Hs. unfold ApplyState.
  destruct (IsZero (st_CreatedAt st)).
  - erewrite mbind_ok by done. cbv beta. unfold encoded.
    destruct (marshalState (set_st_CreatedAt (clock n) st)) as [raw|err] eqn:Hm.
    + rewrite mbind_ret_l. cbv zeta. by apply (applyState_call ctx id e (clock n) st raw).
    + intros [= <- <- <-]. left. eauto.
  - erewrite mbind_ok by done. cbv beta. unfold encoded.
    destruct (marshalState st) as [raw|err] eqn:Hm.
    + rewrite mbind_ret_l. cbv zeta. apply (applyState_call ctx id e (st_CreatedAt st) st raw); [done..|].
      by destruct st.
    + intros [= <- <- <-]. left. eauto.
Qed.
End AnyNetwork.

(** ** A context that is done *)
Section DoneContext.
Context {EV : Env} {JS : Json} {R : Type} {RD : Redis R} {NW : Network R} {SJ : StructJson}.

Abbreviation St := (Storage R).

Lemma call_done err (q : request R) n s : call (Done err) q n s = (S n, s, Err err).
Proof. done. Qed.

Lemma on_storage_err {A} (m : M St A) n (e : Engine St) n' err :
  m n (eng_storage e) = (n', eng_storage e, Err err) -> on_storage m n e = (n', e, Err err).
Proof. intros Hm. unfold on_storage, mlift. rewrite Hm. by destruct e. Qed.

Lemma wrap_err_done {A} text (m : M St A) n s n' err :
  m n s = (n', s, Err err) -> exists err', wrap_err text m n s = (n', s, Err err').
Proof. unfold wrap_err. intros ->. eauto. Qed.

Lemma ApplyState_done err id e st n s : exists n' err', ApplyState (Done err) id e st n s = (n', s, Err err').
Proof.
  unfold ApplyState. destruct (IsZero (st_CreatedAt st)).
  - erewrite mbind_ok by done. unfold encoded.
    destruct (marshalState _) as [raw|]; [|by do 2 eexists]. rewrite mbind_ret_l. cbv zeta.
    do 2 eexists. by erewrite mbind_err by done.
  - erewrite mbind_ok by done. unfold encoded.
    destruct (marshalState _) as [raw|]; [|by do 2 eexists]. rewrite mbind_ret_l. cbv zeta.
    do 2 eexists. by erewrite mbind_err by done.
Qed.

Lemma SetJobResult_done err id r n s : exists n' err', SetJobResult (Done err) id r n s = (n', s, Err err').
Proof. unfold SetJobResult. do 2 eexists. by erewrite mbind_err by done. Qed.

Lemma ScheduleRetry_done err id at_ n s : exists n' err', ScheduleRetry (Done err) id at_ n s = (n', s, Err err').
Proof. unfold ScheduleRetry. do 2 eexists. by erewrite mbind_err by done. Qed.

Lemma on_ApplyState_done err id e st n (eng : Engine St) : exists n' err',
  on_storage (storage_ApplyState (Done err) id e st) n eng = (n', eng, Err err').
Proof.
  destruct (ApplyState_done err id e st n (eng_storage eng)) as (n' & err' & Hr).
  exists n', err'. by apply on_storage_err.
Qed.

(** An outcome is recorded with the context of the job's own run, and on Redis a context that
    is done sends nothing: when a job was cancelled or ran past its deadline, whatever its handler
    returned, settling it changes nothing at all, and the job stays Processing. *)
Theorem redis_done_context_lost err job attempt out n (e : Engine St) :
  exists n', settle (Done err) job attempt out n e = (n', e, Ok tt).
Proof.
  unfold settle. destruct out as [result [herr|]].
  - assert (exists n' err', finalizeFailure (Done err) job attempt herr n e = (n', e, Err err'))
      as (n' & err' & Hf).
    { unfold finalizeFailure. destruct (_ || _);
        edestruct on_ApplyState_done as (n' & err' & Hr);
        do 2 eexists; erewrite mbind_err by exact Hr; done. }
    exists n'. by erewrite mbind_ok by (by eapply mtry_err).
  - assert (exists n' err', finalizeSuccess (Done err) (ID job) result n e = (n', e, Err err'))
      as (n' & err' & Hf).
    { unfold finalizeSuccess. destruct (0 <? blen result).
      - destruct (SetJobResult_done err (ID job) result n (eng_storage e)) as (n' & err' & Hr).
        exists n', err'. by erewrite mbind_err by (by apply on_storage_err).
      - rewrite mbind_ret_l. edestruct on_ApplyState_done as (n' & err' & Hr).
        do 2 eexists. erewrite mbind_err by exact Hr. done. }
    exists n'. by erewrite mbind_ok by (by eapply mtry_err).
Qed.
End DoneContext.

(** ** Locks *)
Section Locks.
Context {EV : Env} {R : Type} {RD : Redis R} {NW : Network R} {SJ : StructJson}.

Abbreviation St := (Storage R).

Definition held (res owner : string) (expires : Time) (r : R) : Prop :=
  keys_of r !! lockKey res = Some (RLease owner expires).

Lemma live_held res owner expires t r :
  held res owner expires r -> t <= expires ->
  live_at t (keys_of r) !! lockKey res = Some (RLease owner expires).
Proof. intros Hh Ht. by apply map_lookup_filter_Some. Qed.

Lemma SETNX_held res owner expires id ttl t r :
  held res owner expires r -> t <= expires ->
  held res owner expires (exec (SETNX (lockKey res) id ttl) t r).1 /\
  (exec (SETNX (lockKey res) id ttl) t r).2 = RInt 0.
Proof.
  intros Hh Ht. pose proof (live_held res owner expires t r Hh Ht) as Hl.
  rewrite exec_reply. unfold held. rewrite exec_writes by done. simpl. rewrite Hl.
  by rewrite decide_True by eauto.
Qed.

Lemma releaseLockScript_other res owner expires other t r :
  held res owner expires r -> t <= expires -> other <> owner ->
  releaseLockScript (lockKey res) other t r = (r, RInt 0).
Proof.
  intros Hh Ht Hne. pose proof (live_held res owner expires t r Hh Ht) as Hl.
  unfold releaseLockScript, script, lua_bind, redis_call.
  pose proof (exec_reads (GET (lockKey res)) t r eq_refl) as Hr.
  pose proof (exec_reply (GET (lockKey res)) t r) as Hrep.
  destruct (exec (GET (lockKey res)) t r) as [r' rep]. simpl in *. unfold str_at in Hrep. rewrite Hl in Hrep.
  simpl in Hrep. subst. by rewrite decide_False.
Qed.

Lemma releaseLockScript_owner res owner expires t r :
  held res owner expires r -> t <= expires ->
  keys_of (releaseLockScript (lockKey res) owner t r).1 !! lockKey res = None /\
  (releaseLockScript (lockKey res) owner t r).2 = RInt 1.
Proof.
  intros Hh Ht. pose proof (live_held res owner expires t r Hh Ht) as Hl.
  unfold releaseLockScript, script, lua_bind, redis_call.
  pose proof (exec_reads (GET (lockKey res)) t r eq_refl) as Hr.
  pose proof (exec_reply (GET (lockKey res)) t r) as Hrep.
  destruct (exec (GET (lockKey res)) t r) as [r' rep]. simpl in *. unfold str_at in Hrep. rewrite Hl in Hrep.
  simpl in Hrep. subst. rewrite decide_True by done.
  pose proof (exec_writes (DEL (lockKey res)) t r eq_refl) as Hw.
  pose proof (exec_reply (DEL (lockKey res)) t r) as Hrep.
  destruct (exec (DEL (lockKey res)) t r) as [r' rep]. simpl in *. subst rep. simpl. rewrite Hw.
  rewrite bool_decide_true by (rewrite Hl; eauto). by rewrite lookup_delete_eq.
Qed.

(** A lock of the Redis backend is exclusive and its owner's alone: while it is held and has
    not expired, and the other clients leave it, an acquirer gets ErrLockNotHeld or an error of the
    network, and so does a release with another owner's handle, and the lock stays; a release by
    the owner that reports success has removed it. *)
Theorem redis_lock_exclusive ctx res owner expires n s :
  (forall n r, held res owner expires r -> held res owner expires (others_at n r)) ->
  held res owner expires (client s) -> clock n <= expires -> clock (S n) <= expires ->
  (forall ttl n' s' o, AcquireLock ctx res ttl n s = (n', s', o) ->
     held res owner expires (client s') /\ exists err, o = Err err) /\
  (forall other n' s' o, other <> owner -> Release ctx (mkRedisLock res other) n s = (n', s', o) ->
     held res owner expires (client s') /\ exists err, o = Err err) /\
  (forall n' s', Release ctx (mkRedisLock res owner) n s = (n', s', Ok tt) ->
     keys_of (client s') !! lockKey res = None).
Proof.
  intros Hoth Hh Ht Ht'. split_and!.
  - intros ttl n' s' o. unfold AcquireLock. erewrite mbind_ok by done. unfold mbind at 1.
    unfold wrap_err, mbind at 1.
    destruct (call _ _ (S n) s) as [[n1 s1] o1] eqn:Hc.
    destruct (SETNX_held res owner expires (uuid n) ttl (clock (S n)) _ (Hoth (S n) _ Hh) Ht') as [Hh' Hr].
    apply call_cases in Hc as [[-> [err ->]]|(_ & _ & Hcl & Hres)]; [intros [= <- <- <-]; eauto|].
    unfold command in Hcl, Hres. rewrite <- Hcl in Hh'.
    destruct Hres as [(_ & _ & ->)|[err ->]]; [|intros [= <- <- <-]; eauto]. rewrite Hr. simpl. intros [= <- <- <-]. eauto.
  - intros other n' s' o Hne. unfold Release. simpl. unfold mbind at 1. unfold wrap_err, mbind at 1.
    destruct (call _ _ n s) as [[n1 s1] o1] eqn:Hc. apply call_cases in Hc.
    rewrite (releaseLockScript_other res owner expires other) in Hc by auto. simpl in Hc.
    destruct Hc as [[-> [err ->]]|(_ & _ & Hcl & Hres)]; [intros [= <- <- <-]; eauto|].
    assert (held res owner expires (client s1)) as Hh' by (rewrite Hcl; auto).
    destruct Hres as [(_ & _ & ->)|[err ->]]; intros [= <- <- <-]; eauto.
  - intros n' s'. unfold Release. simpl. unfold mbind at 1. unfold wrap_err, mbind at 1.
    destruct (call _ _ n s) as [[n1 s1] o1] eqn:Hc. apply call_cases in Hc.
    destruct (releaseLockScript_owner res owner expires (clock n) _ (Hoth n _ Hh) Ht) as [Hk Hr].
    destruct Hc as [[-> [err ->]]|(_ & _ & Hcl & Hres)]; [done|]. rewrite <- Hcl in Hk.
    destruct Hres as [(_ & _ & ->)|[err ->]]; [|done]. rewrite Hr. simpl. by intros [= <- <-].
Qed.
End Locks.

(** ** When nothing interferes *)
Section Quiet.
Context {EV : Env} {JS : Json} {R : Type} {RD : Redis R} {SJ : StructJson}.
#[local] Existing Instance quiet_network.
#[local] Existing Instance redis_view.
Hypothesis clock_ok : forall n, time_ok (clock n).
Hypothesis uuid_job_id : forall n, job_id (uuid n).

Abbreviation St := (Storage R).




(** *** First in, first out *)
Lemma enqueue_all q js n s ids0 :
  redis_inv n s -> q <> "" -> Forall (fun j => ID j = "" /\ int64_ok (RetryMax j)) js ->
  list_at (keyspace_of s) (queueKey q) = Some ids0 ->
  (forall id, id ∈ ids0 -> is_Some (view_job (keyspace_of s) id)) ->
  exists n' s' ids, mmap js (Enqueue Live q) n s = (n', s', Ok ids) /\ redis_inv n' s' /\
    list_at (keyspace_of s') (queueKey q) = Some (reverse ids ++ ids0) /\
    length ids = length js /\ (forall id, id ∈ ids ++ ids0 -> is_Some (view_job (keyspace_of s') id)).
Proof.
  intros HI Hq Hjs. revert n s ids0 HI.
  induction Hjs as [|j js [Hj Hmax] _ IH]; intros n s ids0 HI Hl Hv; [by exists n, s, []|].
  destruct (redis_Enqueue clock_ok uuid_job_id q j n s HI Hj Hq Hmax)
    as (n1 & s1 & id & j' & st & Hr & HI1 & _ & Ho & _).
  destruct (Enqueue_queue clock_ok uuid_job_id q j ids0 n s (proj1 HI) Hj Hq Hl) as (s1' & Hr' & _ & _ & Hl' & _).
  assert (s1' = s1 /\ uuid n = id) as [-> Hid] by (split; congruence). rewrite Hid in Hl'.
  assert (forall x, x ∈ id :: ids0 -> is_Some (view_job (keyspace_of s1) x)) as Hv1.
  { intros x Hx. pose proof (oj_job _ _ _ _ Ho : view_job (keyspace_of s1) id = _) as Hi.
    destruct (decide (x = id)) as [->|Hne]; [by rewrite Hi|].
    pose proof (oj_rest _ _ _ _ Ho x Hne : view_job (keyspace_of s1) x = view_job (keyspace_of s) x) as ->.
    apply Hv. set_solver. }
  destruct (IH n1 s1 (id :: ids0) HI1 Hl' Hv1) as (n2 & s2 & ids & Hm & HI2 & Hl2 & Hlen & Hv2).
  exists n2, s2, (id :: ids). split_and!.
  - simpl. erewrite mbind_ok by exact Hr. erewrite mbind_ok by exact Hm. done.
  - done.
  - by rewrite reverse_cons, <- app_assoc.
  - simpl. by rewrite Hlen.
  - intros x Hx. apply Hv2. set_solver.
Qed.

Lemma dequeue_all q ids timeout n s :
  redis_inv n s -> list_at (keyspace_of s) (queueKey q) = Some (reverse ids) ->
  (forall id, id ∈ ids -> is_Some (view_job (keyspace_of s) id)) ->
  exists n' s' tickets,
    mmap ids (fun _ => Dequeue Live [q] timeout []) n s = (n', s', Ok (Some <$> tickets)) /\
    jt_JobID <$> tickets = ids /\ list_at (keyspace_of s') (queueKey q) = Some [].
Proof.
  revert n s. induction ids as [|id ids IH]; intros n s HI Hl Hv; [by exists n, s, []|].
  destruct (Hv id) as [jw Hjw]; [left|]. rewrite reverse_cons in Hl.
  destruct (Dequeue_run clock_ok [] q [] (reverse ids) id [] jw timeout [] n s HI)
    as (n1 & s1 & tok & Hd & _ & HI1 & [[t Ho] Hl1 _]); [done..|].
  destruct (IH n1 s1 HI1 Hl1) as (n2 & s2 & tickets & Hm & Hids & Hl2).
  { intros x Hx. destruct (decide (x = id)) as [->|Hne].
    - pose proof (oj_job _ _ _ _ Ho : view_job (keyspace_of s1) id = _) as ->. eauto.
    - pose proof (oj_rest _ _ _ _ Ho x Hne : view_job (keyspace_of s1) x = view_job (keyspace_of s) x) as ->.
      apply Hv. by right. }
  exists n2, s2, (mkJobTicket id tok :: tickets). split_and!; [|by rewrite fmap_cons, Hids|done].
  simpl. erewrite mbind_ok by exact Hd. erewrite mbind_ok by exact Hm. done.
Qed.

(** Jobs leave a Redis queue in the order they entered it: after any number of jobs were put
    into an empty queue, as many calls of [Dequeue] dispatch exactly these jobs, in that order, and
    leave the queue empty. *)
Theorem redis_fifo q js timeout n s :
  redis_inv n s -> q <> "" -> Forall (fun j => ID j = "" /\ int64_ok (RetryMax j)) js ->
  list_at (keyspace_of s) (queueKey q) = Some [] ->
  exists n1 s1 ids n2 s2 tickets,
    mmap js (Enqueue Live q) n s = (n1, s1, Ok ids) /\ length ids = length js /\
    mmap ids (fun _ => Dequeue Live [q] timeout []) n1 s1 = (n2, s2, Ok (Some <$> tickets)) /\
    jt_JobID <$> tickets = ids /\ list_at (keyspace_of s2) (queueKey q) = Some [].
Proof.
  intros HI Hq Hjs Hl.
  destruct (enqueue_all q js n s [] HI Hq Hjs Hl) as (n1 & s1 & ids & Hm & HI1 & Hl1 & Hlen & Hv).
  { intros id Hid. by apply elem_of_nil in Hid. }
  rewrite app_nil_r in Hl1.
  destruct (dequeue_all q ids timeout n1 s1 HI1 Hl1) as (n2 & s2 & tickets & Hd & Hids & Hl2).
  { intros id Hid. apply Hv. by rewrite app_nil_r. }
  exists n1, s1, ids, n2, s2, tickets. by split_and!.
Qed.
End Quiet.

(** ** Where it falls short *)
Section Cut.
Context {EV : Env} {R : Type} {RD : Redis R} {NW : Network R} {SJ : StructJson}.
Hypothesis clock_ok : forall n, time_ok (clock n).

Abbreviation St := (Storage R).

(** Where the network does nothing, a request runs as it does alone. *)
Lemma call_calm (q : request R) n s :
  fault_at n = None -> others_at n (client s) = client s ->
  call Live q n s = call (NW := quiet_network) Live q n s.
Proof. intros Hf Ho. unfold call, send. unfold_m. rewrite Hf. simpl. unfold serve. unfold_m. by rewrite Ho. Qed.

(** C28. A job can be lost between the two halves of [Dequeue]: when the connection breaks after an
    identifier was popped and before the script that marks the job Processing is sent, the caller
    gets an error, the queue no longer holds the job, and everything else is as before, so that it
    stays Enqueued in the record and nothing will look for it again. *)
Theorem redis_dequeue_loses_job q after l id jw err timeout wakes n s :
  redis_inv n s -> list_at (keyspace_of s) (queueKey q) = Some (l ++ [id]) ->
  view_job (keyspace_of s) id = Some jw ->
  fault_at n = None -> others_at n (client s) = client s -> fault_at (S (S n)) = Some (0%nat, err) ->
  exists n' s' err',
    Dequeue Live (q :: after) timeout wakes n s = (n', s', Err err') /\ errors_Is err' err = errors_Is err err /\
    keyspace_of s' = put (queueKey q) (RList l) (keyspace_of s) /\
    redis_inv n' s' /\ view_job (keyspace_of s') id = Some jw.
Proof.
  intros HI Hq Hv Hf Ho Hcut. pose proof HI as [Hts _].
  destruct (BRPOP_call [] q after l id n s HI) as (s1 & Hp & HI1 & [U1 U2] & Hsv & Hk); [done|done|].
  destruct (marshal_state_ok (processing_state (serverID s1) (clock (S n))) (clock_ok (S n))) as (raw & Hm & _).
  exists (S (S (S n))), s1, (ErrWrap ("dequeue finalize: " +:+ Error err) err). split_and!.
  - unfold Dequeue. rewrite decide_False by done. erewrite mbind_ok by done. cbn [dequeueLoop].
    rewrite <- call_calm in Hp by done.
    erewrite mbind_ok by (unfold BRPop; by erewrite mbind_ok by (apply mtry_ok; exact Hp)).
    cbv beta iota. unfold finalizeDequeue. erewrite mbind_err; [done|].
    erewrite mbind_ok by done. erewrite mbind_ok by done. cbv zeta.
    fold (processing_state (serverID s1) (clock (S n))). rewrite Hm. cbn [encoded]. rewrite mbind_ret_l.
    erewrite mbind_err; [done|]. unfold wrap_err. unfold mbind at 1. unfold call, send. unfold mbind at 1.
    by rewrite Hcut.
  - done.
  - done.
  - eapply redis_inv_le, HI1. lia.
  - pose proof (U1 id) as Hu. simpl in Hu. by rewrite Hu.
Qed.

(** A batch after which nobody else comes in. *)
Lemma serve_all_calm cs n s :
  (forall m r, (n <= m)%nat -> others_at m r = r) ->
  serve_all cs n s = serve_all (NW := quiet_network) cs n s.
Proof.
  revert n s. induction cs as [|c cs IH]; intros n s Ho; [done|]. simpl.
  unfold serve, mbind. rewrite Ho by done. simpl. destruct (c (clock n) (client s)) as [r rep].
  rewrite IH by (intros; apply Ho; lia). done.
Qed.

Lemma pipeline_after cs n s :
  fault_at n = None -> (forall m r, (n < m)%nat -> others_at m r = r) -> cs <> [] ->
  pipeline Live cs n s
  = pipeline (NW := quiet_network) Live cs n (set_client (others_at n (client s)) s).
Proof.
  intros Hf Ho Hne. destruct cs as [|c cs]; [done|]. unfold pipeline, send. unfold_m. rewrite Hf. simpl.
  unfold_m. unfold serve. simpl. destruct (c (clock n) (others_at n (client s))) as [r rep].
  rewrite serve_all_calm by (intros; apply Ho; lia). done.
Qed.
End Cut.

(** ** Idempotency keys *)
Section Race.
Context {EV : Env} {R : Type} {RD : Redis R} {NW : Network R} {SJ : StructJson}.
Hypothesis clock_ok : forall n, time_ok (clock n).
Hypothesis uuid_job_id : forall n, job_id (uuid n).

Abbreviation St := (Storage R).

Lemma answer_absent key n (s : St) :
  typed (keys_of (client s)) -> keyspace_of s !! idempotencyKey key = None ->
  (rep <- call (NW := quiet_network) Live (command (GET (idempotencyKey key))) ;; as_string rep) n s
  = (S n, s, Err RedisNil).
Proof.
  intros Ht Hk. assert (plain (GET (idempotencyKey key))) as Hp by plain_tac.
  erewrite mbind_ok by (by apply call_read). unfold answer. simpl. unfold str_at. by rewrite Hk.
Qed.

(** A call for a key that is not known yet, alone. *)
Lemma EnqueueIdempotent_fresh q j l n (s : St) :
  typed (keys_of (client s)) -> ID j = "" -> q <> "" -> IdempotencyKey j <> "" ->
  keyspace_of s !! idempotencyKey (IdempotencyKey j) = None ->
  list_at (keyspace_of s) (queueKey q) = Some l -> exists n' s',
    EnqueueIdempotent (NW := quiet_network) Live q j n s = (n', s', Ok (uuid (S n), true)) /\
    typed (keys_of (client s')) /\ list_at (keyspace_of s') (queueKey q) = Some (uuid (S n) :: l) /\
    keyspace_of s' !! idempotencyKey (IdempotencyKey j) = Some (RString (uuid (S n))).
Proof.
  intros Ht Hj Hq Hkey Hk Hl.
  destruct (Enqueue_queue clock_ok uuid_job_id q j l (S n) s Ht Hj Hq Hl) as (s1 & Hr & Ht1 & _ & Hl1 & _).
  assert (plain (SET (idempotencyKey (IdempotencyKey j)) (uuid (S n)))) as Hp by plain_tac.
  destruct (call_run _ (10 + n) s1 Hp Ht1) as (s2 & Hc & [Hk2 Ht2 _]).
  exists (11 + n)%nat, s2. split_and!; [|done| |].
  - unfold EnqueueIdempotent. cbv zeta. rewrite decide_True by done.
    erewrite mbind_ok by (apply mtry_err; by apply answer_absent). cbv beta iota.
    erewrite mbind_ok by exact Hr. rewrite decide_True by done.
    erewrite mbind_ok by (erewrite mbind_ok by (apply mtry_ok; exact Hc); reflexivity). done.
  - rewrite Hk2. unfold list_at, effect. simpl. by rewrite lookup_insert_ne.
  - rewrite Hk2. unfold effect. simpl. by rewrite lookup_insert_eq.
Qed.

(** C29. An idempotency key does not protect against a concurrent retry on Redis: the key is looked
    up and written in separate steps, so that when a second call with the same key runs after the
    first has looked and before it writes, both report a new job, and both jobs wait in the
    queue. *)
Theorem redis_idempotency_race q j l nB n (s : St) :
  typed (keys_of (client s)) -> ID j = "" -> q <> "" -> IdempotencyKey j <> "" ->
  keyspace_of s !! idempotencyKey (IdempotencyKey j) = None ->
  list_at (keyspace_of s) (queueKey q) = Some l -> n <> nB ->
  (forall m, fault_at m = None) -> (forall m r, m <> (4 + n)%nat -> others_at m r = r) ->
  (forall r, others_at (4 + n)%nat r
     = client (st_of (EnqueueIdempotent (NW := quiet_network) Live q j nB (mkStorage r "other")))) ->
  exists n' s',
    res_of (EnqueueIdempotent (NW := quiet_network) Live q j nB (mkStorage (client s) "other"))
      = Ok (uuid (S nB), true) /\
    EnqueueIdempotent Live q j n s = (n', s', Ok (uuid (S n), true)) /\
    uuid (S n) <> uuid (S nB) /\
    list_at (keyspace_of s') (queueKey q) = Some (uuid (S n) :: uuid (S nB) :: l).
Proof.
  intros Ht Hj Hq Hkey Hk Hl Hne Hf Ho HB.
  destruct (EnqueueIdempotent_fresh q j l nB (mkStorage (client s) "other") Ht Hj Hq Hkey Hk Hl)
    as (nB' & sB & HrB & HtB & HlB & _).
  assert (others_at (4 + n)%nat (client s) = client sB) as HsB by (by rewrite HB, HrB).
  pose proof (Enqueue_queue clock_ok uuid_job_id q j _ (S n) (set_client (client sB) s) HtB Hj Hq HlB)
    as (s1 & Hr & Ht1 & _ & Hl1 & _).
  destruct (marshal_state_ok (mkJobState StateEnqueued "" None (clock (S (S n)))) (clock_ok _)) as (raw & Hm & _).
  assert (Enqueue Live q j (S n) s = ((9 + S n)%nat, s1, Ok (uuid (S n)))) as HrA.
  { rewrite <- Hr. rewrite !(Enqueue_sends q j raw) by done. unfold mbind, wrap_err.
    rewrite pipeline_after; [|done|intros; apply Ho; lia|done].
    change (others_at (3 + S n)%nat (client s)) with (others_at (4 + n)%nat (client s)). by rewrite HsB. }
  assert (plain (SET (idempotencyKey (IdempotencyKey j)) (uuid (S n)))) as Hp by plain_tac.
  destruct (call_run _ (10 + n) s1 Hp Ht1) as (s2 & Hc & [Hk2 _ _]).
  exists (11 + n)%nat, s2. split_and!.
  - by rewrite HrB.
  - unfold EnqueueIdempotent. cbv zeta. rewrite decide_True by done.
    erewrite mbind_ok.
    2:{ apply mtry_err. unfold mbind. rewrite call_calm by (done || (apply Ho; lia)).
        exact (answer_absent _ n s Ht Hk). }
    cbv beta iota. erewrite mbind_ok by exact HrA. rewrite decide_True by done.
    rewrite <- call_calm in Hc by (done || (apply Ho; lia)).
    erewrite mbind_ok by (erewrite mbind_ok by (apply mtry_ok; exact Hc); reflexivity). done.
  - intros Heq. apply (inj uuid) in Heq. lia.
  - rewrite Hk2. unfold list_at, effect. simpl. by rewrite lookup_insert_ne.
Qed.
End Race.

Section Unindexed.
Context {EV : Env} {R : Type} {RD : Redis R} {SJ : StructJson}.
#[local] Existing Instance quiet_network.
#[local] Existing Instance redis_view.
Hypothesis clock_ok : forall n, time_ok (clock n).

Abbreviation St := (Storage R).

(** The commands of [DeleteJob]. *)
Definition deleted (id now raw : string) : list cmd :=
  [ HSET (jobKey id) {[ "state" := StateDeleted; "updated_at" := now ]};
    HDEL (jobKey id) "progress_at";
    RPUSH (jobStatesKey id) raw ].

Lemma hget_run k f v h n (s : St) :
  typed (keys_of (client s)) -> plain (HGET k f) -> hash_at (keyspace_of s) k = Some h -> h !! f = Some v ->
  (rep <- call Live (command (HGET k f)) ;; as_string rep) n s = (S n, s, Ok v).
Proof.
  intros Ht Hp Hh Hf. erewrite mbind_ok by (by apply call_read). unfold answer. simpl.
  rewrite Hh. simpl. by rewrite Hf.
Qed.

Lemma DeleteJob_run id jw n s :
  redis_inv n s -> view_job (keyspace_of s) id = Some jw -> IrreversibleStates (CurrentState jw) = false ->
  exists n' s' raw, DeleteJob Live id n s = (n', s', Ok tt) /\ (n <= n')%nat /\
    unmarshalState raw = inl (json_state (mkJobState StateDeleted "" None (clock (S (S n))))) /\
    ran s (effects (deleted id (FormatNano (clock (S (S n)))) raw) (keyspace_of s)) s'.
Proof.
  intros HI Hv Hi. pose proof HI as [Hts Hrep].
  destruct (view_Some n _ id jw (typed_of n s HI) Hrep Hv) as (Hid & h & Hh).
  destruct (view_stored n _ id h Hrep Hid Hh) as (j & s0 & p & raws & sts & x & Hj & Hji & Hr & Hd & Hl & Hs & Hv').
  assert (jw = mkJobWithStates j sts) as -> by congruence. rewrite (current_of sts x) in Hi by done.
  set (st := mkJobState StateDeleted "" None (clock (S (S n)))).
  destruct (marshal_state_ok st (clock_ok (S (S n)))) as (raw & Hm & Hu).
  assert (Forall plain (deleted id (FormatNano (clock (S (S n)))) raw)) as Hp.
  { unfold deleted. repeat (apply Forall_cons_2; [plain_tac|]). apply Forall_nil_2. }
  destruct (pipeline_run _ (S (S (S n))) s Hp Hts) as (s' & Hpipe & Hran).
  exists (6 + n)%nat, s', raw. split_and!; [|lia|done|done].
  unfold DeleteJob. erewrite mbind_ok by (apply call_exists_run; [done|plain_tac]).
  rewrite bool_decide_true by eauto. change (1 =? 0) with false. cbv beta iota.
  erewrite mbind_ok by (apply wrap_run; eapply hget_run;
    [done|plain_tac|by unfold hash_at; rewrite Hh|exact Hs]).
  rewrite Hi. erewrite mbind_ok by done. fold st. rewrite Hm. cbn [encoded]. rewrite mbind_ret_l.
  apply wrap_run. exact Hpipe.
Qed.

(** A job deleted on Redis is in no listing of deleted jobs: its record says Deleted, but [DeleteJob] leaves the indexes alone, so that a listing of the deleted jobs of a server
    where that index was empty stays empty, and so does what the cleanup looks at there. *)
Theorem redis_deleted_unindexed id jw n s offset limit :
  redis_inv n s -> view_job (keyspace_of s) id = Some jw -> IrreversibleStates (CurrentState jw) = false ->
  keyspace_of s !! stateIndexKey StateDeleted = None -> 0 <= offset ->
  exists n' s', DeleteJob Live id n s = (n', s', Ok tt) /\ redis_inv n' s' /\
    (exists jw', view_job (keyspace_of s') id = Some jw' /\ CurrentState jw' = StateDeleted) /\
    (forall m, res_of (GetJobsByState Live StateDeleted offset limit m s') = Ok []) /\
    set_at (keyspace_of s') (stateIndexKey StateDeleted) = Some ∅.
Proof.
  intros HI Hv Hi Hidx Hoff. pose proof HI as [Hts Hrep].
  destruct (view_Some n _ id jw (typed_of n s HI) Hrep Hv) as (Hid & h0 & Hh0).
  destruct (DeleteJob_run id jw n s HI Hv Hi) as (n' & s' & raw & Hr & Hle & Hu & Hran).
  set (st := mkJobState StateDeleted "" None (clock (S (S n)))) in *.
  set (now := FormatNano (clock (S (S n)))) in *.
  assert (st_Name (json_state st) = StateDeleted) as Hname by (by apply json_state_name).
  assert (redis_inv n' s' /\ only_job id (with_state jw (json_state st)) s s') as [HI' Ho].
  { eapply (redis_moved id raw (json_state st)); [done|done|lia|exact Hran|unfold deleted; touch| | |exact Hu].
    - intros h Hh. rewrite Hname. exists (moved_hash StateDeleted now "1" h). split; [|apply moved_same_job].
      pose proof (set_state_hash id StateDeleted now h _ Hh) as H1.
      unfold deleted. rewrite 2!effects_cons, effects_ne by off_key. apply effect_HDEL.
      + unfold hash_at. by rewrite H1.
      + apply (not_empty_field _ "state"). by rewrite lookup_delete_ne, new_state by done.
    - intros raws Hraws. unfold deleted. rewrite 2!effects_cons. apply effect_RPUSH.
      unfold list_at. by rewrite !effect_ne, Hraws by off_key. }
  assert (set_at (keyspace_of s') (stateIndexKey StateDeleted) = Some ∅) as Hset.
  { unfold set_at. rewrite (ran_keys _ _ _ Hran).
    by rewrite effects_ne, Hidx by (unfold deleted; off_key). }
  exists n', s'. split_and!; [done|done| | |done].
  - eexists. split; [exact (oj_job _ _ _ _ Ho)|].
    unfold CurrentState, with_state. simpl. by rewrite current_snoc.
  - intros m. unfold GetJobsByState. cbv zeta. rewrite decide_False by done.
    erewrite mbind_ok by (apply call_members_run; [apply HI'|plain_tac|exact Hset]).
    assert (map_order (S m) (elements (∅ : gset string)) = []) as ->.
    { apply Permutation_nil_r. rewrite map_order_perm. by rewrite elements_empty. }
    change (Z.of_nat (length [])) with 0. destruct (Z.leb_spec 0 offset); [done|lia].
Qed.
End Unindexed.

(** ** The theorems on a concrete server *)
Section Witnesses.
(** A clock that stops after a million readings. *)
#[local, refine] Instance bounded : Env := {|
  clock n := Z.min (Z.of_nat n) 1000000 * Second;
  uuid n := "id-" +:+ pretty n;
  rnd n := Z.of_nat n;
  map_order _ l := l |}.
Proof. all: done. Defined.
#[local] Existing Instance plain_json.
#[local] Existing Instance tree_Json.
#[local] Existing Instance quiet_network.
#[local] Existing Instance redis_view.

Lemma bounded_clock n : time_ok (clock n).
Proof. unfold time_ok. simpl. unfold Second. lia. Qed.

Lemma digits_colon_free s : all_digits s = true -> colon_free s = true.
Proof.
  induction s as [|c s IH]; [done|]. simpl. destruct (digit c) eqn:Hc; [|done]. intros Hs.
  rewrite IH, andb_true_r by done. rewrite bool_decide_false; [done|]. by intros ->.
Qed.

Lemma bounded_uuid n : job_id (uuid n).
Proof.
  unfold job_id. change (uuid n) with ("id-" +:+ pretty (N.of_nat n)).
  rewrite colon_free_app. apply digits_colon_free, scan_pretty.
Qed.

Abbreviation St := (Storage keyspace).

Definition fresh : St := New ∅.

Lemma fresh_inv n : redis_inv n fresh.
Proof. by split; [apply typed_empty|split]. Qed.

Definition mail : Job := mkJob "" "mail" (Some "{}") "default" 3 0 "" 0 None.

(** A server with one waiting job. *)
Definition waiting : St := st_of (Enqueue Live "default" mail 0%nat fresh).

Definition waiting_job : JobWithStates :=
  match view_job (keyspace_of waiting) "id-0" with
  | Some jw => jw
  | None => mkJobWithStates mail []
  end.

Lemma waiting_view : view_job (keyspace_of waiting) "id-0" = Some waiting_job.
Proof. vm_compute. reflexivity. Qed.

Lemma waiting_queue : list_at (keyspace_of waiting) (queueKey "default") = Some ["id-0"].
Proof. vm_compute. reflexivity. Qed.

Lemma waiting_inv : redis_inv 20 waiting.
Proof.
  destruct (redis_Enqueue bounded_clock bounded_uuid "default" mail 0 fresh (fresh_inv 0))
    as (n' & s' & id & j' & st & Hr & HI & _); [done|done|by vm_compute|].
  assert (n' = 9%nat) as ->.
  { transitivity (tick_of (Enqueue Live "default" mail 0%nat fresh)); [by rewrite Hr|].
    vm_compute. reflexivity. }
  unfold waiting. rewrite Hr. apply (redis_inv_le 9); [lia|done].
Qed.

Definition settling : Job := mkJob "id-7" "mail" None "default" 3 (90 * Second) "key" 5 (Some "").

Lemma job_hash_roundtrip_witness :
  jobFromHash (hash_fields 9 settling StateProcessing 7)
  = inl (mkJob "id-7" "mail" (Some "") "default" 3 (90 * Second) "" 5 None, StateProcessing, 7).
Proof.
  rewrite (job_hash_roundtrip 9 settling StateProcessing 7);
    [reflexivity|done|by vm_compute|by vm_compute|by vm_compute|by vm_compute].
Defined.


Lemma redis_apply_state_atomic_witness : exists n' s',
  ApplyState Live "id-0" StateEnqueued (newJobState StateCancelled "stop" None) 20%nat waiting
    = (n', s', Ok tt) /\
  moved "id-0" StateEnqueued (newJobState StateCancelled "stop" None) (client waiting) (client s').
Proof.
  assert (res_of (ApplyState Live "id-0" StateEnqueued (newJobState StateCancelled "stop" None) 20%nat waiting)
    = Ok tt) as Hok by (vm_compute; reflexivity).
  destruct (ApplyState Live "id-0" StateEnqueued (newJobState StateCancelled "stop" None) 20%nat waiting)
    as [[n' s'] res] eqn:Hr.
  cbn in Hok. exists n', s'. split; [by rewrite Hok|].
  destruct (redis_apply_state_atomic Live "id-0" StateEnqueued (newJobState StateCancelled "stop" None)
    20%nat waiting n' s' res) as [[_ [err He]]|(m & [[Hm _]|(_ & _ & [err He])])].
  - intros n r Ht. exact Ht.
  - by vm_compute.
  - apply waiting_inv.
  - exact Hr.
  - by rewrite He in Hok.
  - exact Hm.
  - by rewrite He in Hok.
Defined.



Lemma redis_fifo_witness : exists n1 s1 ids,
  mmap [mail; mail; mail] (Enqueue Live "default") 0%nat fresh = (n1, s1, Ok ids) /\ length ids = 3%nat.
Proof.
  destruct (redis_fifo bounded_clock bounded_uuid "default" [mail; mail; mail] 0 0%nat fresh)
    as (n1 & s1 & ids & n2 & s2 & tickets & Hm & Hl & _).
  - apply fresh_inv.
  - done.
  - repeat constructor; by vm_compute.
  - vm_compute. reflexivity.
  - exists n1, s1, ids. split; [exact Hm|exact Hl].
Defined.

Definition locked : St := st_of (AcquireLock Live "r" (60 * Second) 0%nat fresh).

Lemma redis_lock_exclusive_witness : exists n' s' err,
  AcquireLock Live "r" Second 5%nat locked = (n', s', Err err) /\
  held "r" "id-0" (61 * Second) (client s').
Proof.
  destruct (redis_lock_exclusive Live "r" "id-0" (61 * Second) 5%nat locked) as (H1 & _ & _).
  - intros n r Hr. exact Hr.
  - vm_compute. reflexivity.
  - by vm_compute.
  - by vm_compute.
  - destruct (AcquireLock Live "r" Second 5%nat locked) as [[n' s'] o] eqn:Ha.
    destruct (H1 Second n' s' o Ha) as [Hh [err He]].
    exists n', s', err. split; [by rewrite He|exact Hh].
Defined.

Lemma redis_deleted_unindexed_witness : exists n' s',
  DeleteJob Live "id-0" 20%nat waiting = (n', s', Ok tt) /\
  (forall m, res_of (GetJobsByState Live StateDeleted 0 0 m s') = Ok []).
Proof.
  destruct (redis_deleted_unindexed bounded_clock "id-0" waiting_job 20%nat waiting 0 0)
    as (n' & s' & Hr & _ & _ & Hl & _).
  - exact waiting_inv.
  - exact waiting_view.
  - vm_compute. reflexivity.
  - vm_compute. reflexivity.
  - lia.
  - exists n', s'. split; [exact Hr|exact Hl].
Defined.
End Witnesses.

(** ** ... and on networks that fail *)
Section Failing.
#[local] Existing Instance bounded.
#[local] Existing Instance plain_json.

(** A connection that breaks at the 23rd call. *)
#[local] Instance breaking : Network keyspace := {|
  fault_at n := if (n =? 22)%nat then Some (0%nat, ErrText "EOF") else None;
  others_at _ r := r
|}.

Lemma redis_dequeue_loses_job_witness : exists n' s' err,
  Dequeue Live ["default"] 0 [] 20%nat waiting = (n', s', Err err) /\
  list_at (keyspace_of s') (queueKey "default") = Some [] /\
  view_job (keyspace_of s') "id-0" = Some waiting_job.
Proof.
  destruct (redis_dequeue_loses_job bounded_clock "default" [] [] "id-0" waiting_job (ErrText "EOF") 0 []
    20%nat waiting) as (n' & s' & err & Hr & _ & Hk & _ & Hv).
  - exact waiting_inv.
  - exact waiting_queue.
  - exact waiting_view.
  - reflexivity.
  - reflexivity.
  - reflexivity.
  - exists n', s', err. split; [exact Hr|]. split; [by rewrite Hk|exact Hv].
Defined.

(** Another client that comes in at the fifth call, with the same key. *)
Definition keyed : Job := mkJob "" "mail" (Some "{}") "default" 3 0 "order-1" 0 None.

#[local] Instance racing : Network keyspace := {|
  fault_at _ := None;
  others_at n r := if (n =? 4)%nat
    then client (st_of (EnqueueIdempotent (NW := quiet_network) Live "default" keyed 100%nat (mkStorage r "other")))
    else r
|}.

Lemma redis_idempotency_race_witness : exists n' s',
  EnqueueIdempotent (NW := racing) Live "default" keyed 0%nat fresh = (n', s', Ok ("id-1", true)) /\
  list_at (keyspace_of s') (queueKey "default") = Some ["id-1"; "id-101"].
Proof.
  destruct (redis_idempotency_race (NW := racing) bounded_clock bounded_uuid "default" keyed [] 100%nat 0%nat fresh)
    as (n' & s' & _ & Hr & _ & Hl).
  - apply typed_empty.
  - done.
  - done.
  - done.
  - vm_compute. reflexivity.
  - vm_compute. reflexivity.
  - lia.
  - reflexivity.
  - intros m r Hm. change (4 + 0)%nat with 4%nat in Hm. apply Nat.eqb_neq in Hm.
    unfold others_at, racing. by rewrite Hm.
  - reflexivity.
  - exists n', s'. split; [exact Hr|exact Hl].
Defined.
End Failing.
