(* ===== verification/PgServer.v ===== *)
(** * The PostgreSQL server and its client, as the backend sees them

    The schema is that of [storage/postgres/migrations].  The program sends SQL
    statements (translated one by one in [PgSql]); a statement takes effect at one
    instant, under READ COMMITTED, PostgreSQL's default: it sees what is committed at
    that instant and the changes of its own transaction.  The rows a transaction
    wrote or selected FOR UPDATE are locked until it ends; the other sessions may do
    anything else between two statements.  The network may break at any of them
    ([Network]).  Input functions of types and the order in which a query visits a
    table are the server's ([Postgres]). *)
From S2P Require Import Prelude.
From S2P Require Import GoTime.

(** ** The schema *)

(** gfire.jobs. *)
Record job_row := mkJobRow {
  jr_id : string; jr_queue_token : Z; jr_name : string; jr_args : string; jr_queue : string;
  jr_state : string; jr_retry_max : Z; jr_timeout_ms : Z; jr_progress_at : option Time;
  jr_created_at : Time; jr_updated_at : Time; jr_result : option string;
  jr_idempotency_key : option string
}.

(** gfire.job_states. *)
Record state_row := mkStateRow {
  sr_id : Z; sr_job_id : string; sr_name : string; sr_reason : option string; sr_data : string;
  sr_created_at : Time
}.

(** gfire.scheduled_jobs. *)
Record scheduled_row := mkScheduledRow {
  sc_id : string; sc_job_id : string; sc_enqueue_at : Time; sc_created_at : Time
}.

(** gfire.recurring_jobs. *)
Record recurring_row := mkRecurringRow {
  rr_id : string; rr_job_name : string; rr_args : string; rr_queue : string; rr_cron_expr : string;
  rr_last_run : option Time; rr_next_run : option Time; rr_enabled : bool;
  rr_created_at : Time; rr_updated_at : Time
}.

(** gfire.continuations. *)
Record cont_row := mkContRow {
  cr_id : Z; cr_parent_id : string; cr_child_name : string; cr_child_args : string;
  cr_child_queue : string; cr_condition : string; cr_created_at : Time
}.

(** gfire.servers. *)
Record server_row := mkServerRow {
  vr_id : string; vr_started_at : Time; vr_last_heartbeat : Time; vr_worker_count : Z;
  vr_queues : list string; vr_status : string
}.

(** gfire.counters and gfire.locks. *)
Record counter_row := mkCounterRow { kr_key : string; kr_value : Z; kr_updated_at : Time }.
Record lock_row := mkLockRow { lr_resource : string; lr_owner_id : string; lr_expires_at : Time }.

(** The tables, by their primary keys. *)
Record Tables := mkTables {
  t_jobs : gmap string job_row;
  t_states : gmap Z state_row;
  t_scheduled : gmap string scheduled_row;
  t_recurring : gmap string recurring_row;
  t_conts : gmap Z cont_row;
  t_servers : gmap string server_row;
  t_counters : gmap string counter_row;
  t_locks : gmap string lock_row
}.

Definition no_rows : Tables := mkTables ∅ ∅ ∅ ∅ ∅ ∅ ∅ ∅.

(** The sequences behind the BIGSERIAL columns: the next value of each.  That they and
    the counters stay below 2^63 is assumed. *)
Record Seqs := mkSeqs { next_token : Z; next_state : Z; next_cont : Z }.

Record Db := mkDb { tables : Tables; seqs : Seqs }.

Definition set_tables (T : Tables) (d : Db) : Db := mkDb T (seqs d).
Definition set_seqs (q : Seqs) (d : Db) : Db := mkDb (tables d) q.

(** ** Writes and locks *)

(** The new content of one row, [None] when it is deleted. *)
Inductive write :=
  | WJob (id : string) (r : option job_row)
  | WState (id : Z) (r : option state_row)
  | WScheduled (id : string) (r : option scheduled_row)
  | WRecurring (id : string) (r : option recurring_row)
  | WCont (id : Z) (r : option cont_row)
  | WServer (id : string) (r : option server_row)
  | WCounter (key : string) (r : option counter_row)
  | WLock (resource : string) (r : option lock_row).

Definition put_row {K R} `{Countable K} (k : K) (r : option R) (m : gmap K R) : gmap K R :=
  partial_alter (fun _ => r) k m.

Lemma put_row_insert {K R} `{Countable K} (k : K) (r : R) m : put_row k (Some r) m = <[k := r]> m.
Proof. done. Qed.

Definition apply_write (w : write) (T : Tables) : Tables :=
  match w with
  | WJob id r =>
    mkTables (put_row id r (t_jobs T)) (t_states T) (t_scheduled T) (t_recurring T)
      (t_conts T) (t_servers T) (t_counters T) (t_locks T)
  | WState id r =>
    mkTables (t_jobs T) (put_row id r (t_states T)) (t_scheduled T) (t_recurring T)
      (t_conts T) (t_servers T) (t_counters T) (t_locks T)
  | WScheduled id r =>
    mkTables (t_jobs T) (t_states T) (put_row id r (t_scheduled T)) (t_recurring T)
      (t_conts T) (t_servers T) (t_counters T) (t_locks T)
  | WRecurring id r =>
    mkTables (t_jobs T) (t_states T) (t_scheduled T) (put_row id r (t_recurring T))
      (t_conts T) (t_servers T) (t_counters T) (t_locks T)
  | WCont id r =>
    mkTables (t_jobs T) (t_states T) (t_scheduled T) (t_recurring T)
      (put_row id r (t_conts T)) (t_servers T) (t_counters T) (t_locks T)
  | WServer id r =>
    mkTables (t_jobs T) (t_states T) (t_scheduled T) (t_recurring T)
      (t_conts T) (put_row id r (t_servers T)) (t_counters T) (t_locks T)
  | WCounter key r =>
    mkTables (t_jobs T) (t_states T) (t_scheduled T) (t_recurring T)
      (t_conts T) (t_servers T) (put_row key r (t_counters T)) (t_locks T)
  | WLock res r =>
    mkTables (t_jobs T) (t_states T) (t_scheduled T) (t_recurring T)
      (t_conts T) (t_servers T) (t_counters T) (put_row res r (t_locks T))
  end.

Definition apply_writes (ws : list write) (T : Tables) : Tables :=
  fold_left (fun T w => apply_write w T) ws T.

Lemma apply_writes_app ws ws' T : apply_writes (ws ++ ws') T = apply_writes ws' (apply_writes ws T).
Proof. apply fold_left_app. Qed.

(** What a transaction holds: rows, and values of the unique index on idempotency keys. *)
Inductive lockkey :=
  | KJob (id : string) | KState (id : Z) | KScheduled (id : string) | KRecurring (id : string)
  | KCont (id : Z) | KServer (id : string) | KCounter (key : string) | KLock (resource : string)
  | KIdem (key : string).

#[export] Instance lockkey_eq_dec : EqDecision lockkey.
Proof. solve_decision. Defined.

Definition write_key (w : write) : lockkey :=
  match w with
  | WJob id _ => KJob id | WState id _ => KState id | WScheduled id _ => KScheduled id
  | WRecurring id _ => KRecurring id | WCont id _ => KCont id | WServer id _ => KServer id
  | WCounter key _ => KCounter key | WLock res _ => KLock res
  end.

(** A job with this idempotency key. *)
Definition has_key (key : string) (T : Tables) : Prop :=
  exists id r, t_jobs T !! id = Some r /\ jr_idempotency_key r = Some key.

(** What a lock keeps the others from changing. *)
Definition same_at (k : lockkey) (T T' : Tables) : Prop :=
  match k with
  | KJob id => t_jobs T !! id = t_jobs T' !! id
  | KState id => t_states T !! id = t_states T' !! id
  | KScheduled id => t_scheduled T !! id = t_scheduled T' !! id
  | KRecurring id => t_recurring T !! id = t_recurring T' !! id
  | KCont id => t_conts T !! id = t_conts T' !! id
  | KServer id => t_servers T !! id = t_servers T' !! id
  | KCounter key => t_counters T !! key = t_counters T' !! key
  | KLock res => t_locks T !! res = t_locks T' !! res
  | KIdem key => has_key key T <-> has_key key T'
  end.

(** ** The server *)

(** [uuid_in] and [jsonb_in] are the canonical text of a uuid and of a jsonb value,
    [None] for text that is neither; [text_in] says which byte strings a text column can
    hold (UTF-8 without NUL); [text_le] is the collation of the database; [row_order] is
    the order in which the n-th statement visits the rows of a table. *)
Class Postgres := {
  uuid_in : string -> option string;
  jsonb_in : string -> option string;
  text_in : string -> bool;
  text_le : relation string;
  row_order : forall A : Type, nat -> list A -> list A;
  text_le_dec : RelDecision text_le;
  text_le_total : Total text_le;
  text_le_trans : Transitive text_le;
  text_le_anti : AntiSymm (=) text_le;
  uuid_in_idem : forall s t, uuid_in s = Some t -> uuid_in t = Some t;
  uuid_in_nonempty : forall s t, uuid_in s = Some t -> t <> "";
  jsonb_in_idem : forall s t, jsonb_in s = Some t -> jsonb_in t = Some t;
  jsonb_in_nonempty : forall s t, jsonb_in s = Some t -> t <> "";
  jsonb_in_array : jsonb_in "[]" = Some "[]";
  jsonb_in_object : jsonb_in "{}" = Some "{}";
  text_in_plain : forall s, plain_text s = true -> text_in s = true;
  row_order_perm : forall A n (l : list A), row_order A n l ≡ₚ l;
}.
Arguments row_order {_ A} _ _.
#[export] Existing Instances text_le_dec text_le_total text_le_trans text_le_anti.

(** The instant a timestamptz holds: whole microseconds. *)
Definition Microsecond : Duration := 1000.
Definition ts (t : Time) : Time := t - t mod Microsecond.

Definition int4_ok (z : Z) : bool := (- 2 ^ 31 <=? z) && (z <? 2 ^ 31).

(** ** Statements *)

(** What a statement sees: the seed of the row order, the instant its transaction
    began, the rows other sessions have locked (for SKIP LOCKED), and the tables. *)
Record snapshot := mkSnapshot {
  sn_seed : nat; sn_now : Time; sn_skip : list string; sn_tables : Tables
}.

(** A statement draws from the sequences, and gives its writes, the locks it takes
    beside those on the rows written, and its result; or it fails. *)
Definition sql (A : Type) : Type :=
  snapshot -> Seqs -> Seqs * (list write * list lockkey * A + string).

Definition sql_ret {A} (a : A) : sql A := fun _ q => (q, inl ([], [], a)).
Definition sql_fail {A} (msg : string) : sql A := fun _ q => (q, inr msg).
Definition sql_bind {A B} (m : sql A) (k : A -> sql B) : sql B := fun sn q =>
  match m sn q with
  | (q, inr msg) => (q, inr msg)
  | (q, inl (ws, ls, a)) =>
    match k a sn q with
    | (q, inr msg) => (q, inr msg)
    | (q, inl (ws', ls', b)) => (q, inl (ws ++ ws', ls ++ ls', b))
    end
  end.

Notation "'let?' x := m 'in' k" := (sql_bind m (fun x => k))
  (at level 10, x name, m at level 100, k at level 200) : go_scope.
Notation "'do?' m 'in' k" := (sql_bind m (fun _ => k))
  (at level 10, m at level 100, k at level 200) : go_scope.

Definition sql_tables : sql Tables := fun sn q => (q, inl ([], [], sn_tables sn)).
Definition sql_now : sql Time := fun sn q => (q, inl ([], [], ts (sn_now sn))).
Definition sql_skip : sql (list string) := fun sn q => (q, inl ([], [], sn_skip sn)).
Definition emit (w : write) : sql unit := fun _ q => (q, inl ([w], [], tt)).
Definition emits (ws : list write) : sql unit := fun _ q => (q, inl (ws, [], tt)).
Definition takes (ls : list lockkey) : sql unit := fun _ q => (q, inl ([], ls, tt)).
Definition nextval_token : sql Z := fun _ q =>
  (mkSeqs (next_token q + 1) (next_state q) (next_cont q), inl ([], [], next_token q)).
Definition nextval_state : sql Z := fun _ q =>
  (mkSeqs (next_token q) (next_state q + 1) (next_cont q), inl ([], [], next_state q)).
Definition nextval_cont : sql Z := fun _ q =>
  (mkSeqs (next_token q) (next_state q) (next_cont q + 1), inl ([], [], next_cont q)).

(** An error unless the condition holds. *)
Definition sql_check (b : bool) (msg : string) : sql unit := if b then sql_ret tt else sql_fail msg.

Section Types.
Context {PG : Postgres}.

Definition as_uuid (s : string) : sql string :=
  match uuid_in s with Some t => sql_ret t | None => sql_fail "invalid input syntax for type uuid" end.
Definition as_jsonb (s : string) : sql string :=
  match jsonb_in s with Some t => sql_ret t | None => sql_fail "invalid input syntax for type json" end.
Definition as_text (s : string) : sql unit :=
  sql_check (text_in s) "invalid byte sequence for encoding UTF8".
Definition as_texts (l : list string) : sql unit :=
  sql_check (forallb text_in l) "invalid byte sequence for encoding UTF8".
Definition as_int4 (z : Z) : sql unit := sql_check (int4_ok z) "integer out of range".

(** The rows of a table, in the order the statement visits them. *)
Definition scan {K R} `{Countable K} (t : Tables -> gmap K R) : sql (list R) := fun sn q =>
  (q, inl ([], [], row_order (sn_seed sn) (map_to_list (t (sn_tables sn))).*2)).

(** The same, each row with its primary key. *)
Definition scan_keys {K R} `{Countable K} (t : Tables -> gmap K R) : sql (list (K * R)) := fun sn q =>
  (q, inl ([], [], row_order (sn_seed sn) (map_to_list (t (sn_tables sn))))).
End Types.

(** OFFSET and LIMIT. *)
Definition page {A} (offset limit : Z) (l : list A) : sql (list A) :=
  do? sql_check (0 <=? offset) "OFFSET must not be negative" in
  do? sql_check (0 <=? limit) "LIMIT must not be negative" in
  sql_ret (take (Z.to_nat limit) (drop (Z.to_nat offset) l)).

(** ** The network and the other sessions

    At the n-th call to the environment: whether the connection breaks, and if so
    whether the statement was executed; the clock of the server; the rows others have
    locked; what other sessions have committed since the last call, while this one holds
    the locks [L]. *)
Class Network := {
  fault_at : nat -> option (bool * error);
  db_clock : nat -> Time;
  skip_at : nat -> list string;
  others_at : nat -> list lockkey -> Db -> Db;
  others_locked : forall n L d k, k ∈ L -> same_at k (tables d) (tables (others_at n L d));
}.

(** The struct [Storage] of the backend: the pool (here the database behind it) and the
    identifier of this process. *)
Record Storage := mkStorage { pool : Db; serverID : string }.

Definition set_pool (d : Db) (s : Storage) : Storage := mkStorage d (serverID s).

(** A transaction in progress. *)
Record Tx := mkTx { tx_now : Time; tx_writes : list write; tx_locks : list lockkey; tx_failed : bool }.

Record Session := mkSession { ss_storage : Storage; ss_tx : Tx }.

Definition tx_begun (now : Time) : Tx := mkTx now [] [] false.
Definition tx_abort (t : Tx) : Tx := mkTx (tx_now t) (tx_writes t) (tx_locks t) true.
Definition tx_add (ws : list write) (ls : list lockkey) (t : Tx) : Tx :=
  mkTx (tx_now t) (tx_writes t ++ ws) (tx_locks t ++ ls ++ (write_key <$> ws)) (tx_failed t).

Definition aborted : error :=
  ErrText "current transaction is aborted, commands ignored until end of transaction block".
(** [pgx.ErrTxCommitRollback]. *)
Definition commit_rollback : error := ErrText "commit unexpectedly resulted in rollback".

Section Client.
Context {NW : Network}.

(** [tx.Exec], [tx.Query] and [tx.QueryRow]: a statement of a transaction. *)
Definition tx_exec {A} (ctx : Ctx) (q : sql A) : M Session A := fun n s =>
  let fail err := (S n, mkSession (ss_storage s) (tx_abort (ss_tx s)), Err err) in
  match ctx with
  | Done err => fail err
  | Live =>
    if tx_failed (ss_tx s) then fail aborted else
    match fault_at n with
    | Some (_, err) => fail err
    | None =>
      let t := ss_tx s in
      let d := others_at n (tx_locks t) (pool (ss_storage s)) in
      let view := apply_writes (tx_writes t) (tables d) in
      match q (mkSnapshot n (tx_now t) (skip_at n) view) (seqs d) with
      | (sq, inl (ws, ls, a)) =>
        (S n, mkSession (set_pool (set_seqs sq d) (ss_storage s)) (tx_add ws ls t), Ok a)
      | (sq, inr msg) =>
        (S n, mkSession (set_pool (set_seqs sq d) (ss_storage s)) (tx_abort t), Err (ErrText msg))
      end
    end
  end.

(** [tx.Commit]. *)
Definition Commit (ctx : Ctx) : M Session unit := fun n s =>
  let t := ss_tx s in
  let d := others_at n (tx_locks t) (pool (ss_storage s)) in
  let committed := mkSession (set_pool (set_tables (apply_writes (tx_writes t) (tables d)) d)
                                (ss_storage s)) t in
  match ctx with
  | Done err => (S n, s, Err err)
  | Live =>
    if tx_failed t then (S n, s, Err commit_rollback) else
    match fault_at n with
    | Some (reached, err) => (S n, if reached then committed else s, Err err)
    | None => (S n, committed, Ok tt)
    end
  end.

(** [tx, err := s.pool.Begin(ctx); if err != nil { return err }; defer tx.Rollback(ctx)]
    and the rest of the function: what is not committed when it returns is undone. *)
Definition in_tx {A} (text : string) (ctx : Ctx) (body : M Session A) : M Storage A := fun n s =>
  let fail err := (S n, s, Err (ErrWrap (text +:+ ": " +:+ Error err) err)) in
  match ctx with
  | Done err => fail err
  | Live =>
    match fault_at n with
    | Some (_, err) => fail err
    | None =>
      let '(n', s', r) := body (S n) (mkSession s (tx_begun (db_clock n))) in
      (n', ss_storage s', r)
    end
  end.

(** [s.pool.Exec], [s.pool.Query] and [s.pool.QueryRow]: a statement that is a
    transaction of its own. *)
Definition pool_exec {A} (ctx : Ctx) (q : sql A) : M Storage A := fun n s =>
  match ctx with
  | Done err => (S n, s, Err err)
  | Live =>
    let d := others_at n [] (pool s) in
    let run k :=
      match q (mkSnapshot n (db_clock n) (skip_at n) (tables d)) (seqs d) with
      | (sq, inl (ws, _, a)) =>
        (S n, set_pool (mkDb (apply_writes ws (tables d)) sq) s, k (Ok a))
      | (sq, inr msg) => (S n, set_pool (set_seqs sq d) s, k (Err (ErrText msg)))
      end in
    match fault_at n with
    | Some (false, err) => (S n, s, Err err)
    | Some (true, err) => run (fun _ => Err err)
    | None => run (fun r => r)
    end
  end.

(** [.Scan] of a single row. *)
Definition scan_row {S A} (m : M S (list A)) : M S A :=
  rows <- m ;; match rows with [] => mthrow PgxErrNoRows | r :: _ => mret r end.
End Client.

(** No faults, and nobody else; the server has a clock of its own. *)
Definition quiet (server_clock : nat -> Time) : Network.
Proof.
  refine {| fault_at _ := None; db_clock := server_clock; skip_at _ := []; others_at _ _ d := d |}.
  intros n L d []; simpl; done.
Defined.

(** ** A concrete server

    Shows that the laws can be met: any text but the empty one is an identifier; a value of
    jsonb ends with the bracket or quote that matches its first one, if it begins with one;
    texts are ordered by an injection into numbers; rows are visited in stored order. *)
Definition closing (c : ascii) : option ascii :=
  if decide (c = "{"%char) then Some "}"%char
  else if decide (c = "["%char) then Some "]"%char
  else if decide (c = "034"%char) then Some c else None.

Fixpoint last_char (c : ascii) (s : string) : ascii :=
  match s with EmptyString => c | String d s => last_char d s end.

Definition json_like (s : string) : bool :=
  match s with
  | EmptyString => false
  | String c rest => match closing c with Some d => bool_decide (rest <> "" /\ last_char c rest = d) | None => true end
  end.

Definition code_le (s t : string) : Prop := (encode s <= encode t)%positive.

#[local, refine] Instance plain_postgres : Postgres := {|
  uuid_in s := if decide (s = "") then None else Some s;
  jsonb_in s := if json_like s then Some s else None;
  text_in _ := true;
  text_le := code_le;
  row_order _ _ l := l
|}.
Proof.
  - intros s t. apply Pos.le_dec.
  - intros s t. unfold code_le. lia.
  - intros s t u. unfold code_le. lia.
  - intros s t. unfold code_le. intros H1 H2. apply (inj encode). lia.
  - intros s t. case_decide; [done|]. intros [= <-]. by case_decide.
  - intros s t. case_decide; [done|]. by intros [= <-].
  - intros s t. destruct (json_like s) eqn:H; [|done]. intros [= <-]. by rewrite H.
  - intros s t. destruct s; [done|]. destruct (json_like _); [|done]. by intros [= <-].
  - done.
  - done.
  - done.
  - done.
Defined.
