(* ===== verification/PgSql.v ===== *)
(** * The SQL statements of the Postgres backend (internal/storage/postgres)

    One definition per statement, under the name of what it does; the places that send
    the same text share one. *)
From S2P Require Import Prelude.
From S2P Require Import GoTime.
From S2P Require Import Job.
From S2P Require Import PgServer.

Section Statements.
Context {PG : Postgres}.

(** ** jobs *)

(** [INSERT INTO gfire.jobs ...] of [Enqueue], [AddScheduled] and [EnqueueIdempotent];
    the key is left out (NULL) in the first two. *)
Definition insert_job (id name args queue state : string) (retry_max timeout_ms : Z)
    (key : option string) (now : Time) : sql unit :=
  let? id := as_uuid id in
  do? as_texts (name :: queue :: state :: option_list key) in
  let? args := as_jsonb args in
  do? as_int4 retry_max in
  let? token := nextval_token in
  let? T := sql_tables in
  do? sql_check (bool_decide (t_jobs T !! id = None)) "duplicate key value: jobs_pkey" in
  do? sql_check (match key with
                 | Some key => negb (existsb (fun r => bool_decide (jr_idempotency_key r = Some key))
                                       (map_to_list (t_jobs T)).*2)
                 | None => true
                 end) "duplicate key value: idx_jobs_idempotency_key" in
  do? takes (KIdem <$> option_list key) in
  emit (WJob id (Some (mkJobRow id token name args queue state retry_max timeout_ms None
                         (ts now) (ts now) None key))).

(** [UPDATE gfire.jobs SET ... WHERE id = $n]: the number of rows. *)
Definition update_job (id : string) (set : job_row -> job_row) : sql Z :=
  let? id := as_uuid id in
  let? T := sql_tables in
  match t_jobs T !! id with
  | None => sql_ret 0
  | Some r => do? emit (WJob id (Some (set r))) in sql_ret 1
  end.

(** [SET state = $, progress_at = $, updated_at = $]; the columns not named keep their
    values. *)
Definition with_progress (state : string) (progress : option Time) (now : Time) (r : job_row) : job_row :=
  mkJobRow (jr_id r) (jr_queue_token r) (jr_name r) (jr_args r) (jr_queue r) state (jr_retry_max r)
    (jr_timeout_ms r) progress (jr_created_at r) (ts now) (jr_result r) (jr_idempotency_key r).

Definition update_job_state (id state : string) (progress : job_row -> option Time) (now : Time) : sql Z :=
  do? as_text state in
  update_job id (fun r => with_progress state (progress r) now r).

(** [UPDATE gfire.jobs SET progress_at = $1, updated_at = $1 WHERE id = $2]. *)
Definition touch_job (id : string) (now : Time) : sql Z :=
  update_job id (fun r => with_progress (jr_state r) (Some (ts now)) now r).

(** [UPDATE gfire.jobs SET result = $1::jsonb, updated_at = now() WHERE id = $2]. *)
Definition set_result (id : string) (result : bytes) : sql Z :=
  let? result := match result with
                 | None => sql_ret None
                 | Some b => let? t := as_jsonb b in sql_ret (Some t)
                 end in
  let? now := sql_now in
  update_job id (fun r =>
    mkJobRow (jr_id r) (jr_queue_token r) (jr_name r) (jr_args r) (jr_queue r) (jr_state r)
      (jr_retry_max r) (jr_timeout_ms r) (jr_progress_at r) (jr_created_at r) now result
      (jr_idempotency_key r)).

(** [SELECT ... FROM gfire.jobs WHERE id = $1]. *)
Definition select_job (id : string) : sql (list job_row) :=
  let? id := as_uuid id in
  let? T := sql_tables in
  sql_ret (option_list (t_jobs T !! id)).

(** [SELECT state FROM gfire.jobs WHERE id = $1], and the same FOR UPDATE. *)
Definition select_state (id : string) : sql (list string) :=
  let? rows := select_job id in sql_ret (jr_state <$> rows).

Definition select_state_for_update (id : string) : sql (list string) :=
  let? id := as_uuid id in
  let? T := sql_tables in
  match t_jobs T !! id with
  | None => sql_ret []
  | Some r => do? takes [KJob id] in sql_ret [jr_state r]
  end.

(** [SELECT id FROM gfire.jobs WHERE idempotency_key = $1]. *)
Definition select_by_key (key : string) : sql (list string) :=
  do? as_text key in
  let? rows := scan t_jobs in
  sql_ret (jr_id <$> filter (fun r => jr_idempotency_key r = Some key) rows).

(** [ORDER BY queue_token]. *)
Definition by_token (r r' : string * job_row) : Prop := jr_queue_token r.2 <= jr_queue_token r'.2.

#[local] Instance by_token_dec : RelDecision by_token.
Proof. intros r r'. unfold by_token. apply _. Defined.

(** [WHERE state = $1 AND queue = ANY($2)]. *)
Definition queued (state : string) (queues : list string) (r : string * job_row) : Prop :=
  jr_state r.2 = state /\ jr_queue r.2 ∈ queues.

(** [SELECT id FROM gfire.jobs WHERE ... ORDER BY queue_token FOR UPDATE SKIP LOCKED LIMIT 1]. *)
Definition select_next (state : string) (queues : list string) : sql (list string) :=
  do? as_texts queues in
  let? rows := scan_keys t_jobs in
  let? skip := sql_skip in
  let next := take 1 (filter (fun r => r.1 ∉ skip)
                (merge_sort by_token (filter (queued state queues) rows))) in
  do? takes ((fun r => KJob r.1) <$> next) in
  sql_ret next.*1.

(** [SELECT id FROM gfire.jobs WHERE state = $1 AND progress_at IS NOT NULL AND progress_at < $2]. *)
Definition stale (state : string) (cutoff : Time) (r : job_row) : Prop :=
  jr_state r = state /\ match jr_progress_at r with Some t => t < ts cutoff | None => False end.

#[local] Instance stale_dec state cutoff r : Decision (stale state cutoff r).
Proof. unfold stale. destruct (jr_progress_at r); apply _. Defined.

Definition select_stale (state : string) (cutoff : Time) : sql (list string) :=
  let? rows := scan t_jobs in
  sql_ret (jr_id <$> filter (stale state cutoff) rows).

(** [ORDER BY created_at DESC]. *)
Definition newest_first (r r' : job_row) : Prop := jr_created_at r' <= jr_created_at r.

#[local] Instance newest_first_dec : RelDecision newest_first.
Proof. intros r r'. unfold newest_first. apply _. Defined.

Definition in_state (state : option string) (r : job_row) : Prop :=
  match state with Some st => jr_state r = st | None => True end.

#[local] Instance in_state_dec state r : Decision (in_state state r).
Proof. destruct state; simpl; apply _. Defined.

(** [SELECT ... FROM gfire.jobs [WHERE state = $1] ORDER BY created_at DESC OFFSET $ LIMIT $]. *)
Definition select_page (state : option string) (offset limit : Z) : sql (list job_row) :=
  do? as_texts (option_list state) in
  let? rows := scan t_jobs in
  page offset limit (merge_sort newest_first (filter (in_state state) rows)).

(** [SELECT COUNT( * ) FROM gfire.jobs WHERE queue = $1 AND state = $2]. *)
Definition count_queue (queue state : string) : sql Z :=
  do? as_text queue in
  let? rows := scan t_jobs in
  sql_ret (Z.of_nat (length (filter (fun r => jr_queue r = queue /\ jr_state r = state) rows))).

(** [SELECT DISTINCT queue FROM gfire.jobs ORDER BY queue]. *)
Definition select_queues : sql (list string) :=
  let? rows := scan t_jobs in
  sql_ret (merge_sort text_le (remove_dups (jr_queue <$> rows))).

(** [DELETE FROM gfire.jobs WHERE state = ANY($1) AND updated_at < $2], with the rows of
    the tables that reference a job ON DELETE CASCADE. *)
Definition delete_jobs (states : list string) (cutoff : Time) : sql Z :=
  let? T := sql_tables in
  let gone := filter (fun kv => jr_state kv.2 ∈ states /\ jr_updated_at kv.2 < ts cutoff) (t_jobs T) in
  do? emits ((fun kv => WState kv.1 None) <$>
        map_to_list (filter (fun kv => is_Some (gone !! sr_job_id kv.2)) (t_states T))) in
  do? emits ((fun kv => WScheduled kv.1 None) <$>
        map_to_list (filter (fun kv => is_Some (gone !! sc_job_id kv.2)) (t_scheduled T))) in
  do? emits ((fun kv => WCont kv.1 None) <$>
        map_to_list (filter (fun kv => is_Some (gone !! cr_parent_id kv.2)) (t_conts T))) in
  do? emits ((fun kv => WJob kv.1 None) <$> map_to_list gone) in
  sql_ret (Z.of_nat (size gone)).

(** ** job_states *)

(** [INSERT INTO gfire.job_states (job_id, name, ...)]: the columns left out are NULL and
    '{}'.  The foreign key locks the row of the job; every transaction of the program that
    inserts one of its states has written or selected that row FOR UPDATE before. *)
Definition insert_state (job_id name : string) (reason data : option string) (now : Time) : sql unit :=
  let? job_id := as_uuid job_id in
  do? as_texts (name :: option_list reason) in
  let? data := as_jsonb (default "{}" data) in
  let? id := nextval_state in
  let? T := sql_tables in
  do? sql_check (bool_decide (is_Some (t_jobs T !! job_id))) "violates foreign key constraint: job_states_job_id_fkey" in
  do? takes [KJob job_id] in
  emit (WState id (Some (mkStateRow id job_id name reason data (ts now)))).

(** [ORDER BY created_at ASC, id ASC]. *)
Definition history_order (r r' : state_row) : Prop :=
  sr_created_at r < sr_created_at r' \/
  (sr_created_at r = sr_created_at r' /\ sr_id r <= sr_id r').

#[local] Instance history_order_dec : RelDecision history_order.
Proof. intros r r'. unfold history_order. apply _. Defined.

(** [SELECT name, COALESCE(reason, ''), data, created_at FROM gfire.job_states WHERE job_id = $1
    ORDER BY created_at ASC, id ASC]. *)
Definition select_states (job_id : string) : sql (list state_row) :=
  let? job_id := as_uuid job_id in
  let? rows := scan t_states in
  sql_ret (merge_sort history_order (filter (fun r => sr_job_id r = job_id) rows)).

(** ** scheduled_jobs *)

Definition insert_scheduled (id job_id : string) (enqueue_at now : Time) : sql unit :=
  let? id := as_uuid id in
  let? job_id := as_uuid job_id in
  let? T := sql_tables in
  do? sql_check (bool_decide (t_scheduled T !! id = None)) "duplicate key value: scheduled_jobs_pkey" in
  do? sql_check (bool_decide (is_Some (t_jobs T !! job_id))) "violates foreign key constraint: scheduled_jobs_job_id_fkey" in
  do? takes [KJob job_id] in
  emit (WScheduled id (Some (mkScheduledRow id job_id (ts enqueue_at) (ts now)))).

(** [DELETE FROM gfire.scheduled_jobs WHERE job_id = $1]. *)
Definition delete_scheduled (job_id : string) : sql Z :=
  let? job_id := as_uuid job_id in
  let? T := sql_tables in
  let gone := filter (fun kv => sc_job_id kv.2 = job_id) (t_scheduled T) in
  do? emits ((fun kv => WScheduled kv.1 None) <$> map_to_list gone) in
  sql_ret (Z.of_nat (size gone)).

(** [ORDER BY enqueue_at]. *)
Definition by_due (r r' : scheduled_row) : Prop := sc_enqueue_at r <= sc_enqueue_at r'.

#[local] Instance by_due_dec : RelDecision by_due.
Proof. intros r r'. unfold by_due. apply _. Defined.

(** [SELECT job_id FROM gfire.scheduled_jobs WHERE enqueue_at <= $1 ORDER BY enqueue_at
    FOR UPDATE SKIP LOCKED LIMIT $2]. *)
Definition select_due (now : Time) (limit : Z) : sql (list string) :=
  let? rows := scan t_scheduled in
  let? skip := sql_skip in
  let? due := page 0 limit (filter (fun r => sc_id r ∉ skip)
                (merge_sort by_due (filter (fun r => sc_enqueue_at r <= ts now) rows))) in
  do? takes ((fun r => KScheduled (sc_id r)) <$> due) in
  sql_ret (sc_job_id <$> due).

(** ** recurring_jobs *)

(** [INSERT INTO gfire.recurring_jobs ... ON CONFLICT (id) DO UPDATE SET ...]: every column
    but created_at. *)
Definition upsert_recurring (e : RecurringJobEntry) : sql unit :=
  do? as_texts [re_ID e; re_JobName e; re_Queue e; re_CronExpr e] in
  let? args := as_jsonb (default "[]" (re_Args e)) in
  let? T := sql_tables in
  let created := match t_recurring T !! re_ID e with
                 | Some old => rr_created_at old
                 | None => ts (re_CreatedAt e)
                 end in
  emit (WRecurring (re_ID e) (Some (mkRecurringRow (re_ID e) (re_JobName e) args (re_Queue e) (re_CronExpr e)
    (ts <$> re_LastRun e) (ts <$> re_NextRun e) (re_Enabled e) created (ts (re_UpdatedAt e))))).

Definition delete_recurring (id : string) : sql Z :=
  do? as_text id in
  let? T := sql_tables in
  match t_recurring T !! id with
  | Some _ => do? emit (WRecurring id None) in sql_ret 1
  | None => sql_ret 0
  end.

Definition by_recurring_id (r r' : recurring_row) : Prop := text_le (rr_id r) (rr_id r').

#[local] Instance by_recurring_id_dec : RelDecision by_recurring_id.
Proof. intros r r'. unfold by_recurring_id. apply _. Defined.

Definition select_recurring : sql (list recurring_row) :=
  let? rows := scan t_recurring in sql_ret (merge_sort by_recurring_id rows).

Definition update_last_run (id : string) (last next now : Time) : sql Z :=
  do? as_text id in
  let? T := sql_tables in
  match t_recurring T !! id with
  | None => sql_ret 0
  | Some r =>
    do? emit (WRecurring id (Some (mkRecurringRow (rr_id r) (rr_job_name r) (rr_args r) (rr_queue r)
          (rr_cron_expr r) (Some (ts last)) (Some (ts next)) (rr_enabled r) (rr_created_at r) (ts now)))) in
    sql_ret 1
  end.

(** ** continuations *)

(** [CHECK (condition IN (...))]. *)
Definition conditions : list string := [ConditionOnSucceeded; ConditionOnFailed; ConditionOnAny].

Definition insert_cont (parent_id : string) (e : ContinuationEntry) : sql unit :=
  let? parent_id := as_uuid parent_id in
  do? as_texts [ce_ChildName e; ce_ChildQueue e; ce_Condition e] in
  let? args := as_jsonb (default "[]" (ce_ChildArgs e)) in
  let? id := nextval_cont in
  let? T := sql_tables in
  do? sql_check (bool_decide (ce_Condition e ∈ conditions)) "violates check constraint: continuations_condition_check" in
  do? sql_check (bool_decide (is_Some (t_jobs T !! parent_id))) "violates foreign key constraint: continuations_parent_id_fkey" in
  do? takes [KJob parent_id] in
  emit (WCont id (Some (mkContRow id parent_id (ce_ChildName e) args (ce_ChildQueue e) (ce_Condition e)
    (ts (ce_CreatedAt e))))).

(** [ORDER BY id]. *)
Definition by_cont_id (r r' : cont_row) : Prop := cr_id r <= cr_id r'.

#[local] Instance by_cont_id_dec : RelDecision by_cont_id.
Proof. intros r r'. unfold by_cont_id. apply _. Defined.

Definition select_conts (parent_id : string) : sql (list cont_row) :=
  let? parent_id := as_uuid parent_id in
  let? rows := scan t_conts in
  sql_ret (merge_sort by_cont_id (filter (fun r => cr_parent_id r = parent_id) rows)).

Definition delete_conts (parent_id : string) : sql Z :=
  let? parent_id := as_uuid parent_id in
  let? T := sql_tables in
  let gone := filter (fun kv => cr_parent_id kv.2 = parent_id) (t_conts T) in
  do? emits ((fun kv => WCont kv.1 None) <$> map_to_list gone) in
  sql_ret (Z.of_nat (size gone)).

(** ** counters *)

(** [INSERT INTO gfire.counters ... ON CONFLICT (key) DO UPDATE SET value = value + EXCLUDED.value]. *)
Definition add_counter (key : string) (delta : Z) : sql unit :=
  do? as_text key in
  let? now := sql_now in
  let? T := sql_tables in
  let value := match t_counters T !! key with Some r => kr_value r + delta | None => delta end in
  emit (WCounter key (Some (mkCounterRow key value now))).

Definition select_counter (key : string) : sql (list Z) :=
  do? as_text key in
  let? T := sql_tables in
  sql_ret (kr_value <$> option_list (t_counters T !! key)).

Definition by_key (r r' : counter_row) : Prop := text_le (kr_key r) (kr_key r').

#[local] Instance by_key_dec : RelDecision by_key.
Proof. intros r r'. unfold by_key. apply _. Defined.

Definition select_counters (skip limit : Z) : sql (list counter_row) :=
  let? rows := scan t_counters in
  page skip limit (merge_sort by_key rows).

(** ** locks *)

(** [DELETE FROM gfire.locks WHERE resource = $1 AND owner_id = $2]. *)
Definition delete_lock (resource owner : string) : sql Z :=
  do? as_texts [resource; owner] in
  let? T := sql_tables in
  match t_locks T !! resource with
  | Some r => if decide (lr_owner_id r = owner)
              then do? emit (WLock resource None) in sql_ret 1 else sql_ret 0
  | None => sql_ret 0
  end.

(** [DELETE FROM gfire.locks WHERE resource = $1 AND expires_at < now()]. *)
Definition delete_expired_lock (resource : string) : sql Z :=
  do? as_text resource in
  let? now := sql_now in
  let? T := sql_tables in
  match t_locks T !! resource with
  | Some r => if decide (lr_expires_at r < now)
              then do? emit (WLock resource None) in sql_ret 1 else sql_ret 0
  | None => sql_ret 0
  end.

(** [INSERT INTO gfire.locks ... ON CONFLICT (resource) DO NOTHING]. *)
Definition insert_lock (resource owner : string) (expires : Time) : sql Z :=
  do? as_texts [resource; owner] in
  let? T := sql_tables in
  match t_locks T !! resource with
  | Some _ => sql_ret 0
  | None => do? emit (WLock resource (Some (mkLockRow resource owner (ts expires)))) in sql_ret 1
  end.

(** ** servers *)

(** [INSERT INTO gfire.servers ... ON CONFLICT (id) DO UPDATE SET ...]: every column but
    started_at. *)
Definition upsert_server (sv : ServerInfo) : sql unit :=
  do? as_texts (sv_ID sv :: sv_Status sv :: sv_Queues sv) in
  do? as_int4 (sv_WorkerCount sv) in
  let? T := sql_tables in
  let started := match t_servers T !! sv_ID sv with
                 | Some old => vr_started_at old
                 | None => ts (sv_StartedAt sv)
                 end in
  emit (WServer (sv_ID sv) (Some (mkServerRow (sv_ID sv) started (ts (sv_LastHeartbeat sv))
    (sv_WorkerCount sv) (sv_Queues sv) (sv_Status sv)))).

Definition delete_server (id : string) : sql Z :=
  do? as_text id in
  let? T := sql_tables in
  match t_servers T !! id with
  | Some _ => do? emit (WServer id None) in sql_ret 1
  | None => sql_ret 0
  end.

Definition touch_server (id status : string) (now : Time) : sql Z :=
  do? as_text id in
  let? T := sql_tables in
  match t_servers T !! id with
  | None => sql_ret 0
  | Some r =>
    do? emit (WServer id (Some (mkServerRow (vr_id r) (vr_started_at r) (ts now) (vr_worker_count r)
          (vr_queues r) status))) in
    sql_ret 1
  end.

Definition by_server_id (r r' : server_row) : Prop := text_le (vr_id r) (vr_id r').

#[local] Instance by_server_id_dec : RelDecision by_server_id.
Proof. intros r r'. unfold by_server_id. apply _. Defined.

Definition select_servers : sql (list server_row) :=
  let? rows := scan t_servers in sql_ret (merge_sort by_server_id rows).
End Statements.

#[export] Existing Instances by_token_dec stale_dec newest_first_dec in_state_dec history_order_dec by_due_dec
  by_recurring_id_dec by_cont_id_dec by_key_dec by_server_id_dec.
