(* ===== verification/Postgres.v ===== *)
(** * The Postgres backend (internal/storage/postgres: storage.go, jobs.go, queries.go,
    scheduled.go, servers.go, misc.go, retry.go)

    One definition per method.  Every statement goes through [tx_exec] or [pool_exec], so
    that it can fail or come after what other sessions committed. *)
From S2P Require Import Prelude.
From S2P Require Import GoTime.
From S2P Require Import Job.
From S2P Require Import StorageI.
From S2P Require Import PgServer.
From S2P Require Import PgSql.
From S2P Require Import Json.

(** [encoding/json] on a [map[string]string], and what jsonb makes of its text: the data
    of a state.  [data_Unmarshal] is what a nil map holds after decoding into it. *)
Class StateData {PG : Postgres} := {
  data_Marshal : gmap string string -> string;
  data_Unmarshal : string -> option (gmap string string);
  data_empty : jsonb_in (data_Marshal ∅) = Some "{}";
  data_roundtrip : forall m, m <> ∅ ->
    map_Forall (fun k v => text_in k = true /\ text_in v = true) m ->
    exists t, jsonb_in (data_Marshal m) = Some t /\ t <> "{}" /\ t <> "null" /\
      data_Unmarshal t = Some m;
}.

(** ** storage.go *)
Definition New (d : Db) : Storage := mkStorage d "local".

Definition NewWithServerID (d : Db) (serverID : string) : Storage :=
  mkStorage d (if decide (serverID = "") then "local" else serverID).

Definition SetServerID (id : string) : M Storage unit :=
  mmodify (fun s => mkStorage (pool s) (if decide (id = "") then "local" else id)).

Definition timeoutMS (d : Duration) : Z := if d <=? 0 then 0 else Z.quot d Millisecond.

Definition durationFromMS (ms : Z) : Duration := if ms <=? 0 then 0 else mul64 ms Millisecond.

(** A lock handle. *)
Record pgLock := mkPgLock { lk_resource : string; lk_ownerID : string }.

Section Operations.
Context {EV : Env} {PG : Postgres} {NW : Network} {SD : StateData}.

Definition bumpCounter (ctx : Ctx) (key : string) (delta : Z) : M Session unit :=
  wrap_err ("bump counter " +:+ key) (tx_exec ctx (add_counter key delta)).

(** The name of the string behind [nullIfEmpty], NULL for "". *)
Definition nullIfEmpty (s : string) : option string := if decide (s = "") then None else Some s.

(** ** jobs.go *)

(** What [Enqueue], [EnqueueIdempotent] and [AddScheduled] assign to the caller's job. *)
Definition named_job (id : string) (now : Time) (queue : string) (job : Job) : Job :=
  let job := set_Queue queue (set_ID id job) in
  let job := if decide (RetryMax job = 0) then set_RetryMax 10 job else job in
  let job := match Args job with None => set_Args (Some "[]") job | Some _ => job end in
  set_CreatedAt now job.

(** [if s == "" { s = "default" }]. *)
Definition default_name (s : string) : string := if decide (s = "") then "default" else s.

Definition Enqueue (ctx : Ctx) (queue : string) (job : Job) : M Storage string :=
  id <- (if decide (ID job = "") then uuid_NewString else mret (ID job)) ;;
  now <- time_Now ;;
  let job := named_job id now (default_name queue) job in
  in_tx "enqueue begin" ctx (
    wrap_err "enqueue insert job" (tx_exec ctx
      (insert_job (ID job) (Name job) (default "" (Args job)) (Queue job) StateEnqueued (RetryMax job)
        (timeoutMS (Timeout job)) None now)) ;;;
    wrap_err "enqueue insert state" (tx_exec ctx (insert_state (ID job) StateEnqueued None None now)) ;;;
    bumpCounter ctx "enqueued" 1 ;;;
    wrap_err "enqueue commit" (Commit ctx) ;;;
    mret (ID job)).

Definition tryDequeue (ctx : Ctx) (queues : list string) : M Storage JobTicket :=
  in_tx "dequeue begin" ctx (
    row <- mtry (scan_row (tx_exec ctx (select_next StateEnqueued queues))) ;;
    match row with
    | inr err => if errors_Is err PgxErrNoRows then mthrow ErrQueueEmpty
                 else mthrow (ErrWrap ("dequeue select: " +:+ Error err) err)
    | inl jobID =>
      now <- time_Now ;;
      wrap_err "dequeue update" (tx_exec ctx
        (update_job_state jobID StateProcessing (fun _ => Some (ts now)) now)) ;;;
      s <- mget ;;
      let stateData := data_Marshal {[ "server_id" := serverID (ss_storage s) ]} in
      wrap_err "dequeue state" (tx_exec ctx (insert_state jobID StateProcessing None (Some stateData) now)) ;;;
      bumpCounter ctx "dequeued" 1 ;;;
      wrap_err "dequeue commit" (Commit ctx) ;;;
      mret (mkJobTicket jobID ("tok-" +:+ jobID +:+ "-" +:+ Itoa (UnixNano now)))
    end).

(** The loop of [Dequeue]; each wait ends with an awakening. *)
Fixpoint dequeueLoop (ctx : Ctx) (queues : list string) (deadline : Time) (wakes : list (wake Storage))
    : M Storage (option JobTicket) :=
  ticket <- mtry (tryDequeue ctx queues) ;;
  match ticket with
  | inl t => mret (Some t)
  | inr err =>
    if negb (errors_Is err ErrQueueEmpty) then mthrow err else
    now <- time_Now ;;
    if Sub deadline now <=? 0 then mthrow ErrQueueEmpty else
    match ctx with
    | Done err => mthrow err
    | Live =>
      match wakes with
      | [] => mret None
      | w :: wakes =>
        interleave (wk_others w) ;;;
        match wk_kind w with
        | WakeCtx err => mthrow err
        | _ => dequeueLoop ctx queues deadline wakes
        end
      end
    end
  end.

Definition Dequeue (ctx : Ctx) (queues : list string) (timeout : Duration) (wakes : list (wake Storage))
    : M Storage (option JobTicket) :=
  if decide (length queues = 0%nat) then mthrow ErrQueueEmpty else
  now <- time_Now ;;
  dequeueLoop ctx queues (Add now timeout) wakes.

(** The first half of [Requeue] and of [DeleteJob]: any error of the read is ErrNotFound. *)
Definition check_reversible (ctx : Ctx) (jobID : string) : M Session unit :=
  row <- mtry (scan_row (tx_exec ctx (select_state jobID))) ;;
  match row with
  | inr _ => mthrow ErrNotFound
  | inl currentState => if IrreversibleStates currentState then mthrow ErrTerminalState else mret tt
  end.

Definition Requeue (ctx : Ctx) (jobID reason : string) : M Storage unit :=
  in_tx "requeue begin" ctx (
    check_reversible ctx jobID ;;;
    now <- time_Now ;;
    affected <- wrap_err "requeue update" (tx_exec ctx
      (update_job_state jobID StateEnqueued (fun _ => None) now)) ;;
    if affected =? 0 then mthrow ErrNotFound else
    wrap_err "requeue state" (tx_exec ctx (insert_state jobID StateEnqueued (Some reason) None now)) ;;;
    wrap_err "requeue commit" (Commit ctx)).

Definition marshalStateData (data : option (gmap string string)) : string :=
  match data with None => "{}" | Some m => data_Marshal m end.

Definition bumpCounterForState (ctx : Ctx) (stateName : string) : M Session unit :=
  if decide (stateName = StateSucceeded) then bumpCounter ctx "succeeded" 1
  else if decide (stateName = StateFailed) then bumpCounter ctx "failed" 1
  else if decide (stateName = StateDead) then bumpCounter ctx "dead" 1
  else mret tt.

(** [SELECT state ... FOR UPDATE], in [applyStateTx] and [ScheduleRetry]. *)
Definition lock_state (text : string) (ctx : Ctx) (jobID : string) : M Session string :=
  row <- mtry (scan_row (tx_exec ctx (select_state_for_update jobID))) ;;
  match row with
  | inl current => mret current
  | inr err => if errors_Is err PgxErrNoRows then mthrow ErrNotFound
               else mthrow (ErrWrap (text +:+ ": " +:+ Error err) err)
  end.

Definition applyStateTx (ctx : Ctx) (jobID expectedCurrent : string) (newState : JobState)
    : M Session unit :=
  current <- lock_state "applystate select" ctx jobID ;;
  if decide (current <> expectedCurrent) then mthrow ErrStateConflict else
  newState <- (if IsZero (st_CreatedAt newState)
               then now <- time_Now ;; mret (set_st_CreatedAt now newState)
               else mret newState) ;;
  let now := st_CreatedAt newState in
  let data := marshalStateData (st_Data newState) in
  let clearProgress := bool_decide (st_Name newState <> StateProcessing) in
  wrap_err "applystate update" (tx_exec ctx (update_job_state jobID (st_Name newState)
    (fun r => if clearProgress then None else jr_progress_at r) now)) ;;;
  wrap_err "applystate insert state" (tx_exec ctx
    (insert_state jobID (st_Name newState) (nullIfEmpty (st_Reason newState)) (Some data) now)) ;;;
  bumpCounterForState ctx (st_Name newState).

Definition ApplyState (ctx : Ctx) (jobID expectedCurrent : string) (newState : JobState)
    : M Storage unit :=
  in_tx "applystate begin" ctx (
    applyStateTx ctx jobID expectedCurrent newState ;;;
    wrap_err "applystate commit" (Commit ctx)).

(** [if err != nil { ... }; if tag.RowsAffected() == 0 { return ErrNotFound }]. *)
Definition exec_found (text : string) (ctx : Ctx) (q : sql Z) : M Storage unit :=
  affected <- wrap_err text (pool_exec ctx q) ;;
  if affected =? 0 then mthrow ErrNotFound else mret tt.

Definition exec_any {A} (text : string) (ctx : Ctx) (q : sql A) : M Storage unit :=
  wrap_err text (pool_exec ctx q) ;;; mret tt.

Definition HeartbeatJob (ctx : Ctx) (jobID : string) : M Storage unit :=
  now <- time_Now ;;
  exec_found "heartbeat job" ctx (touch_job jobID now).

Definition GetOrphanedJobs (ctx : Ctx) (staleAge : Duration) : M Storage (list JobTicket) :=
  now <- time_Now ;;
  let cutoff := Add now (wrap64 (- staleAge)) in
  ids <- wrap_err "orphaned jobs" (pool_exec ctx (select_stale StateProcessing cutoff)) ;;
  mret ((fun id => mkJobTicket id ("orphan-" +:+ id)) <$> ids).

Definition DeleteJob (ctx : Ctx) (jobID : string) : M Storage unit :=
  in_tx "delete begin" ctx (
    check_reversible ctx jobID ;;;
    now <- time_Now ;;
    affected <- wrap_err "delete update" (tx_exec ctx
      (update_job_state jobID StateDeleted (fun _ => None) now)) ;;
    if affected =? 0 then mthrow ErrNotFound else
    wrap_err "delete state" (tx_exec ctx (insert_state jobID StateDeleted None None now)) ;;;
    Commit ctx).

Definition EnqueueIdempotent (ctx : Ctx) (queue : string) (job : Job) : M Storage (string * bool) :=
  let key := IdempotencyKey job in
  existing <- (if decide (key <> "")
               then r <- mtry (scan_row (pool_exec ctx (select_by_key key))) ;;
                    mret (match r with inl id => Some id | inr _ => None end)
               else mret None) ;;
  match existing with
  | Some id => mret (id, false)
  | None =>
    id <- (if decide (ID job = "") then uuid_NewString else mret (ID job)) ;;
    now <- time_Now ;;
    let job := named_job id now (default_name queue) job in
    in_tx "enqueue begin" ctx (
      wrap_err "enqueue insert job" (tx_exec ctx
        (insert_job (ID job) (Name job) (default "" (Args job)) (Queue job) StateEnqueued (RetryMax job)
          (timeoutMS (Timeout job)) (nullIfEmpty key) now)) ;;;
      wrap_err "enqueue insert state" (tx_exec ctx (insert_state (ID job) StateEnqueued None None now)) ;;;
      bumpCounter ctx "enqueued" 1 ;;;
      Commit ctx ;;;
      mret (ID job, true))
  end.

(** ** queries.go *)

(** [len(result) > 0 && string(result) != "null"]. *)
Definition scanned_result (result : option string) : bytes :=
  match result with
  | Some r => if decide (r = "" \/ r = "null") then None else Some r
  | None => None
  end.

(** The job of a row; the idempotency key is not selected. *)
Definition scanJobFromRow (r : job_row) : Job :=
  mkJob (jr_id r) (jr_name r) (Some (jr_args r)) (jr_queue r) (jr_retry_max r)
    (durationFromMS (jr_timeout_ms r)) "" (jr_created_at r) (scanned_result (jr_result r)).

Definition scanJob (ctx : Ctx) (jobID : string) : M Storage Job :=
  row <- mtry (scan_row (pool_exec ctx (select_job jobID))) ;;
  match row with
  | inl r => mret (scanJobFromRow r)
  | inr err => if errors_Is err PgxErrNoRows then mthrow ErrNotFound else mthrow err
  end.

(** One turn of the loop of [loadStates]. *)
Definition scan_state (r : state_row) : JobState :=
  mkJobState (sr_name r) (default "" (sr_reason r))
    (if decide (sr_data r = "" \/ sr_data r = "{}" \/ sr_data r = "null") then None
     else data_Unmarshal (sr_data r))
    (sr_created_at r).

Definition loadStates (ctx : Ctx) (jobID : string) : M Storage (list JobState) :=
  rows <- wrap_err "load states" (pool_exec ctx (select_states jobID)) ;;
  mret (scan_state <$> rows).

Definition GetJob (ctx : Ctx) (jobID : string) : M Storage JobWithStates :=
  j <- scanJob ctx jobID ;;
  states <- loadStates ctx jobID ;;
  mret (mkJobWithStates j states).

Definition GetJobsByState (ctx : Ctx) (state : string) (offset limit : Z)
    : M Storage (list JobWithStates) :=
  let limit := if limit <=? 0 then 100 else limit in
  rows <- wrap_err "jobs by state" (pool_exec ctx (select_page (nullIfEmpty state) offset limit)) ;;
  mmap rows (fun r =>
    let j := scanJobFromRow r in
    states <- loadStates ctx (ID j) ;;
    mret (mkJobWithStates j states)).

Definition GetQueueLength (ctx : Ctx) (queue : string) : M Storage Z :=
  wrap_err "queue length" (pool_exec ctx (count_queue queue StateEnqueued)).

Definition GetQueues (ctx : Ctx) : M Storage (list string) :=
  wrap_err "get queues" (pool_exec ctx select_queues).

(** ** scheduled.go *)

(** The data of a state Scheduled. *)
Definition enqueue_at_data (enqueueAt : Time) : string :=
  data_Marshal {[ "enqueue_at" := FormatRFC3339 enqueueAt ]}.

Definition AddScheduled (ctx : Ctx) (enqueueAt : Time) (job : Job) : M Storage string :=
  id <- (if decide (ID job = "") then uuid_NewString else mret (ID job)) ;;
  now <- time_Now ;;
  let job := named_job id now (default_name (Queue job)) job in
  in_tx "add scheduled begin" ctx (
    wrap_err "add scheduled job" (tx_exec ctx
      (insert_job (ID job) (Name job) (default "" (Args job)) (Queue job) StateScheduled (RetryMax job)
        (timeoutMS (Timeout job)) None now)) ;;;
    wrap_err "add scheduled state" (tx_exec ctx
      (insert_state (ID job) StateScheduled None (Some (enqueue_at_data enqueueAt)) now)) ;;;
    wrap_err "add scheduled row" (tx_exec ctx (insert_scheduled (ID job) (ID job) enqueueAt now)) ;;;
    bumpCounter ctx "scheduled" 1 ;;;
    wrap_err "add scheduled commit" (Commit ctx) ;;;
    mret (ID job)).

(** One turn of the loop of [GetDueScheduled]. *)
Definition promote (ctx : Ctx) (now : Time) (jobID : string) : M Session JobTicket :=
  wrap_err "due scheduled delete" (tx_exec ctx (delete_scheduled jobID)) ;;;
  wrap_err "due scheduled update" (tx_exec ctx
    (update_job_state jobID StateEnqueued jr_progress_at now)) ;;;
  wrap_err "due scheduled state" (tx_exec ctx
    (insert_state jobID StateEnqueued (Some "scheduled") None now)) ;;;
  bumpCounter ctx "scheduled" (-1) ;;;
  bumpCounter ctx "enqueued" 1 ;;;
  mret (mkJobTicket jobID ("sched-" +:+ jobID)).

Definition GetDueScheduled (ctx : Ctx) (now : Time) (batchSize : Z) : M Storage (list JobTicket) :=
  let batchSize := if batchSize <=? 0 then 100 else batchSize in
  in_tx "due scheduled begin" ctx (
    jobIDs <- wrap_err "due scheduled select" (tx_exec ctx (select_due now batchSize)) ;;
    ts <- time_Now ;;
    tickets <- mmap jobIDs (promote ctx ts) ;;
    wrap_err "due scheduled commit" (Commit ctx) ;;;
    mret tickets).

Definition RemoveScheduled (ctx : Ctx) (jobID : string) : M Storage unit :=
  exec_any "remove scheduled" ctx (delete_scheduled jobID).

Definition UpsertRecurring (ctx : Ctx) (entry : RecurringJobEntry) : M Storage unit :=
  now <- time_Now ;;
  let created := if IsZero (re_CreatedAt entry) then now else re_CreatedAt entry in
  let args := match re_Args entry with None => Some "[]" | Some a => Some a end in
  let entry := mkRecurringJobEntry (re_ID entry) (re_JobName entry) args (default_name (re_Queue entry))
                 (re_CronExpr entry) (re_LastRun entry) (re_NextRun entry) (re_Enabled entry) created now in
  exec_any "upsert recurring" ctx (upsert_recurring entry).

Definition RemoveRecurring (ctx : Ctx) (id : string) : M Storage unit :=
  exec_any "remove recurring" ctx (delete_recurring id).

Definition scan_recurring (r : recurring_row) : RecurringJobEntry :=
  mkRecurringJobEntry (rr_id r) (rr_job_name r) (Some (rr_args r)) (rr_queue r) (rr_cron_expr r)
    (rr_last_run r) (rr_next_run r) (rr_enabled r) (rr_created_at r) (rr_updated_at r).

Definition GetRecurringJobs (ctx : Ctx) : M Storage (list RecurringJobEntry) :=
  rows <- wrap_err "get recurring" (pool_exec ctx select_recurring) ;;
  mret (scan_recurring <$> rows).

Definition UpdateRecurringLastRun (ctx : Ctx) (id : string) (lastRun nextRun : Time) : M Storage unit :=
  now <- time_Now ;;
  exec_found "update recurring last_run" ctx (update_last_run id lastRun nextRun now).

Definition AddContinuation (ctx : Ctx) (parentID : string) (entry : ContinuationEntry) : M Storage unit :=
  now <- time_Now ;;
  let entry := mkContinuationEntry (ce_ChildName entry)
    (match ce_ChildArgs entry with None => Some "[]" | Some a => Some a end)
    (default_name (ce_ChildQueue entry)) (ce_Condition entry) now in
  exec_any "add continuation" ctx (insert_cont parentID entry).

Definition scan_cont (r : cont_row) : ContinuationEntry :=
  mkContinuationEntry (cr_child_name r) (Some (cr_child_args r)) (cr_child_queue r) (cr_condition r)
    (cr_created_at r).

Definition GetContinuations (ctx : Ctx) (parentID : string) : M Storage (list ContinuationEntry) :=
  rows <- wrap_err "get continuations" (pool_exec ctx (select_conts parentID)) ;;
  mret (scan_cont <$> rows).

Definition RemoveContinuations (ctx : Ctx) (parentID : string) : M Storage unit :=
  exec_any "remove continuations" ctx (delete_conts parentID).

(** ** servers.go *)

(** An empty list of queues is nil: the engine copies it with append. *)
Definition RegisterServer (ctx : Ctx) (server : ServerInfo) (ttl : Duration) : M Storage unit :=
  now <- time_Now ;;
  let server := mkServerInfo (sv_ID server)
    (if IsZero (sv_StartedAt server) then now else sv_StartedAt server) now (sv_WorkerCount server)
    (match sv_Queues server with [] => ["default"] | l => l end)
    (if decide (sv_Status server = "") then ServerStatusActive else sv_Status server) in
  exec_any "register server" ctx (upsert_server server).

Definition UnregisterServer (ctx : Ctx) (serverID : string) : M Storage unit :=
  exec_any "unregister server" ctx (delete_server serverID).

Definition Heartbeat (ctx : Ctx) (serverID : string) (ttl : Duration) : M Storage unit :=
  now <- time_Now ;;
  exec_found "server heartbeat" ctx (touch_server serverID ServerStatusActive now).

Definition scan_server (r : server_row) : ServerInfo :=
  mkServerInfo (vr_id r) (vr_started_at r) (vr_last_heartbeat r) (vr_worker_count r) (vr_queues r)
    (vr_status r).

Definition GetServers (ctx : Ctx) : M Storage (list ServerInfo) :=
  rows <- wrap_err "get servers" (pool_exec ctx select_servers) ;;
  mret (scan_server <$> rows).

(** ** misc.go *)

Definition IncrementCounter (ctx : Ctx) (key : string) (delta : Z) : M Storage unit :=
  exec_any "increment counter" ctx (add_counter key delta).

Definition GetCounter (ctx : Ctx) (key : string) : M Storage Z :=
  v <- mtry (scan_row (pool_exec ctx (select_counter key))) ;;
  match v with
  | inl v => mret v
  | inr err => if decide (err = PgxErrNoRows) then mret 0
               else mthrow (ErrWrap ("get counter: " +:+ Error err) err)
  end.

Definition GetAllCounters (ctx : Ctx) (skip limit : Z) : M Storage (gmap string Z) :=
  let limit := if limit <=? 0 then 1000 else limit in
  rows <- wrap_err "get all counters" (pool_exec ctx (select_counters skip limit)) ;;
  mret (fold_left (fun m r => <[kr_key r := kr_value r]> m) rows ∅).

Definition Release (ctx : Ctx) (l : pgLock) : M Storage unit :=
  affected <- wrap_err "release lock" (pool_exec ctx (delete_lock (lk_resource l) (lk_ownerID l))) ;;
  if affected =? 0 then mthrow ErrLockNotHeld else mret tt.

Definition AcquireLock (ctx : Ctx) (resource : string) (ttl : Duration) : M Storage pgLock :=
  ownerID <- uuid_NewString ;;
  now <- time_Now ;;
  let expires := Add now ttl in
  in_tx "acquire lock begin" ctx (
    mtry (tx_exec ctx (delete_expired_lock resource)) ;;;
    affected <- wrap_err "acquire lock insert" (tx_exec ctx (insert_lock resource ownerID expires)) ;;
    if affected =? 0 then mthrow ErrLockNotHeld else
    wrap_err "acquire lock commit" (Commit ctx) ;;;
    mret (mkPgLock resource ownerID)).

Definition RemoveExpired (ctx : Ctx) (cutoff : Time) : M Storage Z :=
  wrap_err "remove expired" (pool_exec ctx
    (delete_jobs [StateSucceeded; StateFailed; StateDeleted] cutoff)).

(** ** retry.go *)

Definition ScheduleRetry (ctx : Ctx) (jobID : string) (enqueueAt : Time) : M Storage unit :=
  in_tx "schedule retry begin" ctx (
    current <- lock_state "schedule retry select" ctx jobID ;;
    if decide (current <> StateFailed) then mthrow ErrStateConflict else
    now <- time_Now ;;
    wrap_err "schedule retry update" (tx_exec ctx
      (update_job_state jobID StateScheduled jr_progress_at now)) ;;;
    wrap_err "schedule retry state" (tx_exec ctx
      (insert_state jobID StateScheduled None (Some (enqueue_at_data enqueueAt)) now)) ;;;
    wrap_err "schedule retry delete" (tx_exec ctx (delete_scheduled jobID)) ;;;
    wrap_err "schedule retry row" (tx_exec ctx (insert_scheduled jobID jobID enqueueAt now)) ;;;
    bumpCounter ctx "scheduled" 1 ;;;
    Commit ctx).

Definition SetJobResult (ctx : Ctx) (jobID : string) (result : bytes) : M Storage unit :=
  let result := if 65536 <? blen result then bprefix 65536 result else result in
  exec_found "set job result" ctx (set_result jobID result).

(** The backend as an implementation of the interface. *)
#[export] Instance postgres_StorageI : StorageI Storage := {
  storage_Lock := pgLock;
  storage_Enqueue := Enqueue;
  storage_Dequeue := Dequeue;
  storage_Requeue := Requeue;
  storage_ApplyState := ApplyState;
  storage_HeartbeatJob := HeartbeatJob;
  storage_GetOrphanedJobs := GetOrphanedJobs;
  storage_GetJob := GetJob;
  storage_GetJobsByState := GetJobsByState;
  storage_GetQueueLength := GetQueueLength;
  storage_GetQueues := GetQueues;
  storage_RegisterServer := RegisterServer;
  storage_UnregisterServer := UnregisterServer;
  storage_Heartbeat := Heartbeat;
  storage_GetServers := GetServers;
  storage_AddScheduled := AddScheduled;
  storage_GetDueScheduled := GetDueScheduled;
  storage_RemoveScheduled := RemoveScheduled;
  storage_UpsertRecurring := UpsertRecurring;
  storage_RemoveRecurring := RemoveRecurring;
  storage_GetRecurringJobs := GetRecurringJobs;
  storage_UpdateRecurringLastRun := UpdateRecurringLastRun;
  storage_AddContinuation := AddContinuation;
  storage_GetContinuations := GetContinuations;
  storage_RemoveContinuations := RemoveContinuations;
  storage_IncrementCounter := IncrementCounter;
  storage_GetCounter := GetCounter;
  storage_GetAllCounters := GetAllCounters;
  storage_AcquireLock := AcquireLock;
  storage_ReleaseLock := Release;
  storage_RemoveExpired := RemoveExpired;
  storage_ScheduleRetry := ScheduleRetry;
  storage_SetJobResult := SetJobResult;
  storage_DeleteJob := DeleteJob;
  storage_EnqueueIdempotent := EnqueueIdempotent
}.
End Operations.

(** A concrete encoding of the data of states, over [plain_postgres]. *)
#[local, refine] Instance bits_data : StateData (PG := plain_postgres) := {|
  data_Marshal m := if decide (m = ∅) then "{}" else bits (encode (A := gmap string string) m);
  data_Unmarshal s := match unbits s with Some p => decode (A := gmap string string) p | None => None end
|}.
Proof.
  - done.
  - intros m Hm _. rewrite decide_False by done. exists (bits (encode m)).
    assert (forall p, exists c s, bits p = String c s /\ (c = "0"%char \/ c = "1"%char)) as Hb.
    { intros [p|p|]; simpl; eauto 6. }
    destruct (Hb (encode m)) as (c & s & Hs & Hc). split_and!.
    + simpl. rewrite Hs. by destruct Hc as [-> | ->].
    + rewrite Hs. by destruct Hc as [-> | ->].
    + rewrite Hs. by destruct Hc as [-> | ->].
    + rewrite unbits_bits. apply decode_encode.
Defined.
