(* ===== verification/PgRun.v ===== *)
(** * Runs of the Postgres backend without faults and other sessions

    A statement of a transaction as a function of the tables it sees; the history of a
    job as a function of the table of states. *)
From S2P Require Import Prelude.
From S2P Require Import GoTime.
From S2P Require Import Job.
From S2P Require Import PgServer.
From S2P Require Import PgSql.
From S2P Require Import Postgres.

(** ** Histories *)
#[export] Instance history_order_trans : Transitive history_order.
Proof. intros a b c. unfold history_order. lia. Qed.

#[export] Instance history_order_total : Total history_order.
Proof. intros a b. unfold history_order. lia. Qed.

(** The rows of a map, without their keys. *)
Definition rows {K R} `{Countable K} (m : gmap K R) : list R := (map_to_list m).*2.

Lemma elem_of_rows {K R} `{Countable K} (m : gmap K R) r : r ∈ rows m <-> exists k, m !! k = Some r.
Proof.
  unfold rows. rewrite list_elem_of_fmap. split.
  - intros [[k r'] [-> Hin]]. exists k. by apply elem_of_map_to_list.
  - intros [k Hk]. exists (k, r). split; [done|]. by apply elem_of_map_to_list.
Qed.

Definition states_keyed (T : Tables) : Prop := forall z r, t_states T !! z = Some r -> sr_id r = z.

Definition history_rows (T : Tables) (id : string) : list state_row :=
  merge_sort history_order (filter (fun r => sr_job_id r = id) (rows (t_states T))).

Lemma elem_of_history_rows T id r :
  r ∈ history_rows T id <-> sr_job_id r = id /\ exists z, t_states T !! z = Some r.
Proof.
  unfold history_rows. rewrite merge_sort_Permutation, list_elem_of_filter, elem_of_rows. done.
Qed.

(** Sorting forgets the order of the input. *)
Lemma history_sort_unique T l l' :
  states_keyed T -> (forall r, r ∈ l -> exists z, t_states T !! z = Some r) -> l ≡ₚ l' ->
  merge_sort history_order l = merge_sort history_order l'.
Proof.
  intros Hk Hl HP. apply (StronglySorted_unique_strong history_order).
  - intros a b Ha Hb Hab Hba. rewrite merge_sort_Permutation in Ha. rewrite merge_sort_Permutation, <- HP in Hb.
    destruct (Hl a Ha) as [za Hza], (Hl b Hb) as [zb Hzb].
    assert (za = zb) as Heq; [|subst; congruence].
    rewrite <- (Hk _ _ Hza), <- (Hk _ _ Hzb). unfold history_order in *. lia.
  - apply StronglySorted_merge_sort; apply _.
  - apply StronglySorted_merge_sort; apply _.
  - by rewrite !merge_sort_Permutation.
Qed.

Lemma StronglySorted_snoc {A} (R : relation A) l x :
  StronglySorted R l -> Forall (fun y => R y x) l -> StronglySorted R (l ++ [x]).
Proof.
  induction 1 as [|a l Hl IH Ha]; intros Hx; simpl; [by repeat constructor|].
  inversion Hx; subst. constructor; [by apply IH|]. apply Forall_app. by repeat constructor.
Qed.

Lemma history_rows_ext T T' id : t_states T' = t_states T -> history_rows T' id = history_rows T id.
Proof. unfold history_rows. by intros ->. Qed.

(** A new state that is later than the others of its job. *)
Lemma history_rows_insert T T' z x :
  states_keyed T -> sr_id x = z -> t_states T !! z = None ->
  t_states T' = <[z := x]> (t_states T) ->
  (forall r, r ∈ history_rows T (sr_job_id x) -> history_order r x) ->
  history_rows T' (sr_job_id x) = history_rows T (sr_job_id x) ++ [x] /\
  forall id, id <> sr_job_id x -> history_rows T' id = history_rows T id.
Proof.
  intros Hk Hx Hz HT Hlast.
  assert (states_keyed T') as Hk'.
  { intros k r. rewrite HT. rewrite lookup_insert. case_decide; [by intros [= <-]; subst|apply Hk]. }
  assert (rows (t_states T') ≡ₚ x :: rows (t_states T)) as HP.
  { unfold rows. rewrite HT, map_to_list_insert by done. done. }
  split.
  - transitivity (merge_sort history_order (history_rows T (sr_job_id x) ++ [x])).
    + apply (history_sort_unique T'); [done| |].
      * intros r Hr. apply list_elem_of_filter in Hr as [_ Hr]. by apply elem_of_rows in Hr.
      * unfold history_rows. rewrite merge_sort_Permutation, HP, filter_cons_True by done.
        by rewrite Permutation_app_comm.
    + apply (StronglySorted_unique_strong history_order).
      * intros a b Ha Hb Hab Hba. rewrite merge_sort_Permutation in Ha.
        assert (forall c, c ∈ history_rows T (sr_job_id x) ++ [x] -> t_states T' !! sr_id c = Some c) as Hin.
        { intros c Hc. apply elem_of_app in Hc as [Hc|Hc%list_elem_of_singleton].
          - apply elem_of_history_rows in Hc as [_ [k Hc]]. rewrite HT, (Hk _ _ Hc), lookup_insert_ne; [done|].
            intros ->. congruence.
          - subst c. by rewrite HT, Hx, lookup_insert_eq. }
        assert (sr_id a = sr_id b) as Heq by (unfold history_order in *; lia).
        pose proof (Hin a Ha). pose proof (Hin b Hb). congruence.
      * apply StronglySorted_merge_sort; apply _.
      * apply StronglySorted_snoc; [apply StronglySorted_merge_sort; apply _|]. by apply Forall_forall.
      * by rewrite merge_sort_Permutation.
  - intros id Hne. apply (history_sort_unique T'); [done| |].
    + intros r Hr. apply list_elem_of_filter in Hr as [_ Hr]. by apply elem_of_rows in Hr.
    + by rewrite HP, filter_cons_False.
Qed.

(** ** Statements *)
Lemma wrap_err_ok {S A} text (m : M S A) n s n' s' a :
  m n s = (n', s', Ok a) -> wrap_err text m n s = (n', s', Ok a).
Proof. unfold wrap_err. by intros ->. Qed.

Section Runs.
Context {EV : Env} {PG : Postgres} {SD : StateData} (server_clock : nat -> Time).
#[local] Hint Extern 0 Network => exact (quiet server_clock) : typeclass_instances.

(** A transaction that began on the tables [T0], and sees [V]. *)
Record tx_at (T0 V : Tables) (q : Seqs) (sid : string) (s : Session) : Prop := {
  ta_base : tables (pool (ss_storage s)) = T0;
  ta_seqs : seqs (pool (ss_storage s)) = q;
  ta_server : serverID (ss_storage s) = sid;
  ta_view : apply_writes (tx_writes (ss_tx s)) T0 = V;
  ta_alive : tx_failed (ss_tx s) = false;
}.

(** The statement succeeds on these tables, whatever the instant and the row order. *)
Definition does {A} (stmt : sql A) (V : Tables) (q : Seqs) (ws : Time -> list write) (q' : Seqs) (a : A) : Prop :=
  forall seed now, exists ls, stmt (mkSnapshot seed now [] V) q = (q', inl (ws now, ls, a)).

Lemma tx_exec_does {A} (stmt : sql A) T0 V q ws q' a sid n s :
  tx_at T0 V q sid s -> does stmt V q ws q' a -> exists s' now,
    tx_exec Live stmt n s = (S n, s', Ok a) /\ tx_at T0 (apply_writes (ws now) V) q' sid s'.
Proof.
  intros [Hb Hq Hs Hv Ha] Hd. destruct (Hd n (tx_now (ss_tx s))) as [ls Hr].
  unfold tx_exec. rewrite Ha. simpl. rewrite Hb, Hv, Hq, Hr. do 2 eexists. split; [reflexivity|].
  split; simpl; try done. by rewrite apply_writes_app, Hv.
Qed.

Lemma job_written id r V : is_Some (t_jobs (apply_writes [WJob id (Some r)] V) !! id).
Proof. apply is_Some_insert. Qed.

Lemma tx_step {A} (stmt : sql A) T0 V q ws q' a sid n s text :
  tx_at T0 V q sid s -> does stmt V q ws q' a -> exists s' now,
    (forall B (k : A -> M Session B), mbind (wrap_err text (tx_exec Live stmt)) k n s = k a (S n) s') /\
    tx_at T0 (apply_writes (ws now) V) q' sid s'.
Proof.
  intros Ht Hd. destruct (tx_exec_does stmt T0 V q ws q' a sid n s Ht Hd) as (s' & now & Hr & Ht').
  exists s', now. split; [|done]. intros B k. by erewrite mbind_ok by (apply wrap_err_ok; exact Hr).
Qed.

Lemma Commit_does T0 V q sid n s :
  tx_at T0 V q sid s -> exists s',
    Commit Live n s = (S n, s', Ok tt) /\ ss_storage s' = mkStorage (mkDb V q) sid.
Proof.
  intros [Hb Hq Hs Hv Ha]. unfold Commit. rewrite Ha. simpl. rewrite Hb, Hv.
  eexists. split; [reflexivity|]. unfold set_pool, set_tables. simpl. by rewrite Hs, Hq.
Qed.

Lemma in_tx_live {A} text (body : M Session A) n s :
  in_tx text Live body n s
  = (let '(n', s', r) := body (S n) (mkSession s (tx_begun (server_clock n))) in (n', ss_storage s', r)).
Proof. done. Qed.

Lemma tx_at_begun now s :
  tx_at (tables (pool s)) (tables (pool s)) (seqs (pool s)) (serverID s) (mkSession s (tx_begun now)).
Proof. done. Qed.

Lemma pool_exec_does {A} (stmt : sql A) s ws q' a n :
  does stmt (tables (pool s)) (seqs (pool s)) ws q' a -> exists now,
    pool_exec Live stmt n s
      = (S n, mkStorage (mkDb (apply_writes (ws now) (tables (pool s))) q') (serverID s), Ok a).
Proof.
  intros Hd. destruct (Hd n (server_clock n)) as [ls Hr]. exists (server_clock n).
  unfold pool_exec. simpl. by rewrite Hr.
Qed.

(** A statement that only reads, for each row order. *)
Lemma pool_exec_reads {A} (stmt : sql A) s a n :
  (exists ls, stmt (mkSnapshot n (server_clock n) [] (tables (pool s))) (seqs (pool s))
              = (seqs (pool s), inl ([], ls, a))) ->
  pool_exec Live stmt n s = (S n, s, Ok a).
Proof.
  intros [ls Hr]. unfold pool_exec. simpl. rewrite Hr. by destruct s as [[T q] sid].
Qed.

Definition no_writes : Time -> list write := fun _ => [].

Lemma select_job_does id V q :
  uuid_in id = Some id -> does (select_job id) V q no_writes q (option_list (t_jobs V !! id)).
Proof. intros Hid seed now. unfold select_job, as_uuid. rewrite Hid. by eexists. Qed.

Lemma lock_state_does text T0 V q sid n s id r :
  tx_at T0 V q sid s -> uuid_in id = Some id -> t_jobs V !! id = Some r -> exists s',
    lock_state text Live id n s = (S n, s', Ok (jr_state r)) /\ tx_at T0 V q sid s'.
Proof.
  intros Ht Hid Hr.
  destruct (tx_exec_does (select_state_for_update id) T0 V q no_writes q [jr_state r] sid n s Ht)
    as (s' & now & He & Ht').
  { intros seed now. unfold select_state_for_update, as_uuid. rewrite Hid. unfold sql_bind, sql_ret. simpl.
    rewrite Hr. by eexists. }
  exists s'. split; [|done]. unfold lock_state, scan_row.
  erewrite mbind_ok by (apply mtry_ok; erewrite mbind_ok by exact He; reflexivity). done.
Qed.

Lemma insert_job_does id name args args' queue state retry_max timeout now V q :
  uuid_in id = Some id -> text_in name = true -> text_in queue = true -> text_in state = true ->
  jsonb_in args = Some args' -> int4_ok retry_max = true -> t_jobs V !! id = None ->
  does (insert_job id name args queue state retry_max timeout None now) V q
    (fun _ => [WJob id (Some (mkJobRow id (next_token q) name args' queue state retry_max timeout None
                          (ts now) (ts now) None None))])
    (mkSeqs (next_token q + 1) (next_state q) (next_cont q)) tt.
Proof.
  intros Hid Hn Hq Hs Ha Hr Hnew seed t. unfold insert_job, as_uuid, as_texts, as_jsonb, as_int4.
  rewrite Hid, Ha, Hr. simpl. rewrite Hn, Hq, Hs. simpl. unfold sql_bind, sql_ret. simpl.
  rewrite bool_decide_true by done. simpl. by eexists.
Qed.

Lemma update_job_does id V q r set :
  uuid_in id = Some id -> t_jobs V !! id = Some r ->
  does (update_job id set) V q (fun _ => [WJob id (Some (set r))]) q 1.
Proof.
  intros Hid Hr seed now. unfold update_job, as_uuid. rewrite Hid. unfold sql_bind, sql_ret. simpl.
  rewrite Hr. simpl. by eexists.
Qed.

Lemma update_job_state_does id state progress now V q r :
  uuid_in id = Some id -> text_in state = true -> t_jobs V !! id = Some r ->
  does (update_job_state id state progress now) V q
    (fun _ => [WJob id (Some (with_progress state (progress r) now r))]) q 1.
Proof.
  intros Hid Hs Hr seed t. unfold update_job_state, as_text. rewrite Hs.
  destruct (update_job_does id V q r (fun r => with_progress state (progress r) now r) Hid Hr seed t) as [ls Hu].
  unfold sql_bind at 1. simpl. rewrite Hu. by eexists.
Qed.

Lemma insert_state_does id name reason data data' now V q :
  uuid_in id = Some id -> text_in name = true -> forallb text_in (option_list reason) = true ->
  jsonb_in (default "{}" data) = Some data' -> is_Some (t_jobs V !! id) ->
  does (insert_state id name reason data now) V q
    (fun _ => [WState (next_state q) (Some (mkStateRow (next_state q) id name reason data' (ts now)))])
    (mkSeqs (next_token q) (next_state q + 1) (next_cont q)) tt.
Proof.
  intros Hid Hn Hr Hd [r Hj] seed t. unfold insert_state, as_uuid, as_texts, as_jsonb.
  rewrite Hid, Hd. simpl. rewrite Hn, Hr. simpl. unfold sql_bind, sql_ret. simpl.
  rewrite bool_decide_true by (rewrite Hj; eauto). simpl. by eexists.
Qed.

Lemma add_counter_does key delta V q :
  text_in key = true ->
  does (add_counter key delta) V q
    (fun now => [WCounter key (Some (mkCounterRow key
       (match t_counters V !! key with Some r => kr_value r + delta | None => delta end) (ts now)))]) q tt.
Proof.
  intros Hk seed now. unfold add_counter, as_text. rewrite Hk. unfold sql_bind, sql_ret. simpl. by eexists.
Qed.

(** The value of a counter, 0 without a row. *)
Definition counter_value (T : Tables) (key : string) : Z := default 0 (kr_value <$> t_counters T !! key).

Lemma bumpCounter_does T0 V q sid n s key delta :
  text_in key = true -> tx_at T0 V q sid s -> exists s' now,
    bumpCounter Live key delta n s = (S n, s', Ok tt) /\
    tx_at T0 (apply_writes [WCounter key (Some (mkCounterRow key (counter_value V key + delta) now))] V) q sid s'.
Proof.
  intros Hk Ht. destruct (tx_exec_does _ _ _ _ _ _ _ _ n s Ht (add_counter_does key delta V q Hk))
    as (s' & now & He & Ht'). exists s', (ts now). split; [by apply wrap_err_ok|].
  unfold counter_value. by destruct (t_counters V !! key).
Qed.

Lemma delete_scheduled_does id V q :
  uuid_in id = Some id ->
  let gone := filter (fun kv : string * scheduled_row => sc_job_id kv.2 = id) (t_scheduled V) in
  does (delete_scheduled id) V q
    (fun _ => (fun kv => WScheduled kv.1 None) <$> map_to_list gone) q (Z.of_nat (size gone)).
Proof.
  intros Hid gone seed now. unfold delete_scheduled, as_uuid. rewrite Hid.
  unfold sql_bind, sql_ret. simpl. eexists. by rewrite app_nil_r.
Qed.

Lemma insert_scheduled_does id at_ now V q :
  uuid_in id = Some id -> t_scheduled V !! id = None -> is_Some (t_jobs V !! id) ->
  does (insert_scheduled id id at_ now) V q
    (fun _ => [WScheduled id (Some (mkScheduledRow id id (ts at_) (ts now)))]) q tt.
Proof.
  intros Hid Hs [r Hj] seed t. unfold insert_scheduled, as_uuid. rewrite Hid. unfold sql_bind, sql_ret. simpl.
  rewrite bool_decide_true by done. simpl. rewrite bool_decide_true by (rewrite Hj; eauto). simpl. by eexists.
Qed.
End Runs.
