(* ===== verification/PgSpec.v ===== *)
(** * The Postgres backend keeps the contract of [StorageSpec]

    Between operations, without faults and other sessions: the view of the tables, the
    invariant, and the laws. *)
From S2P Require Import Prelude.
From S2P Require Import GoTime.
From S2P Require Import Strconv.
From S2P Require Import Job.
From S2P Require Import StorageI.
From S2P Require Import StorageSpec.
From S2P Require Import PgServer.
From S2P Require Import PgSql.
From S2P Require Import Postgres.
From S2P Require Import PgRun.

(** ** Instants *)
Lemma ts_div t : ts t = t / Microsecond * Microsecond.
Proof. unfold ts, Microsecond. pose proof (Z.div_mod t 1000). lia. Qed.

Lemma ts_mono t u : t <= u -> ts t <= ts u.
Proof.
  intros H. rewrite !ts_div. apply Z.mul_le_mono_nonneg_r; [done|]. by apply Z.div_le_mono.
Qed.

Section View.
Context {PG : Postgres} {SD : StateData}.

Definition history (T : Tables) (id : string) : list JobState := scan_state <$> history_rows T id.

(** What GetJob shows, and the continuations, as functions of the tables. *)
Definition view_job (T : Tables) (id : string) : option JobWithStates :=
  (fun r => mkJobWithStates (scanJobFromRow r) (history T id)) <$> t_jobs T !! id.

Definition by_parent (T : Tables) (id : string) : list ContinuationEntry :=
  scan_cont <$> filter (fun r => cr_parent_id r = id) (rows (t_conts T)).

#[export] Instance pg_view : StorageView Storage := {
  spec_job s id := view_job (tables (pool s)) id;
  spec_conts s p := by_parent (tables (pool s)) p
}.

Lemma history_ext T T' id : t_states T' = t_states T -> history T' id = history T id.
Proof. intros H. unfold history. by rewrite (history_rows_ext T T'). Qed.

(** What a state keeps: its data when it has some, its instant in microseconds. *)
Definition stored_data (data : option (gmap string string)) : option (gmap string string) :=
  match data with Some m => if decide (m = ∅) then None else Some m | None => None end.

Definition stored_state (st : JobState) : JobState :=
  mkJobState (st_Name st) (st_Reason st) (stored_data (st_Data st)) (ts (st_CreatedAt st)).

Definition text_ok (t : string) : Prop := text_in t = true.

Lemma marshal_stored data :
  data_ok text_ok data -> exists d, jsonb_in (marshalStateData data) = Some d /\
    (if decide (d = "" \/ d = "{}" \/ d = "null") then None else data_Unmarshal d) = stored_data data.
Proof.
  intros Hd. destruct data as [m|]; simpl.
  - destruct (decide (m = ∅)) as [->|Hne].
    + exists "{}". split; [apply data_empty|]. by rewrite decide_True by tauto.
    + destruct (data_roundtrip m Hne Hd) as (t & Ht & H1 & H2 & H3). exists t. split; [done|].
      rewrite decide_False; [done|]. intros [He|[He|He]]; try done. by apply (jsonb_in_nonempty _ _ Ht).
  - exists "{}". split; [apply jsonb_in_object|]. by rewrite decide_True by tauto.
Qed.

Lemma nullIfEmpty_scan reason : default "" (nullIfEmpty reason) = reason.
Proof. unfold nullIfEmpty. by case_decide. Qed.

Lemma nullIfEmpty_text reason : text_ok reason -> forallb text_in (option_list (nullIfEmpty reason)) = true.
Proof. unfold nullIfEmpty, text_ok. intros Ht. case_decide; simpl; [done|]. by rewrite Ht. Qed.

Lemma known_text name : known_state name -> text_ok name.
Proof.
  intros Hn. apply text_in_plain. unfold known_state in Hn.
  repeat (apply elem_of_cons in Hn as [->|Hn]; [done|]). by apply not_elem_of_nil in Hn.
Qed.

Lemma stored_state_name st : st_Name (stored_state st) = st_Name st.
Proof. done. Qed.
End View.

(** ** The invariant *)
Section Invariant.
Context {EV : Env} {PG : Postgres} {SD : StateData}.

Record pg_inv (n : nat) (s : Storage) : Prop := {
  pi_job : forall id r, t_jobs (tables (pool s)) !! id = Some r ->
    jr_id r = id /\ uuid_in id = Some id /\ history_rows (tables (pool s)) id <> [] /\
    current (history (tables (pool s)) id) = jr_state r;
  pi_state : forall z r, t_states (tables (pool s)) !! z = Some r ->
    sr_id r = z /\ z < next_state (seqs (pool s)) /\ sr_created_at r <= ts (clock n) /\
    is_Some (t_jobs (tables (pool s)) !! sr_job_id r);
  pi_scheduled : forall id r, t_scheduled (tables (pool s)) !! id = Some r ->
    sc_id r = id /\ sc_job_id r = id /\ is_Some (t_jobs (tables (pool s)) !! id);
  pi_fresh : forall m, (n <= m)%nat -> t_jobs (tables (pool s)) !! uuid m = None;
  pi_server : text_ok (serverID s);
}.

Hypothesis clock_mono : forall n, clock n <= clock (S n).

Lemma clock_le n m : (n <= m)%nat -> clock n <= clock m.
Proof. induction 1; [lia|]. pose proof (clock_mono m). lia. Qed.

Lemma pg_inv_le n m s : (n <= m)%nat -> pg_inv n s -> pg_inv m s.
Proof.
  intros Hle [H1 H2 H3 H4 H5]. split; try done.
  - intros z r Hz. destruct (H2 z r Hz) as (?&?&?&?). split_and!; try done.
    pose proof (ts_mono _ _ (clock_le n m Hle)). lia.
  - intros k Hk. apply H4. lia.
Qed.

Lemma pg_keyed n s : pg_inv n s -> states_keyed (tables (pool s)).
Proof. intros HI z r Hz. by apply (pi_state _ _ HI). Qed.

Lemma pg_new_state n s : pg_inv n s -> t_states (tables (pool s)) !! next_state (seqs (pool s)) = None.
Proof.
  intros HI. destruct (t_states _ !! next_state _) as [r|] eqn:Hr; [|done].
  destruct (pi_state _ _ HI _ _ Hr) as (_ & Hlt & _). lia.
Qed.

Lemma pg_current n s id jw r :
  pg_inv n s -> view_job (tables (pool s)) id = Some jw -> t_jobs (tables (pool s)) !! id = Some r ->
  CurrentState jw = jr_state r /\ uuid_in id = Some id /\
  jw = mkJobWithStates (scanJobFromRow r) (history (tables (pool s)) id).
Proof.
  intros HI Hv Hr. unfold view_job in Hv. rewrite Hr in Hv. simplify_eq/=.
  destruct (pi_job _ _ HI _ _ Hr) as (Hid & Hu & _ & Hc). by split_and!.
Qed.

Lemma view_row T id jw : view_job T id = Some jw -> exists r, t_jobs T !! id = Some r.
Proof. unfold view_job. destruct (t_jobs T !! id); [eauto|done]. Qed.

(** One more state in the history of a job whose row was written with it, and what that
    leaves alone. *)
Lemma pg_push n m s s' id r r' x now :
  pg_inv n s -> (n <= m)%nat -> t_jobs (tables (pool s)) !! id = Some r ->
  t_jobs (tables (pool s')) = <[id := r']> (t_jobs (tables (pool s))) ->
  t_states (tables (pool s')) = <[next_state (seqs (pool s)) := x]> (t_states (tables (pool s))) ->
  (forall k v, t_scheduled (tables (pool s')) !! k = Some v ->
     t_scheduled (tables (pool s)) !! k = Some v \/ (k = id /\ sc_id v = id /\ sc_job_id v = id)) ->
  t_conts (tables (pool s')) = t_conts (tables (pool s)) ->
  next_state (seqs (pool s')) = next_state (seqs (pool s)) + 1 -> serverID s' = serverID s ->
  jr_id r' = id -> jr_state r' = sr_name x ->
  sr_id x = next_state (seqs (pool s)) -> sr_job_id x = id -> sr_created_at x = ts now ->
  clock n <= now <= clock m ->
  pg_inv m s' /\
  only_job id (mkJobWithStates (scanJobFromRow r') (history (tables (pool s)) id ++ [scan_state x])) s s'.
Proof.
  intros HI Hle Hr HJ HS HC HO HQ Hsv Hid Hst Hx Hxj Hxt Hnow.
  destruct (pi_job _ _ HI _ _ Hr) as (_ & Hu & _).
  assert (forall y, y ∈ history_rows (tables (pool s)) (sr_job_id x) -> history_order y x) as Hlast.
  { intros y [_ [z Hy]]%elem_of_history_rows. destruct (pi_state _ _ HI _ _ Hy) as (Hyid & Hlt & Hc & _).
    pose proof (ts_mono _ _ (proj1 Hnow)). unfold history_order. lia. }
  destruct (history_rows_insert (tables (pool s)) (tables (pool s')) _ x
    (pg_keyed n s HI) Hx (pg_new_state n s HI) HS Hlast) as [Hh Hh']. rewrite Hxj in Hh, Hh'.
  split; [split|split; simpl].
  - intros k v. rewrite HJ, lookup_insert. case_decide as Hk; [subst k; intros [= <-]|].
    + split_and!; [done|done|rewrite Hh; intros Hn; by apply app_eq_nil in Hn as [_ ?]|].
      unfold history. rewrite Hh, fmap_app. simpl. by rewrite current_snoc.
    + intros Hv. destruct (pi_job _ _ HI _ _ Hv) as (H1 & H2 & H3 & H4). unfold history.
      by rewrite Hh' by done.
  - intros z y. rewrite HS, HJ, HQ, lookup_insert. case_decide as Hz; [subst z; intros [= <-]|].
    + split_and!; [done|lia|rewrite Hxt; apply ts_mono; lia|]. rewrite Hxj. eauto with gfire.
    + intros Hy. destruct (pi_state _ _ HI _ _ Hy) as (H1 & H2 & H3 & H4).
      pose proof (ts_mono _ _ (clock_le n m Hle)). split_and!; try lia.
      destruct (decide (sr_job_id y = id)) as [->|Hne]; [eauto with gfire|by rewrite lookup_insert_ne].
  - intros k v Hv. rewrite HJ. destruct (HC k v Hv) as [Hv'|(-> & H1 & H2)].
    + destruct (pi_scheduled _ _ HI _ _ Hv') as (H1 & H2 & H3). split_and!; try done.
      destruct (decide (k = id)) as [->|Hne]; [eauto with gfire|by rewrite lookup_insert_ne].
    + split_and!; eauto with gfire.
  - intros k Hk. rewrite HJ, lookup_insert_ne; [apply (pi_fresh _ _ HI); lia|]. intros ->.
    pose proof (pi_fresh _ _ HI k ltac:(lia)). congruence.
  - rewrite Hsv. apply HI.
  - unfold view_job. rewrite HJ, lookup_insert_eq. simpl. unfold history. by rewrite Hh, fmap_app.
  - intros k Hk. unfold view_job. rewrite HJ, lookup_insert_ne by done. unfold history. by rewrite Hh'.
  - intros p. unfold by_parent. by rewrite HO.
Qed.
(** A new job with its first state. *)
Lemma pg_create n m s s' id r x now :
  pg_inv n s -> (n <= m)%nat -> t_jobs (tables (pool s)) !! id = None -> uuid_in id = Some id ->
  t_jobs (tables (pool s')) = <[id := r]> (t_jobs (tables (pool s))) ->
  t_states (tables (pool s')) = <[next_state (seqs (pool s)) := x]> (t_states (tables (pool s))) ->
  t_scheduled (tables (pool s')) = t_scheduled (tables (pool s)) ->
  t_conts (tables (pool s')) = t_conts (tables (pool s)) ->
  next_state (seqs (pool s')) = next_state (seqs (pool s)) + 1 -> serverID s' = serverID s ->
  jr_id r = id -> jr_state r = sr_name x ->
  sr_id x = next_state (seqs (pool s)) -> sr_job_id x = id -> sr_created_at x = ts now ->
  clock n <= now <= clock m -> (forall k, (m <= k)%nat -> uuid k <> id) ->
  pg_inv m s' /\ only_job id (mkJobWithStates (scanJobFromRow r) [scan_state x]) s s'.
Proof.
  intros HI Hle Hr Hu HJ HS HC HO HQ Hsv Hid Hst Hx Hxj Hxt Hnow Hfresh.
  assert (history_rows (tables (pool s)) id = []) as Hnone.
  { apply elem_of_nil_inv. intros y [Hy [z Hz]]%elem_of_history_rows.
    destruct (pi_state _ _ HI _ _ Hz) as (_ & _ & _ & [w Hw]). rewrite Hy in Hw. congruence. }
  destruct (history_rows_insert (tables (pool s)) (tables (pool s')) _ x
    (pg_keyed n s HI) Hx (pg_new_state n s HI) HS) as [Hh Hh'].
  { rewrite Hxj, Hnone. intros y Hy. by apply elem_of_nil in Hy. }
  rewrite Hxj in Hh, Hh'. rewrite Hnone in Hh.
  split; [split|split; simpl].
  - intros k v. rewrite HJ, lookup_insert. case_decide as Hk; [subst k; intros [= <-]|].
    + split_and!; [done|done|by rewrite Hh|]. unfold history. by rewrite Hh.
    + intros Hv. destruct (pi_job _ _ HI _ _ Hv) as (H1 & H2 & H3 & H4). unfold history.
      by rewrite Hh' by done.
  - intros z y. rewrite HS, HJ, HQ, lookup_insert. case_decide as Hz; [subst z; intros [= <-]|].
    + split_and!; [done|lia|rewrite Hxt; apply ts_mono; lia|]. rewrite Hxj. eauto with gfire.
    + intros Hy. destruct (pi_state _ _ HI _ _ Hy) as (H1 & H2 & H3 & H4).
      pose proof (ts_mono _ _ (clock_le n m Hle)). split_and!; try lia.
      rewrite lookup_insert. case_decide; eauto.
  - intros k v. rewrite HC, HJ. intros Hv. destruct (pi_scheduled _ _ HI _ _ Hv) as (H1 & H2 & H3).
    split_and!; try done. rewrite lookup_insert. case_decide; eauto.
  - intros k Hk. rewrite HJ, lookup_insert_ne; [apply (pi_fresh _ _ HI); lia|]. intros He. by eapply Hfresh.
  - rewrite Hsv. apply HI.
  - unfold view_job. rewrite HJ, lookup_insert_eq. simpl. unfold history. by rewrite Hh.
  - intros k Hk. unfold view_job. rewrite HJ, lookup_insert_ne by done. unfold history. by rewrite Hh'.
  - intros p. unfold by_parent. by rewrite HO.
Qed.
End Invariant.

(** ** The laws *)
Section Laws.
Context {EV : Env} {PG : Postgres} {SD : StateData} (server_clock : nat -> Time).
#[local] Hint Extern 0 Network => exact (quiet server_clock) : typeclass_instances.
Hypothesis clock_mono : forall n, clock n <= clock (S n).
Hypothesis uuid_valid : forall n, uuid_in (uuid n) = Some (uuid n).

(** What the tables can hold of a job. *)
Record job_ok (j : Job) : Prop := {
  jo_name : text_ok (Name j);
  jo_queue : text_ok (Queue j);
  jo_args : match Args j with Some a => is_Some (jsonb_in a) | None => True end;
  jo_retry : int4_ok (RetryMax j) = true;
}.

Definition stored_args (args : bytes) : bytes :=
  Some (default (default "" args) (jsonb_in (default "[]" args))).

Definition stored_timeout (d : Duration) : Duration := durationFromMS (timeoutMS d).

Definition cut_result (r : bytes) : bytes := if 65536 <? blen r then bprefix 65536 r else r.

Definition result_ok (r : bytes) : Prop :=
  match cut_result r with Some b => is_Some (jsonb_in b) | None => True end.

Definition stored_result (r : bytes) : bytes :=
  match cut_result r with Some b => scanned_result (jsonb_in b) | None => None end.

Lemma pg_GetJob id n s :
  pg_inv n s -> uuid_in id = Some id -> exists n', (n <= n')%nat /\
  GetJob Live id n s
  = (n', s, match view_job (tables (pool s)) id with Some jw => Ok jw | None => Err ErrNotFound end).
Proof.
  intros HI Hid. unfold GetJob, scanJob, scan_row.
  assert (forall n, pool_exec Live (select_job id) n s
    = (S n, s, Ok (option_list (t_jobs (tables (pool s)) !! id)))) as Hsel.
  { intros m. apply pool_exec_reads. apply (select_job_does id _ _ Hid). }
  unfold view_job. destruct (t_jobs (tables (pool s)) !! id) as [r|] eqn:Hr.
  - exists (S (S n)). split; [lia|]. erewrite mbind_ok.
    2:{ erewrite mbind_ok by (apply mtry_ok; erewrite mbind_ok by apply Hsel; reflexivity). reflexivity. }
    unfold loadStates.
    erewrite mbind_ok.
    2:{ erewrite mbind_ok; [reflexivity|]. apply wrap_err_ok, pool_exec_reads.
        unfold select_states, as_uuid. rewrite Hid. unfold sql_bind, sql_ret. simpl. by eexists. }
    cbn. do 3 f_equal. unfold history, history_rows, mret. do 4 f_equal.
    apply (history_sort_unique (tables (pool s))); [by eapply pg_keyed|..].
    + intros x Hx. apply list_elem_of_filter in Hx as [_ Hx]. rewrite row_order_perm in Hx. by apply elem_of_rows in Hx.
    + by rewrite row_order_perm.
  - exists (S n). split; [lia|]. erewrite mbind_err; [reflexivity|].
    erewrite mbind_ok by (apply mtry_err; erewrite mbind_ok by apply Hsel; reflexivity). reflexivity.
Qed.

(** The tables of jobs are the same. *)
Record same_jobs (V V' : Tables) : Prop := {
  sj_jobs : t_jobs V' = t_jobs V;
  sj_states : t_states V' = t_states V;
  sj_scheduled : t_scheduled V' = t_scheduled V;
  sj_conts : t_conts V' = t_conts V;
}.

Lemma bump_does T0 V q sid n s key delta :
  text_ok key -> tx_at T0 V q sid s -> exists s' V',
    bumpCounter Live key delta n s = (S n, s', Ok tt) /\ tx_at T0 V' q sid s' /\ same_jobs V V'.
Proof.
  intros Hk Ht. destruct (bumpCounter_does server_clock T0 V q sid n s key delta Hk Ht) as (s' & now & Hr & Ht').
  eexists s', _. split; [exact Hr|]. by split; [exact Ht'|].
Qed.

Lemma bump_state_does T0 V q sid n s name :
  tx_at T0 V q sid s -> exists n' s' V',
    bumpCounterForState Live name n s = (n', s', Ok tt) /\ (n <= n')%nat /\
    tx_at T0 V' q sid s' /\ same_jobs V V'.
Proof.
  intros Ht. unfold bumpCounterForState.
  assert (forall key, plain_text key = true -> exists n' s' V', bumpCounter Live key 1 n s = (n', s', Ok tt) /\
    (n <= n')%nat /\ tx_at T0 V' q sid s' /\ same_jobs V V') as Hb.
  { intros key Hk. destruct (bump_does T0 V q sid n s key 1 (text_in_plain _ Hk) Ht) as (s' & V' & Hr & Ht' & Hs).
    exists (S n), s', V'. split_and!; try done. lia. }
  repeat case_decide; try (by apply Hb). exists n, s, V. by split_and!.
Qed.

Lemma tx_at_storage T0 V q sid s : tx_at T0 V q sid s -> ss_storage s = mkStorage (mkDb T0 q) sid.
Proof. intros [<- <- <- _ _]. by destruct s as [[[T Q] v] t]. Qed.

(** The body of [ApplyState] when the state is the expected one. *)
Lemma applyStateTx_does id name reason data e n s r d :
  uuid_in id = Some id -> t_jobs (tables (pool s)) !! id = Some r -> jr_state r = e ->
  text_ok name -> text_ok reason -> jsonb_in (marshalStateData data) = Some d ->
  forall s0, tx_at (tables (pool s)) (tables (pool s)) (seqs (pool s)) (serverID s) s0 -> exists n' V s1,
    applyStateTx Live id e (newJobState name reason data) (S n) s0 = (n', s1, Ok tt) /\
    tx_at (tables (pool s)) V (mkSeqs (next_token (seqs (pool s))) (next_state (seqs (pool s)) + 1)
        (next_cont (seqs (pool s)))) (serverID s) s1 /\
    (S (S (S n)) <= n')%nat /\
    same_jobs (apply_writes
      [WJob id (Some (with_progress name
         (if bool_decide (name <> StateProcessing) then None else jr_progress_at r) (clock (S (S n))) r));
       WState (next_state (seqs (pool s))) (Some (mkStateRow (next_state (seqs (pool s))) id name
         (nullIfEmpty reason) d (ts (clock (S (S n))))))] (tables (pool s))) V.
Proof.
  intros Hid Hr He Hn Hre Hd s0 Ht0. unfold applyStateTx.
  destruct (lock_state_does server_clock "applystate select" _ _ _ _ (S n) s0 id r Ht0 Hid Hr) as (s1 & H1 & Ht1).
  erewrite mbind_ok by exact H1. rewrite decide_False by tauto.
  erewrite mbind_ok by reflexivity. cbv zeta. cbn [st_CreatedAt st_Name st_Reason st_Data set_st_CreatedAt newJobState].
  destruct (tx_step server_clock _ _ _ _ _ _ _ _ (S (S (S n))) s1 "applystate update" Ht1
    (update_job_state_does id name (fun r => if bool_decide (name <> StateProcessing) then None else jr_progress_at r)
       (clock (S (S n))) _ _ r Hid Hn Hr)) as (s2 & now2 & H2 & Ht2). rewrite H2.
  destruct (tx_step server_clock _ _ _ _ _ _ _ _ (S (S (S (S n)))) s2 "applystate insert state" Ht2
    (insert_state_does id name _ (Some (marshalStateData data)) d (clock (S (S n))) _ _ Hid Hn (nullIfEmpty_text _ Hre) Hd
      (job_written _ _ _))) as (s3 & now3 & H3 & Ht3). rewrite H3.
  destruct (bump_state_does _ _ _ _ (S (S (S (S (S n))))) s3 name Ht3) as (n4 & s4 & V4 & H4 & Hle & Ht4 & Hs4).
  exists n4, V4, s4. rewrite H4. split_and!; [done|exact Ht4|lia|exact Hs4].
Qed.

Lemma pg_ApplyState id e name reason data jw n s :
  pg_inv n s -> view_job (tables (pool s)) id = Some jw -> known_state name -> text_ok reason ->
  data_ok text_ok data ->
  if decide (CurrentState jw = e) then exists n' s' t,
    ApplyState Live id e (newJobState name reason data) n s = (n', s', Ok tt) /\ pg_inv n' s' /\
    only_job id (with_state jw (stored_state (mkJobState name reason data t))) s s'
  else exists n',
    ApplyState Live id e (newJobState name reason data) n s = (n', s, Err ErrStateConflict) /\ pg_inv n' s.
Proof.
  intros HI Hv Hn Hr Hd. destruct (view_row _ _ _ Hv) as [r Hrow].
  destruct (pg_current n s id jw r HI Hv Hrow) as (Hc & Hid & Hjw). rewrite Hc.
  destruct (pi_job _ _ HI _ _ Hrow) as (Hrid & _).
  destruct (marshal_stored data Hd) as (d & Hdj & Hdd).
  assert (IsZero (st_CreatedAt (newJobState name reason data)) = true) as Hz by done.
  destruct (decide (jr_state r = e)) as [He|He].
  - set (now := clock (S (S n))). set (x := mkStateRow (next_state (seqs (pool s))) id name (nullIfEmpty reason) d (ts now)).
    set (r' := with_progress name (if bool_decide (name <> StateProcessing) then None else jr_progress_at r) now r).
    assert (exists n' s', ApplyState Live id e (newJobState name reason data) n s = (n', s', Ok tt) /\
      (S (S n) <= n')%nat /\ serverID s' = serverID s /\ next_state (seqs (pool s')) = next_state (seqs (pool s)) + 1 /\
      same_jobs (apply_writes [WJob id (Some r'); WState (next_state (seqs (pool s))) (Some x)] (tables (pool s)))
        (tables (pool s'))) as (n' & s' & Hrun & Hle & Hsv & Hq & [HJ HS HC HO]).
    { unfold ApplyState. rewrite in_tx_live.
      destruct (applyStateTx_does id name reason data e n s r d Hid Hrow He (known_text _ Hn) Hr Hdj
        _ (tx_at_begun (server_clock n) s)) as (n1 & V1 & s1 & Hr1 & Ht1 & Hle & Hsame).
      destruct (Commit_does server_clock _ _ _ _ n1 s1 Ht1) as (s2 & Hr2 & Hs2).
      erewrite mbind_ok by exact Hr1. erewrite wrap_err_ok by exact Hr2. rewrite Hs2.
      do 2 eexists. split_and!; [reflexivity|lia|done|done|exact Hsame]. }
    exists n', s', now. split; [done|].
    assert (scan_state x = stored_state (mkJobState name reason data now)) as Hx.
    { unfold scan_state, stored_state. simpl. by rewrite Hdd, nullIfEmpty_scan. }
    rewrite <- Hx. rewrite Hjw. unfold with_state. simpl.
    replace (scanJobFromRow r) with (scanJobFromRow r') by done.
    apply (pg_push clock_mono n n' s s' id r r' x now); try done; try lia.
    + intros k v Hkv. left. by rewrite HC in Hkv.
    + split; apply (clock_le clock_mono); lia.
  - exists (S (S n)). split; [|apply (pg_inv_le clock_mono n); [lia|done]].
    unfold ApplyState. rewrite in_tx_live.
    destruct (lock_state_does server_clock "applystate select" _ _ _ _ (S n) _ id r (tx_at_begun (server_clock n) s) Hid Hrow)
      as (s1 & Hr1 & Ht1).
    erewrite mbind_err.
    2:{ unfold applyStateTx. erewrite mbind_ok by exact Hr1. by rewrite decide_True. }
    rewrite (tx_at_storage _ _ _ _ _ Ht1). by destruct s as [[T Q] v].
Qed.

(** Deleting rows of scheduled_jobs. *)
Lemma delete_scheduled_rows l V :
  let V' := apply_writes ((fun kv : string * scheduled_row => WScheduled kv.1 None) <$> l) V in
  t_jobs V' = t_jobs V /\ t_states V' = t_states V /\ t_conts V' = t_conts V /\
  (forall k, k ∈ l.*1 -> t_scheduled V' !! k = None) /\
  (forall k v, t_scheduled V' !! k = Some v -> t_scheduled V !! k = Some v).
Proof.
  revert V. induction l as [|[k0 v0] l IH]; intros V V'.
  { split_and!; try done. intros k Hk. by apply elem_of_nil in Hk. }
  destruct (IH (apply_write (WScheduled k0 None) V)) as (H1 & H2 & H3 & H4 & H5). split_and!.
  - exact H1.
  - exact H2.
  - exact H3.
  - intros k [->|Hk]%elem_of_cons; [|by apply H4].
    destruct (t_scheduled V' !! k0) as [v|] eqn:Hv; [|done]. apply H5 in Hv. cbn in Hv.
    unfold put_row in Hv. by rewrite lookup_partial_alter_eq in Hv.
  - intros k v Hv. apply H5 in Hv. cbn in Hv. unfold put_row in Hv.
    destruct (decide (k = k0)) as [->|Hne].
    + by rewrite lookup_partial_alter_eq in Hv.
    + by rewrite lookup_partial_alter_ne in Hv.
Qed.

Lemma enqueue_at_stored t : exists d,
  jsonb_in (enqueue_at_data t) = Some d /\
  (if decide (d = "" \/ d = "{}" \/ d = "null") then None else data_Unmarshal d)
    = Some {[ "enqueue_at" := FormatRFC3339 t ]}.
Proof.
  destruct (marshal_stored (Some {[ "enqueue_at" := FormatRFC3339 t ]})) as (d & Hd & Hs).
  - intros k v Hkv. apply lookup_singleton_Some in Hkv as [<- <-].
    split; apply text_in_plain; [done|]. apply FormatRFC3339_plain.
  - exists d. split; [done|]. rewrite Hs. simpl. rewrite decide_False; [done|].
    apply insert_non_empty.
Qed.

Lemma pg_ScheduleRetry id a jw n s :
  pg_inv n s -> view_job (tables (pool s)) id = Some jw -> CurrentState jw = StateFailed ->
  exists n' s' st, ScheduleRetry Live id a n s = (n', s', Ok tt) /\ pg_inv n' s' /\
    st_Name st = StateScheduled /\ st_Data st = Some {[ "enqueue_at" := FormatRFC3339 a ]} /\
    only_job id (with_state jw st) s s'.
Proof.
  intros HI Hv Hf. destruct (view_row _ _ _ Hv) as [r Hrow].
  destruct (pg_current n s id jw r HI Hv Hrow) as (Hc & Hid & Hjw).
  destruct (pi_job _ _ HI _ _ Hrow) as (Hrid & _).
  destruct (enqueue_at_stored a) as (d & Hd & Hdd). unfold ScheduleRetry. rewrite in_tx_live.
  destruct (lock_state_does server_clock "schedule retry select" _ _ _ _ (S n) _ id r (tx_at_begun (server_clock n) s) Hid Hrow)
    as (s1 & H1 & Ht1). erewrite mbind_ok by exact H1. rewrite decide_False by congruence.
  erewrite mbind_ok by reflexivity. set (now := clock (S (S n))).
  assert (text_ok StateScheduled) as Hn by (by apply text_in_plain).
  destruct (tx_step server_clock _ _ _ _ _ _ _ _ (S (S (S n))) s1 "schedule retry update" Ht1
    (update_job_state_does id StateScheduled jr_progress_at now _ _ r Hid Hn Hrow)) as (s2 & now2 & H2 & Ht2).
  rewrite H2.
  destruct (tx_step server_clock _ _ _ _ _ _ _ _ (S (S (S (S n)))) s2 "schedule retry state" Ht2
    (insert_state_does id StateScheduled None (Some (enqueue_at_data a)) d now _ _ Hid Hn eq_refl Hd
      (job_written _ _ _))) as (s3 & now3 & H3 & Ht3). rewrite H3.
  destruct (tx_step server_clock _ _ _ _ _ _ _ _ (S (S (S (S (S n))))) s3 "schedule retry delete" Ht3
    (delete_scheduled_does id _ _ Hid)) as (s4 & now4 & H4 & Ht4). rewrite H4.
  match type of Ht4 with tx_at _ (apply_writes (_ <$> ?l) ?V) _ _ _ =>
    destruct (delete_scheduled_rows l V) as (HJ & HS & HO & HC & HC'); set (V4 := apply_writes (_ <$> l) V) in * end.
  assert (t_scheduled V4 !! id = None) as Hnone.
  { destruct (t_scheduled V4 !! id) as [v|] eqn:Hv4; [|done]. pose proof (HC' _ _ Hv4) as Hv3.
    rewrite HC in Hv4; [done|]. apply list_elem_of_fmap. exists (id, v). split; [done|].
    apply elem_of_map_to_list, map_lookup_filter_Some. split; [done|]. by apply (pi_scheduled _ _ HI). }
  assert (is_Some (t_jobs V4 !! id)) as Hjob by (rewrite HJ; apply job_written).
  destruct (tx_step server_clock _ _ _ _ _ _ _ _ (S (S (S (S (S (S n)))))) s4 "schedule retry row" Ht4
    (insert_scheduled_does id a now _ _ Hid Hnone Hjob)) as (s5 & now5 & H5 & Ht5). rewrite H5.
  destruct (bump_does _ _ _ _ (S (S (S (S (S (S (S n))))))) s5 "scheduled" 1 (text_in_plain "scheduled" eq_refl) Ht5)
    as (s6 & V6 & H6 & Ht6 & [HJ6 HS6 HC6 HO6]). erewrite mbind_ok by exact H6.
  destruct (Commit_does server_clock _ _ _ _ (S (S (S (S (S (S (S (S n)))))))) s6 Ht6) as (s7 & H7 & Hs7).
  rewrite H7, Hs7. set (x := mkStateRow (next_state (seqs (pool s))) id StateScheduled None d (ts now)).
  set (r' := with_progress StateScheduled (jr_progress_at r) now r).
  do 2 eexists. exists (scan_state x). split; [reflexivity|].
  rewrite Hjw. unfold with_state. simpl. replace (scanJobFromRow r) with (scanJobFromRow r') by done.
  enough (pg_inv (S (S (S (S (S (S (S (S (S n))))))))) _ /\ only_job id _ s _) as [? ?] by (split_and!; [done|done|exact Hdd|done]).
  apply (pg_push clock_mono n _ s _ id r r' x now); try done; simpl.
  - lia.
  - rewrite HJ6. exact HJ.
  - rewrite HS6. exact HS.
  - rewrite HC6. cbn. intros k v. unfold put_row. destruct (decide (k = id)) as [->|Hne].
    + rewrite lookup_partial_alter_eq. intros [= <-]. by right.
    + rewrite lookup_partial_alter_ne by done. left. by apply HC'.
  - rewrite HO6. exact HO.
  - split; apply (clock_le clock_mono); lia.
Qed.

Lemma pg_SetJobResult id r jw n s :
  pg_inv n s -> view_job (tables (pool s)) id = Some jw -> result_ok r ->
  exists n' s', SetJobResult Live id r n s = (n', s', Ok tt) /\ pg_inv n' s' /\
    only_job id (with_result jw (stored_result r)) s s'.
Proof.
  intros HI Hv Hr. destruct (view_row _ _ _ Hv) as [row Hrow].
  destruct (pg_current n s id jw row HI Hv Hrow) as (_ & Hid & Hjw).
  unfold SetJobResult. fold (cut_result r).
  set (res := match cut_result r with Some b => jsonb_in b | None => None end).
  set (row' now := mkJobRow (jr_id row) (jr_queue_token row) (jr_name row) (jr_args row) (jr_queue row)
    (jr_state row) (jr_retry_max row) (jr_timeout_ms row) (jr_progress_at row) (jr_created_at row) now res
    (jr_idempotency_key row)).
  destruct (pool_exec_does server_clock (set_result id (cut_result r)) s
    (fun now => [WJob id (Some (row' (ts now)))]) (seqs (pool s)) 1 n) as [now Hrun].
  { intros seed now. unfold set_result, update_job, as_uuid, as_jsonb, result_ok in *. unfold row', res.
    rewrite Hid. unfold sql_bind, sql_ret. simpl.
    destruct (cut_result r) as [b|]; simpl; [destruct Hr as [t ->]; simpl|]; rewrite Hrow; simpl; by eexists. }
  unfold exec_found. do 2 eexists. split.
  { erewrite mbind_ok by (apply wrap_err_ok; exact Hrun). reflexivity. }
  destruct (pi_job _ _ HI _ _ Hrow) as (Hrid & _). split; [split; simpl|split; simpl].
  - intros k v. rewrite put_row_insert, lookup_insert. case_decide as Hk; [subst k; intros [= <-]|apply (pi_job _ _ HI)].
    destruct (pi_job _ _ HI _ _ Hrow) as (H1 & H2 & H3 & H4). by split_and!.
  - intros z y Hy. destruct (pi_state _ _ (pg_inv_le clock_mono n (S n) s ltac:(lia) HI) _ _ Hy) as (H1 & H2 & H3 & H4).
    split_and!; try done. rewrite put_row_insert, lookup_insert. case_decide; eauto.
  - intros k v Hv'. destruct (pi_scheduled _ _ HI _ _ Hv') as (H1 & H2 & H3). split_and!; try done.
    rewrite put_row_insert, lookup_insert. case_decide; eauto.
  - intros m Hm. rewrite put_row_insert, lookup_insert_ne; [apply (pi_fresh _ _ HI); lia|].
    intros ->. pose proof (pi_fresh _ _ HI m ltac:(lia)). congruence.
  - apply HI.
  - unfold view_job. simpl. rewrite put_row_insert, lookup_insert_eq. simpl. rewrite Hjw. unfold with_result. simpl.
    do 2 f_equal. unfold scanJobFromRow, set_Result, row', res, stored_result. simpl.
    by destruct (cut_result r).
  - intros k Hk. unfold view_job. simpl. rewrite put_row_insert. by rewrite lookup_insert_ne.
  - done.
Qed.

Lemma pg_GetContinuations p n s :
  pg_inv n s -> uuid_in p = Some p -> exists n' l,
    GetContinuations Live p n s = (n', s, Ok l) /\ l ≡ₚ by_parent (tables (pool s)) p /\ pg_inv n' s.
Proof.
  intros HI Hp. unfold GetContinuations.
  do 2 eexists. split_and!; [| |eapply (pg_inv_le clock_mono); [|exact HI]].
  - erewrite mbind_ok; [reflexivity|]. apply wrap_err_ok, pool_exec_reads.
    unfold select_conts, as_uuid. rewrite Hp. unfold sql_bind, sql_ret. simpl. by eexists.
  - unfold by_parent, rows. by rewrite merge_sort_Permutation, row_order_perm.
  - lia.
Qed.

Lemma pg_Enqueue q j n s :
  pg_inv n s -> ID j = "" -> q <> "" -> Queue j = q -> job_ok j -> exists n' s' id j' st,
    Enqueue Live q j n s = (n', s', Ok id) /\ pg_inv n' s' /\ view_job (tables (pool s)) id = None /\
    only_job id (mkJobWithStates j' [st]) s s' /\ st_Name st = StateEnqueued /\ Name j' = Name j /\
    Args j' = stored_args (Args j) /\ Queue j' = q /\
    RetryMax j' = (if decide (RetryMax j = 0) then 10 else RetryMax j) /\
    Timeout j' = stored_timeout (Timeout j).
Proof.
  intros HI Hj Hq Hjq [Hn Hqt Ha Hm]. subst q. unfold Enqueue. rewrite decide_True by done.
  erewrite mbind_ok by reflexivity. erewrite mbind_ok by reflexivity. rewrite in_tx_live.
  set (id := uuid n). set (now := clock (S n)). unfold default_name. rewrite decide_False by done.
  set (args' := default (default "" (Args j)) (jsonb_in (default "[]" (Args j)))).
  set (max := if decide (RetryMax j = 0) then 10 else RetryMax j).
  assert (named_job id now (Queue j) j = mkJob id (Name j) (Some (default "[]" (Args j))) (Queue j) max
    (Timeout j) (IdempotencyKey j) now (Result j)) as ->.
  { unfold named_job, max. destruct j as [? ? [] ? ? ? ? ? ?]; simpl; by case_decide. }
  cbn [ID Name Args Queue RetryMax Timeout default].
  assert (jsonb_in (default "[]" (Args j)) = Some args') as Hargs.
  { unfold args'. destruct (Args j) as [a|]; simpl; [destruct Ha as [t ->]; done|].
    by rewrite jsonb_in_array. }
  assert (int4_ok max = true) as Hmax by (unfold max; by case_decide).
  assert (t_jobs (tables (pool s)) !! id = None) as Hnew by (by apply (pi_fresh _ _ HI)).
  assert (text_ok StateEnqueued) as Hst by (by apply text_in_plain).
  destruct (tx_step server_clock _ _ _ _ _ _ _ _ (S (S (S n))) _ "enqueue insert job"
    (tx_at_begun (server_clock (S (S n))) s)
    (insert_job_does id (Name j) _ args' (Queue j) StateEnqueued max (timeoutMS (Timeout j)) now _ _
      (uuid_valid n) Hn Hqt Hst Hargs Hmax Hnew)) as (s1 & now1 & H1 & Ht1). rewrite H1.
  destruct (tx_step server_clock _ _ _ _ _ _ _ _ (S (S (S (S n)))) s1 "enqueue insert state" Ht1
    (insert_state_does id StateEnqueued None None "{}" now _ _ (uuid_valid n) Hst eq_refl jsonb_in_object
      (job_written _ _ _))) as (s2 & now2 & H2 & Ht2). rewrite H2.
  destruct (bump_does _ _ _ _ (S (S (S (S (S n))))) s2 "enqueued" 1 (text_in_plain "enqueued" eq_refl) Ht2)
    as (s3 & V & H3 & Ht3 & [HJ HS HC HO]). erewrite mbind_ok by exact H3.
  destruct (Commit_does server_clock _ _ _ _ (S (S (S (S (S (S n)))))) s3 Ht3) as (s4 & H4 & Hs4).
  erewrite mbind_ok by (apply wrap_err_ok; exact H4). unfold mret. rewrite Hs4.
  set (x := mkStateRow (next_state (seqs (pool s))) id StateEnqueued None "{}" (ts now)).
  set (r := mkJobRow id (next_token (seqs (pool s))) (Name j) args' (Queue j) StateEnqueued max
    (timeoutMS (Timeout j)) None (ts now) (ts now) None None).
  match goal with |- context [(_, ?st, Ok _)] => set (s' := st) end.
  do 3 eexists. exists (scanJobFromRow r), (scan_state x). split; [reflexivity|].
  enough (pg_inv (S (S (S (S (S (S (S n))))))) s' /\ only_job id (mkJobWithStates (scanJobFromRow r) [scan_state x]) s s')
    as [HI' Ho].
  { split_and!; [exact HI'|unfold view_job; by rewrite Hnew|exact Ho|done..]. }
  apply (pg_create clock_mono n _ s s' id r x now);
    first [done | exact (uuid_valid n) | exact HJ | exact HS | exact HC | exact HO | lia | idtac].
  - split; apply (clock_le clock_mono); lia.
  - intros m Hmk Heq. apply (inj uuid) in Heq. lia.
Qed.

#[local, refine] Instance pg_StorageSpec : StorageSpec Storage := {
  spec_inv := pg_inv;
  spec_live ctx := ctx = Live;
  spec_result_ok := result_ok;
  spec_text_ok := text_ok;
  spec_job_ok := job_ok;
  spec_ids id := uuid_in id = Some id;
  spec_result := stored_result;
  spec_args := stored_args;
  spec_timeout := stored_timeout;
  spec_state := stored_state
}.
Proof.
  - done.
  - intros t. apply text_in_plain.
  - done.
  - intros n s. apply (pg_inv_le clock_mono). lia.
  - intros n s id jw HI Hv. destruct (view_row _ _ _ Hv) as [r Hr].
    destruct (pg_current n s id jw r HI Hv Hr) as (_ & Hid & ->).
    destruct (pi_job _ _ HI _ _ Hr) as (H1 & H2 & H3 & H4). split_and!; [exact H1| |done].
    simpl. unfold history. intros Hn. by apply fmap_nil_inv in Hn.
  - intros ctx id n s -> HI Hid. destruct (pg_GetJob id n s HI Hid) as (n' & Hle & Hr). eexists n', _. split; [exact Hr|].
    split; [by apply (pg_inv_le clock_mono n)|]. simpl. destruct (view_job _ _); eauto.
  - intros ctx id e name reason data jw n s -> HI Hv Hn Hr Hd. by apply pg_ApplyState.
  - intros ctx id at_ jw n s -> HI Hv Hc. by apply pg_ScheduleRetry.
  - intros ctx id r jw n s -> HI Hv Hr. by apply pg_SetJobResult.
  - intros ctx q j n s -> HI Hj Hq Hjq Hok. by apply pg_Enqueue.
  - intros ctx p n s -> HI Hp. by apply pg_GetContinuations.
Defined.
End Laws.
