(* ===== verification/PgIsolation.v ===== *)
(** * Transactions among other sessions

    What the locks of a transaction keep in place, and the invariant of the tables that
    every operation of the backend keeps whatever fails and whatever the other sessions
    commit in between. *)
From S2P Require Import Prelude.
From S2P Require Import GoTime.
From S2P Require Import Job.
From S2P Require Import StorageI.
From S2P Require Import PgServer.
From S2P Require Import PgSql.
From S2P Require Import Postgres.

(** ** Writes over tables that change *)
Definition is_row (k : lockkey) : Prop := match k with KIdem _ => False | _ => True end.

Lemma apply_write_other k w T : is_row k -> k <> write_key w -> same_at k (apply_write w T) T.
Proof.
  intros Hk Hne. destruct k, w; simpl in *; try done; unfold put_row;
    rewrite lookup_partial_alter_ne; congruence.
Qed.

Lemma apply_write_same k w T T' :
  is_row k -> same_at k T T' \/ k = write_key w -> same_at k (apply_write w T) (apply_write w T').
Proof.
  intros Hk Hs. destruct (decide (k = write_key w)) as [->|Hne].
  - destruct w; simpl; unfold put_row; by rewrite !lookup_partial_alter_eq.
  - destruct Hs as [Hs|]; [|done].
    destruct k, w; simpl in *; try done; unfold put_row; rewrite ?lookup_partial_alter_ne by congruence; done.
Qed.

Lemma apply_writes_other k ws T : is_row k -> k ∉ write_key <$> ws -> same_at k (apply_writes ws T) T.
Proof.
  intros Hk. revert T. induction ws as [|w ws IH]; intros T Hn; [by destruct k|].
  apply not_elem_of_cons in Hn as [Hw Hn]. pose proof (IH (apply_write w T) Hn) as H1.
  pose proof (apply_write_other k w T Hk Hw) as H2. change (apply_writes (w :: ws) T) with (apply_writes ws (apply_write w T)).
  destruct k; simpl in *; try done; congruence.
Qed.

Lemma apply_writes_same k ws T T' :
  is_row k -> same_at k T T' \/ k ∈ write_key <$> ws -> same_at k (apply_writes ws T) (apply_writes ws T').
Proof.
  intros Hk. revert T T'. induction ws as [|w ws IH]; intros T T' Hs.
  { destruct Hs as [Hs|Hs]; [done|by apply elem_of_nil in Hs]. }
  apply (IH (apply_write w T) (apply_write w T')).
  destruct (decide (k = write_key w)) as [Heq|Hne]; [left; apply apply_write_same; tauto|].
  destruct Hs as [Hs|Hs]; [left; apply apply_write_same; tauto|].
  apply elem_of_cons in Hs as [|Hs]; [done|by right].
Qed.

(** A row of the view was written by the transaction or is a committed one. *)
Lemma job_of_view ws T id r :
  t_jobs (apply_writes ws T) !! id = Some r ->
  WJob id (Some r) ∈ ws \/ (KJob id ∉ write_key <$> ws /\ t_jobs T !! id = Some r).
Proof.
  revert T. induction ws as [|w ws IH]; intros T Hr; [right; split; [apply not_elem_of_nil|done]|].
  destruct (IH (apply_write w T) Hr) as [Hin|[Hn Hr']]; [left; by right|].
  destruct (decide (KJob id = write_key w)) as [Heq|Hne].
  - destruct w as [id' x| | | | | | |]; simplify_eq/=. unfold put_row in Hr'.
    rewrite lookup_partial_alter_eq in Hr'. left. subst x. by left.
  - right. split; [by apply not_elem_of_cons|]. by rewrite <- (apply_write_other (KJob id) w T I Hne).
Qed.

Lemma state_of_view ws T z x :
  t_states (apply_writes ws T) !! z = Some x ->
  WState z (Some x) ∈ ws \/ (KState z ∉ write_key <$> ws /\ t_states T !! z = Some x).
Proof.
  revert T. induction ws as [|w ws IH]; intros T Hr; [right; split; [apply not_elem_of_nil|done]|].
  destruct (IH (apply_write w T) Hr) as [Hin|[Hn Hr']]; [left; by right|].
  destruct (decide (KState z = write_key w)) as [Heq|Hne].
  - destruct w as [|z' x'| | | | | |]; simplify_eq/=. unfold put_row in Hr'.
    rewrite lookup_partial_alter_eq in Hr'. left. subst x'. by left.
  - right. split; [by apply not_elem_of_cons|]. by rewrite <- (apply_write_other (KState z) w T I Hne).
Qed.

Lemma scheduled_of_view ws T k y :
  t_scheduled (apply_writes ws T) !! k = Some y ->
  WScheduled k (Some y) ∈ ws \/ (KScheduled k ∉ write_key <$> ws /\ t_scheduled T !! k = Some y).
Proof.
  revert T. induction ws as [|w ws IH]; intros T Hr; [right; split; [apply not_elem_of_nil|done]|].
  destruct (IH (apply_write w T) Hr) as [Hin|[Hn Hr']]; [left; by right|].
  destruct (decide (KScheduled k = write_key w)) as [Heq|Hne].
  - destruct w as [| |k' y'| | | | |]; simplify_eq/=. unfold put_row in Hr'.
    rewrite lookup_partial_alter_eq in Hr'. left. subst y'. by left.
  - right. split; [by apply not_elem_of_cons|]. by rewrite <- (apply_write_other (KScheduled k) w T I Hne).
Qed.

Lemma conts_of_view ws T : (forall k c, WCont k c ∉ ws) -> t_conts (apply_writes ws T) = t_conts T.
Proof.
  revert T. induction ws as [|w ws IH]; intros T Hn; [done|].
  change (t_conts (apply_writes ws (apply_write w T)) = t_conts T). rewrite IH.
  - destruct w as [| | | |k c| | |]; try done. destruct (Hn k c). by left.
  - intros k c Hk. apply (Hn k c). by right.
Qed.

(** ** The invariant of the tables *)
Section Invariant.
Context {PG : Postgres}.

(** The latest entry in the history of job [id] says [name]. *)
Definition newest (T : Tables) (id name : string) : Prop :=
  exists z x, t_states T !! z = Some x /\ sr_job_id x = id /\ sr_name x = name /\
    forall z' x', t_states T !! z' = Some x' -> sr_job_id x' = id -> z' <= z.

(** The constraints of the schema, and the state of each job is the one its history
    ends with; [P] is a job whose history is still to be written by the transaction. *)
Record tables_ok (P : option (string * string)) (T : Tables) (q : Seqs) : Prop := {
  to_job : forall id r, t_jobs T !! id = Some r -> jr_id r = id /\ uuid_in id = Some id;
  to_state : forall z x, t_states T !! z = Some x ->
    sr_id x = z /\ z < next_state q /\ is_Some (t_jobs T !! sr_job_id x);
  to_scheduled : forall k y, t_scheduled T !! k = Some y ->
    sc_id y = k /\ is_Some (t_jobs T !! sc_job_id y);
  to_cont : forall k c, t_conts T !! k = Some c -> cr_id c = k /\ k < next_cont q /\ is_Some (t_jobs T !! cr_parent_id c);
  to_key : forall id id' r r' key, t_jobs T !! id = Some r -> t_jobs T !! id' = Some r' ->
    jr_idempotency_key r = Some key -> jr_idempotency_key r' = Some key -> id = id';
  to_newest : forall id r, t_jobs T !! id = Some r ->
    P = Some (id, jr_state r) \/ newest T id (jr_state r);
  to_pending : forall id st, P = Some (id, st) -> exists r, t_jobs T !! id = Some r /\ jr_state r = st;
}.

Definition db_ok (d : Db) : Prop := tables_ok None (tables d) (seqs d).

Record seqs_le (q q' : Seqs) : Prop := {
  sl_state : next_state q <= next_state q';
  sl_cont : next_cont q <= next_cont q';
}.

(** The other sessions run this program too: they keep the invariant, and write the
    history of a job in transactions that lock the job. *)
Definition polite `{Network} : Prop := forall n L d, db_ok d ->
  db_ok (others_at n L d) /\ seqs_le (seqs d) (seqs (others_at n L d)) /\
  forall id, KJob id ∈ L -> forall z x, sr_job_id x = id ->
    t_states (tables d) !! z = Some x <-> t_states (tables (others_at n L d)) !! z = Some x.

(** What the locks cover of the writes. *)
Record covered (ws : list write) (L : list lockkey) (T : Tables) : Prop := {
  cv_key : forall w, w ∈ ws -> write_key w ∈ L;
  cv_job : forall id r key, WJob id (Some r) ∈ ws -> jr_idempotency_key r = Some key ->
    KIdem key ∈ L \/ exists r0, t_jobs T !! id = Some r0 /\ jr_idempotency_key r0 = Some key;
  cv_state : forall z r, WState z r ∈ ws -> t_states T !! z = None /\
    exists x, r = Some x /\ KJob (sr_job_id x) ∈ L;
  cv_scheduled : forall k y, WScheduled k (Some y) ∈ ws -> KJob (sc_job_id y) ∈ L;
  cv_gone : forall id, WJob id None ∉ ws;
  cv_cont : forall k c, WCont k c ∉ ws;
}.

(** ** A transaction in progress *)
Record tx_live (P : option (string * string)) (K : list string) (d : Db) (ws : list write) (L : list lockkey)
    : Prop := {
  tl_view : tables_ok P (apply_writes ws (tables d)) (seqs d);
  tl_covered : covered ws L (tables d);
  tl_pending : forall id st, P = Some (id, st) -> KJob id ∈ L;
  tl_known : forall id, id ∈ K ->
    (KJob id ∈ L /\ is_Some (t_jobs (apply_writes ws (tables d)) !! id)) \/
    exists k y, KScheduled k ∈ L /\ t_scheduled (tables d) !! k = Some y /\ sc_job_id y = id;
}.

Lemma job_survives ws T id :
  (forall i, WJob i None ∉ ws) -> is_Some (t_jobs T !! id) -> is_Some (t_jobs (apply_writes ws T) !! id).
Proof.
  revert T. induction ws as [|w ws IH]; intros T Hn Hs; [done|]. apply (IH (apply_write w T)).
  - intros i Hi. apply (Hn i). by right.
  - destruct (decide (KJob id = write_key w)) as [Heq|Hne].
    + destruct w as [id' [x|]| | | | | | |]; simplify_eq/=; [apply is_Some_insert|].
      destruct (Hn id'). by left.
    + by rewrite (apply_write_other (KJob id) w T I Hne).
Qed.

Section Stable.
Variables (P : option (string * string)) (K : list string) (d d' : Db) (ws : list write) (L : list lockkey).
Hypothesis Hlive : tx_live P K d ws L.
Hypothesis Hd' : db_ok d'.
Hypothesis Hq : seqs_le (seqs d) (seqs d').
Hypothesis Hlock : forall k, k ∈ L -> same_at k (tables d) (tables d').
Hypothesis Hhist : forall id, KJob id ∈ L -> forall z x, sr_job_id x = id ->
  t_states (tables d) !! z = Some x <-> t_states (tables d') !! z = Some x.

Let V := apply_writes ws (tables d).
Let V' := apply_writes ws (tables d').

Lemma locked_row k : is_row k -> k ∈ L -> same_at k V V'.
Proof. intros Hk Hin. apply apply_writes_same; [done|]. left. by apply Hlock. Qed.

Lemma written_locked k : is_row k -> k ∈ write_key <$> ws -> k ∈ L.
Proof.
  intros Hk Hin. apply list_elem_of_fmap in Hin as (w & -> & Hw). by apply (cv_key _ _ _ (tl_covered _ _ _ _ _ Hlive)).
Qed.

Lemma stable_job id : is_Some (t_jobs (tables d') !! id) -> is_Some (t_jobs V' !! id).
Proof. apply job_survives. apply (cv_gone _ _ _ (tl_covered _ _ _ _ _ Hlive)). Qed.

Lemma stable_state z x : t_states V' !! z = Some x -> KJob (sr_job_id x) ∈ L -> t_states V !! z = Some x.
Proof.
  intros Hx HL. destruct (decide (KState z ∈ write_key <$> ws)) as [Hin|Hn].
  - pose proof (locked_row (KState z) I (written_locked (KState z) I Hin)) as Hs. simpl in Hs. by rewrite Hs.
  - pose proof (apply_writes_other (KState z) ws (tables d) I Hn) as H1.
    pose proof (apply_writes_other (KState z) ws (tables d') I Hn) as H2. simpl in H1, H2.
    unfold V. rewrite H1. unfold V' in Hx. rewrite H2 in Hx. by apply (Hhist _ HL z x eq_refl).
Qed.

Lemma stable_state_back z x : t_states V !! z = Some x -> KJob (sr_job_id x) ∈ L -> t_states V' !! z = Some x.
Proof.
  intros Hx HL. destruct (decide (KState z ∈ write_key <$> ws)) as [Hin|Hn].
  - pose proof (locked_row (KState z) I (written_locked (KState z) I Hin)) as Hs. simpl in Hs. by rewrite <- Hs.
  - pose proof (apply_writes_other (KState z) ws (tables d) I Hn) as H1.
    pose proof (apply_writes_other (KState z) ws (tables d') I Hn) as H2. simpl in H1, H2.
    unfold V'. rewrite H2. unfold V in Hx. rewrite H1 in Hx. by apply (Hhist _ HL z x eq_refl).
Qed.

Lemma stable_newest id r : t_jobs V' !! id = Some r -> P = Some (id, jr_state r) \/ newest V' id (jr_state r).
Proof.
  intros Hr. pose proof (tl_view _ _ _ _ _ Hlive) as Hv. pose proof (tl_covered _ _ _ _ _ Hlive) as Hc.
  destruct (decide (KJob id ∈ L)) as [HL|HL].
  - assert (t_jobs V !! id = Some r) as Hr0 by (pose proof (locked_row (KJob id) I HL) as Hs; simpl in Hs; by rewrite Hs).
    destruct (to_newest _ _ _ Hv id r Hr0) as [|(z & x & Hz & Hx & Hn & Hmax)]; [by left|]. right.
    exists z, x. split_and!; try done.
    + apply stable_state_back; [done|by rewrite Hx].
    + intros z' x' Hz' Hx'. apply (Hmax z' x'); [|done]. apply stable_state; [done|by rewrite Hx'].
  - right. apply job_of_view in Hr as [Hin|[Hn Hr]].
    { destruct HL. apply written_locked; [done|]. apply list_elem_of_fmap. by exists (WJob id (Some r)). }
    destruct (to_newest _ _ _ Hd' id r Hr) as [|(z & x & Hz & Hx & Hnm & Hmax)]; [done|].
    assert (forall z x, WState z x ∈ ws -> t_states (tables d') !! z = None) as Hfresh.
    { intros k y Hk. destruct (cv_state _ _ _ Hc k y Hk) as [Hnone _].
      pose proof (Hlock _ (cv_key _ _ _ Hc _ Hk)) as Hs. simpl in Hs. congruence. }
    exists z, x. split_and!; try done.
    + pose proof (apply_writes_other (KState z) ws (tables d') I) as Ho. simpl in Ho. unfold V'. rewrite Ho; [done|].
      intros Hin. apply list_elem_of_fmap in Hin as (w & Heq & Hw). destruct w as [|k y| | | | | |]; simplify_eq/=.
      rewrite (Hfresh k y Hw) in Hz. done.
    + intros z' x' Hz' Hx'. apply state_of_view in Hz' as [Hin|[_ Hz']]; [|by apply (Hmax z' x')].
      destruct (cv_state _ _ _ Hc _ _ Hin) as [_ (y & [= <-] & HL')]. by rewrite Hx' in HL'.
Qed.

Lemma stable_key id id' r r' key :
  t_jobs V' !! id = Some r -> t_jobs V' !! id' = Some r' ->
  jr_idempotency_key r = Some key -> jr_idempotency_key r' = Some key -> id = id'.
Proof.
  assert (forall id id' r r', WJob id (Some r) ∈ ws -> t_jobs V' !! id = Some r ->
    KJob id' ∉ write_key <$> ws -> t_jobs (tables d') !! id' = Some r' ->
    jr_idempotency_key r = Some key -> jr_idempotency_key r' = Some key -> id = id') as Hmix.
  { clear id id' r r'. intros id id' r r' Hin Hr Hn Hr' Hk Hk'.
    pose proof (cv_key _ _ _ (tl_covered _ _ _ _ _ Hlive) _ Hin) as HL. simpl in HL.
    destruct (cv_job _ _ _ (tl_covered _ _ _ _ _ Hlive) id r key Hin Hk) as [HI|(r0 & Hr0 & Hk0)].
    - assert (has_key key (tables d)) as (id3 & r3 & Hr3 & Hk3).
      { apply (Hlock _ HI). by exists id', r'. }
      destruct (decide (KJob id3 ∈ write_key <$> ws)) as [H3|H3].
      + pose proof (Hlock _ (written_locked (KJob id3) I H3)) as Hs. simpl in Hs.
        rewrite Hs in Hr3. rewrite (to_key _ _ _ Hd' _ _ _ _ _ Hr3 Hr' Hk3 Hk') in H3. done.
      + pose proof (apply_writes_other (KJob id3) ws (tables d) I H3) as Ho. simpl in Ho.
        pose proof (locked_row (KJob id) I HL) as Hs. simpl in Hs.
        assert (id = id3) as ->; [|destruct H3; apply list_elem_of_fmap; by exists (WJob id3 (Some r))].
        apply (to_key _ _ _ (tl_view _ _ _ _ _ Hlive) id id3 r r3 key); try done.
        * fold V. by rewrite Hs.
        * by rewrite Ho.
    - pose proof (Hlock _ HL) as Hs. simpl in Hs. rewrite Hs in Hr0.
      by apply (to_key _ _ _ Hd' id id' r0 r' key). }
  intros Hr Hr' Hk Hk'. pose proof Hr as Hr0. pose proof Hr' as Hr0'.
  apply job_of_view in Hr0 as [Hin|[Hn Hr0]]; apply job_of_view in Hr0' as [Hin'|[Hn' Hr0']].
  - pose proof (locked_row (KJob id) I (cv_key _ _ _ (tl_covered _ _ _ _ _ Hlive) _ Hin)) as Hs.
    pose proof (locked_row (KJob id') I (cv_key _ _ _ (tl_covered _ _ _ _ _ Hlive) _ Hin')) as Hs'. simpl in Hs, Hs'.
    rewrite <- Hs in Hr. rewrite <- Hs' in Hr'. by apply (to_key _ _ _ (tl_view _ _ _ _ _ Hlive) id id' r r' key).
  - by apply (Hmix id id' r r').
  - symmetry. by apply (Hmix id' id r' r).
  - by apply (to_key _ _ _ Hd' id id' r r' key).
Qed.

(** What the locks protect is still so after the others' commits. *)
Lemma tx_live_stable : tx_live P K d' ws L.
Proof.
  pose proof (tl_view _ _ _ _ _ Hlive) as Hv. pose proof (tl_covered _ _ _ _ _ Hlive) as Hc. split; [split|..].
  - intros id r Hr. destruct (decide (KJob id ∈ L)) as [HL|HL].
    + pose proof (locked_row (KJob id) I HL) as Hs. simpl in Hs. apply (to_job _ _ _ Hv). fold V. by rewrite Hs.
    + apply job_of_view in Hr as [Hin|[_ Hr]]; [|by apply (to_job _ _ _ Hd')].
      destruct HL. apply (cv_key _ _ _ Hc _ Hin).
  - intros z x Hz. destruct (state_of_view _ _ _ _ Hz) as [Hin|[_ Hz']].
    + destruct (cv_state _ _ _ Hc _ _ Hin) as [_ (y & [= <-] & HL)].
      destruct (to_state _ _ _ Hv z x (stable_state z x Hz HL)) as (H1 & H2 & H3).
      pose proof (sl_state _ _ Hq). split_and!; [done|lia|].
      pose proof (locked_row (KJob (sr_job_id x)) I HL) as Hs. simpl in Hs. fold V'. by rewrite <- Hs.
    + destruct (to_state _ _ _ Hd' z x Hz') as (H1 & H2 & H3). split_and!; [done|done|by apply stable_job].
  - intros k y Hy. destruct (scheduled_of_view _ _ _ _ Hy) as [Hin|[_ Hy']].
    + pose proof (locked_row (KScheduled k) I (cv_key _ _ _ Hc _ Hin)) as Hs. simpl in Hs. fold V' in Hy. rewrite <- Hs in Hy.
      destruct (to_scheduled _ _ _ Hv k y Hy) as [H1 H2]. split; [done|].
      pose proof (locked_row (KJob (sc_job_id y)) I (cv_scheduled _ _ _ Hc k y Hin)) as Hj. simpl in Hj.
      fold V'. by rewrite <- Hj.
    + destruct (to_scheduled _ _ _ Hd' k y Hy') as [H1 H2]. split; [done|by apply stable_job].
  - intros k c Hk. assert (t_conts V' = t_conts (tables d')) as Heq by (by apply conts_of_view, Hc).
    fold V' in Hk. rewrite Heq in Hk. destruct (to_cont _ _ _ Hd' k c Hk) as (H1 & H2 & H3).
    split_and!; [done|done|by apply stable_job].
  - exact stable_key.
  - exact stable_newest.
  - intros id st HP. destruct (to_pending _ _ _ Hv id st HP) as (r & Hr & Hst). exists r. split; [|done].
    pose proof (locked_row (KJob id) I (tl_pending _ _ _ _ _ Hlive id st HP)) as Hs. simpl in Hs. fold V'. by rewrite <- Hs.
  - split; try apply Hc.
    + intros id r key Hin Hk. destruct (cv_job _ _ _ Hc id r key Hin Hk) as [|(r0 & Hr0 & Hk0)]; [by left|].
      right. exists r0. split; [|done]. pose proof (Hlock _ (cv_key _ _ _ Hc _ Hin)) as Hs. simpl in Hs. by rewrite <- Hs.
    + intros z r Hin. destruct (cv_state _ _ _ Hc z r Hin) as [H1 H2]. split; [|done].
      pose proof (Hlock _ (cv_key _ _ _ Hc _ Hin)) as Hs. simpl in Hs. by rewrite <- Hs.
  - apply Hlive.
  - intros id Hid. destruct (tl_known _ _ _ _ _ Hlive id Hid) as [[H1 H2]|(k & y & H1 & H2 & H3)].
    + left. split; [done|]. pose proof (locked_row (KJob id) I H1) as Hs. simpl in Hs. fold V'. by rewrite <- Hs.
    + right. exists k, y. split_and!; try done. pose proof (Hlock _ H1) as Hs. simpl in Hs. by rewrite <- Hs.
Qed.
End Stable.
End Invariant.
