(* ===== verification/PgInvariant.v ===== *)
(** * The invariant of the Postgres tables, operation by operation

    Each statement keeps the constraints of the schema, and a transaction that commits
    leaves every job in the state its history ends with, among any other sessions that do
    the same. *)
From S2P Require Import Prelude.
From S2P Require Import GoTime.
From S2P Require Import Job.
From S2P Require Import StorageI.
From S2P Require Import PgServer.
From S2P Require Import PgSql.
From S2P Require Import Postgres.
From S2P Require Import PgIsolation.

Lemma seqs_le_refl q : seqs_le q q.
Proof. by split. Qed.

Lemma seqs_le_trans q1 q2 q3 : seqs_le q1 q2 -> seqs_le q2 q3 -> seqs_le q1 q3.
Proof. intros [] []. split; lia. Qed.

#[export] Hint Resolve seqs_le_refl : gfire.

(** Tables that agree on what the invariant looks at. *)
Lemma tables_ok_ext `{Postgres} P T T' q q' :
  t_jobs T' = t_jobs T -> t_states T' = t_states T -> t_scheduled T' = t_scheduled T ->
  t_conts T' = t_conts T -> seqs_le q q' -> tables_ok P T q -> tables_ok P T' q'.
Proof.
  intros HJ HS HC HO [Hq Hq'] [H1 H2 H3 H4 H5 H6 H7].
  split; rewrite ?HJ, ?HS, ?HC, ?HO; try done.
  - intros z x Hz. destruct (H2 z x Hz) as (?&?&?). split_and!; try done. lia.
  - intros k c Hk. destruct (H4 k c Hk) as (?&?&?). split_and!; try done. lia.
  - intros id r Hr. destruct (H6 id r Hr) as [|(z & x & ?)]; [by left|]. right. exists z, x. by rewrite HS.
Qed.

(** What a transaction has established: a job whose history is still to be written, and
    jobs that are there to stay until it ends. *)
Record phase := mkPhase { ph_pending : option (string * string); ph_known : list string }.

Definition idle : phase := mkPhase None [].

(** What the writes and the locks of one statement have to be. *)
Record stmt_fits (f g : phase) (V : Tables) (q : Seqs) (ws : list write) (ls : list lockkey) : Prop := {
  ft_job : forall id r key, WJob id (Some r) ∈ ws -> jr_idempotency_key r = Some key ->
    KIdem key ∈ ls \/ exists r0, t_jobs V !! id = Some r0 /\ jr_idempotency_key r0 = Some key;
  ft_state : forall z r, WState z r ∈ ws -> next_state q <= z /\
    exists x, r = Some x /\ KJob (sr_job_id x) ∈ ls;
  ft_scheduled : forall k y, WScheduled k (Some y) ∈ ws -> KJob (sc_job_id y) ∈ ls;
  ft_gone : forall id, WJob id None ∉ ws;
  ft_cont : forall k c, WCont k c ∉ ws;
  ft_pending : forall id st, ph_pending g = Some (id, st) ->
    ph_pending f = ph_pending g \/ exists r, WJob id r ∈ ws;
  ft_known : forall id, id ∈ ph_known g ->
    id ∈ ph_known f \/ (KJob id ∈ ls /\ is_Some (t_jobs V !! id)) \/
    exists k y, KScheduled k ∈ ls /\ t_scheduled V !! k = Some y /\ sc_job_id y = id;
}.

Lemma stmt_fits_nil f V q ls : stmt_fits f f V q [] ls.
Proof. split; intros; try (by apply not_elem_of_nil); try (exfalso; by eapply not_elem_of_nil); by left. Qed.

Section Sessions.
Context {PG : Postgres} {NW : Network}.
Hypothesis Hpolite : polite.

(** A statement that leads from one phase to another, on tables that satisfy the invariant. *)
Definition stmt_ok {A} (f : phase) (stmt : sql A) (g : A -> phase) : Prop :=
  forall sn q q' r, tables_ok (ph_pending f) (sn_tables sn) q ->
  (forall id, id ∈ ph_known f -> is_Some (t_jobs (sn_tables sn) !! id)) -> stmt sn q = (q', r) ->
  seqs_le q q' /\
  match r with
  | inr _ => True
  | inl (ws, ls, a) => tables_ok (ph_pending (g a)) (apply_writes ws (sn_tables sn)) q' /\
                       stmt_fits f (g a) (sn_tables sn) q ws ls
  end.

Definition live_in (f : phase) (d : Db) (ws : list write) (L : list lockkey) : Prop :=
  tx_live (ph_pending f) (ph_known f) d ws L.

Record sess_ok (f : phase) (s : Session) : Prop := {
  so_db : db_ok (pool (ss_storage s));
  so_live : tx_failed (ss_tx s) = false ->
    live_in f (pool (ss_storage s)) (tx_writes (ss_tx s)) (tx_locks (ss_tx s));
}.

(** The committed tables alone, once the transaction is over. *)
Definition over (s : Session) : Prop := db_ok (pool (ss_storage s)).

(** A part of a transaction: on every outcome the committed tables satisfy the invariant,
    and a value leaves the session with [J]. *)
Definition tx_keeps {A} (I : Session -> Prop) (m : M Session A) (J : A -> Session -> Prop) : Prop :=
  forall n s, I s -> over (st_of (m n s)) /\ forall a, res_of (m n s) = Ok a -> J a (st_of (m n s)).

Lemma db_ok_seqs q d : db_ok d -> seqs_le (seqs d) q -> db_ok (set_seqs q d).
Proof. intros Hd Hq. by apply (tables_ok_ext None (tables d) _ (seqs d)). Qed.

Lemma sess_failed f g s : sess_ok f s -> tx_failed (ss_tx s) = true -> sess_ok g s.
Proof. intros [H1 _] Hf. split; [done|]. rewrite Hf. done. Qed.

Lemma live_known f d ws L :
  live_in f d ws L -> db_ok d -> forall id, id ∈ ph_known f -> is_Some (t_jobs (apply_writes ws (tables d)) !! id).
Proof.
  intros Hl Hd id Hid. destruct (tl_known _ _ _ _ _ Hl id Hid) as [[_ H]|(k & y & _ & Hy & <-)]; [done|].
  apply job_survives; [apply Hl|]. by apply (to_scheduled _ _ _ Hd k y Hy).
Qed.

Section Step.
Variables (f g : phase) (d : Db) (ws ws' : list write) (L ls : list lockkey) (q' : Seqs).
Hypothesis Hl : live_in f d ws L.
Hypothesis Hd : db_ok d.
Hypothesis Ht : tables_ok (ph_pending g) (apply_writes ws' (apply_writes ws (tables d))) q'.
Hypothesis Hf : stmt_fits f g (apply_writes ws (tables d)) (seqs d) ws' ls.

Let L' := L ++ ls ++ (write_key <$> ws').

Lemma step_covered : covered (ws ++ ws') L' (tables d).
Proof.
  pose proof (tl_covered _ _ _ _ _ Hl) as Hc. destruct Hf as [F1 F2 F3 F4 F5 F6 F7]. unfold L'. split.
  - intros w [Hw|Hw]%elem_of_app; [apply elem_of_app; left; by apply Hc|].
    apply elem_of_app. right. apply elem_of_app. right. apply list_elem_of_fmap. eauto.
  - intros id r key [Hw|Hw]%elem_of_app Hkey.
    + destruct (cv_job _ _ _ Hc id r key Hw Hkey); [left; apply elem_of_app; by left|by right].
    + destruct (F1 id r key Hw Hkey) as [Hi|(r0 & Hr0 & Hk0)]; [left; set_solver|].
      apply job_of_view in Hr0 as [Hin|[_ Hr0]]; [|right; eauto].
      destruct (cv_job _ _ _ Hc id r0 key Hin Hk0); [left; apply elem_of_app; by left|by right].
  - intros z r [Hw|Hw]%elem_of_app.
    + destruct (cv_state _ _ _ Hc z r Hw) as [H1 (x & -> & H2)]. split; [done|]. exists x. set_solver.
    + destruct (F2 z r Hw) as [H1 (x & -> & H2)]. split; [|exists x; set_solver].
      destruct (t_states (tables d) !! z) as [y|] eqn:Hy; [|done].
      destruct (to_state _ _ _ Hd z y Hy) as (_ & Hlt & _). lia.
  - intros k y [Hw|Hw]%elem_of_app; [pose proof (cv_scheduled _ _ _ Hc k y Hw)|pose proof (F3 k y Hw)]; set_solver.
  - intros id [Hw|Hw]%elem_of_app; [by apply (cv_gone _ _ _ Hc id)|by apply (F4 id)].
  - intros k c [Hw|Hw]%elem_of_app; [by apply (cv_cont _ _ _ Hc k c)|by apply (F5 k c)].
Qed.

Lemma step_known id : id ∈ ph_known g ->
  (KJob id ∈ L' /\ is_Some (t_jobs (apply_writes ws' (apply_writes ws (tables d))) !! id)) \/
  exists k y, KScheduled k ∈ L' /\ t_scheduled (tables d) !! k = Some y /\ sc_job_id y = id.
Proof.
  intros Hid. pose proof (tl_covered _ _ _ _ _ Hl) as Hc. unfold L'.
  assert (forall i, is_Some (t_jobs (apply_writes ws (tables d)) !! i) ->
    is_Some (t_jobs (apply_writes ws' (apply_writes ws (tables d))) !! i)) as Hup.
  { intros i. apply job_survives, Hf. }
  destruct (ft_known _ _ _ _ _ _ Hf id Hid) as [Hk|[[Hk Hj]|(k & y & Hk & Hy & <-)]].
  - destruct (tl_known _ _ _ _ _ Hl id Hk) as [[H1 H2]|(k & y & H1 & H2 & H3)];
      [left; split; [set_solver|by apply Hup]|right; exists k, y; set_solver].
  - left. split; [set_solver|by apply Hup].
  - destruct (to_scheduled _ _ _ (tl_view _ _ _ _ _ Hl) k y Hy) as [_ Hj].
    apply scheduled_of_view in Hy as [Hin|[_ Hy]]; [|right; exists k, y; set_solver].
    left. pose proof (cv_scheduled _ _ _ Hc k y Hin). split; [set_solver|by apply Hup].
Qed.

(** One more statement. *)
Lemma tx_live_step : live_in g (set_seqs q' d) (ws ++ ws') L'.
Proof.
  split; simpl; rewrite ?apply_writes_app; [done|apply step_covered| |apply step_known].
  intros id st HQ. destruct (ft_pending _ _ _ _ _ _ Hf id st HQ) as [HP|[r Hw]]; unfold L'.
  - apply elem_of_app. left. apply (tl_pending _ _ _ _ _ Hl id st). by rewrite HP.
  - apply elem_of_app. right. apply elem_of_app. right. apply list_elem_of_fmap. by exists (WJob id r).
Qed.
End Step.

(** The tables as a statement of the transaction finds them. *)
Lemma sess_others f n s :
  sess_ok f s -> tx_failed (ss_tx s) = false ->
  let d := others_at n (tx_locks (ss_tx s)) (pool (ss_storage s)) in
  db_ok d /\ live_in f d (tx_writes (ss_tx s)) (tx_locks (ss_tx s)).
Proof.
  intros [Hd Hl] Hf d. destruct (Hpolite n (tx_locks (ss_tx s)) _ Hd) as (H1 & H2 & H3). split; [done|].
  eapply tx_live_stable; [by apply Hl|done|done| |done].
  intros k Hk. by apply others_locked.
Qed.

(** A statement of the transaction; when it fails the transaction is lost. *)
Lemma tx_exec_outcome {A} ctx f (stmt : sql A) g n s :
  stmt_ok f stmt g -> sess_ok f s ->
  match res_of (tx_exec ctx stmt n s) with
  | Ok a => sess_ok (g a) (st_of (tx_exec ctx stmt n s))
  | Err _ => forall h, sess_ok h (st_of (tx_exec ctx stmt n s))
  | _ => False
  end.
Proof.
  intros Hs HI. pose proof HI as [Hd _].
  assert (forall d, db_ok d ->
    forall h, sess_ok h (mkSession (set_pool d (ss_storage s)) (tx_abort (ss_tx s)))) as Hlost by done.
  assert (forall h, sess_ok h (mkSession (ss_storage s) (tx_abort (ss_tx s)))) as Hfail by done.
  unfold tx_exec. destruct ctx; [|exact Hfail].
  destruct (tx_failed (ss_tx s)) eqn:Hf; [exact Hfail|]. destruct (fault_at n) as [[b err]|]; [exact Hfail|].
  destruct (sess_others f n s HI Hf) as [Hd' Hl']. set (d := others_at n _ _) in *.
  pose proof (Hs (mkSnapshot n (tx_now (ss_tx s)) (skip_at n) (apply_writes (tx_writes (ss_tx s)) (tables d))) (seqs d)) as Hst.
  destruct (stmt _ (seqs d)) as [q' r].
  destruct (Hst q' r) as [Hq Hr]; [apply Hl'|exact (live_known _ _ _ _ Hl' Hd')|done|].
  destruct r as [[[ws ls] a]|msg]; simpl.
  - destruct Hr as [Ht Hft]. split; simpl; [by apply db_ok_seqs|]. intros _. by eapply tx_live_step.
  - apply Hlost. by apply db_ok_seqs.
Qed.

Lemma tx_exec_keeps {A} ctx f (stmt : sql A) g :
  stmt_ok f stmt g -> tx_keeps (sess_ok f) (tx_exec ctx stmt) (fun a => sess_ok (g a)).
Proof.
  intros Hs n s HI. pose proof (tx_exec_outcome ctx f stmt g n s Hs HI) as Ho.
  destruct (res_of (tx_exec ctx stmt n s)) as [a|e| |] eqn:Hr; try done.
  - split; [apply Ho|]. by intros ? [= <-].
  - split; [apply (Ho idle)|done].
Qed.

Lemma Commit_keeps ctx f : ph_pending f = None -> tx_keeps (sess_ok f) (Commit ctx) (fun _ => over).
Proof.
  intros Hp n s HI. pose proof HI as [Hd _]. unfold Commit, over. destruct ctx; [|done].
  destruct (tx_failed (ss_tx s)) eqn:Hf; [done|]. destruct (sess_others f n s HI Hf) as [Hd' Hl'].
  assert (db_ok (set_tables (apply_writes (tx_writes (ss_tx s))
    (tables (others_at n (tx_locks (ss_tx s)) (pool (ss_storage s))))) (others_at n (tx_locks (ss_tx s)) (pool (ss_storage s)))))
    as Hdone by (unfold db_ok; rewrite <- Hp; apply Hl').
  destruct (fault_at n) as [[[] err]|]; simpl; done.
Qed.
End Sessions.
