(* ===== verification/PgStatements.v ===== *)
(** * The statements of the Postgres backend keep the invariant of the tables

    For each statement of [PgSql]: the phase of the transaction it leads to ([stmt_ok]), or
    that it keeps the invariant as a transaction of its own ([stmt_keeps]). *)
From S2P Require Import Prelude.
From S2P Require Import GoTime.
From S2P Require Import Job.
From S2P Require Import StorageI.
From S2P Require Import PgServer.
From S2P Require Import PgSql.
From S2P Require Import PgIsolation.
From S2P Require Import PgInvariant.

Section Statements.
Context {PG : Postgres}.

(** A statement on its own. *)
Definition stmt_keeps {A} (stmt : sql A) : Prop :=
  forall sn q q' r, tables_ok None (sn_tables sn) q -> stmt sn q = (q', r) ->
  seqs_le q q' /\
  match r with
  | inr _ => True
  | inl (ws, _, _) => tables_ok None (apply_writes ws (sn_tables sn)) q'
  end.

Lemma stmt_ok_keeps {A} (stmt : sql A) g :
  stmt_ok idle stmt g -> (forall a, ph_pending (g a) = None) -> stmt_keeps stmt.
Proof.
  intros Hs Hg sn q q' r Ht Hr. destruct (Hs sn q q' r Ht) as [Hq H]; [|done|].
  - intros id Hid. by apply elem_of_nil in Hid.
  - split; [done|]. destruct r as [[[ws ls] a]|]; [|done]. rewrite <- (Hg a). apply H.
Qed.

(** ** Statements that do not touch the tables of jobs *)
Definition aside_write (w : write) : Prop :=
  match w with
  | WRecurring _ _ | WServer _ _ | WCounter _ _ | WLock _ _ => True
  | _ => False
  end.

Definition aside {A} (stmt : sql A) : Prop := forall sn q, exists r, stmt sn q = (q, r) /\
  match r with inl (ws, _, _) => Forall aside_write ws | inr _ => True end.

Ltac one_aside := intros sn q; eexists; split; [reflexivity|by constructor].

Lemma aside_ret {A} (a : A) : aside (sql_ret a).
Proof. one_aside. Qed.
Lemma aside_fail {A} msg : aside (A := A) (sql_fail msg).
Proof. one_aside. Qed.
Lemma aside_bind {A B} (m : sql A) (k : A -> sql B) : aside m -> (forall a, aside (k a)) -> aside (sql_bind m k).
Proof.
  intros Hm Hk sn q. destruct (Hm sn q) as (r & Hr & Hw). unfold sql_bind. rewrite Hr.
  destruct r as [[[ws ls] a]|msg]; [|eexists; split; [reflexivity|done]].
  destruct (Hk a sn q) as (r & Hr' & Hw'). rewrite Hr'.
  destruct r as [[[ws' ls'] b]|msg]; [|eexists; split; [reflexivity|done]]. eexists. split; [reflexivity|]. by apply Forall_app.
Qed.
Lemma aside_tables : aside sql_tables.
Proof. one_aside. Qed.
Lemma aside_now : aside sql_now.
Proof. one_aside. Qed.
Lemma aside_skip : aside sql_skip.
Proof. one_aside. Qed.
Lemma aside_takes ls : aside (takes ls).
Proof. one_aside. Qed.
Lemma aside_scan {K R} `{Countable K} (t : Tables -> gmap K R) : aside (scan t).
Proof. one_aside. Qed.
Lemma aside_scan_keys {K R} `{Countable K} (t : Tables -> gmap K R) : aside (scan_keys t).
Proof. one_aside. Qed.
Lemma aside_emit w : aside_write w -> aside (emit w).
Proof. intros Hw sn q. eexists. split; [reflexivity|]. by repeat constructor. Qed.

Create HintDb aside.
#[local] Hint Resolve aside_ret aside_fail aside_bind aside_tables aside_now aside_skip aside_takes
  aside_scan aside_scan_keys aside_emit I : aside.
#[local] Hint Extern 2 (aside (if ?b then _ else _)) => destruct b : aside.
#[local] Hint Extern 2 (aside (match ?b with _ => _ end)) => destruct b : aside.
#[local] Hint Extern 3 (aside_write _) => exact I : aside.

Ltac is_aside := intros; cbv zeta; unfold page, as_uuid, as_jsonb, as_text, as_texts, as_int4, sql_check;
  auto 30 with aside.

Lemma tables_ok_aside P ws T q : Forall aside_write ws -> tables_ok P T q -> tables_ok P (apply_writes ws T) q.
Proof.
  intros Hw. revert T. induction Hw as [|w ws Hw Hws IH]; intros T Ht; [done|]. apply (IH (apply_write w T)).
  apply (tables_ok_ext P T _ q q); [by destruct w..|apply seqs_le_refl|done].
Qed.

Lemma aside_ok {A} f (stmt : sql A) : aside stmt -> stmt_ok f stmt (fun _ => f).
Proof.
  intros Ha sn q q' r Ht _ Hr. destruct (Ha sn q) as (r' & Hr' & Hw). rewrite Hr in Hr'. simplify_eq.
  split; [apply seqs_le_refl|]. destruct r' as [[[ws ls] a]|]; [|done]. split; [by apply tables_ok_aside|].
  rewrite Forall_forall in Hw. split; intros.
  - by destruct (Hw _ H).
  - by destruct (Hw _ H).
  - by destruct (Hw _ H).
  - intros Hin. by destruct (Hw _ Hin).
  - intros Hin. by destruct (Hw _ Hin).
  - by left.
  - by left.
Qed.

Lemma aside_keeps {A} (stmt : sql A) : aside stmt -> stmt_keeps stmt.
Proof. intros Ha. by eapply stmt_ok_keeps; [apply aside_ok|]. Qed.

Lemma select_job_aside id : aside (select_job id).
Proof. unfold select_job. is_aside. Qed.
Lemma select_state_aside id : aside (select_state id).
Proof. unfold select_state. pose proof (select_job_aside id). is_aside. Qed.
Lemma select_by_key_aside key : aside (select_by_key key).
Proof. unfold select_by_key. is_aside. Qed.
Lemma select_next_aside state queues : aside (select_next state queues).
Proof. unfold select_next. is_aside. Qed.
Lemma select_stale_aside state cutoff : aside (select_stale state cutoff).
Proof. unfold select_stale. is_aside. Qed.
Lemma select_page_aside state offset limit : aside (select_page state offset limit).
Proof. unfold select_page. is_aside. Qed.
Lemma count_queue_aside queue state : aside (count_queue queue state).
Proof. unfold count_queue. is_aside. Qed.
Lemma select_queues_aside : aside select_queues.
Proof. unfold select_queues. is_aside. Qed.
Lemma select_states_aside id : aside (select_states id).
Proof. unfold select_states. is_aside. Qed.
Lemma select_due_aside now limit : aside (select_due now limit).
Proof. unfold select_due. is_aside. Qed.
Lemma upsert_recurring_aside e : aside (upsert_recurring e).
Proof. unfold upsert_recurring. is_aside. Qed.
Lemma delete_recurring_aside id : aside (delete_recurring id).
Proof. unfold delete_recurring. is_aside. Qed.
Lemma select_recurring_aside : aside select_recurring.
Proof. unfold select_recurring. is_aside. Qed.
Lemma update_last_run_aside id last next now : aside (update_last_run id last next now).
Proof. unfold update_last_run. is_aside. Qed.
Lemma select_conts_aside id : aside (select_conts id).
Proof. unfold select_conts. is_aside. Qed.
Lemma add_counter_aside key delta : aside (add_counter key delta).
Proof. unfold add_counter. is_aside. Qed.
Lemma select_counter_aside key : aside (select_counter key).
Proof. unfold select_counter. is_aside. Qed.
Lemma select_counters_aside skip limit : aside (select_counters skip limit).
Proof. unfold select_counters. is_aside. Qed.
Lemma delete_lock_aside resource owner : aside (delete_lock resource owner).
Proof. unfold delete_lock. is_aside. Qed.
Lemma delete_expired_lock_aside resource : aside (delete_expired_lock resource).
Proof. unfold delete_expired_lock. is_aside. Qed.
Lemma insert_lock_aside resource owner expires : aside (insert_lock resource owner expires).
Proof. unfold insert_lock. is_aside. Qed.
Lemma upsert_server_aside sv : aside (upsert_server sv).
Proof. unfold upsert_server. is_aside. Qed.
Lemma delete_server_aside id : aside (delete_server id).
Proof. unfold delete_server. is_aside. Qed.
Lemma touch_server_aside id status now : aside (touch_server id status now).
Proof. unfold touch_server. is_aside. Qed.
Lemma select_servers_aside : aside select_servers.
Proof. unfold select_servers. is_aside. Qed.
End Statements.

#[export] Hint Resolve select_job_aside select_state_aside select_by_key_aside select_next_aside
  select_stale_aside select_page_aside count_queue_aside select_queues_aside select_states_aside
  upsert_recurring_aside delete_recurring_aside select_recurring_aside update_last_run_aside
  select_conts_aside add_counter_aside select_counter_aside select_counters_aside delete_lock_aside
  delete_expired_lock_aside insert_lock_aside upsert_server_aside delete_server_aside
  touch_server_aside select_servers_aside : aside.

(** ** Statements on the tables of jobs *)

(** Run a statement to each of its outcomes. *)
Ltac sql_run := repeat (progress (unfold sql_bind, sql_ret, sql_fail, sql_check, emit, takes, sql_tables,
    as_uuid, as_text, as_texts, as_jsonb, as_int4 in *; simpl in *; simplify_eq)
  || (case_match; simplify_eq/=; try done)).

Ltac no_write := intros; match goal with |- _ ∉ _ => set_solver | H : _ ∈ _ |- _ => set_solver end.

Section Jobs.
Context {PG : Postgres}.

Definition pending (jobID state : string) : option (string * string) := (fun id => (id, state)) <$> uuid_in jobID.

(** A row of jobs written anew, with the same identifier and key. *)
Lemma tables_put_job P Q T q id r r' :
  tables_ok P T q -> t_jobs T !! id = Some r -> jr_id r' = jr_id r ->
  jr_idempotency_key r' = jr_idempotency_key r ->
  (P = Q /\ jr_state r' = jr_state r /\ P = None) \/ (P = None /\ Q = Some (id, jr_state r')) ->
  tables_ok Q (apply_write (WJob id (Some r')) T) q.
Proof.
  intros Ht Hr Hid Hkey HPQ.
  assert (forall j w, <[id := r']> (t_jobs T) !! j = Some w -> exists w0,
    t_jobs T !! j = Some w0 /\ jr_id w = jr_id w0 /\ jr_idempotency_key w = jr_idempotency_key w0) as Hold.
  { intros j w. rewrite lookup_insert. case_decide; [intros [= <-]; subst|]; eauto. }
  assert (forall j, is_Some (t_jobs T !! j) -> is_Some (<[id := r']> (t_jobs T) !! j)) as Hup.
  { intros j Hj. rewrite lookup_insert. case_decide; eauto. }
  split; simpl; rewrite ?put_row_insert.
  - intros j w (w0 & H0 & H1 & _)%Hold. rewrite H1. by apply (to_job _ _ _ Ht).
  - intros z x Hz. destruct (to_state _ _ _ Ht z x Hz) as (?&?&?). split_and!; try done. by apply Hup.
  - intros k y Hy. destruct (to_scheduled _ _ _ Ht k y Hy) as (?&?). split; [done|by apply Hup].
  - intros k c Hc. destruct (to_cont _ _ _ Ht k c Hc) as (?&?&?). split_and!; try done. by apply Hup.
  - intros j j' w w' key (w0 & H0 & _ & H1)%Hold (w0' & H0' & _ & H1')%Hold. rewrite H1, H1'.
    by apply (to_key _ _ _ Ht).
  - intros j w. rewrite lookup_insert. case_decide as Hj.
    + intros [= <-]. subst j. destruct HPQ as [(-> & Hst & ->)|(-> & ->)]; [|by left]. rewrite Hst.
      exact (to_newest _ _ _ Ht id r Hr).
    + intros Hw. destruct HPQ as [(-> & _ & ->)|(-> & ->)]; destruct (to_newest _ _ _ Ht j w Hw) as [|]; try done; by right.
  - intros j st HQ. destruct HPQ as [(-> & _ & ->)|(-> & ->)]; simplify_eq.
    exists r'. by rewrite lookup_insert_eq.
Qed.

Lemma fits_put_job f g V q id r r' ls :
  t_jobs V !! id = Some r -> jr_idempotency_key r' = jr_idempotency_key r ->
  (forall i, i ∈ ph_known g -> i ∈ ph_known f) ->
  (forall i st, ph_pending g = Some (i, st) -> ph_pending f = ph_pending g \/ i = id) ->
  stmt_fits f g V q [WJob id (Some r')] ls.
Proof.
  intros Hr Hkey Hk Hp. split; try no_write.
  - intros i x key Hin%list_elem_of_singleton Hx. simplify_eq. right. exists r. split; [done|congruence].
  - intros i st Hst. destruct (Hp i st Hst) as [?| ->]; [by left|]. right. exists (Some r'). by left.
Qed.

Lemma update_job_run jobID set sn q :
  update_job jobID set sn q
  = match uuid_in jobID with
    | None => (q, inr "invalid input syntax for type uuid")
    | Some id => match t_jobs (sn_tables sn) !! id with
                 | None => (q, inl ([], [], 0))
                 | Some r => (q, inl ([WJob id (Some (set r))], [], 1))
                 end
    end.
Proof. unfold update_job, as_uuid. destruct (uuid_in jobID); [|done]. sql_run. Qed.

(** An update that leaves the states alone. *)
Lemma update_job_keeps jobID set :
  (forall r, jr_id (set r) = jr_id r /\ jr_idempotency_key (set r) = jr_idempotency_key r /\
             jr_state (set r) = jr_state r) ->
  stmt_ok idle (update_job jobID set) (fun _ => idle).
Proof.
  intros Hset sn q q' r Ht _ Hr. rewrite update_job_run in Hr.
  destruct (uuid_in jobID) as [id|]; [|by simplify_eq]. destruct (t_jobs (sn_tables sn) !! id) as [w|] eqn:Hw; simplify_eq.
  - destruct (Hset w) as (H1 & H2 & H3). split; [done|]. split; [|by eapply fits_put_job; eauto].
    eapply tables_put_job; eauto.
  - split; [done|]. split; [done|apply stmt_fits_nil].
Qed.

(** An update of the state: the history has to follow. *)
Lemma update_job_state_ok jobID state progress now K :
  stmt_ok (mkPhase None K) (update_job_state jobID state progress now)
    (fun n => mkPhase (if n =? 0 then None else pending jobID state) K).
Proof.
  intros sn q q' r Ht _ Hr. unfold update_job_state, as_text, sql_bind, sql_check in Hr.
  destruct (text_in state); simpl in Hr; [|by simplify_eq]. rewrite update_job_run in Hr. unfold pending.
  destruct (uuid_in jobID) as [id|]; [|by simplify_eq]. destruct (t_jobs (sn_tables sn) !! id) as [w|] eqn:Hw; simplify_eq.
  - split; [done|]. split; [eapply tables_put_job; eauto|]. eapply fits_put_job; eauto.
    simpl. intros i st [= <- <-]. by right.
  - split; [done|]. split; [done|apply stmt_fits_nil].
Qed.

(** The identifier is that of a job among [K], in canonical form or not. *)
Definition names (jobID : string) (K : list string) : Prop :=
  jobID ∈ K \/ forall id, uuid_in jobID = Some id -> id ∈ K.

Lemma update_known_ok jobID state progress now K :
  names jobID K ->
  stmt_ok (mkPhase None K) (update_job_state jobID state progress now)
    (fun _ => mkPhase (pending jobID state) K).
Proof.
  intros HK sn q q' r Ht Hex Hr. pose proof (update_job_state_ok jobID state progress now K sn q q' r Ht Hex Hr) as [Hq H].
  split; [done|]. destruct r as [[[ws ls] a]|]; [|done].
  unfold update_job_state, as_text, sql_bind, sql_check in Hr.
  destruct (text_in state); simpl in Hr; [|done]. rewrite update_job_run in Hr.
  destruct (uuid_in jobID) as [id|] eqn:Hid; [|done].
  assert (is_Some (t_jobs (sn_tables sn) !! id)) as [w Hw].
  { destruct HK as [HK|HK]; [|by apply Hex, HK]. destruct (Hex jobID HK) as [w Hw].
    destruct (to_job _ _ _ Ht _ _ Hw) as [_ Hc]. simplify_eq. eauto. }
  rewrite Hw in Hr. by simplify_eq.
Qed.

(** The entry of the history that was pending. *)
Lemma tables_put_state T q id st reason data at_ :
  tables_ok (Some (id, st)) T q ->
  tables_ok None
    (apply_write (WState (next_state q) (Some (mkStateRow (next_state q) id st reason data at_))) T)
    (mkSeqs (next_token q) (next_state q + 1) (next_cont q)).
Proof.
  intros Ht. destruct (to_pending _ _ _ Ht id st eq_refl) as (w & Hw & Hst).
  assert (forall z x, t_states T !! z = Some x -> z < next_state q) as Hlt by (intros; by eapply to_state).
  split; simpl; rewrite ?put_row_insert; try apply Ht; try done.
  - intros z x. rewrite lookup_insert. case_decide as Hz; [intros [= <-]; subst; split_and!; simpl; eauto; lia|].
    intros Hx. destruct (to_state _ _ _ Ht z x Hx) as (?&?&?). split_and!; try done. lia.
  - intros i r Hr. right. destruct (decide (i = id)) as [->|Hne].
    + rewrite Hw in Hr. simplify_eq. eexists (next_state q), _. simpl. rewrite lookup_insert_eq.
      split_and!; try done. intros z x. rewrite lookup_insert. case_decide; [intros; lia|].
      intros Hx _. specialize (Hlt z x Hx). lia.
    + destruct (to_newest _ _ _ Ht i r Hr) as [[= ? ?]|(z & x & Hz & Hx & Hn & Hmax)]; [congruence|].
      exists z, x. simpl. split_and!; try done.
      * rewrite lookup_insert_ne; [done|]. specialize (Hlt z x Hz). lia.
      * intros z' x'. rewrite lookup_insert. case_decide; [|apply Hmax]. intros [= <-] He. simpl in He. congruence.
Qed.

Lemma insert_state_ok jobID state reason data now K :
  stmt_ok (mkPhase (pending jobID state) K) (insert_state jobID state reason data now)
    (fun _ => mkPhase None K).
Proof.
  intros sn q q' r Ht _ Hr. unfold insert_state, nextval_state, pending in *.
  destruct (uuid_in jobID) as [id|] eqn:Hid; sql_run; (split; [split; simpl; lia|]); try done.
  split; [by apply tables_put_state|]. split; try no_write; simpl; try done.
Qed.

(** A new row of jobs. *)
Lemma tables_new_job T q q' id r :
  tables_ok None T q -> t_jobs T !! id = None -> jr_id r = id -> uuid_in id = Some id ->
  (forall key i w, jr_idempotency_key r = Some key -> t_jobs T !! i = Some w -> jr_idempotency_key w <> Some key) ->
  seqs_le q q' ->
  tables_ok (Some (id, jr_state r)) (apply_write (WJob id (Some r)) T) q'.
Proof.
  intros Ht Hnew Hid Hu Hkey [Hq1 Hq2].
  assert (forall j, is_Some (t_jobs T !! j) -> is_Some (<[id := r]> (t_jobs T) !! j)) as Hup.
  { intros j Hj. rewrite lookup_insert. case_decide; eauto. }
  split; simpl; rewrite ?put_row_insert.
  - intros j w. rewrite lookup_insert. case_decide; [intros [= <-]; by subst|apply (to_job _ _ _ Ht)].
  - intros z x Hz. destruct (to_state _ _ _ Ht z x Hz) as (?&?&?). split_and!; [done|lia|by apply Hup].
  - intros k y Hy. destruct (to_scheduled _ _ _ Ht k y Hy) as (?&?). split; [done|by apply Hup].
  - intros k c Hc. destruct (to_cont _ _ _ Ht k c Hc) as (?&?&?). split_and!; [done|lia|by apply Hup].
  - intros j j' w w' key. rewrite !lookup_insert. do 2 case_decide; intros; simplify_eq; try done.
    + by destruct (Hkey key j' w').
    + by destruct (Hkey key j w).
    + by eapply (to_key _ _ _ Ht).
  - intros j w. rewrite lookup_insert. case_decide; [intros [= <-]; subst; by left|]. intros Hw. right.
    by destruct (to_newest _ _ _ Ht j w Hw).
  - intros j st [= <- <-]. exists r. by rewrite lookup_insert_eq.
Qed.

Lemma unused_key key (m : gmap string job_row) i w :
  negb (existsb (fun r => bool_decide (jr_idempotency_key r = Some key)) (map_to_list m).*2) = true ->
  m !! i = Some w -> jr_idempotency_key w <> Some key.
Proof.
  intros Hn Hw He. apply negb_true_iff, not_true_iff_false in Hn. destruct Hn. apply existsb_exists. exists w.
  split; [|by apply bool_decide_eq_true]. apply list_elem_of_In, list_elem_of_fmap. exists (i, w).
  split; [done|]. by apply elem_of_map_to_list.
Qed.

Lemma insert_job_ok jobID name args queue state retry_max timeout key now :
  stmt_ok idle (insert_job jobID name args queue state retry_max timeout key now)
    (fun _ => mkPhase (pending jobID state) []).
Proof.
  intros sn q q' r Ht _ Hr. unfold insert_job, nextval_token, pending in *.
  destruct (uuid_in jobID) as [id|] eqn:Hid; sql_run; (split; [by split|]); try done.
  all: rewrite ?app_nil_r in *.
  all: rename select (bool_decide (t_jobs _ !! _ = None) = true) into Hnew; apply bool_decide_eq_true in Hnew.
  all: split; [eapply (tables_new_job _ _ _ _ (mkJobRow _ _ _ _ _ _ _ _ _ _ _ _ _)); try done; simpl|split; try no_write; simpl; try done].
  all: try by eapply uuid_in_idem.
  all: try (intros ? ? [= <- <-]; right; eexists; by left).
  intros k i w [= <-]. by apply unused_key.
Qed.

(** ** Scheduled jobs *)
Lemma insert_scheduled_ok f scheduledID jobID at_ now :
  stmt_ok f (insert_scheduled scheduledID jobID at_ now) (fun _ => f).
Proof.
  intros sn q q' r Ht _ Hr. unfold insert_scheduled in *. sql_run; (split; [done|]); try done.
  rename select (bool_decide (is_Some (t_jobs _ !! _)) = true) into Hj. apply bool_decide_eq_true in Hj.
  split; [|split; try no_write; by left].
  destruct Ht as [H1' H2' H3' H4' H5' H6' H7']. split; simpl; rewrite ?put_row_insert; try done.
  intros k y. rewrite lookup_insert. case_decide; [intros [= <-]; by subst|apply H3'].
Qed.

(** Rows deleted from the table of scheduled jobs. *)
Lemma tables_drop_scheduled P (l : list (string * scheduled_row)) T q :
  tables_ok P T q -> tables_ok P (apply_writes ((fun kv => WScheduled kv.1 None) <$> l) T) q.
Proof.
  revert T. induction l as [|[k y] l IH]; intros T Ht; [done|]. apply (IH (apply_write (WScheduled k None) T)).
  destruct Ht as [H1 H2 H3 H4 H5 H6 H7]. split; simpl; unfold put_row; try done.
  intros k' y' Hy. destruct (decide (k = k')) as [->|Hne]; [by rewrite lookup_partial_alter_eq in Hy|].
  rewrite lookup_partial_alter_ne in Hy by done. by apply H3.
Qed.

Lemma delete_scheduled_ok f jobID : stmt_ok f (delete_scheduled jobID) (fun _ => f).
Proof.
  intros sn q q' r Ht _ Hr. unfold delete_scheduled, emits in *. sql_run; (split; [done|]); try done.
  rewrite app_nil_r. split; [by apply tables_drop_scheduled|].
  split; try (intros; match goal with H : _ ∈ _ <$> _ |- _ => apply list_elem_of_fmap in H as (? & ? & ?); simplify_eq end);
    try by left.
  all: intros ? (? & ? & ?)%list_elem_of_fmap || intros ? ? (? & ? & ?)%list_elem_of_fmap; simplify_eq.
Qed.

(** ** Locks on rows *)
Lemma select_state_for_update_run jobID sn q :
  select_state_for_update jobID sn q
  = match uuid_in jobID with
    | None => (q, inr "invalid input syntax for type uuid")
    | Some id => match t_jobs (sn_tables sn) !! id with
                 | None => (q, inl ([], [], []))
                 | Some r => (q, inl ([], [KJob id], [jr_state r]))
                 end
    end.
Proof.
  unfold select_state_for_update, as_uuid. destruct (uuid_in jobID); [|done].
  unfold sql_bind, sql_ret, sql_tables, takes. simpl. by destruct (t_jobs _ !! _).
Qed.

Lemma select_state_for_update_ok jobID :
  stmt_ok idle (select_state_for_update jobID)
    (fun rows => mkPhase None (match rows with [] => [] | _ => option_list (uuid_in jobID) end)).
Proof.
  intros sn q q' r Ht _ Hr. rewrite select_state_for_update_run in Hr. destruct (uuid_in jobID) as [id|]; [|by simplify_eq].
  destruct (t_jobs (sn_tables sn) !! id) as [w|] eqn:Hw; simplify_eq; (split; [done|]); (split; [done|]);
    [|apply stmt_fits_nil].
  split; try no_write; try by left.
Qed.

Lemma select_next_run state queues sn q : exists r, select_next state queues sn q = (q, r) /\
  match r with
  | inl (ws, ls, ids) => ws = [] /\ exists next, ids = next.*1 /\ ls = (fun r => KJob r.1) <$> next /\
      next = take 1 (filter (fun r => r.1 ∉ sn_skip sn) (merge_sort by_token
        (filter (queued state queues) (row_order (sn_seed sn) (map_to_list (t_jobs (sn_tables sn)))))))
  | inr _ => forallb text_in queues = false
  end.
Proof.
  unfold select_next, scan_keys, sql_skip, as_texts. unfold sql_bind, sql_ret, sql_check, takes.
  destruct (forallb text_in queues); [|by eexists]. simpl. eexists. split; [reflexivity|]. rewrite app_nil_r. eauto.
Qed.

(** The rows it returns are queued ones. *)
Lemma elem_of_next state queues T seed (skip : list string) (id : string) (r : job_row) :
  (id, r) ∈ take 1 (filter (fun r => r.1 ∉ skip) (merge_sort by_token
     (filter (queued state queues) (row_order seed (map_to_list (t_jobs T)))))) ->
  t_jobs T !! id = Some r /\ queued state queues (id, r) /\ id ∉ skip.
Proof.
  intros (k & Hin & _)%elem_of_take. apply list_elem_of_lookup_2, list_elem_of_filter in Hin as [Hs Hin].
  rewrite merge_sort_Permutation in Hin. apply list_elem_of_filter in Hin as [Hq Hin]. rewrite row_order_perm in Hin.
  by apply elem_of_map_to_list in Hin.
Qed.

Lemma select_next_ok state queues :
  stmt_ok idle (select_next state queues) (fun ids => mkPhase None (take 1 ids)).
Proof.
  intros sn q q' r Ht _ Hr. destruct (select_next_run state queues sn q) as (r' & Hr' & Hn). rewrite Hr in Hr'. simplify_eq.
  split; [apply seqs_le_refl|]. destruct r' as [[[ws ls] ids]|]; [|done]. destruct Hn as (-> & next & -> & -> & Hnext).
  split; [done|]. split; try no_write; try by left.
  intros i (k0 & Hi & _)%elem_of_take. right. left. apply list_elem_of_lookup_2, list_elem_of_fmap in Hi as ([j w] & -> & Hw).
  pose proof Hw as Hj. rewrite Hnext in Hj. apply elem_of_next in Hj as (Hj & _). simpl. rewrite Hj. split; [|done].
  apply list_elem_of_fmap. by exists (j, w).
Qed.

Lemma elem_of_page {A} offset limit (l : list A) sn q q' ws ls a :
  page offset limit l sn q = (q', inl (ws, ls, a)) -> ws = [] /\ ls = [] /\ q' = q /\ forall x, x ∈ a -> x ∈ l.
Proof.
  unfold page. intros Hp. sql_run. split_and!; try done.
  intros x Hx%elem_of_take. destruct Hx as (i & Hi & _). rewrite lookup_drop in Hi. by apply list_elem_of_lookup_2 in Hi.
Qed.

Lemma select_due_ok now limit :
  stmt_ok idle (select_due now limit) (fun ids => mkPhase None ids).
Proof.
  intros sn q q' r Ht _ Hr. split.
  { destruct (select_due_aside now limit sn q) as (r' & Hr' & _). rewrite Hr in Hr'. by simplify_eq. }
  unfold select_due, scan, sql_skip in *. unfold sql_bind in Hr. simpl in Hr.
  destruct (page _ _ _ _ _) as [q1 [[[ws ls] due]|msg]] eqn:Hp; simplify_eq/=; [|done].
  apply elem_of_page in Hp as (-> & -> & -> & Hdue). split; [done|]. split; try no_write; try by left.
  intros i (y & -> & Hy)%list_elem_of_fmap. right. right. exists (sc_id y), y.
  specialize (Hdue y Hy). apply list_elem_of_filter in Hdue as [_ Hin]. rewrite merge_sort_Permutation in Hin.
  apply list_elem_of_filter in Hin as [_ Hin]. rewrite row_order_perm in Hin.
  apply list_elem_of_fmap in Hin as ([k z] & -> & Hin). apply elem_of_map_to_list in Hin.
  destruct (to_scheduled _ _ _ Ht k z Hin) as [Hk _]. simpl. rewrite Hk. split_and!; try done.
  apply elem_of_app. left. apply list_elem_of_fmap. exists z. by rewrite Hk.
Qed.

(** ** Statements that are transactions of their own *)
Lemma touch_job_keeps jobID now : stmt_keeps (touch_job jobID now).
Proof. by eapply stmt_ok_keeps; [apply update_job_keeps|]. Qed.

Lemma set_result_keeps jobID result : stmt_keeps (set_result jobID result).
Proof.
  intros sn q q' r Ht Hr. unfold set_result, sql_now in Hr. destruct result as [b|]; sql_run; try done.
  all: match goal with H : update_job ?j ?g ?x ?q = (_, ?o) |- _ =>
    pose proof (stmt_ok_keeps _ _ (update_job_keeps j g ltac:(done)) ltac:(done) x q _ _ Ht H) as [? Hk] end.
  all: done.
Qed.

Lemma insert_cont_keeps parentID e : stmt_keeps (insert_cont parentID e).
Proof.
  intros sn q q' r Ht Hr. unfold insert_cont, nextval_cont in *. sql_run; (split; [split; simpl; lia|]); try done.
  rename select (bool_decide (is_Some (t_jobs _ !! _)) = true) into Hj. apply bool_decide_eq_true in Hj.
  destruct Ht as [H1' H2' H3' H4' H5' H6' H7']. split; simpl; rewrite ?put_row_insert; try done.
  intros k c. rewrite lookup_insert. destruct (decide (_ = k)); [intros; simplify_eq; split_and!; simpl; [done|lia|done]|].
  intros Hc. destruct (H4' k c Hc) as (?&?&?). split_and!; [done|lia|done].
Qed.

(** What a list of deleted rows leaves of a table. *)
Lemma put_rows_none {K R} `{Countable K} (l : list (K * R)) (m : gmap K R) k :
  (k ∈ l.*1 -> fold_left (fun m kv => put_row kv.1 None m) l m !! k = None) /\
  (k ∉ l.*1 -> fold_left (fun m kv => put_row kv.1 None m) l m !! k = m !! k).
Proof.
  revert m. induction l as [|[k' v] l IH]; intros m; [split; [intros Hk; by apply elem_of_nil in Hk|done]|].
  destruct (IH (put_row k' None m)) as [H1 H2]. split; intros Hk; simpl.
  - destruct (decide (k ∈ l.*1)) as [Hin|Hin]; [by apply H1|]. rewrite H2 by done.
    apply elem_of_cons in Hk as [->|]; [apply lookup_partial_alter_eq|done].
  - apply not_elem_of_cons in Hk as [Hne Hin]. rewrite H2 by done. by apply lookup_partial_alter_ne.
Qed.

Lemma drop_filtered {K R} `{Countable K} (P : K * R -> Prop) `{forall kv, Decision (P kv)} (m : gmap K R) k v :
  fold_left (fun m kv => put_row kv.1 None m) (map_to_list (filter P m)) m !! k = Some v <->
  m !! k = Some v /\ ~ P (k, v).
Proof.
  destruct (put_rows_none (map_to_list (filter P m)) m k) as [Hyes Hno].
  destruct (decide (k ∈ (map_to_list (filter P m)).*1)) as [Hin|Hin].
  - rewrite Hyes by done. split; [done|]. intros [Hv HP]. apply list_elem_of_fmap in Hin as ([k' w] & -> & Hin).
    apply elem_of_map_to_list, map_lookup_filter_Some in Hin as [Hw HPw]. simpl in *. by simplify_eq.
  - rewrite Hno by done. split; [|tauto]. intros Hv. split; [done|]. intros HP. destruct Hin. apply list_elem_of_fmap. exists (k, v).
    split; [done|]. by apply elem_of_map_to_list, map_lookup_filter_Some.
Qed.

(** The four deletions of the cascade. *)
Definition drop_states (T : Tables) (m : gmap Z state_row) : Tables :=
  mkTables (t_jobs T) m (t_scheduled T) (t_recurring T) (t_conts T) (t_servers T) (t_counters T) (t_locks T).
Definition drop_scheduled (T : Tables) (m : gmap string scheduled_row) : Tables :=
  mkTables (t_jobs T) (t_states T) m (t_recurring T) (t_conts T) (t_servers T) (t_counters T) (t_locks T).
Definition drop_conts (T : Tables) (m : gmap Z cont_row) : Tables :=
  mkTables (t_jobs T) (t_states T) (t_scheduled T) (t_recurring T) m (t_servers T) (t_counters T) (t_locks T).
Definition drop_jobs (T : Tables) (m : gmap string job_row) : Tables :=
  mkTables m (t_states T) (t_scheduled T) (t_recurring T) (t_conts T) (t_servers T) (t_counters T) (t_locks T).

Ltac drop_rows l T := revert T; induction l as [|kv l IH]; intros T; [by destruct T|];
  apply (eq_trans (IH (apply_write _ T))); done.

Lemma drop_states_writes (l : list (Z * state_row)) T :
  apply_writes ((fun kv => WState kv.1 None) <$> l) T
  = drop_states T (fold_left (fun m kv => put_row kv.1 None m) l (t_states T)).
Proof. drop_rows l T. Qed.
Lemma drop_scheduled_writes (l : list (string * scheduled_row)) T :
  apply_writes ((fun kv => WScheduled kv.1 None) <$> l) T
  = drop_scheduled T (fold_left (fun m kv => put_row kv.1 None m) l (t_scheduled T)).
Proof. drop_rows l T. Qed.
Lemma drop_conts_writes (l : list (Z * cont_row)) T :
  apply_writes ((fun kv => WCont kv.1 None) <$> l) T
  = drop_conts T (fold_left (fun m kv => put_row kv.1 None m) l (t_conts T)).
Proof. drop_rows l T. Qed.
Lemma drop_jobs_writes (l : list (string * job_row)) T :
  apply_writes ((fun kv => WJob kv.1 None) <$> l) T
  = drop_jobs T (fold_left (fun m kv => put_row kv.1 None m) l (t_jobs T)).
Proof. drop_rows l T. Qed.

(** A job that [delete_jobs] takes. *)
Definition expired_row (states : list string) (cutoff : Time) (r : job_row) : Prop :=
  jr_state r ∈ states /\ jr_updated_at r < ts cutoff.

Definition goes (states : list string) (cutoff : Time) (T : Tables) (id : string) : Prop :=
  exists r, t_jobs T !! id = Some r /\ expired_row states cutoff r.

(** The tables without those jobs, and without the rows that refer to them. *)
Record cascade (states : list string) (cutoff : Time) (T T' : Tables) : Prop := {
  cs_jobs : forall id r, t_jobs T' !! id = Some r <-> t_jobs T !! id = Some r /\ ~ expired_row states cutoff r;
  cs_states : forall z x, t_states T' !! z = Some x <->
    t_states T !! z = Some x /\ ~ goes states cutoff T (sr_job_id x);
  cs_scheduled : forall k y, t_scheduled T' !! k = Some y <->
    t_scheduled T !! k = Some y /\ ~ goes states cutoff T (sc_job_id y);
  cs_conts : forall k c, t_conts T' !! k = Some c <->
    t_conts T !! k = Some c /\ ~ goes states cutoff T (cr_parent_id c);
}.

Definition goers (states : list string) (cutoff : Time) (T : Tables) : gmap string job_row :=
  filter (fun kv => jr_state kv.2 ∈ states /\ jr_updated_at kv.2 < ts cutoff) (t_jobs T).

Lemma delete_jobs_run states cutoff sn q : exists ws,
  delete_jobs states cutoff sn q = (q, inl (ws, [], Z.of_nat (size (goers states cutoff (sn_tables sn))))) /\
  cascade states cutoff (sn_tables sn) (apply_writes ws (sn_tables sn)).
Proof.
  destruct sn as [seed now skip T]. unfold delete_jobs, emits. unfold sql_bind, sql_ret. simpl. eexists.
  split; [reflexivity|]. rewrite app_nil_r, !apply_writes_app, drop_states_writes, drop_scheduled_writes,
    drop_conts_writes, drop_jobs_writes.
  set (gone := filter _ (t_jobs T)).
  assert (forall id, is_Some (gone !! id) <-> goes states cutoff T id) as Hgone.
  { intros id. split; [intros [r [Hr He]%map_lookup_filter_Some]; by exists r|].
    intros (r & Hr & He). exists r. by apply map_lookup_filter_Some. }
  split; simpl.
  - intros id r. apply drop_filtered.
  - intros z x. rewrite drop_filtered. by rewrite Hgone.
  - intros k y. rewrite drop_filtered. by rewrite Hgone.
  - intros k c. rewrite drop_filtered. by rewrite Hgone.
Qed.

Lemma cascade_ok states cutoff T T' q : cascade states cutoff T T' -> tables_ok None T q -> tables_ok None T' q.
Proof.
  intros [C1 C2 C3 C4] Ht.
  assert (forall id, is_Some (t_jobs T !! id) -> ~ goes states cutoff T id -> is_Some (t_jobs T' !! id)) as Hstay.
  { intros id [r Hr] Hn. exists r. apply C1. split; [done|]. intros He. apply Hn. by exists r. }
  split.
  - intros id r [Hr _]%C1. by apply (to_job _ _ _ Ht).
  - intros z x [Hz Hn]%C2. destruct (to_state _ _ _ Ht z x Hz) as (?&?&?). split_and!; try done. by apply Hstay.
  - intros k y [Hy Hn]%C3. destruct (to_scheduled _ _ _ Ht k y Hy). split; [done|by apply Hstay].
  - intros k c [Hc Hn]%C4. destruct (to_cont _ _ _ Ht k c Hc) as (?&?&?). split_and!; try done. by apply Hstay.
  - intros id id' r r' key [Hr _]%C1 [Hr' _]%C1. by apply (to_key _ _ _ Ht).
  - intros id r [Hr He]%C1. right. destruct (to_newest _ _ _ Ht id r Hr) as [|(z & x & Hz & Hx & Hn & Hmax)]; [done|].
    exists z, x. split_and!; try done.
    + apply C2. split; [done|]. rewrite Hx. intros (w & Hw & He'). congruence.
    + intros z' x' [Hz' _]%C2. by apply Hmax.
  - done.
Qed.

Lemma delete_jobs_keeps states cutoff : stmt_keeps (delete_jobs states cutoff).
Proof.
  intros sn q q' r Ht Hr. destruct (delete_jobs_run states cutoff sn q) as (ws & Hrun & Hc).
  rewrite Hr in Hrun. simplify_eq. split; [done|]. by eapply cascade_ok.
Qed.

Lemma delete_conts_keeps parentID : stmt_keeps (delete_conts parentID).
Proof.
  intros sn q q' r Ht Hr. unfold delete_conts, emits in Hr. sql_run; (split; [done|]); try done.
  rewrite app_nil_r, drop_conts_writes. destruct Ht as [H1' H2' H3' H4' H5' H6' H7']. split; simpl; try done.
  intros k c [Hc _]%drop_filtered. by apply H4'.
Qed.

Lemma delete_scheduled_keeps jobID : stmt_keeps (delete_scheduled jobID).
Proof. by eapply stmt_ok_keeps; [apply delete_scheduled_ok|]. Qed.
End Jobs.

#[export] Hint Resolve touch_job_keeps set_result_keeps insert_cont_keeps delete_jobs_keeps
  delete_conts_keeps delete_scheduled_keeps : gfire.
