(* ===== verification/PgSafe.v ===== *)
(** * The Postgres tables stay consistent

    Every operation of the backend keeps [db_ok]: wherever the connection breaks, and
    whatever other sessions that keep it too commit between two statements. *)
From S2P Require Import Prelude.
From S2P Require Import GoTime.
From S2P Require Import Job.
From S2P Require Import StorageI.
From S2P Require Import PgServer.
From S2P Require Import PgSql.
From S2P Require Import Postgres.
From S2P Require Import PgIsolation.
From S2P Require Import PgInvariant.
From S2P Require Import PgStatements.

Section Operations.
Context {EV : Env} {PG : Postgres} {NW : Network} {SD : StateData}.
Hypothesis Hpolite : polite.

(** ** Rules *)
Definition consistent (n : nat) (s : Storage) : Prop := db_ok (pool s).

Section Rules.
Context (I : Session -> Prop).
Hypothesis HI : forall s, I s -> over s.

Lemma tx_keeps_ret {A} (a : A) (J : A -> Session -> Prop) : (forall s, I s -> J a s) -> tx_keeps I (mret a) J.
Proof. intros HJ n s Hs. split; [by apply HI|]. intros ? [= <-]. by apply HJ. Qed.

Lemma tx_keeps_throw {A} err (J : A -> Session -> Prop) : tx_keeps I (mthrow err) J.
Proof. intros n s Hs. split; [by apply HI|done]. Qed.

Lemma tx_keeps_now : tx_keeps I time_Now (fun _ => I).
Proof. intros n s Hs. split; [by apply HI|]. by intros ? [= <-]. Qed.

Lemma tx_keeps_get : tx_keeps I mget (fun _ => I).
Proof. intros n s Hs. split; [by apply HI|]. by intros ? [= <-]. Qed.

Lemma tx_keeps_bind {A B} (m : M Session A) (k : A -> M Session B) J Q :
  tx_keeps I m J -> (forall a, tx_keeps (J a) (k a) Q) -> tx_keeps I (mbind m k) Q.
Proof.
  intros Hm Hk n s Hs. specialize (Hm n s Hs). unfold st_of, res_of, mbind in *.
  destruct (m n s) as [[n' s'] [a| | |]]; simpl in *; try (split; [tauto|done]). by apply Hk, Hm.
Qed.

Lemma tx_keeps_wrap {A} text (m : M Session A) J : tx_keeps I m J -> tx_keeps I (wrap_err text m) J.
Proof.
  intros Hm n s Hs. specialize (Hm n s Hs). unfold st_of, res_of, wrap_err in *.
  destruct (m n s) as [[n' s'] [a| | |]]; simpl in *; try done. split; [tauto|done].
Qed.

Lemma tx_keeps_map {A B} (l : list A) (body : A -> M Session B) :
  (forall x, x ∈ l -> tx_keeps I (body x) (fun _ => I)) -> tx_keeps I (mmap l body) (fun _ => I).
Proof.
  induction l as [|x l IH]; intros Hb; simpl; [by apply tx_keeps_ret|].
  eapply tx_keeps_bind; [apply Hb; by left|]. intros y.
  eapply tx_keeps_bind; [apply IH; intros; apply Hb; by right|]. intros ys. by apply tx_keeps_ret.
Qed.
End Rules.

Lemma sess_over f s : sess_ok f s -> over s.
Proof. by intros []. Qed.

(** A row read in the transaction, when its error is inspected. *)
Lemma try_row_keeps {A} ctx f g (stmt : sql (list A)) (h : A -> phase) :
  stmt_ok f stmt g -> (forall r l, g (r :: l) = h r) ->
  tx_keeps (sess_ok f) (mtry (scan_row (tx_exec ctx stmt)))
    (fun r s => match r with inl a => sess_ok (h a) s | inr _ => over s end).
Proof.
  intros Hs Hg n s HI. pose proof (tx_exec_outcome Hpolite ctx f stmt g n s Hs HI) as Ho.
  unfold scan_row, mtry, mbind, st_of, res_of in *. destruct (tx_exec ctx stmt n s) as [[n' s'] [rows|err| |]]; simpl in *; try done.
  - destruct rows as [|r l]; simpl in *; (split; [by eapply sess_over|]); intros ? [= <-]; [by eapply sess_over|].
    by rewrite <- (Hg r l).
  - split; [apply (Ho idle)|]. intros ? [= <-]. apply (Ho idle).
Qed.

(** A statement whose error is ignored. *)
Lemma try_exec_keeps {A} ctx f (stmt : sql A) :
  stmt_ok f stmt (fun _ => f) -> tx_keeps (sess_ok f) (mtry (tx_exec ctx stmt)) (fun _ => sess_ok f).
Proof.
  intros Hs n s HI. pose proof (tx_exec_outcome Hpolite ctx f stmt _ n s Hs HI) as Ho.
  unfold mtry, st_of, res_of in *. destruct (tx_exec ctx stmt n s) as [[n' s'] [a|err| |]]; simpl in *; try done.
  - split; [by eapply sess_over|]. by intros ? [= <-].
  - split; [apply (Ho idle)|]. intros ? [= <-]. apply Ho.
Qed.

Lemma in_tx_consistent {A} text ctx (body : M Session A) :
  tx_keeps (sess_ok idle) body (fun _ => over) -> preserves consistent (in_tx text ctx body).
Proof.
  intros Hb n s Hd. unfold in_tx, consistent in *. destruct ctx; [|done]. destruct (fault_at n) as [[]|]; [done|].
  destruct (Hb (S n) (mkSession s (tx_begun (db_clock n)))) as [Ho _].
  - split; [done|]. intros _. split; simpl; [done| |done|intros id Hid; by apply elem_of_nil in Hid].
    split; intros; solve [by apply not_elem_of_nil|exfalso; by eapply not_elem_of_nil].
  - unfold st_of, tick_of, over in *. by destruct (body _ _) as [[n' s'] r].
Qed.

Lemma pool_exec_consistent {A} ctx (stmt : sql A) : stmt_keeps stmt -> preserves consistent (pool_exec ctx stmt).
Proof.
  intros Hs n s Hd. unfold pool_exec, consistent in *. destruct ctx; [|done].
  destruct (Hpolite n [] _ Hd) as (Hd' & _ & _). set (d := others_at n [] (pool s)) in *.
  pose proof (Hs (mkSnapshot n (db_clock n) (skip_at n) (tables d)) (seqs d)) as Hst.
  destruct (stmt _ (seqs d)) as [q r]. destruct (Hst q r Hd' eq_refl) as [Hq Hr].
  assert (db_ok (set_seqs q d)) as Hfail by by apply db_ok_seqs.
  destruct (fault_at n) as [[[] err]|]; destruct r as [[[ws ls] a]|msg]; simpl; done.
Qed.

(** ** Operations *)
#[local] Hint Resolve sess_over : gfire.
#[local] Opaque tx_exec Commit pool_exec wrap_err time_Now.

(** One step of a transaction. *)
Ltac tx_next lem := eapply tx_keeps_bind; [apply tx_keeps_wrap, (tx_exec_keeps Hpolite); apply lem|].

Lemma bumpCounter_keeps ctx f key delta :
  tx_keeps (sess_ok f) (bumpCounter ctx key delta) (fun _ => sess_ok f).
Proof.
  apply tx_keeps_wrap, (tx_exec_keeps Hpolite _ _ _ (fun _ => f)), aside_ok, add_counter_aside.
Qed.

Lemma bumpCounterForState_keeps ctx f name :
  tx_keeps (sess_ok f) (bumpCounterForState ctx name) (fun _ => sess_ok f).
Proof.
  unfold bumpCounterForState. repeat case_decide; try apply bumpCounter_keeps. apply tx_keeps_ret; eauto with gfire.
Qed.

Lemma finish_keeps {A} ctx K text (a : A) :
  tx_keeps (sess_ok (mkPhase None K)) (wrap_err text (Commit ctx) ;;; mret a) (fun _ => over).
Proof.
  eapply tx_keeps_bind; [by apply tx_keeps_wrap, (Commit_keeps Hpolite)|].
  intros ?. by apply tx_keeps_ret.
Qed.

Lemma check_reversible_keeps ctx jobID :
  tx_keeps (sess_ok idle) (check_reversible ctx jobID) (fun _ => sess_ok idle).
Proof.
  eapply tx_keeps_bind.
  { apply (try_row_keeps ctx idle (fun _ => idle) _ (fun _ => idle)); [apply aside_ok, select_state_aside|done]. }
  intros [current|err]; [case_match; [apply tx_keeps_throw|apply tx_keeps_ret]; eauto with gfire|by apply tx_keeps_throw].
Qed.

Lemma lock_state_keeps text ctx jobID :
  tx_keeps (sess_ok idle) (lock_state text ctx jobID)
    (fun _ => sess_ok (mkPhase None (option_list (uuid_in jobID)))).
Proof.
  eapply tx_keeps_bind; [by apply (try_row_keeps _ _ _ _ (fun _ => mkPhase None (option_list (uuid_in jobID)))
    (select_state_for_update_ok jobID))|].
  intros [current|err]; [apply tx_keeps_ret; eauto with gfire|]. case_match; by apply tx_keeps_throw.
Qed.

(** The state of a job, and then the entry of its history. *)
Lemma updated_keeps {A} ctx jobID state progress text now K (k : Z -> M Session A) J :
  names jobID K ->
  (forall n, tx_keeps (sess_ok (mkPhase (pending jobID state) K)) (k n) J) ->
  tx_keeps (sess_ok (mkPhase None K))
    (x <- wrap_err text (tx_exec ctx (update_job_state jobID state progress now)) ;; k x) J.
Proof. intros HK Hk. tx_next (update_known_ok jobID state progress now K HK). exact Hk. Qed.

Lemma stated_keeps {A} ctx jobID state text reason data now K (k : unit -> M Session A) J :
  tx_keeps (sess_ok (mkPhase None K)) (k tt) J ->
  tx_keeps (sess_ok (mkPhase (pending jobID state) K))
    (x <- wrap_err text (tx_exec ctx (insert_state jobID state reason data now)) ;; k x) J.
Proof. intros Hk. tx_next insert_state_ok. by intros []. Qed.

Lemma inserted_keeps {A} ctx id name args queue state retry_max timeout key text now (k : unit -> M Session A) J :
  tx_keeps (sess_ok (mkPhase (pending id state) [])) (k tt) J ->
  tx_keeps (sess_ok idle)
    (x <- wrap_err text (tx_exec ctx (insert_job id name args queue state retry_max timeout key now)) ;; k x) J.
Proof. intros Hk. tx_next insert_job_ok. by intros []. Qed.

Lemma known_self jobID : names jobID (option_list (uuid_in jobID)).
Proof. right. intros id ->. by left. Qed.

(** The same where the number of rows is inspected. *)
Lemma reversal_keeps {A} ctx jobID state text now (k : M Session A) J :
  tx_keeps (sess_ok (mkPhase (pending jobID state) [])) k J ->
  tx_keeps (sess_ok idle)
    (affected <- wrap_err text (tx_exec ctx (update_job_state jobID state (fun _ => None) now)) ;;
     if affected =? 0 then mthrow ErrNotFound else k) J.
Proof.
  intros Hk. tx_next update_job_state_ok. intros n. cbv beta.
  destruct (n =? 0) eqn:Hn; [apply tx_keeps_throw; eauto with gfire|done].
Qed.

Lemma scheduled_keeps {A} ctx f id jobID at_ now text (k : unit -> M Session A) J :
  tx_keeps (sess_ok f) (k tt) J ->
  tx_keeps (sess_ok f) (x <- wrap_err text (tx_exec ctx (insert_scheduled id jobID at_ now)) ;; k x) J.
Proof. intros Hk. tx_next insert_scheduled_ok. by intros []. Qed.

Lemma unscheduled_keeps {A} ctx f jobID text (k : Z -> M Session A) J :
  (forall n, tx_keeps (sess_ok f) (k n) J) ->
  tx_keeps (sess_ok f) (x <- wrap_err text (tx_exec ctx (delete_scheduled jobID)) ;; k x) J.
Proof. intros Hk. tx_next delete_scheduled_ok. apply Hk. Qed.

Lemma bumped_keeps {A} ctx f key delta (k : unit -> M Session A) J :
  tx_keeps (sess_ok f) (k tt) J -> tx_keeps (sess_ok f) (x <- bumpCounter ctx key delta ;; k x) J.
Proof. intros Hk. eapply tx_keeps_bind; [apply bumpCounter_keeps|]. by intros []. Qed.

Lemma timed_keeps {A} f (k : Time -> M Session A) J :
  (forall now, tx_keeps (sess_ok f) (k now) J) -> tx_keeps (sess_ok f) (now <- time_Now ;; k now) J.
Proof. intros Hk. eapply tx_keeps_bind; [apply tx_keeps_now; eauto with gfire|]. done. Qed.

Lemma committed_keeps ctx K : tx_keeps (sess_ok (mkPhase None K)) (Commit ctx) (fun _ => over).
Proof. by apply Commit_keeps. Qed.

Lemma wrap_committed_keeps ctx K text : tx_keeps (sess_ok (mkPhase None K)) (wrap_err text (Commit ctx)) (fun _ => over).
Proof. by apply tx_keeps_wrap, Commit_keeps. Qed.

Lemma committed_ret_keeps {A} ctx K (a : A) : tx_keeps (sess_ok (mkPhase None K)) (Commit ctx ;;; mret a) (fun _ => over).
Proof. eapply tx_keeps_bind; [by apply Commit_keeps|]. intros ?. by apply tx_keeps_ret. Qed.

Lemma unchanged_keeps {A} f (a : A) : tx_keeps (sess_ok f) (mret a) (fun _ => sess_ok f).
Proof. apply tx_keeps_ret; eauto with gfire. Qed.

Lemma got_keeps {A} f (k : Session -> M Session A) J :
  (forall s, tx_keeps (sess_ok f) (k s) J) -> tx_keeps (sess_ok f) (s <- mget ;; k s) J.
Proof. intros Hk. eapply tx_keeps_bind; [apply tx_keeps_get; eauto with gfire|]. done. Qed.

(** Take a transaction to its end; the identifier is that of a known job. *)
Ltac known_id := first [assumption | apply known_self | by left; left].

Ltac tx_go := repeat match goal with
  | |- tx_keeps _ (mbind (wrap_err _ (tx_exec _ ?stmt)) _) _ =>
    lazymatch stmt with
    | insert_job _ _ _ _ _ _ _ _ _ => apply inserted_keeps
    | insert_state _ _ _ _ _ => apply stated_keeps
    | insert_scheduled _ _ _ _ => apply scheduled_keeps
    | delete_scheduled _ => apply unscheduled_keeps; intros ?
    | update_job_state _ _ _ _ => first [apply updated_keeps; [solve [known_id]|intros ?]|apply reversal_keeps]
    end
  | |- tx_keeps _ (mbind (bumpCounter _ _ _) _) _ => apply bumped_keeps
  | |- tx_keeps _ (mbind time_Now _) _ => apply timed_keeps; intros ?
  | |- tx_keeps _ (mbind mget _) _ => apply got_keeps; intros ?
  | |- tx_keeps _ (mbind (wrap_err _ (Commit _)) _) _ => apply finish_keeps
  | |- tx_keeps _ (mbind (Commit _) _) _ => apply committed_ret_keeps
  | |- tx_keeps _ (wrap_err _ (Commit _)) _ => apply wrap_committed_keeps
  | |- tx_keeps _ (Commit _) _ => apply committed_keeps
  | |- tx_keeps _ (mthrow _) _ => apply tx_keeps_throw; eauto with gfire
  | |- tx_keeps _ (let _ := _ in _) _ => cbv zeta
  end.

Lemma safe_Enqueue ctx queue job : preserves consistent (Enqueue ctx queue job).
Proof.
  apply preserves_bind; [case_decide; [by intros n s|by apply preserves_ret]|]. intros id.
  apply preserves_bind; [by intros n s|]. intros now. apply in_tx_consistent. tx_go.
Qed.

#[local] Instance consistent_tick : TickMono consistent.
Proof. by intros n s. Qed.

Lemma preserves_consistent_wrap {A} text (m : M Storage A) :
  preserves consistent m -> preserves consistent (wrap_err text m).
Proof.
  Transparent wrap_err. intros Hm n s Hs. specialize (Hm n s Hs). unfold wrap_err, st_of, tick_of in *.
  by destruct (m n s) as [[n' s'] []].
Qed.
#[local] Opaque wrap_err.

(** Operations of one statement. *)
Ltac one_stmt := preserve ltac:(first
  [ apply preserves_consistent_wrap | apply preserves_try
  | apply pool_exec_consistent; auto with gfire; apply aside_keeps; auto with aside ]).

Ltac in_one_tx := apply in_tx_consistent; tx_go.

Lemma safe_EnqueueIdempotent ctx queue job : preserves consistent (EnqueueIdempotent ctx queue job).
Proof. unfold EnqueueIdempotent, scan_row. one_stmt; in_one_tx. Qed.

Lemma safe_tryDequeue ctx queues : preserves consistent (tryDequeue ctx queues).
Proof.
  apply in_tx_consistent.
  eapply tx_keeps_bind; [by apply (try_row_keeps _ _ _ _ (fun id => mkPhase None [id]) (select_next_ok _ _))|].
  intros [jobID|err]; [|case_match; by apply tx_keeps_throw]. tx_go.
Qed.

Definition polite_wake (w : wake Storage) : Prop := preserves consistent (wk_others w).

Lemma safe_Dequeue ctx queues timeout wakes :
  Forall polite_wake wakes -> preserves consistent (Dequeue ctx queues timeout wakes).
Proof.
  intros Hw. unfold Dequeue. case_decide; [apply preserves_throw|].
  apply preserves_bind; [by intros n s|]. intros start. generalize (Add start timeout). intros deadline.
  induction Hw as [|w wakes Hw Hws IH]; simpl.
  - one_stmt. apply safe_tryDequeue.
  - one_stmt; try apply safe_tryDequeue; try exact IH.
    all: intros n s Hs; specialize (Hw n s Hs); unfold interleave, st_of, tick_of in *;
      by destruct (wk_others w n s) as [[n' s'] o].
Qed.

Lemma safe_Requeue ctx jobID reason : preserves consistent (Requeue ctx jobID reason).
Proof. apply in_tx_consistent. eapply tx_keeps_bind; [apply check_reversible_keeps|]. intros []. tx_go. Qed.

Lemma safe_DeleteJob ctx jobID : preserves consistent (DeleteJob ctx jobID).
Proof. apply in_tx_consistent. eapply tx_keeps_bind; [apply check_reversible_keeps|]. intros []. tx_go. Qed.

Lemma safe_ApplyState ctx jobID e st : preserves consistent (ApplyState ctx jobID e st).
Proof.
  apply in_tx_consistent. unfold applyStateTx. eapply tx_keeps_bind.
  - eapply tx_keeps_bind; [apply lock_state_keeps|]. intros current.
    case_decide; [apply tx_keeps_throw; eauto with gfire|].
    eapply tx_keeps_bind.
    { case_match; [apply timed_keeps; intros now|]; apply unchanged_keeps. }
    intros newState. cbv zeta. tx_go. apply bumpCounterForState_keeps.
  - intros []. tx_go.
Qed.

Lemma safe_ScheduleRetry ctx jobID at_ : preserves consistent (ScheduleRetry ctx jobID at_).
Proof.
  apply in_tx_consistent. eapply tx_keeps_bind; [apply lock_state_keeps|]. intros current.
  case_decide; [apply tx_keeps_throw; eauto with gfire|]. tx_go.
Qed.

Lemma safe_AddScheduled ctx at_ job : preserves consistent (AddScheduled ctx at_ job).
Proof. unfold AddScheduled. one_stmt; in_one_tx. Qed.

Lemma promote_keeps ctx now jobID K :
  jobID ∈ K -> tx_keeps (sess_ok (mkPhase None K)) (promote ctx now jobID) (fun _ => sess_ok (mkPhase None K)).
Proof.
  intros Hin. assert (names jobID K) as HK by by left. unfold promote. tx_go. apply unchanged_keeps.
Qed.

Lemma safe_GetDueScheduled ctx now batchSize : preserves consistent (GetDueScheduled ctx now batchSize).
Proof.
  apply in_tx_consistent. tx_next select_due_ok. intros ids. cbv beta. apply timed_keeps. intros t.
  apply tx_keeps_bind with (J := fun _ => sess_ok (mkPhase None ids)); [|intros tickets; tx_go].
  apply (tx_keeps_map (sess_ok _) (sess_over _)). intros id Hid. by apply promote_keeps.
Qed.

Lemma safe_AcquireLock ctx resource ttl : preserves consistent (AcquireLock ctx resource ttl).
Proof.
  unfold AcquireLock. one_stmt. apply in_tx_consistent.
  eapply tx_keeps_bind; [apply try_exec_keeps, aside_ok; auto with aside|]. intros ?.
  eapply tx_keeps_bind; [apply tx_keeps_wrap, (tx_exec_keeps Hpolite), aside_ok, insert_lock_aside|]. intros n. cbv beta.
  case_match; [apply tx_keeps_throw; eauto with gfire|]. tx_go.
Qed.

(** Every operation of the interface. *)
Inductive operation : forall {A}, M Storage A -> Prop :=
  | op_Enqueue ctx q job : operation (Enqueue ctx q job)
  | op_EnqueueIdempotent ctx q job : operation (EnqueueIdempotent ctx q job)
  | op_Dequeue ctx qs timeout wakes : Forall polite_wake wakes -> operation (Dequeue ctx qs timeout wakes)
  | op_Requeue ctx id reason : operation (Requeue ctx id reason)
  | op_ApplyState ctx id e st : operation (ApplyState ctx id e st)
  | op_HeartbeatJob ctx id : operation (HeartbeatJob ctx id)
  | op_GetOrphanedJobs ctx age : operation (GetOrphanedJobs ctx age)
  | op_GetJob ctx id : operation (GetJob ctx id)
  | op_GetJobsByState ctx st o l : operation (GetJobsByState ctx st o l)
  | op_GetQueueLength ctx q : operation (GetQueueLength ctx q)
  | op_GetQueues ctx : operation (GetQueues ctx)
  | op_DeleteJob ctx id : operation (DeleteJob ctx id)
  | op_AddScheduled ctx at_ job : operation (AddScheduled ctx at_ job)
  | op_GetDueScheduled ctx now b : operation (GetDueScheduled ctx now b)
  | op_RemoveScheduled ctx id : operation (RemoveScheduled ctx id)
  | op_ScheduleRetry ctx id at_ : operation (ScheduleRetry ctx id at_)
  | op_SetJobResult ctx id r : operation (SetJobResult ctx id r)
  | op_RemoveExpired ctx c : operation (RemoveExpired ctx c)
  | op_UpsertRecurring ctx e : operation (UpsertRecurring ctx e)
  | op_RemoveRecurring ctx id : operation (RemoveRecurring ctx id)
  | op_GetRecurringJobs ctx : operation (GetRecurringJobs ctx)
  | op_UpdateRecurringLastRun ctx id l nx : operation (UpdateRecurringLastRun ctx id l nx)
  | op_AddContinuation ctx p e : operation (AddContinuation ctx p e)
  | op_GetContinuations ctx p : operation (GetContinuations ctx p)
  | op_RemoveContinuations ctx p : operation (RemoveContinuations ctx p)
  | op_RegisterServer ctx sv ttl : operation (RegisterServer ctx sv ttl)
  | op_UnregisterServer ctx id : operation (UnregisterServer ctx id)
  | op_Heartbeat ctx id ttl : operation (Heartbeat ctx id ttl)
  | op_GetServers ctx : operation (GetServers ctx)
  | op_IncrementCounter ctx key d : operation (IncrementCounter ctx key d)
  | op_GetCounter ctx key : operation (GetCounter ctx key)
  | op_GetAllCounters ctx a b : operation (GetAllCounters ctx a b)
  | op_AcquireLock ctx res ttl : operation (AcquireLock ctx res ttl)
  | op_Release ctx l : operation (Release ctx l).

Lemma operation_consistent {A} (m : M Storage A) : operation m -> preserves consistent m.
Proof.
  destruct 1; auto using safe_Enqueue, safe_EnqueueIdempotent, safe_Dequeue, safe_Requeue, safe_ApplyState, safe_DeleteJob,
    safe_AddScheduled, safe_GetDueScheduled, safe_ScheduleRetry, safe_AcquireLock.
  all: unfold HeartbeatJob, GetOrphanedJobs, GetJob, scanJob, loadStates, GetJobsByState, GetQueueLength, GetQueues,
    RemoveScheduled, SetJobResult, RemoveExpired, UpsertRecurring, RemoveRecurring, GetRecurringJobs,
    UpdateRecurringLastRun, AddContinuation, GetContinuations, RemoveContinuations, RegisterServer, UnregisterServer,
    Heartbeat, GetServers, IncrementCounter, GetCounter, GetAllCounters, Release, exec_found, exec_any, loadStates, scan_row.
  all: one_stmt.
Qed.
End Operations.
