(* ===== verification/PgAtomic.v ===== *)
(** * Transactions of the Postgres backend take effect at one instant

    What a transaction that locks rows before it reads them writes, as a function of the
    tables it commits to, whatever the network and the other sessions do. *)
From S2P Require Import Prelude.
From S2P Require Import GoTime.
From S2P Require Import Job.
From S2P Require Import StorageI.
From S2P Require Import PgServer.
From S2P Require Import PgSql.
From S2P Require Import Postgres.
From S2P Require Import PgIsolation.
From S2P Require Import PgInvariant.
From S2P Require Import PgStatements.

Section Atomic.
Context {EV : Env} {PG : Postgres} {NW : Network} {SD : StateData}.

(** What the database goes through without this session: commits of others, and
    sequences that advance. *)
Inductive drift_step (d : Db) : Db -> Prop :=
  | drift_others n L : drift_step d (others_at n L d)
  | drift_seqs q : drift_step d (set_seqs q d).

Definition drift : Db -> Db -> Prop := rtc drift_step.

(** What holds of the tables while the locks [L] are held. *)
Definition stable (L : list lockkey) (C : Tables -> Prop) : Prop :=
  forall n L' d, L ⊆ L' -> C (tables d) -> C (tables (others_at n L' d)).

(** The instant the transaction began, which is [now()] in all its statements. *)
Section Began.
Variable began : Time.

(** A transaction that has written [ws], holds at least [L], and knows [C]. *)
Record at_tx (C : Tables -> Prop) (ws : list write) (L : list lockkey) (s : Session) : Prop := {
  at_alive : tx_failed (ss_tx s) = false;
  at_now : tx_now (ss_tx s) = began;
  at_writes : tx_writes (ss_tx s) = ws;
  at_locks : L ⊆ tx_locks (ss_tx s);
  at_known : C (tables (pool (ss_storage s)));
}.

(** A part of a transaction: the database drifts, and a value leaves the session with [J]. *)
Definition tx_runs {A} (I : Session -> Prop) (m : M Session A) (J : A -> Session -> Prop) : Prop :=
  forall n s, I s ->
    drift (pool (ss_storage s)) (pool (ss_storage (st_of (m n s)))) /\
    forall a, res_of (m n s) = Ok a -> J a (st_of (m n s)).

Lemma tx_runs_ret {A} I (a : A) (J : A -> Session -> Prop) : (forall s, I s -> J a s) -> tx_runs I (mret a) J.
Proof. intros HJ n s Hs. split; [apply rtc_refl|]. intros ? [= <-]. by apply HJ. Qed.

Lemma tx_runs_throw {A} I err (J : A -> Session -> Prop) : tx_runs I (mthrow err) J.
Proof. intros n s Hs. split; [apply rtc_refl|done]. Qed.

Lemma tx_runs_now I : tx_runs I time_Now (fun _ => I).
Proof. intros n s Hs. split; [apply rtc_refl|]. by intros ? [= <-]. Qed.

Lemma tx_runs_bind {A B} I (m : M Session A) (k : A -> M Session B) J Q :
  tx_runs I m J -> (forall a, tx_runs (J a) (k a) Q) -> tx_runs I (mbind m k) Q.
Proof.
  intros Hm Hk n s Hs. specialize (Hm n s Hs). unfold st_of, res_of, mbind in *.
  destruct (m n s) as [[n' s'] [a| | |]]; simpl in *; try (split; [tauto|done]).
  destruct Hm as [Hd HJ]. destruct (Hk a n' s' (HJ a eq_refl)) as [Hd' HQ]. split; [|done].
  by transitivity (pool (ss_storage s')).
Qed.

Lemma tx_runs_wrap {A} I text (m : M Session A) J : tx_runs I m J -> tx_runs I (wrap_err text m) J.
Proof.
  intros Hm n s Hs. specialize (Hm n s Hs). unfold st_of, res_of, wrap_err in *.
  destruct (m n s) as [[n' s'] [a| | |]]; simpl in *; try done. split; [tauto|done].
Qed.

Lemma tx_runs_weaken {A} I (m : M Session A) (J J' : A -> Session -> Prop) :
  tx_runs I m J -> (forall a s, J a s -> J' a s) -> tx_runs I m J'.
Proof. intros Hm HJ n s Hs. destruct (Hm n s Hs) as [Hd Ha]. split; [done|]. auto. Qed.

(** What is known of the session besides, taken out of the precondition. *)
Lemma tx_runs_ex {A B} (I : B -> Session -> Prop) (m : M Session A) J :
  (forall b, tx_runs (I b) m J) -> tx_runs (fun s => exists b, I b s) m J.
Proof. intros Hm n s [b Hs]. by apply (Hm b). Qed.

Lemma tx_runs_pure {A} (P : Prop) I (m : M Session A) J :
  (P -> tx_runs I m J) -> tx_runs (fun s => P /\ I s) m J.
Proof. intros Hm n s [HP Hs]. by apply Hm. Qed.

(** What a statement found, and what it left. *)
Definition stmt_ran {A} (C : Tables -> Prop) (ws : list write) (L : list lockkey) (stmt : sql A) (a : A)
    (s : Session) : Prop :=
  exists sn q q' ws' ls, sn_now sn = began /\ sn_tables sn = apply_writes ws (tables (pool (ss_storage s))) /\
    C (tables (pool (ss_storage s))) /\ stmt sn q = (q', inl (ws', ls, a)) /\
    at_tx C (ws ++ ws') (L ++ ls ++ (write_key <$> ws')) s.

Lemma drift_one n L d q : drift d (set_seqs q (others_at n L d)).
Proof. eapply rtc_l; [apply (drift_others _ n L)|]. eapply rtc_l; [apply (drift_seqs _ q)|apply rtc_refl]. Qed.

Lemma tx_exec_runs {A} ctx (stmt : sql A) C ws L :
  stable L C -> tx_runs (at_tx C ws L) (tx_exec ctx stmt) (stmt_ran C ws L stmt).
Proof.
  intros HS n s [Ha Hn Hw HL HC]. unfold tx_exec. destruct ctx; [|split; [apply rtc_refl|done]].
  rewrite Ha. destruct (fault_at n) as [[]|]; [split; [apply rtc_refl|done]|].
  set (d := others_at n _ _). destruct (stmt _ (seqs d)) as [q [[[ws' ls] a]|msg]] eqn:Hst; simpl.
  - split; [apply drift_one|]. intros ? [= <-].
    assert (C (tables d)) as HC' by by apply HS.
    eexists (mkSnapshot n (tx_now (ss_tx s)) (skip_at n) _), _, _, ws', ls. split_and!; [exact Hn| |done|exact Hst|split; simpl; try done; [by rewrite Hw|set_solver]].
    simpl. by rewrite Hw.
  - split; [apply drift_one|done].
Qed.

(** The row a statement returns, its error being inspected. *)
Lemma try_row_runs {A} ctx (stmt : sql (list A)) C ws L (J : A -> Session -> Prop) :
  stable L C -> (forall r l s, stmt_ran C ws L stmt (r :: l) s -> J r s) ->
  tx_runs (at_tx C ws L) (mtry (scan_row (tx_exec ctx stmt)))
    (fun r s => match r with inl a => J a s | inr _ => True end).
Proof.
  intros HS HJ n s Hs. pose proof (tx_exec_runs ctx stmt C ws L HS n s Hs) as [Hd Ha].
  unfold scan_row, mtry, mbind, st_of, res_of in *.
  destruct (tx_exec ctx stmt n s) as [[n' s'] [[|r l]|err| |]]; simpl in *; (split; [done|]); try done;
    intros ? [= <-]; [done| |done]. by eapply HJ, Ha.
Qed.

(** The transaction as a whole: nothing of it is committed and it fails; or it is
    committed, at one instant, to tables of which the value it returns and what it writes
    are the right ones, even if the connection breaks before the answer comes. *)
Definition took_effect {A} (R : A -> Tables -> list write -> Prop) (d d' : Db) (o : res A) : Prop :=
  (tables d' = tables d /\ forall a, o <> Ok a) \/
  exists a ws, R a (tables d) ws /\ tables d' = apply_writes ws (tables d) /\ (o = Ok a \/ exists err, o = Err err).

Definition atomically {A} (R : A -> Tables -> list write -> Prop) (s s' : Storage) (o : res A) : Prop :=
  exists d, drift (pool s) d /\ took_effect R d (pool s') o.

Definition ready (R : Tables -> list write -> Prop) (s : Session) : Prop :=
  exists C ws L, at_tx C ws L s /\ stable L C /\ forall T, C T -> R T ws.

(** The end of a transaction, [Commit] included. *)
Definition ends {A} (I : Session -> Prop) (m : M Session A) (R : A -> Tables -> list write -> Prop) : Prop :=
  forall n s, I s -> exists d, drift (pool (ss_storage s)) d /\
    took_effect R d (pool (ss_storage (st_of (m n s)))) (res_of (m n s)).

Lemma ends_throw {A} I err R : ends I (mthrow (A := A) err) R.
Proof. intros n s _. exists (pool (ss_storage s)). split; [apply rtc_refl|by left]. Qed.

Lemma ends_bind {A B} I (m : M Session A) (k : A -> M Session B) J R :
  tx_runs I m J -> (forall a, ends (J a) (k a) R) -> ends I (mbind m k) R.
Proof.
  intros Hm Hk n s Hs. destruct (Hm n s Hs) as [Hd HJ]. unfold mbind, st_of, res_of in *.
  destruct (m n s) as [[n' s'] [a| | |]]; simpl in *; try (exists (pool (ss_storage s')); split; [done|by left]).
  destruct (Hk a n' s' (HJ a eq_refl)) as (d & Hd' & H). exists d. split; [|done].
  by transitivity (pool (ss_storage s')).
Qed.

Lemma Commit_ends R ctx : ends (ready R) (Commit ctx) (fun _ => R).
Proof.
  intros n s (C & ws & L & [Ha _ Hw HL HC] & HS & HR). unfold Commit.
  destruct ctx; [|exists (pool (ss_storage s)); split; [apply rtc_refl|by left]].
  rewrite Ha, Hw. set (d := others_at n _ _).
  assert (R (tables d) ws) as HRd by by apply HR, HS.
  assert (drift (pool (ss_storage s)) d) as Hd by (eapply rtc_l; [apply drift_others|apply rtc_refl]).
  destruct (fault_at n) as [[[] err]|]; simpl.
  - exists d. split; [done|]. right. exists tt, ws. split_and!; [done|done|right; eauto].
  - exists (pool (ss_storage s)). split; [apply rtc_refl|by left].
  - exists d. split; [done|]. right. exists tt, ws. by split_and!; [..|left].
Qed.

Lemma ends_wrap {A} I R text (m : M Session A) : ends I m R -> ends I (wrap_err text m) R.
Proof.
  intros Hm n s Hs. specialize (Hm n s Hs). unfold wrap_err, st_of, res_of in *.
  destruct (m n s) as [[n' s'] []]; try done.
  destruct Hm as (d & Hd & [[H1 _]|(a & ws & H1 & H2 & _)]); exists d; (split; [done|]); [by left|right].
  exists a, ws. split_and!; [done|done|right; eauto].
Qed.

Lemma ends_ret {A} I R (m : M Session unit) (b : A) : ends I m (fun _ => R b) -> ends I (m ;;; mret b) R.
Proof.
  intros Hm n s Hs. specialize (Hm n s Hs). unfold mbind, mret, st_of, res_of in *.
  destruct (m n s) as [[n' s'] [a| | |]]; destruct Hm as (d & Hd & [[H1 H2]|(a' & ws & H1 & H2 & H3)]); exists d; (split; [done|]);
    try (by left); try (by destruct (H2 a)); right; exists b, ws; (split_and!; [done|done|]); try (by left);
    destruct H3 as [|[err ?]]; simplify_eq; eauto.
Qed.

(** A transaction that begins. *)
Lemma in_tx_atomically {A} C R text ctx (body : M Session A) n s :
  began = db_clock n -> C (tables (pool s)) -> ends (at_tx C [] []) body R ->
  atomically R s (st_of (in_tx text ctx body n s)) (res_of (in_tx text ctx body n s)).
Proof.
  intros Ht HC Hb. unfold in_tx, atomically.
  assert (drift (pool s) (pool s)) as H0 by apply rtc_refl.
  destruct ctx; [|exists (pool s); split; [done|by left]].
  destruct (fault_at n) as [[]|]; [exists (pool s); split; [done|by left]|].
  specialize (Hb (S n) (mkSession s (tx_begun (db_clock n)))). unfold st_of, res_of in *.
  destruct (body _ _) as [[n' s'] o]. apply Hb. by split.
Qed.

(** ** The statements of a transition *)

(** The row of a job. *)
Definition row_is (id : string) (r : job_row) (T : Tables) : Prop := t_jobs T !! id = Some r.

Lemma row_stable id r L : KJob id ∈ L -> stable L (row_is id r).
Proof.
  intros HL n L' d HL' Hr. pose proof (others_locked n L' d (KJob id) (HL' _ HL)) as He. simpl in He.
  unfold row_is in *. congruence.
Qed.

Lemma stable_true : stable [] (fun _ => True).
Proof. done. Qed.

Lemma at_tx_known C C' ws L s : at_tx C ws L s -> C' (tables (pool (ss_storage s))) -> at_tx C' ws L s.
Proof. by intros [] ?. Qed.

(** [SELECT ... FOR UPDATE]: the row, which stays as it is until the end. *)
Lemma lock_state_runs text ctx jobID :
  tx_runs (at_tx (fun _ => True) [] []) (lock_state text ctx jobID) (fun current s =>
    exists id r, uuid_in jobID = Some id /\ jr_state r = current /\ at_tx (row_is id r) [] [KJob id] s).
Proof.
  eapply tx_runs_bind.
  - apply (try_row_runs ctx _ _ _ _ (fun current s => exists id r, uuid_in jobID = Some id /\
      jr_state r = current /\ at_tx (row_is id r) [] [KJob id] s)); [apply stable_true|].
    intros current l s (sn & q & q' & ws & ls & _ & Hsn & _ & Hrun & Hat). rewrite select_state_for_update_run, Hsn in Hrun.
    destruct (uuid_in jobID) as [id|]; [|done]. simpl in Hrun.
    destruct (t_jobs (tables _) !! id) as [r|] eqn:Hr; simplify_eq. exists id, r. split_and!; [done..|].
    by eapply at_tx_known.
  - intros [current|err]; [by apply tx_runs_ret|]. case_match; by apply tx_runs_throw.
Qed.

(** [UPDATE ... WHERE id] of a locked row. *)
Lemma update_row_runs text ctx jobID id state progress now r :
  uuid_in jobID = Some id ->
  tx_runs (at_tx (row_is id r) [] [KJob id])
    (wrap_err text (tx_exec ctx (update_job_state jobID state progress now)))
    (fun _ => at_tx (row_is id r) [WJob id (Some (with_progress state (progress r) now r))] [KJob id]).
Proof.
  intros Hid. apply tx_runs_wrap. eapply tx_runs_weaken; [by apply tx_exec_runs, row_stable; left|].
  intros a s (sn & q & q' & ws & ls & _ & Hsn & Hr & Hrun & Hat).
  unfold update_job_state, as_text, sql_bind, sql_check in Hrun. destruct (text_in state); [|done]. simpl in Hrun.
  rewrite update_job_run, Hid, Hsn in Hrun. simpl in Hrun. unfold row_is in Hr. rewrite Hr in Hrun. simplify_eq.
  destruct Hat as [H1 H0 H2 H3 H4]. split; try done. set_solver.
Qed.

(** The next entry of the history. *)
Definition entry_of (id name : string) (reason data : option string) (now : Time) (z : Z) (x : state_row) : Prop :=
  sr_id x = z /\ sr_job_id x = id /\ sr_name x = name /\ sr_reason x = reason /\
  jsonb_in (default "{}" data) = Some (sr_data x) /\ sr_created_at x = ts now.

Lemma insert_state_runs text ctx jobID id name reason data now C ws L :
  uuid_in jobID = Some id -> stable L C ->
  tx_runs (at_tx C ws L) (wrap_err text (tx_exec ctx (insert_state jobID name reason data now)))
    (fun _ s => exists z x, entry_of id name reason data now z x /\ at_tx C (ws ++ [WState z (Some x)]) L s).
Proof.
  intros Hid HS. apply tx_runs_wrap. eapply tx_runs_weaken; [by apply tx_exec_runs|].
  intros a s (sn & q & q' & ws' & ls & _ & Hsn & HC & Hrun & Hat). unfold insert_state, nextval_state in Hrun.
  sql_run. eexists _, _. destruct Hat as [H1' H0' H2' H3' H4'].
  split; [|split; [done|done|exact H2'|set_solver|done]]. unfold entry_of. simpl. by split_and!.
Qed.

Definition counter_write (w : write) : Prop := match w with WCounter _ _ => True | _ => False end.

Lemma bumpCounter_runs ctx key delta C ws L :
  stable L C ->
  tx_runs (at_tx C ws L) (bumpCounter ctx key delta)
    (fun _ s => exists c, counter_write c /\ at_tx C (ws ++ [c]) L s).
Proof.
  intros HS. apply tx_runs_wrap. eapply tx_runs_weaken; [by apply tx_exec_runs|].
  intros a s (sn & q & q' & ws' & ls & _ & Hsn & HC & Hrun & Hat). unfold add_counter, sql_now in Hrun. sql_run.
  all: eexists; destruct Hat as [H1' H0' H2' H3' H4']; split; [|split; [done|done|exact H2'|set_solver|done]]; done.
Qed.

Lemma bumpCounterForState_runs ctx name C ws L :
  stable L C ->
  tx_runs (at_tx C ws L) (bumpCounterForState ctx name)
    (fun _ s => exists cs, Forall counter_write cs /\ at_tx C (ws ++ cs) L s).
Proof.
  intros HS. unfold bumpCounterForState.
  assert (forall key, tx_runs (at_tx C ws L) (bumpCounter ctx key 1)
    (fun _ s => exists cs, Forall counter_write cs /\ at_tx C (ws ++ cs) L s)) as Hb.
  { intros key. eapply tx_runs_weaken; [by apply bumpCounter_runs|]. intros _ s (c & Hc & Hat). exists [c].
    split; [by repeat constructor|done]. }
  repeat case_decide; try apply Hb. apply tx_runs_ret. intros s Hs. exists []. by rewrite app_nil_r.
Qed.

(** ** Transitions *)

(** What a transition writes to the tables [T]: the row of the job, which was in the state
    expected, and one entry of its history; and counters. *)
Definition transition (jobID expected : string) (progress : job_row -> option Time) (name : string) (now : Time)
    (reason data : option string) (T : Tables) (ws : list write) : Prop :=
  exists id r z x cs, uuid_in jobID = Some id /\ t_jobs T !! id = Some r /\ jr_state r = expected /\
    entry_of id name reason data now z x /\ Forall counter_write cs /\
    ws = WJob id (Some (with_progress name (progress r) now r)) :: WState z (Some x) :: cs.

Lemma ApplyState_ends ctx jobID expected st :
  ends (at_tx (fun _ => True) [] [])
    (applyStateTx ctx jobID expected st ;;; wrap_err "applystate commit" (Commit ctx))
    (fun _ T ws => exists now, (IsZero (st_CreatedAt st) = false -> now = st_CreatedAt st) /\
      transition jobID expected (fun r => if bool_decide (st_Name st <> StateProcessing) then None else jr_progress_at r)
        (st_Name st) now (nullIfEmpty (st_Reason st)) (Some (marshalStateData (st_Data st))) T ws).
Proof.
  eapply ends_bind; [|intros ?; apply ends_wrap, Commit_ends].
  eapply tx_runs_bind; [apply lock_state_runs|]. intros current. cbv beta.
  case_decide as Hc; [apply tx_runs_throw|]. subst current.
  apply tx_runs_ex; intros id. apply tx_runs_ex; intros r. apply tx_runs_pure; intros Hid. apply tx_runs_pure; intros Hst.
  eapply tx_runs_bind with (J := fun st' s => (st_Name st' = st_Name st /\ st_Reason st' = st_Reason st /\
    st_Data st' = st_Data st /\ (IsZero (st_CreatedAt st) = false -> st_CreatedAt st' = st_CreatedAt st)) /\
    at_tx (row_is id r) [] [KJob id] s).
  { destruct (IsZero _) eqn:Hz; [eapply tx_runs_bind; [apply tx_runs_now|intros now]|]; by apply tx_runs_ret. }
  intros st'. apply tx_runs_pure. intros (Hn & Hr & Hd & Hcr). rewrite <- Hn, <- Hr, <- Hd. cbv zeta.
  eapply tx_runs_bind; [by apply update_row_runs|]. intros ?.
  eapply tx_runs_bind; [by apply insert_state_runs; [|apply row_stable; left]|].
  intros ?. apply tx_runs_ex; intros z. apply tx_runs_ex; intros x. apply tx_runs_pure; intros Hx.
  eapply tx_runs_weaken; [by apply bumpCounterForState_runs, row_stable; left|].
  intros ? s (cs & Hcs & Hat). eexists _, _, _. split_and!; [exact Hat|by apply row_stable; left|].
  intros T HT. exists (st_CreatedAt st'). split; [done|]. exists id, r, z, x, cs. by split_and!.
Qed.

(** ** Locks *)

(** After a statement failed, every other one fails. *)
Definition lost (s : Session) : Prop := tx_failed (ss_tx s) = true.

Lemma tx_exec_lost {A} ctx (stmt : sql A) J : tx_runs lost (tx_exec ctx stmt) J.
Proof.
  intros n s Hf. unfold tx_exec, lost in *. destruct ctx; [|split; [apply rtc_refl|done]].
  rewrite Hf. split; [apply rtc_refl|done].
Qed.

Lemma tx_runs_or {A} I I' (m : M Session A) J : tx_runs I m J -> tx_runs I' m J -> tx_runs (fun s => I s \/ I' s) m J.
Proof. intros H1 H2 n s [Hs|Hs]; auto. Qed.

Lemma try_exec_runs {A} ctx (stmt : sql A) C ws L :
  stable L C -> tx_runs (at_tx C ws L) (mtry (tx_exec ctx stmt))
    (fun _ s => (exists a, stmt_ran C ws L stmt a s) \/ lost s).
Proof.
  intros HS n s Hs. pose proof (tx_exec_runs ctx stmt C ws L HS n s Hs) as [Hd Ha].
  assert (forall err, res_of (tx_exec ctx stmt n s) = Err err -> lost (st_of (tx_exec ctx stmt n s))) as Hlost.
  { unfold tx_exec, lost. destruct ctx; [|done]. destruct (tx_failed (ss_tx s)); [done|].
    destruct (fault_at n) as [[]|]; [done|]. by destruct (stmt _ _) as [q [[[? ?] ?]|]]. }
  unfold mtry, st_of, res_of in *.
  destruct (tx_exec ctx stmt n s) as [[n' s'] [a|err| |]]; simpl in *; (split; [done|]); try done; intros ? [= <-].
  - left. exists a. by apply Ha.
  - right. by apply (Hlost err).
Qed.

Definition lock_is (resource : string) (o : option lock_row) (T : Tables) : Prop := t_locks T !! resource = o.

Lemma lock_stable resource o L : KLock resource ∈ L -> stable L (lock_is resource o).
Proof.
  intros HL n L' d HL' Ho. pose proof (others_locked n L' d (KLock resource) (HL' _ HL)) as He. simpl in He.
  unfold lock_is in *. congruence.
Qed.

(** What taking the lock writes: a row of the owner's, where there was none or one that had
    expired when the transaction began. *)
Definition takes_lock (resource owner : string) (expires : Time) (l : pgLock) (T : Tables) (ws : list write) : Prop :=
  l = mkPgLock resource owner /\
  (forall old, t_locks T !! resource = Some old -> lr_expires_at old < ts began) /\
  t_locks (apply_writes ws T) = <[resource := mkLockRow resource owner (ts expires)]> (t_locks T) /\
  forall w, w ∈ ws -> write_key w = KLock resource.

Lemma free_lock_runs ctx resource :
  tx_runs (at_tx (fun _ => True) [] []) (mtry (tx_exec ctx (delete_expired_lock resource)))
    (fun _ s => at_tx (fun _ => True) [] [] s \/
      (exists old, lr_expires_at old < ts began /\
         at_tx (lock_is resource (Some old)) [WLock resource None] [KLock resource] s) \/ lost s).
Proof.
  eapply tx_runs_weaken; [apply try_exec_runs, stable_true|].
  intros _ s [(a & sn & q & q' & ws' & ls & Hn & Hsn & _ & Hrun & Hat)|]; [|by right; right].
  unfold delete_expired_lock, sql_now in Hrun. sql_run; rewrite ?Hsn in *; simpl in *.
  all: try by left.
  right. left. destruct Hat as [H1' H2' H3' H4' H5'].
  match goal with H : t_locks _ !! resource = Some ?o |- _ => exists o end.
  split; [by rewrite <- Hn|]. split; try done.
Qed.

Lemma insert_lock_runs ctx resource owner expires C ws L text :
  stable L C ->
  tx_runs (at_tx C ws L) (wrap_err text (tx_exec ctx (insert_lock resource owner expires)))
    (fun n s => n = 0 \/ at_tx (fun T => C T /\ t_locks (apply_writes ws T) !! resource = None)
      (ws ++ [WLock resource (Some (mkLockRow resource owner (ts expires)))]) (L ++ [KLock resource]) s).
Proof.
  intros HS. apply tx_runs_wrap. eapply tx_runs_weaken; [by apply tx_exec_runs|].
  intros n s (sn & q & q' & ws' & ls & _ & Hsn & HC & Hrun & Hat). unfold insert_lock in Hrun.
  sql_run; [by left|]. right. destruct Hat as [H1' H2' H3' H4' H5']. split; try done. by rewrite <- Hsn.
Qed.

Lemma AcquireLock_ends ctx resource owner expires :
  ends (at_tx (fun _ => True) [] [])
    (mtry (tx_exec ctx (delete_expired_lock resource)) ;;;
     affected <- wrap_err "acquire lock insert" (tx_exec ctx (insert_lock resource owner expires)) ;;
     if affected =? 0 then mthrow ErrLockNotHeld else
     wrap_err "acquire lock commit" (Commit ctx) ;;;
     mret (mkPgLock resource owner))
    (takes_lock resource owner expires).
Proof.
  eapply ends_bind; [apply free_lock_runs|]. intros ?.
  eapply ends_bind with (J := fun n s => n = 0 \/ ready (takes_lock resource owner expires (mkPgLock resource owner)) s).
  - apply tx_runs_or; [|apply tx_runs_or; [apply tx_runs_ex; intros old; apply tx_runs_pure; intros Hold|
      apply tx_runs_wrap, tx_exec_lost]].
    + eapply tx_runs_weaken; [apply insert_lock_runs, stable_true|]. intros n s [->|Hat]; [by left|right].
      eexists (lock_is resource None), _, _. split_and!; [| |].
      * eapply at_tx_known; [exact Hat|]. by destruct (at_known _ _ _ _ Hat).
      * apply lock_stable. set_solver.
      * intros T HT. split_and!; [done|unfold lock_is in HT; congruence|done|].
        intros w Hw%list_elem_of_singleton. by subst.
    + eapply tx_runs_weaken; [apply insert_lock_runs, lock_stable; by left|]. intros n s [->|Hat]; [by left|right].
      eexists (lock_is resource (Some old)), _, _. split_and!; [| |].
      * eapply at_tx_known; [exact Hat|]. by destruct (at_known _ _ _ _ Hat).
      * apply lock_stable. set_solver.
      * intros T HT. unfold lock_is in HT. split_and!; [done| | |].
        -- intros old' Ho. by rewrite HT in Ho; simplify_eq.
        -- simpl. rewrite put_row_insert. unfold put_row. apply map_eq. intros k.
           destruct (decide (k = resource)) as [->|Hne]; [by rewrite !lookup_insert_eq|].
           by rewrite !lookup_insert_ne, lookup_partial_alter_ne by done.
        -- intros w Hw. set_solver.
  - intros n. destruct (n =? 0) eqn:Hn; [apply ends_throw|].
    intros m s [Hz|Hs]; [lia|]. revert m s Hs. apply ends_ret, ends_wrap, Commit_ends.
Qed.
End Began.

(** ** The operations *)
Lemma ApplyState_atomically ctx jobID expected st n s :
  atomically (fun _ T ws => exists now, (IsZero (st_CreatedAt st) = false -> now = st_CreatedAt st) /\
      transition jobID expected (fun r => if bool_decide (st_Name st <> StateProcessing) then None else jr_progress_at r)
        (st_Name st) now (nullIfEmpty (st_Reason st)) (Some (marshalStateData (st_Data st))) T ws)
    s (st_of (ApplyState ctx jobID expected st n s)) (res_of (ApplyState ctx jobID expected st n s)).
Proof. eapply (in_tx_atomically _ (fun _ => True)); [done..|]. apply ApplyState_ends. Qed.

Lemma AcquireLock_atomically ctx resource ttl n s :
  atomically (takes_lock (db_clock (S (S n))) resource (uuid n) (Add (clock (S n)) ttl))
    s (st_of (AcquireLock ctx resource ttl n s)) (res_of (AcquireLock ctx resource ttl n s)).
Proof. exact (in_tx_atomically _ (fun _ => True) _ _ ctx _ _ _ eq_refl I (AcquireLock_ends _ ctx resource _ _)). Qed.

(** ** Dispatch *)

(** The key column of jobs holds uuids: others write no other row. *)
Definition keys_ok (T : Tables) : Prop := forall id r, t_jobs T !! id = Some r -> uuid_in id = Some id.

Section Dispatch.
Hypothesis keys_stable : stable [] keys_ok.
Variable began : Time.

(** What a dispatch writes to the tables [T]: the row of a job that was queued, and its
    next state, which names a server. *)
Definition dispatched (queues : list string) (t : JobTicket) (T : Tables) (ws : list write) : Prop :=
  let id := jt_JobID t in
  exists r now sid, t_jobs T !! id = Some r /\ jr_queue r ∈ queues /\
  transition id StateEnqueued (fun _ => Some (ts now)) StateProcessing now None
    (Some (data_Marshal {[ "server_id" := sid ]})) T ws.

Lemma lock_next_runs ctx queues :
  tx_runs (at_tx began keys_ok [] []) (mtry (scan_row (tx_exec ctx (select_next StateEnqueued queues))))
    (fun r s => match r with
     | inl id => exists r, uuid_in id = Some id /\ jr_state r = StateEnqueued /\ jr_queue r ∈ queues /\
         at_tx began (row_is id r) [] [KJob id] s
     | inr _ => True
     end).
Proof.
  apply try_row_runs; [done|]. intros id l s (sn & q & q' & ws' & ls & _ & Hsn & HC & Hrun & Hat).
  destruct (select_next_run StateEnqueued queues sn q) as (o & Ho & Hnext). rewrite Hrun in Ho. simplify_eq.
  destruct Hnext as (-> & [|[i r] next] & Hids & -> & Hnext); simplify_eq/=.
  assert ((i, r) ∈ (i, r) :: next) as Hin by by left. rewrite Hnext in Hin.
  apply elem_of_next in Hin as (Hr & [Hst Hq] & _). rewrite Hsn in Hr. exists r. split_and!; try done.
  - by apply (HC i r).
  - destruct Hat as [H1 H0 H2 H3 H4]. split; try done. simpl in H3. set_solver.
Qed.

Lemma tx_runs_get I : tx_runs I mget (fun _ => I).
Proof. intros n s Hs. split; [apply rtc_refl|]. by intros ? [= <-]. Qed.

Lemma ends_ex {A B} (I : B -> Session -> Prop) (m : M Session A) R :
  (forall b, ends (I b) m R) -> ends (fun s => exists b, I b s) m R.
Proof. intros Hm n s [b Hs]. by apply (Hm b). Qed.

Lemma ends_pure {A} (P : Prop) I (m : M Session A) R : (P -> ends I m R) -> ends (fun s => P /\ I s) m R.
Proof. intros Hm n s [HP Hs]. by apply Hm. Qed.

Lemma tryDequeue_atomically ctx queues n s :
  keys_ok (tables (pool s)) -> began = db_clock n ->
  atomically (dispatched queues) s (st_of (tryDequeue ctx queues n s)) (res_of (tryDequeue ctx queues n s)).
Proof.
  intros Hk Ht. eapply (in_tx_atomically _ keys_ok); [exact Ht|done|].
  eapply ends_bind; [apply lock_next_runs|]. intros [id|err]; [|case_match; apply ends_throw].
  apply ends_ex; intros r. apply ends_pure; intros Hid. apply ends_pure; intros Hst. apply ends_pure; intros Hq.
  eapply ends_bind; [apply tx_runs_now|]. intros now. cbv beta.
  eapply ends_bind; [by apply update_row_runs|]. intros ?.
  eapply ends_bind; [apply tx_runs_get|]. intros s0. cbv beta zeta.
  eapply ends_bind; [by apply insert_state_runs; [|apply row_stable; left]|]. intros ?.
  apply ends_ex; intros z. apply ends_ex; intros x. apply ends_pure; intros Hx.
  eapply ends_bind with (J := fun _ => ready began (dispatched queues (mkJobTicket id ("tok-" +:+ id +:+ "-" +:+ Itoa (UnixNano now))))).
  - eapply tx_runs_weaken; [by apply bumpCounter_runs, row_stable; left|].
    intros ? s1 (c & Hc & Hat). eexists _, _, _. split_and!; [exact Hat|by apply row_stable; left|].
    intros T HT. exists r, now, (serverID (ss_storage s0)). split_and!; [done|done|].
    exists id, r, z, x, [c]. split_and!; try done. by repeat constructor.
  - intros ?. apply ends_ret, ends_wrap, Commit_ends.
Qed.
End Dispatch.

(** ** One statement *)
Lemma pool_exec_atomically {A} R ctx (stmt : sql A) n s :
  (forall sn q q' ws ls a, stmt sn q = (q', inl (ws, ls, a)) -> R a (sn_tables sn) ws) ->
  atomically R s (st_of (pool_exec ctx stmt n s)) (res_of (pool_exec ctx stmt n s)).
Proof.
  intros HR. unfold pool_exec, atomically.
  assert (drift (pool s) (pool s)) as H0 by apply rtc_refl.
  destruct ctx; [|exists (pool s); split; [done|by left]].
  set (d := others_at n [] (pool s)).
  assert (drift (pool s) d) as Hd by (eapply rtc_l; [apply drift_others|apply rtc_refl]).
  pose proof (HR (mkSnapshot n (db_clock n) (skip_at n) (tables d)) (seqs d)) as Hst.
  destruct (stmt _ (seqs d)) as [q [[[ws ls] a]|msg]].
  - specialize (Hst _ _ _ _ eq_refl).
    destruct (fault_at n) as [[[] err]|]; simpl; [exists d|exists (pool s)|exists d]; (split; [done|]).
    + right. exists a, ws. split_and!; [done|done|right; eauto].
    + by left.
    + right. exists a, ws. by split_and!; [..|left].
  - destruct (fault_at n) as [[[] err]|]; simpl; [exists d|exists (pool s)|exists d]; (split; [done|by left]).
Qed.

Lemma wrap_atomically {A} R text (m : M Storage A) n s :
  atomically R s (st_of (m n s)) (res_of (m n s)) ->
  atomically R s (st_of (wrap_err text m n s)) (res_of (wrap_err text m n s)).
Proof.
  unfold wrap_err, st_of, res_of. destruct (m n s) as [[n' s'] []]; try done.
  intros (d & Hd & [[H1 _]|(a & ws & H1 & H2 & _)]); exists d; (split; [done|]); [by left|right].
  exists a, ws. split_and!; [done|done|right; eauto].
Qed.
End Atomic.
