(* ===== verification/PgFlow.v ===== *)
(** * Dispatch on the Postgres backend, without faults and other sessions

    Which job [Dequeue] picks, and what it leaves. *)
From S2P Require Import Prelude.
From S2P Require Import GoTime.
From S2P Require Import Strconv.
From S2P Require Import Job.
From S2P Require Import StorageI.
From S2P Require Import StorageSpec.
From S2P Require Import PgServer.
From S2P Require Import PgSql.
From S2P Require Import Postgres.
From S2P Require Import PgRun.
From S2P Require Import PgSpec.
From S2P Require Import PgIsolation.
From S2P Require Import PgInvariant.
From S2P Require Import PgStatements.

#[export] Instance by_token_trans : Transitive by_token.
Proof. intros a b c. unfold by_token. lia. Qed.

#[export] Instance by_token_total : Total by_token.
Proof. intros a b. unfold by_token. lia. Qed.

(** A job that waits in one of the queues, and none of those has an older token. *)
Record oldest (T : Tables) (queues : list string) (id : string) (r : job_row) : Prop := {
  ol_row : t_jobs T !! id = Some r;
  ol_queued : queued StateEnqueued queues (id, r);
  ol_least : forall id' r', t_jobs T !! id' = Some r' -> queued StateEnqueued queues (id', r') ->
    jr_queue_token r <= jr_queue_token r';
}.

Section Flow.
Context {EV : Env} {PG : Postgres} {SD : StateData} (server_clock : nat -> Time).
#[local] Hint Extern 0 Network => exact (quiet server_clock) : typeclass_instances.
Hypothesis clock_mono : forall n, clock n <= clock (S n).

Lemma select_next_picks queues T q seed now :
  forallb text_in queues = true -> (exists id r, t_jobs T !! id = Some r /\ queued StateEnqueued queues (id, r)) ->
  exists id r ls, oldest T queues id r /\
    select_next StateEnqueued queues (mkSnapshot seed now [] T) q = (q, inl ([], ls, [id])).
Proof.
  intros Ht (id0 & r0 & Hr0 & Hq0).
  destruct (select_next_run StateEnqueued queues (mkSnapshot seed now [] T) q) as (o & Ho & Hn).
  destruct o as [[[ws ls] ids]|]; [|congruence]. destruct Hn as (-> & next & -> & -> & Hnext). simpl in Hnext.
  set (l := filter (queued StateEnqueued queues) (row_order seed (map_to_list (t_jobs T)))) in *.
  assert (forall id r, (id, r) ∈ merge_sort by_token l <-> t_jobs T !! id = Some r /\ queued StateEnqueued queues (id, r)) as Hin.
  { intros id r. rewrite merge_sort_Permutation. unfold l. rewrite list_elem_of_filter, row_order_perm, elem_of_map_to_list. tauto. }
  pose proof (StronglySorted_merge_sort by_token l) as Hs.
  rewrite filter_all in Hnext by (intros x _; apply not_elem_of_nil). destruct (merge_sort by_token l) as [|[id r] rest] eqn:Hm.
  { assert ((id0, r0) ∈ []) as He by by apply Hin. by apply elem_of_nil in He. }
  exists id, r. eexists. rewrite Hnext in Ho. split; [|exact Ho].
  destruct (proj1 (Hin id r)) as [Hr Hq]; [by left|]. split; [done..|].
  intros id' r' Hr' Hq'. assert ((id', r') ∈ (id, r) :: rest) as He by by apply Hin.
  apply StronglySorted_inv in Hs as [_ Hs]. rewrite Forall_forall in Hs.
  apply elem_of_cons in He as [He|He]; [by simplify_eq|]. exact (Hs _ He).
Qed.

(** The state a dispatch adds. *)
Definition taken_by (sid : string) (t : Time) : JobState :=
  stored_state (mkJobState StateProcessing "" (Some {[ "server_id" := sid ]}) t).

(** The oldest job in a transaction of its own. *)
Lemma lock_next_does queues n s :
  forallb text_in queues = true ->
  (exists id r, t_jobs (tables (pool s)) !! id = Some r /\ queued StateEnqueued queues (id, r)) ->
  exists id r s', oldest (tables (pool s)) queues id r /\
    mtry (scan_row (tx_exec Live (select_next StateEnqueued queues))) (S n) (mkSession s (tx_begun (server_clock n)))
      = (S (S n), s', Ok (inl id)) /\
    tx_at (tables (pool s)) (tables (pool s)) (seqs (pool s)) (serverID s) s'.
Proof.
  intros Ht Hex.
  destruct (select_next_picks queues (tables (pool s)) (seqs (pool s)) (S n) (server_clock n) Ht Hex)
    as (id & r & ls & Ho & Hr).
  exists id, r. eexists. split; [exact Ho|]. split.
  - apply mtry_ok. unfold scan_row. erewrite mbind_ok by (unfold tx_exec; simpl; rewrite Hr; reflexivity).
    reflexivity.
  - done.
Qed.

Lemma tryDequeue_run queues n s :
  pg_inv n s -> forallb text_in queues = true ->
  (exists id r, t_jobs (tables (pool s)) !! id = Some r /\ queued StateEnqueued queues (id, r)) ->
  exists n' s' id r tok t jw,
    tryDequeue Live queues n s = (n', s', Ok (mkJobTicket id tok)) /\ (n <= n')%nat /\
    oldest (tables (pool s)) queues id r /\ view_job (tables (pool s)) id = Some jw /\
    pg_inv n' s' /\ only_job id (with_state jw (taken_by (serverID s) t)) s s'.
Proof.
  intros HI Ht Hex. unfold tryDequeue. rewrite in_tx_live.
  destruct (lock_next_does queues n s Ht Hex) as (id & r & s1 & Hold & H1 & Ht1). pose proof (ol_row _ _ _ _ Hold) as Hrow.
  destruct (pi_job _ _ HI _ _ Hrow) as (Hrid & Hid & _).
  erewrite mbind_ok by exact H1. cbv beta iota. erewrite mbind_ok by reflexivity. set (now := clock (S (S n))).
  assert (text_ok StateProcessing) as Hn by (by apply text_in_plain).
  destruct (tx_step server_clock _ _ _ _ _ _ _ _ (S (S (S n))) s1 "dequeue update" Ht1
    (update_job_state_does id StateProcessing (fun _ => Some (ts now)) now _ _ r Hid Hn Hrow)) as (s2 & now2 & H2 & Ht2).
  rewrite H2. erewrite mbind_ok by reflexivity. cbv zeta. rewrite (ta_server _ _ _ _ _ Ht2).
  destruct (marshal_stored (Some {[ "server_id" := serverID s ]})) as (d & Hd & Hdd).
  { intros k v Hkv. apply lookup_singleton_Some in Hkv as [<- <-]. split; [by apply text_in_plain|]. apply HI. }
  destruct (tx_step server_clock _ _ _ _ _ _ _ _ (S (S (S (S n)))) s2 "dequeue state" Ht2
    (insert_state_does id StateProcessing None (Some (data_Marshal {[ "server_id" := serverID s ]})) d now _ _ Hid Hn eq_refl Hd
      (job_written _ _ _))) as (s3 & now3 & H3 & Ht3). rewrite H3.
  destruct (bump_does server_clock _ _ _ _ (S (S (S (S (S n))))) s3 "dequeued" 1 (text_in_plain "dequeued" eq_refl) Ht3)
    as (s4 & V & H4 & Ht4 & [HJ HS HC HO]). erewrite mbind_ok by exact H4.
  destruct (Commit_does server_clock _ _ _ _ (S (S (S (S (S (S n)))))) s4 Ht4) as (s5 & H5 & Hs5).
  erewrite mbind_ok by (apply wrap_err_ok; exact H5). unfold mret. rewrite Hs5.
  set (x := mkStateRow (next_state (seqs (pool s))) id StateProcessing None d (ts now)).
  set (r' := with_progress StateProcessing (Some (ts now)) now r).
  match goal with |- context [(_, ?st, Ok _)] => set (s' := st) end.
  do 2 eexists. exists id, r. eexists. exists now. eexists.
  split; [reflexivity|]. split; [lia|]. split; [exact Hold|].
  split; [unfold view_job; rewrite Hrow; reflexivity|].
  assert (scan_state x = taken_by (serverID s) now) as <-.
  { unfold scan_state, taken_by, stored_state. simpl. by rewrite Hdd. }
  unfold with_state. simpl. change (scanJobFromRow r) with (scanJobFromRow r').
  apply (pg_push clock_mono n _ s s' id r r' x now);
    first [done | exact HJ | exact HS | exact HO | lia | idtac].
  - intros k v Hkv. left. unfold s' in Hkv. simpl in Hkv. rewrite HC in Hkv. exact Hkv.
  - split; apply (clock_le clock_mono); lia.
Qed.

(** ** Promotion of scheduled jobs *)

(** The storage a transaction would leave if it committed now. *)
Definition as_storage (V : Tables) (q : Seqs) (sid : string) : Storage := mkStorage (mkDb V q) sid.

Definition promoted (t : Time) : JobState := stored_state (mkJobState StateEnqueued "scheduled" None t).

(** The rows of scheduled_jobs without those of [ids]. *)
Definition unscheduled (ids : list string) (V V' : Tables) : Prop :=
  forall k v, t_scheduled V' !! k = Some v <-> t_scheduled V !! k = Some v /\ k ∉ ids.

Lemma delete_scheduled_view id V :
  (forall k v, t_scheduled V !! k = Some v -> sc_job_id v = k) ->
  let V' := apply_writes ((fun kv : string * scheduled_row => WScheduled kv.1 None) <$>
      map_to_list (filter (fun kv : string * scheduled_row => sc_job_id kv.2 = id) (t_scheduled V))) V in
  V' = drop_scheduled V (t_scheduled V') /\ unscheduled [id] V V'.
Proof.
  intros Hk V'. unfold V'. rewrite drop_scheduled_writes. split; [done|]. intros k v. simpl.
  rewrite drop_filtered. simpl. rewrite list_elem_of_singleton. split.
  - intros [Hv Hn]. split; [done|]. intros ->. apply Hn. by apply Hk.
  - intros [Hv Hn]. split; [done|]. intros He. apply Hn. by rewrite <- He, (Hk k v Hv).
Qed.

(** What promoting [ids] at the instant [t] writes: state and update time of the jobs ... *)
Definition set_enqueued (t : Time) (r : job_row) : job_row :=
  with_progress StateEnqueued (jr_progress_at r) t r.

(** ... and one state for each, numbered by the sequence. *)
Fixpoint add_promoted (z : Z) (t : Time) (ids : list string) (m : gmap Z state_row) : gmap Z state_row :=
  match ids with
  | [] => m
  | id :: ids =>
    add_promoted (z + 1) t ids (<[z := mkStateRow z id StateEnqueued (Some "scheduled") "{}" (ts t)]> m)
  end.

(** All the tables and sequences after it; only the time of the two counters is left open. *)
Record rows_promoted (ids : list string) (t : Time) (q q' : Seqs) (V V' : Tables) : Prop := {
  rp_jobs : forall id, t_jobs V' !! id = (if decide (id ∈ ids) then set_enqueued t <$> t_jobs V !! id else t_jobs V !! id);
  rp_states : t_states V' = add_promoted (next_state q) t ids (t_states V);
  rp_scheduled : unscheduled ids V V';
  rp_recurring : t_recurring V' = t_recurring V;
  rp_conts : t_conts V' = t_conts V;
  rp_servers : t_servers V' = t_servers V;
  rp_locks : t_locks V' = t_locks V;
  rp_counters : forall key, key ∉ ["scheduled"; "enqueued"] -> t_counters V' !! key = t_counters V !! key;
  rp_scheduled_counter : counter_value V' "scheduled" = counter_value V "scheduled" - Z.of_nat (length ids);
  rp_enqueued_counter : counter_value V' "enqueued" = counter_value V "enqueued" + Z.of_nat (length ids);
  rp_seqs : q' = mkSeqs (next_token q) (next_state q + Z.of_nat (length ids)) (next_cont q);
}.

Lemma rows_promoted_nil t q V : rows_promoted [] t q q V V.
Proof.
  split; try done.
  - intros k v. split; [intros Hv; split; [done|apply not_elem_of_nil]|by intros []].
  - simpl. lia.
  - simpl. lia.
  - destruct q; simpl. f_equal. lia.
Qed.

Lemma rows_promoted_cons id ids t q q1 q2 V V1 V2 :
  id ∉ ids -> rows_promoted [id] t q q1 V V1 -> rows_promoted ids t q1 q2 V1 V2 ->
  rows_promoted (id :: ids) t q q2 V V2.
Proof.
  intros Hid [J1 S1 D1 R1 C1 V1' L1 K1 KS1 KE1 Q1] [J2 S2 D2 R2 C2 V2' L2 K2 KS2 KE2 Q2]. simpl in *. split.
  - intros i. rewrite J2, J1. specialize (not_elem_of_nil i).
    repeat case_decide; rewrite ?elem_of_cons in *; try done; naive_solver.
  - rewrite S2, S1, Q1. done.
  - intros i v. rewrite (D2 i v), (D1 i v), list_elem_of_singleton, not_elem_of_cons. tauto.
  - by rewrite R2.
  - by rewrite C2.
  - by rewrite V2'.
  - by rewrite L2.
  - intros key Hk. by rewrite K2, K1.
  - simpl length. lia.
  - simpl length. lia.
  - rewrite Q2, Q1. simpl. f_equal. lia.
Qed.

(** The tables a promotion leaves alone. *)
Definition same_rest (V V' : Tables) : Prop :=
  t_recurring V' = t_recurring V /\ t_servers V' = t_servers V /\ t_locks V' = t_locks V /\
  t_counters V' = t_counters V.

(** The writes of one promotion, once the rows of the schedule are gone. *)
Lemma promoted_rows id t r now4 now5 q V V1 :
  t_jobs V !! id = Some r -> t_jobs V1 = t_jobs V -> t_states V1 = t_states V -> t_conts V1 = t_conts V ->
  same_rest V V1 -> unscheduled [id] V V1 ->
  let x := mkStateRow (next_state q) id StateEnqueued (Some "scheduled") "{}" (ts t) in
  let V3 := apply_writes [WState (next_state q) (Some x)] (apply_writes [WJob id (Some (set_enqueued t r))] V1) in
  let V4 := apply_writes [WCounter "scheduled"
    (Some (mkCounterRow "scheduled" (counter_value V3 "scheduled" + -1) now4))] V3 in
  let V5 := apply_writes [WCounter "enqueued"
    (Some (mkCounterRow "enqueued" (counter_value V4 "enqueued" + 1) now5))] V4 in
  rows_promoted [id] t q (mkSeqs (next_token q) (next_state q + 1) (next_cont q)) V V5.
Proof.
  intros Hr HJ HS HO (HR & HV & HL & HK) Hun x V3 V4 V5.
  assert (forall T T', t_counters T = t_counters T' -> forall key, counter_value T key = counter_value T' key) as Hcv
    by (unfold counter_value; by intros ? ? ->).
  split; try done.
  - intros i. simpl. rewrite put_row_insert, lookup_insert, HJ.
    case_decide as Hi; case_decide as Hi'; rewrite list_elem_of_singleton in Hi'; subst; try done. by rewrite Hr.
  - simpl. by rewrite HS.
  - intros key Hk. simpl. rewrite !put_row_insert, !lookup_insert_ne, HK by (intros <-; set_solver). done.
  - unfold counter_value at 1. simpl. rewrite !put_row_insert, lookup_insert_ne, lookup_insert_eq by done. simpl.
    rewrite (Hcv V3 V) by done. lia.
  - unfold counter_value at 1. simpl. rewrite !put_row_insert, lookup_insert_eq. simpl. unfold counter_value at 1. simpl.
    rewrite put_row_insert, lookup_insert_ne, HK by done. fold (counter_value V "enqueued"). lia.
Qed.

(** One turn of the loop of [GetDueScheduled]; [k] is the call that gave the instant. *)
Lemma pg_promote_run id jw k T0 V q sid n s :
  pg_inv k (as_storage V q sid) -> tx_at T0 V q sid s -> view_job V id = Some jw ->
  exists V' q' s',
    promote Live (clock k) id n s = (S (S (S (S (S n)))), s', Ok (mkJobTicket id ("sched-" +:+ id))) /\
    tx_at T0 V' q' sid s' /\ pg_inv k (as_storage V' q' sid) /\
    only_job id (with_state jw (promoted (clock k))) (as_storage V q sid) (as_storage V' q' sid) /\
    rows_promoted [id] (clock k) q q' V V'.
Proof.
  intros HI Ht Hv. destruct (view_row _ _ _ Hv) as [r Hrow].
  destruct (pg_current k _ id jw r HI Hv Hrow) as (_ & Hid & Hjw).
  destruct (pi_job _ _ HI _ _ Hrow) as (Hrid & _). simpl in Hrow, Hjw.
  assert (text_ok StateEnqueued) as Hn by (by apply text_in_plain).
  assert (text_ok "scheduled") as Hs by (by apply text_in_plain).
  unfold promote.
  destruct (tx_step server_clock _ _ _ _ _ _ _ _ n s "due scheduled delete" Ht (delete_scheduled_does id _ _ Hid))
    as (s1 & now1 & H1 & Ht1). rewrite H1. clear H1.
  destruct (delete_scheduled_view id V) as [HV1 Hun].
  { intros y v Hy. by apply (pi_scheduled _ _ HI) in Hy as (_ & ? & _). }
  set (V1 := apply_writes _ V) in *.
  assert (t_jobs V1 = t_jobs V /\ t_states V1 = t_states V /\ t_conts V1 = t_conts V) as (HJ1 & HS1 & HO1)
    by (rewrite HV1; done).
  assert (same_rest V V1) as HR1 by (rewrite HV1; done).
  assert (t_jobs V1 !! id = Some r) as Hrow1 by by rewrite HJ1.
  destruct (tx_step server_clock _ _ _ _ _ _ _ _ (S n) s1 "due scheduled update" Ht1
    (update_job_state_does id StateEnqueued jr_progress_at (clock k) _ _ r Hid Hn Hrow1)) as (s2 & now2 & H2 & Ht2).
  rewrite H2. clear H2.
  destruct (tx_step server_clock _ _ _ _ _ _ _ _ (S (S n)) s2 "due scheduled state" Ht2
    (insert_state_does id StateEnqueued (Some "scheduled") None "{}" (clock k) _ _ Hid Hn
      ltac:(simpl; by rewrite Hs) jsonb_in_object (job_written _ _ _))) as (s3 & now3 & H3 & Ht3).
  rewrite H3. clear H3.
  destruct (bumpCounter_does server_clock _ _ _ _ (S (S (S n))) s3 "scheduled" (-1) Hs Ht3) as (s4 & now4 & H4 & Ht4).
  erewrite mbind_ok by exact H4. set (V4 := apply_writes [WCounter "scheduled" _] _) in *.
  destruct (bumpCounter_does server_clock _ _ _ _ (S (S (S (S n)))) s4 "enqueued" 1 (text_in_plain "enqueued" eq_refl) Ht4)
    as (s5 & now5 & H5 & Ht5). erewrite mbind_ok by exact H5. set (V5 := apply_writes [WCounter "enqueued" _] V4) in *.
  set (x := mkStateRow (next_state q) id StateEnqueued (Some "scheduled") "{}" (ts (clock k))).
  set (r' := with_progress StateEnqueued (jr_progress_at r) (clock k) r).
  set (q' := mkSeqs (next_token q) (next_state q + 1) (next_cont q)) in *.
  exists V5, q', s5. split; [reflexivity|]. split; [exact Ht5|].
  assert (t_jobs V5 = <[id := r']> (t_jobs V) /\ t_states V5 = <[next_state q := x]> (t_states V))
    as [J5 S5] by (split; simpl; by rewrite ?HJ1, ?HS1).
  enough (pg_inv k (as_storage V5 q' sid) /\
    only_job id (with_state jw (promoted (clock k))) (as_storage V q sid) (as_storage V5 q' sid)) as [? ?].
  { split_and!; [done|done|]. by eapply promoted_rows. }
  assert (scan_state x = promoted (clock k)) as <- by reflexivity.
  rewrite Hjw. unfold with_state. simpl. change (scanJobFromRow r) with (scanJobFromRow r').
  apply (pg_push clock_mono k k (as_storage V q sid) (as_storage V5 q' sid) id r r' x (clock k));
    first [exact Hrow | exact J5 | exact S5 | exact HO1 | done | lia | idtac].
  intros y v Hy. left. by apply Hun.
Qed.

(** All of [ids] promoted, and nothing else. *)
Record promoted_all (ids : list string) (t : Time) (V V' : Tables) : Prop := {
  pa_jobs : forall id, id ∈ ids -> exists jw,
    view_job V id = Some jw /\ view_job V' id = Some (with_state jw (promoted t));
  pa_rest : forall id, id ∉ ids -> view_job V' id = view_job V id;
  pa_conts : forall p, by_parent V' p = by_parent V p;
  pa_scheduled : unscheduled ids V V';
}.

Lemma pg_promote_all_run ids k T0 V q sid n s :
  NoDup ids -> (forall id, id ∈ ids -> is_Some (view_job V id)) ->
  pg_inv k (as_storage V q sid) -> tx_at T0 V q sid s ->
  exists n' V' q' s',
    mmap ids (promote Live (clock k)) n s = (n', s', Ok ((fun id => mkJobTicket id ("sched-" +:+ id)) <$> ids)) /\
    (n <= n')%nat /\ tx_at T0 V' q' sid s' /\ pg_inv k (as_storage V' q' sid) /\ promoted_all ids (clock k) V V' /\
    rows_promoted ids (clock k) q q' V V'.
Proof.
  intros Hnd. revert V q n s. induction Hnd as [|id ids Hid Hnd IH]; intros V q n s Hex HI Ht.
  { exists n, V, q, s. split_and!; [done|done|done|done| |apply rows_promoted_nil].
    split; [by intros i Hi%elem_of_nil|done|done|apply (rp_scheduled _ _ _ _ _ _ (rows_promoted_nil (clock k) q V))]. }
  destruct (Hex id) as [jw Hv]; [by left|].
  destruct (pg_promote_run id jw k T0 V q sid n s HI Ht Hv) as (V1 & q1 & s1 & H1 & Ht1 & HI1 & [O1 O2 O3] & HR1).
  simpl in O1, O2, O3.
  destruct (IH V1 q1 (S (S (S (S (S n))))) s1) as (n' & V' & q' & s' & H2 & Hle & Ht2 & HI2 & [P1 P2 P3 P4] & HR2); [|done|done|].
  { intros i Hi. rewrite O2; [apply Hex; by right|]. by intros ->. }
  pose proof (rows_promoted_cons _ _ _ _ _ _ _ _ _ Hid HR1 HR2) as HR.
  exists n', V', q', s'. split; [|split_and!; [lia|done|done|split|exact HR]].
  - simpl. erewrite mbind_ok by exact H1. by erewrite mbind_ok by exact H2.
  - intros i [->|Hi]%elem_of_cons; [exists jw; split; [done|]; by rewrite P2|].
    destruct (P1 i Hi) as (jw' & Hi1 & Hi2). exists jw'. split; [|done]. rewrite <- O2; [done|]. by intros ->.
  - intros i [Hi Hi']%not_elem_of_cons. rewrite P2 by done. by apply O2.
  - intros p. by rewrite P3, O3.
  - apply HR.
Qed.

(** ** Which rows are due *)
#[local] Instance by_due_trans : Transitive by_due.
Proof. intros a b c. unfold by_due. lia. Qed.

#[local] Instance by_due_total : Total by_due.
Proof. intros a b. unfold by_due. lia. Qed.

Definition due (T : Tables) (now : Time) (id : string) (y : scheduled_row) : Prop :=
  t_scheduled T !! id = Some y /\ sc_enqueue_at y <= ts now.

(** The jobs that are due first, at most [limit] of them. *)
Record first_due (T : Tables) (now : Time) (limit : Z) (ids : list string) : Prop := {
  fd_nodup : NoDup ids;
  fd_due : forall id, id ∈ ids -> exists y, due T now id y;
  fd_first : forall id y id' y', id ∈ ids -> id' ∉ ids -> due T now id y -> due T now id' y' ->
    sc_enqueue_at y <= sc_enqueue_at y';
  fd_bound : Z.of_nat (length ids) <= limit;
  fd_full : Z.of_nat (length ids) < limit -> forall id y, due T now id y -> id ∈ ids;
}.

(** With room for every row, none is left out. *)
Lemma first_due_all T now limit ids id y :
  first_due T now limit ids -> Z.of_nat (size (t_scheduled T)) <= limit -> due T now id y -> id ∈ ids.
Proof.
  intros [F1 F2 _ F4 F5] Hroom Hd. destruct (decide (id ∈ ids)) as [|Hn]; [done|].
  destruct (Z.lt_ge_cases (Z.of_nat (length ids)) limit) as [Hlt|Hge]; [by apply (F5 Hlt id y)|].
  assert (list_to_set (id :: ids) ⊆@{gset string} dom (t_scheduled T)) as Hsub.
  { intros i Hi%elem_of_list_to_set. apply elem_of_dom. apply elem_of_cons in Hi as [->|Hi]; [exists y; apply Hd|].
    destruct (F2 i Hi) as (z & Hz & _). by exists z. }
  apply subseteq_size in Hsub. rewrite size_list_to_set, size_dom in Hsub by by constructor. simpl in Hsub. lia.
Qed.

Lemma select_due_picks T q seed t now limit :
  (forall k y, t_scheduled T !! k = Some y -> sc_job_id y = k) -> 0 <= limit ->
  exists ids ls, select_due now limit (mkSnapshot seed t [] T) q = (q, inl ([], ls, ids)) /\ first_due T now limit ids.
Proof.
  intros Hk Hl. unfold select_due, scan, page, sql_skip. unfold sql_bind, sql_ret, sql_check, takes. simpl.
  rewrite (proj2 (Z.leb_le 0 limit) Hl). simpl. do 2 eexists. split; [reflexivity|].
  rewrite filter_all by (intros x _; apply not_elem_of_nil). rewrite drop_0.
  set (l := merge_sort by_due _).
  assert (forall y, y ∈ l <-> exists k, due T now k y) as Hin.
  { intros y. unfold l. rewrite merge_sort_Permutation, list_elem_of_filter, row_order_perm.
    change ((map_to_list (t_scheduled T)).*2) with (rows (t_scheduled T)). rewrite elem_of_rows.
    unfold due. naive_solver. }
  assert (NoDup (sc_job_id <$> l)) as Hnd.
  { unfold l. rewrite merge_sort_Permutation, row_order_perm.
    eapply sublist_NoDup; [|apply fmap_sublist, sublist_filter].
    assert (sc_job_id <$> (map_to_list (t_scheduled T)).*2 = (map_to_list (t_scheduled T)).*1) as ->;
      [|apply NoDup_fst_map_to_list].
    rewrite <- list_fmap_compose. apply list_fmap_ext. intros i [k y] Hy. simpl.
    apply Hk. apply elem_of_map_to_list. by eapply list_elem_of_lookup_2. }
  assert (forall x y, x ∈ take (Z.to_nat limit) l -> y ∈ drop (Z.to_nat limit) l -> by_due x y) as Hord.
  { intros x y. apply StronglySorted_app_1_elem_of. rewrite take_drop. apply StronglySorted_merge_sort; apply _. }
  assert (forall y, y ∈ take (Z.to_nat limit) l -> y ∈ l) as Htk by (intros y (i & Hy & _)%elem_of_take; by eapply list_elem_of_lookup_2).
  assert (forall id y, due T now id y -> sc_job_id y = id) as Hid by (intros id y [Hy _]; by apply Hk).
  split.
  - eapply sublist_NoDup; [exact Hnd|]. apply fmap_sublist, sublist_take.
  - intros id (y & -> & Hy)%list_elem_of_fmap. destruct (proj1 (Hin y) (Htk y Hy)) as [k Hd].
    exists y. by rewrite (Hid _ _ Hd).
  - intros id y id' y' (z & -> & Hz)%list_elem_of_fmap Hn Hd Hd'.
    destruct (proj1 (Hin z) (Htk z Hz)) as [k Hdz]. pose proof (Hid _ _ Hdz). subst k.
    destruct Hd as [Hy _], Hdz as [Hy2 _]. assert (z = y) as -> by congruence. apply Hord; [done|].
    assert (y' ∈ l) as Hl' by (apply Hin; by exists id'). rewrite <- (take_drop (Z.to_nat limit) l) in Hl'.
    apply elem_of_app in Hl' as [Hl'|]; [|done]. destruct Hn. apply list_elem_of_fmap. exists y'.
    by rewrite (Hid _ _ Hd').
  - rewrite length_fmap, length_take. lia.
  - rewrite length_fmap, length_take. intros Hlt id y Hd. apply list_elem_of_fmap. exists y.
    split; [symmetry; by apply Hid|]. rewrite take_ge by lia. apply Hin. by exists id.
Qed.

Lemma pg_GetDueScheduled_run now batchSize n s :
  pg_inv n s -> exists n' s' ids t,
    GetDueScheduled Live now batchSize n s
      = (n', s', Ok ((fun id => mkJobTicket id ("sched-" +:+ id)) <$> ids)) /\
    (n <= n')%nat /\ pg_inv n' s' /\
    first_due (tables (pool s)) now (if batchSize <=? 0 then 100 else batchSize) ids /\
    promoted_all ids t (tables (pool s)) (tables (pool s')) /\
    rows_promoted ids t (seqs (pool s)) (seqs (pool s')) (tables (pool s)) (tables (pool s')) /\
    serverID s' = serverID s.
Proof.
  intros HI. unfold GetDueScheduled. rewrite in_tx_live. cbv zeta.
  set (limit := if batchSize <=? 0 then 100 else batchSize).
  destruct (select_due_picks (tables (pool s)) (seqs (pool s)) (S n) (server_clock n) now limit) as (ids & ls & Hsel & Hfd).
  { intros k y Hy. by apply (pi_scheduled _ _ HI). }
  { unfold limit. destruct (Z.leb_spec batchSize 0); lia. }
  set (s1 := mkSession s (tx_add [] ls (tx_begun (server_clock n)))).
  assert (tx_exec Live (select_due now limit) (S n) (mkSession s (tx_begun (server_clock n))) = (S (S n), s1, Ok ids)) as H1.
  { unfold tx_exec. simpl. rewrite Hsel. unfold s1. by destruct s as [[T q] sid]. }
  erewrite mbind_ok by (apply wrap_err_ok; exact H1). erewrite mbind_ok by reflexivity.
  destruct (pg_promote_all_run ids (S (S n)) (tables (pool s)) (tables (pool s)) (seqs (pool s)) (serverID s) (S (S (S n))) s1)
    as (n2 & V & q & s2 & H2 & Hle & Ht2 & HI2 & Hall & Hrows); [apply Hfd| | |done|].
  { intros id Hid. destruct (fd_due _ _ _ _ Hfd id Hid) as (y & Hy & _).
    destruct (pi_scheduled _ _ HI _ _ Hy) as (_ & _ & [r Hr]). unfold view_job. by rewrite Hr. }
  { destruct s as [[T q] sid]. apply (pg_inv_le clock_mono n); [lia|exact HI]. }
  erewrite mbind_ok by exact H2.
  destruct (Commit_does server_clock _ _ _ _ n2 s2 Ht2) as (s3 & H3 & Hs3).
  erewrite mbind_ok by (apply wrap_err_ok; exact H3). unfold mret. rewrite Hs3.
  do 2 eexists. exists ids, (clock (S (S n))). split; [reflexivity|]. split; [lia|].
  split; [|by split_and!]. apply (pg_inv_le clock_mono (S (S n))); [lia|exact HI2].
Qed.

(** ** Back to the queue, and deletion *)
Lemma check_reversible_does T0 V q sid n s id r :
  tx_at T0 V q sid s -> uuid_in id = Some id -> t_jobs V !! id = Some r -> IrreversibleStates (jr_state r) = false ->
  exists s', check_reversible Live id n s = (S n, s', Ok tt) /\ tx_at T0 V q sid s'.
Proof.
  intros Ht Hid Hr Hi.
  destruct (tx_exec_does server_clock (select_state id) T0 V q no_writes q [jr_state r] sid n s Ht) as (s' & now & He & Ht').
  { intros seed now. unfold select_state. destruct (select_job_does id V q Hid seed now) as [ls Hs].
    unfold sql_bind at 1. rewrite Hs, Hr. by eexists. }
  exists s'. split; [|done]. unfold check_reversible, scan_row.
  erewrite mbind_ok by (apply mtry_ok; erewrite mbind_ok by exact He; reflexivity). cbv beta iota. by rewrite Hi.
Qed.

(** The two writes of [Requeue] and [DeleteJob], once the job was found reversible. *)
Lemma reverse_does {A} id name reason T0 V q sid n s r text text' now (k : M Session A) :
  tx_at T0 V q sid s -> uuid_in id = Some id -> t_jobs V !! id = Some r -> text_ok name ->
  forallb text_in (option_list reason) = true -> exists s',
    (affected <- wrap_err text (tx_exec Live (update_job_state id name (fun _ => None) now)) ;;
     if affected =? 0 then mthrow ErrNotFound else
     wrap_err text' (tx_exec Live (insert_state id name reason None now)) ;;; k) n s = k (S (S n)) s' /\
    tx_at T0 (apply_writes [WJob id (Some (with_progress name None now r));
                            WState (next_state q) (Some (mkStateRow (next_state q) id name reason "{}" (ts now)))] V)
      (mkSeqs (next_token q) (next_state q + 1) (next_cont q)) sid s'.
Proof.
  intros Ht Hid Hr Hn Hre.
  destruct (tx_step server_clock _ _ _ _ _ _ _ _ n s text Ht
    (update_job_state_does id name (fun _ => None) now _ _ r Hid Hn Hr)) as (s1 & now1 & H1 & Ht1). rewrite H1.
  change (1 =? 0) with false. cbv iota.
  destruct (tx_step server_clock _ _ _ _ _ _ _ _ (S n) s1 text' Ht1
    (insert_state_does id name reason None "{}" now _ _ Hid Hn Hre jsonb_in_object (job_written _ _ _))) as (s2 & now2 & H2 & Ht2).
  rewrite H2. by exists s2.
Qed.

Lemma pg_DeleteJob_run id jw n s :
  pg_inv n s -> view_job (tables (pool s)) id = Some jw -> IrreversibleStates (CurrentState jw) = false ->
  exists n' s' t, DeleteJob Live id n s = (n', s', Ok tt) /\ (n <= n')%nat /\ pg_inv n' s' /\
    only_job id (with_state jw (stored_state (mkJobState StateDeleted "" None t))) s s' /\
    t_scheduled (tables (pool s')) = t_scheduled (tables (pool s)).
Proof.
  intros HI Hv Hi. destruct (view_row _ _ _ Hv) as [r Hrow].
  destruct (pg_current n s id jw r HI Hv Hrow) as (Hc & Hid & Hjw). rewrite Hc in Hi.
  destruct (pi_job _ _ HI _ _ Hrow) as (Hrid & _).
  unfold DeleteJob. rewrite in_tx_live.
  destruct (check_reversible_does _ _ _ _ (S n) _ id r (tx_at_begun (server_clock n) s) Hid Hrow Hi) as (s1 & H1 & Ht1).
  erewrite mbind_ok by exact H1. erewrite mbind_ok by reflexivity. set (now := clock (S (S n))).
  destruct (reverse_does id StateDeleted None _ _ _ _ (S (S (S n))) s1 r "delete update" "delete state" now (Commit Live)
    Ht1 Hid Hrow (text_in_plain StateDeleted eq_refl) eq_refl) as (s2 & H2 & Ht2). rewrite H2.
  destruct (Commit_does server_clock _ _ _ _ (S (S (S (S (S n))))) s2 Ht2) as (s3 & H3 & Hs3). rewrite H3, Hs3.
  match goal with |- context [(_, ?st, Ok _)] => set (s' := st) end.
  set (x := mkStateRow (next_state (seqs (pool s))) id StateDeleted None "{}" (ts now)).
  set (r' := with_progress StateDeleted None now r).
  do 2 eexists. exists now. split; [reflexivity|]. split; [lia|].
  assert (scan_state x = stored_state (mkJobState StateDeleted "" None now)) as <- by reflexivity.
  enough (pg_inv (S (S (S (S (S (S n)))))) s' /\ only_job id (with_state jw (scan_state x)) s s') as [? ?] by by split_and!.
  rewrite Hjw. unfold with_state. simpl. change (scanJobFromRow r) with (scanJobFromRow r').
  apply (pg_push clock_mono n _ s s' id r r' x now); try done; try lia.
  - by left.
  - split; apply (clock_le clock_mono); lia.
Qed.
End Flow.
