(* ===== verification/PgProps.v ===== *)
(** * Properties of the Postgres backend *)
From S2P Require Import Prelude.
From S2P Require Import GoTime.
From S2P Require Import Strconv.
From S2P Require Import Job.
From S2P Require Import StorageI.
From S2P Require Import StorageSpec.
From S2P Require Import Retry.
From S2P Require Import Handler.
From S2P Require Import Json.
From S2P Require Import Engine.
From S2P Require Import EngineProps.
From S2P Require Import PgServer.
From S2P Require Import PgSql.
From S2P Require Import Postgres.
From S2P Require Import PgRun.
From S2P Require Import PgSpec.
From S2P Require Import PgIsolation.
From S2P Require Import PgInvariant.
From S2P Require Import PgStatements.
From S2P Require Import PgSafe.
From S2P Require Import PgAtomic.
From S2P Require Import PgFlow.

(** ** Whatever the network and the other sessions do *)
Section Interference.
Context {EV : Env} {PG : Postgres} {NW : Network} {SD : StateData}.

(** C4. The tables stay consistent: identifiers are unique canonical UUIDs, idempotency keys are
    unique, every state, scheduled row and continuation refers to a job that exists, and the
    state of each job is the last entry of its history.  Every operation keeps this wherever
    the connection breaks, and whatever other sessions that keep it commit in between. *)
Theorem pg_consistent {A} (m : M Storage A) n s :
  polite -> operation m -> db_ok (pool s) -> db_ok (pool (st_of (m n s))).
Proof. intros Hp Hm Hs. exact (operation_consistent Hp m Hm n s Hs). Qed.

(** C8. A transition is one compare-and-set: [ApplyState] either commits nothing and fails, or it
    commits, at one instant, a job whose state was the expected one, its new state and one more
    entry of its history, and counters; also when the answer of the commit is lost. *)
Theorem pg_apply_state_atomic ctx jobID expected st n s :
  let r := ApplyState ctx jobID expected st n s in
  atomically (fun _ T ws => exists now, (IsZero (st_CreatedAt st) = false -> now = st_CreatedAt st) /\
      transition jobID expected (fun r => if bool_decide (st_Name st <> StateProcessing) then None else jr_progress_at r)
        (st_Name st) now (nullIfEmpty (st_Reason st)) (Some (marshalStateData (st_Data st))) T ws)
    s (st_of r) (res_of r).
Proof. apply ApplyState_atomically. Qed.

(** C10. A job is dispatched to one worker only: a ticket is the work of a transaction that finds the
    job Enqueued in one of the queues when it commits, and makes it Processing at that instant. *)
Theorem pg_dispatch_exclusive ctx queues n s :
  stable [] keys_ok -> keys_ok (tables (pool s)) ->
  let r := tryDequeue ctx queues n s in
  atomically (dispatched queues) s (st_of r) (res_of r).
Proof. intros Hst Hk. by apply (tryDequeue_atomically Hst (db_clock n)). Qed.

(** C24. A lock has one owner: [AcquireLock] returns a handle only when it has written its row at an
    instant at which no other row for the resource was unexpired by the server's clock; any
    other outcome but a lost answer leaves the locks as they are. *)
Theorem pg_lock_exclusive ctx resource ttl n s :
  let r := AcquireLock ctx resource ttl n s in
  atomically (takes_lock (db_clock (S (S n))) resource (uuid n) (Add (clock (S n)) ttl))
    s (st_of r) (res_of r).
Proof. apply AcquireLock_atomically. Qed.

(** C18. The cleanup removes exactly the jobs in Succeeded, Failed or Deleted last written before the
    cutoff (not those in Dead or Cancelled, which documents count among the finished ones), with
    their histories, their rows in the schedule and their continuations, at one instant, and says
    how many they were. *)
Theorem pg_remove_expired ctx cutoff n s :
  let r := RemoveExpired ctx cutoff n s in
  let finished := [StateSucceeded; StateFailed; StateDeleted] in
  atomically (fun count T ws => cascade finished cutoff T (apply_writes ws T) /\
      count = Z.of_nat (size (goers finished cutoff T))) s (st_of r) (res_of r).
Proof.
  apply wrap_atomically, pool_exec_atomically. intros sn q q' ws ls a Hr.
  destruct (delete_jobs_run [StateSucceeded; StateFailed; StateDeleted] cutoff sn q) as (ws' & Hr' & Hc).
  rewrite Hr in Hr'. by simplify_eq.
Qed.

Lemma forallb_perm {A} (f : A -> bool) l l' : l ≡ₚ l' -> forallb f l = forallb f l'.
Proof. induction 1; simpl; try congruence. by rewrite !andb_assoc, (andb_comm (f y)). Qed.

Lemma select_next_perm state queues queues' sn q :
  queues ≡ₚ queues' -> select_next state queues sn q = select_next state queues' sn q.
Proof.
  intros HP. unfold select_next, scan_keys, sql_skip, as_texts. unfold sql_bind.
  rewrite (forallb_perm _ _ _ HP). destruct (sql_check _ _ sn q) as [q1 [[[ws ls] []]|]]; [|done].
  rewrite (list_filter_iff (queued state queues) (queued state queues')); [done|].
  intros r. unfold queued. by rewrite HP.
Qed.

Lemma tx_exec_ext {A} ctx (stmt stmt' : sql A) n s :
  (forall sn q, stmt sn q = stmt' sn q) -> tx_exec ctx stmt n s = tx_exec ctx stmt' n s.
Proof. intros He. unfold tx_exec. destruct ctx; [|done]. case_match; [done|]. case_match; [done|]. by rewrite He. Qed.

Lemma mbind_ext {S A B} (m m' : M S A) (k k' : A -> M S B) n s :
  m n s = m' n s -> (forall a n s, k a n s = k' a n s) -> mbind m k n s = mbind m' k' n s.
Proof. intros Hm Hk. unfold mbind. rewrite Hm. by destruct (m' n s) as [[? ?] []]. Qed.

Lemma mtry_ext {S A} (m m' : M S A) n s : m n s = m' n s -> mtry m n s = mtry m' n s.
Proof. intros Hm. unfold mtry. by rewrite Hm. Qed.

Lemma tryDequeue_perm ctx queues queues' n s :
  queues ≡ₚ queues' -> tryDequeue ctx queues n s = tryDequeue ctx queues' n s.
Proof.
  intros HP. unfold tryDequeue, in_tx. destruct ctx; [|done]. destruct (fault_at n) as [[]|]; [done|].
  erewrite mbind_ext; [reflexivity| |done]. apply mtry_ext, mbind_ext; [|done].
  apply tx_exec_ext. intros sn q. by apply select_next_perm.
Qed.

(** C40. The order of the queues does not count on Postgres: lists with the same names get the same
    job, from any state and on any network, where the documentation says that they are taken
    in order of priority. *)
Theorem pg_queue_order_ignored ctx queues queues' timeout wakes n s :
  queues ≡ₚ queues' -> Dequeue ctx queues timeout wakes n s = Dequeue ctx queues' timeout wakes n s.
Proof.
  intros HP. pose proof (Permutation_length HP) as Hl. unfold Dequeue.
  destruct (decide (length queues = 0%nat)), (decide (length queues' = 0%nat)); try done; try lia.
  apply mbind_ext; [done|]. intros now.
  clear n s. generalize (Add now timeout). intros deadline.
  induction wakes as [|w wakes IH]; intros n s; simpl.
  all: apply mbind_ext; [apply mtry_ext; by apply tryDequeue_perm|]; intros [t|err] m t'; [done|].
  all: case_match; [done|]; apply mbind_ext; [done|]; intros; case_match; [done|]; case_match; [|done]; try done.
  apply mbind_ext; [done|]. intros; by case_match.
Qed.
End Interference.

(** ** When nothing interferes *)
Section Quiet.
Context {EV : Env} {JS : Json} {PG : Postgres} {SD : StateData} (server_clock : nat -> Time).
#[local] Hint Extern 0 Network => exact (quiet server_clock) : typeclass_instances.
Hypothesis clock_mono : forall n, clock n <= clock (S n).
Hypothesis uuid_valid : forall n, uuid_in (uuid n) = Some (uuid n).




(** C26. What Postgres gives back of a job is what it was given: its name, queue and arguments (as
    jsonb writes them), 10 for a maximum of 0 retries, and the timeout in whole milliseconds;
    but not its idempotency key. *)
Theorem pg_job_roundtrip q j n s :
  pg_inv n s -> ID j = "" -> q <> "" -> Queue j = q -> job_ok j ->
  exists n1 s1 id n2 jw, Enqueue Live q j n s = (n1, s1, Ok id) /\
    GetJob Live id n1 s1 = (n2, s1, Ok jw) /\
    ID (jw_Job jw) = id /\ Name (jw_Job jw) = Name j /\ Queue (jw_Job jw) = q /\
    Args (jw_Job jw) = stored_args (Args j) /\ Timeout (jw_Job jw) = stored_timeout (Timeout j) /\
    RetryMax (jw_Job jw) = (if decide (RetryMax j = 0) then 10 else RetryMax j) /\
    IdempotencyKey (jw_Job jw) = "" /\ CurrentState jw = StateEnqueued.
Proof.
  intros HI Hj Hq Hjq Hok.
  destruct (pg_Enqueue server_clock clock_mono uuid_valid q j n s HI Hj Hq Hjq Hok)
    as (n1 & s1 & id & j' & st & Hr & HI1 & _ & Ho & Hst & Hn & Ha & Hqq & Hm & Ht).
  pose proof (oj_job _ _ _ _ Ho : view_job (tables (pool s1)) id = _) as Hv.
  destruct (view_row _ _ _ Hv) as [r Hrow]. destruct (pi_job _ _ HI1 _ _ Hrow) as (Hid & Hu & _).
  destruct (pg_GetJob server_clock id n1 s1 HI1 Hu) as (n2 & _ & Hg). rewrite Hv in Hg.
  exists n1, s1, id, n2, (mkJobWithStates j' [st]). split; [done|]. split; [exact Hg|].
  unfold view_job in Hv. rewrite Hrow in Hv. simplify_eq/=. split_and!; done.
Qed.

(** A timeout is stored in whole milliseconds, rounded towards zero, and no timeout overflows on
    the way back; one below a millisecond becomes 0, which is no timeout. *)
Theorem pg_timeout_truncated d :
  int64_ok d ->
  0 <= stored_timeout d /\ stored_timeout d mod Millisecond = 0 /\
  (0 < d -> stored_timeout d <= d < stored_timeout d + Millisecond) /\
  (stored_timeout d = 0 <-> d < Millisecond).
Proof.
  intros Hd. unfold stored_timeout, durationFromMS, timeoutMS, mul64, Millisecond, Microsecond, int64_ok in *.
  destruct (Z.leb_spec d 0) as [Hle|Hgt]; [change (0 <=? 0) with true; cbv iota; split_and!; try done; lia|]. rewrite Z.quot_div_nonneg by lia.
  pose proof (Z.div_mod d 1000000). pose proof (Z.mod_pos_bound d 1000000).
  destruct (Z.leb_spec (d / 1000000) 0) as [Hz|Hz]; [split_and!; try done; lia|].
  rewrite wrap64_small by (unfold int64_ok; lia). rewrite Z.mod_mul by done. lia.
Qed.

(** A result of more than 65536 bytes is cut there before it is stored; when what is left is not
    JSON the database refuses it, and the job stays Processing although its handler succeeded,
    its record and its history being as they were. *)
Lemma pg_long_result_lost job attempt result n (e : Engine Storage) :
  65536 < blen result -> jsonb_in (default "" (bprefix 65536 result)) = None ->
  exists n' s', settle Live job attempt (result, None) n e = (n', set_storage s' e, Ok tt) /\
    tables (pool s') = tables (pool (eng_storage e)).
Proof.
  intros Hlen Hbad. exists (S n), (eng_storage e). split; [|done]. unfold settle.
  assert (SetJobResult Live (ID job) result n (eng_storage e)
    = (S n, eng_storage e, Err (ErrWrap ("set job result: " +:+ "invalid input syntax for type json")
        (ErrText "invalid input syntax for type json")))) as Hr.
  { unfold SetJobResult. rewrite (proj2 (Z.ltb_lt _ _) Hlen). unfold exec_found, wrap_err, pool_exec, set_result, as_jsonb.
    unfold bprefix in *. destruct result as [b|]; [|done]. simpl in Hbad. unfold mbind, sql_bind. simpl. rewrite Hbad. simpl.
    by destruct (eng_storage e) as [[T q] sid]. }
  assert (finalizeSuccess Live (ID job) result n e = (S n, e, Err (ErrWrap ("set job result: " +:+
    "invalid input syntax for type json") (ErrText "invalid input syntax for type json")))) as Hf.
  { unfold finalizeSuccess. rewrite (proj2 (Z.ltb_lt 0 (blen result))) by lia. apply mbind_err.
    unfold on_storage, mlift. simpl. rewrite Hr. by rewrite set_storage_same. }
  erewrite mbind_ok by (apply mtry_err; exact Hf). by rewrite set_storage_same.
Qed.

(** C16. The scheduler promotes the jobs that are due, the longest due first and at most a batch of
    them, each exactly once.  What changes, in all the tables and sequences: the state and the
    update time of their rows; one state Enqueued each, added to their histories, with the next
    numbers of the sequence; their rows leave the schedule; the counter "scheduled" goes down and
    "enqueued" up by their number (the update time of these two rows is the server's).  The other
    jobs, states and schedule rows, the other counters, recurring definitions, continuations,
    servers and locks are as they were. *)
Theorem pg_promotes_due now batchSize n s :
  pg_inv n s -> exists n' s' ids t,
    GetDueScheduled Live now batchSize n s
      = (n', s', Ok ((fun id => mkJobTicket id ("sched-" +:+ id)) <$> ids)) /\
    pg_inv n' s' /\ first_due (tables (pool s)) now (if batchSize <=? 0 then 100 else batchSize) ids /\
    promoted_all ids t (tables (pool s)) (tables (pool s')) /\
    rows_promoted ids t (seqs (pool s)) (seqs (pool s')) (tables (pool s)) (tables (pool s')) /\
    serverID s' = serverID s.
Proof.
  intros HI. destruct (pg_GetDueScheduled_run server_clock clock_mono now batchSize n s HI)
    as (n' & s' & ids & t & Hr & _ & HI' & Hd & HP & HR & Hid).
  by exists n', s', ids, t.
Qed.

(** Deleting a job that waits in the schedule does not stop it: its row stays there, and when it
    is due and the batch has room the scheduler sets the deleted job to Enqueued, to be run. *)
Lemma pg_deleted_still_promoted id jw y now batchSize n s :
  pg_inv n s -> view_job (tables (pool s)) id = Some jw -> IrreversibleStates (CurrentState jw) = false ->
  due (tables (pool s)) now id y ->
  Z.of_nat (size (t_scheduled (tables (pool s)))) <= (if batchSize <=? 0 then 100 else batchSize) ->
  exists n1 s1 n2 s2 tickets t1 t2,
    DeleteJob Live id n s = (n1, s1, Ok tt) /\
    GetDueScheduled Live now batchSize n1 s1 = (n2, s2, Ok tickets) /\
    mkJobTicket id ("sched-" +:+ id) ∈ tickets /\
    view_job (tables (pool s2)) id
      = Some (with_state (with_state jw (stored_state (mkJobState StateDeleted "" None t1))) (promoted t2)).
Proof.
  intros HI Hv Hi Hdue Hroom.
  destruct (pg_DeleteJob_run server_clock clock_mono id jw n s HI Hv Hi) as (n1 & s1 & t1 & H1 & _ & HI1 & Ho & Hsc).
  destruct (pg_GetDueScheduled_run server_clock clock_mono now batchSize n1 s1 HI1)
    as (n2 & s2 & ids & t2 & H2 & _ & _ & Hfd & [P1 _ _ _] & _).
  assert (due (tables (pool s1)) now id y) as Hdue1 by (unfold due in *; by rewrite Hsc).
  assert (id ∈ ids) as Hid.
  { eapply first_due_all; [exact Hfd|by rewrite Hsc|exact Hdue1]. }
  destruct (P1 id Hid) as (jw1 & Hv1 & Hv2).
  pose proof (oj_job _ _ _ _ Ho : view_job (tables (pool s1)) id = _) as Hv1'. rewrite Hv1' in Hv1. simplify_eq.
  exists n1, s1, n2, s2. do 3 eexists. split; [exact H1|]. split; [exact H2|]. split; [|exact Hv2].
  apply list_elem_of_fmap. by exists id.
Qed.
End Quiet.

(** ** Requeue among other sessions *)
Section Race.
Context {EV : Env} {PG : Postgres} {NW : Network} {SD : StateData}.
Hypothesis clock_mono : forall n, clock n <= clock (S n).
Hypothesis no_fault : forall n, fault_at n = None.
Hypothesis no_skip : forall n, skip_at n = [].

(** The session once the others have come in. *)
Definition met (n : nat) (s : Session) : Session :=
  mkSession (set_pool (others_at n (tx_locks (ss_tx s)) (pool (ss_storage s))) (ss_storage s)) (ss_tx s).

Lemma tx_exec_met {A} (stmt : sql A) n s :
  tx_failed (ss_tx s) = false -> tx_exec Live stmt n s = tx_exec (NW := quiet db_clock) Live stmt n (met n s).
Proof. intros Ha. unfold tx_exec, met. simpl. by rewrite no_fault, no_skip, Ha. Qed.

Lemma met_calm n s : (forall L d, others_at n L d = d) -> met n s = s.
Proof. intros Ho. unfold met. rewrite Ho. by destruct s as [[? ?] ?]. Qed.

Lemma tx_exec_calm {A} (stmt : sql A) n s :
  (forall L d, others_at n L d = d) -> tx_exec Live stmt n s = tx_exec (NW := quiet db_clock) Live stmt n s.
Proof.
  intros Ho. unfold tx_exec. simpl. rewrite no_fault, no_skip, Ho. done.
Qed.

Lemma Commit_calm n s :
  (forall L d, others_at n L d = d) -> Commit Live n s = Commit (NW := quiet db_clock) Live n s.
Proof. intros Ho. unfold Commit. simpl. by rewrite no_fault, Ho. Qed.

Lemma check_calm id n s :
  (forall L d, others_at n L d = d) ->
  check_reversible Live id n s = check_reversible (NW := quiet db_clock) Live id n s.
Proof.
  intros Ho. apply mbind_ext; [|done]. apply mtry_ext, mbind_ext; [|done]. by rewrite tx_exec_calm.
Qed.

Lemma exec_bind {N : Network} {A B} text (stmt : sql A) (k k' : A -> M Session B) n s :
  (forall a s, k a (S n) s = k' a (S n) s) ->
  (x <- wrap_err text (tx_exec Live stmt) ;; k x) n s = (x <- wrap_err text (tx_exec Live stmt) ;; k' x) n s.
Proof.
  intros Hk. unfold mbind, wrap_err. destruct (tx_exec Live stmt n s) as [[n1 s1] o] eqn:He.
  assert (n1 = S n) as ->; [|by destruct o].
  revert He. unfold tx_exec. repeat case_match; by intros [= <-].
Qed.

Lemma reverse_met {A} id name reason text text' now n s (k k' : M Session A) :
  tx_failed (ss_tx s) = false -> (forall L d, others_at (S n) L d = d) ->
  (forall s, k (S (S n)) s = k' (S (S n)) s) ->
  (affected <- wrap_err text (tx_exec Live (update_job_state id name (fun _ => None) now)) ;;
   if affected =? 0 then mthrow ErrNotFound else
   wrap_err text' (tx_exec Live (insert_state id name reason None now)) ;;; k) n s
  = (affected <- wrap_err text (tx_exec (NW := quiet db_clock) Live (update_job_state id name (fun _ => None) now)) ;;
     if affected =? 0 then mthrow ErrNotFound else
     wrap_err text' (tx_exec (NW := quiet db_clock) Live (insert_state id name reason None now)) ;;; k') n (met n s).
Proof.
  intros Ha Ho Hk.
  transitivity ((affected <- wrap_err text (tx_exec (NW := quiet db_clock) Live (update_job_state id name (fun _ => None) now)) ;;
    if affected =? 0 then mthrow ErrNotFound else
    wrap_err text' (tx_exec Live (insert_state id name reason None now)) ;;; k) n (met n s)).
  - unfold mbind at 1 3. unfold wrap_err at 1 3. by rewrite tx_exec_met.
  - apply exec_bind. intros a t. case_match; [done|].
    transitivity ((wrap_err text' (tx_exec Live (insert_state id name reason None now)) ;;; k') (S n) t).
    + by apply exec_bind.
    + unfold mbind, wrap_err. by rewrite tx_exec_calm.
Qed.

Lemma check_begun id r n s now :
  (forall L d, others_at n L d = d) -> uuid_in id = Some id -> t_jobs (tables (pool s)) !! id = Some r ->
  IrreversibleStates (jr_state r) = false ->
  check_reversible Live id n (mkSession s (tx_begun now)) = (S n, mkSession s (tx_begun now), Ok tt).
Proof.
  intros Ho Hid Hr Hi. unfold check_reversible, scan_row.
  assert (tx_exec Live (select_state id) n (mkSession s (tx_begun now)) = (S n, mkSession s (tx_begun now), Ok [jr_state r])) as He.
  { unfold tx_exec. simpl. rewrite no_fault, Ho. unfold select_state, select_job, as_uuid. rewrite Hid.
    unfold sql_bind, sql_ret. simpl. rewrite Hr. simpl. by destruct s as [[T q] sid]. }
  erewrite mbind_ok by (apply mtry_ok; erewrite mbind_ok by exact He; reflexivity). cbv beta iota. by rewrite Hi.
Qed.

(** C27. [Requeue] checks the state of the job without locking it: when another worker's outcome is
    committed between the check and the update, both calls succeed, and a job that has
    Succeeded is Enqueued to run again. *)
Theorem pg_requeue_revives id jw reason nB n s :
  pg_inv n s -> view_job (tables (pool s)) id = Some jw -> CurrentState jw = StateProcessing -> text_ok reason ->
  (n <= nB)%nat -> (forall m L d, m <> S (S (S n)) -> others_at m L d = d) ->
  (forall d, others_at (S (S (S n))) [] d = pool (st_of (ApplyState (NW := quiet db_clock) Live id StateProcessing
      (newJobState StateSucceeded "" None) nB (mkStorage d "other")))) ->
  exists nB' sB jwB n' s' r,
    ApplyState (NW := quiet db_clock) Live id StateProcessing (newJobState StateSucceeded "" None) nB
      (mkStorage (pool s) "other") = (nB', sB, Ok tt) /\
    view_job (tables (pool sB)) id = Some jwB /\ CurrentState jwB = StateSucceeded /\
    Requeue Live id reason n s = (n', s', Ok tt) /\
    t_jobs (tables (pool s')) !! id = Some r /\ jr_state r = StateEnqueued.
Proof.
  intros HI Hv Hp Hre Hle Hcalm Hrace. destruct (view_row _ _ _ Hv) as [r Hrow].
  destruct (pg_current n s id jw r HI Hv Hrow) as (Hc & Hid & _). rewrite Hp in Hc.
  assert (pg_inv nB (mkStorage (pool s) "other")) as HIB.
  { apply (pg_inv_le clock_mono n); [done|]. destruct HI as [H1 H2 H3 H4 H5]. split; try done. by apply text_in_plain. }
  pose proof (pg_ApplyState db_clock clock_mono id StateProcessing StateSucceeded "" None jw nB _ HIB Hv) as HB.
  rewrite decide_True in HB by done.
  destruct HB as (nB' & sB & t & HrB & HIB' & HoB); [by unfold known_state; rewrite !elem_of_cons; tauto|by apply text_in_plain|done|].
  pose proof (oj_job _ _ _ _ HoB : view_job (tables (pool sB)) id = _) as HvB. destruct (view_row _ _ _ HvB) as [rB HrowB].
  assert (others_at (S (S (S n))) [] (pool s) = pool sB) as Hd by (by rewrite Hrace, HrB).
  assert (forall m s, m <> S (S (S n)) -> met m s = s) as Hmet by (intros; apply met_calm; auto).
  set (s1 := mkSession s (tx_begun (db_clock n))).
  set (s1' := mkSession (mkStorage (pool sB) (serverID s)) (tx_begun (db_clock n))).
  assert (met (S (S (S n))) s1 = s1') as Hm by (unfold met, s1, s1', set_pool; simpl; by rewrite Hd).
  assert (tx_at (tables (pool sB)) (tables (pool sB)) (seqs (pool sB)) (serverID s) s1') as Ht1 by done.
  destruct (reverse_does db_clock id StateEnqueued (Some reason) _ _ _ _ (S (S (S n))) s1' rB "requeue update"
    "requeue state" (clock (S (S n))) (wrap_err "requeue commit" (Commit (NW := quiet db_clock) Live)) Ht1 Hid HrowB)
    as (s2 & H2 & Ht2); [by apply text_in_plain|unfold text_ok in Hre; simpl; by rewrite Hre|].
  destruct (Commit_does db_clock _ _ _ _ (S (S (S (S (S n))))) s2 Ht2) as (s3 & H3 & Hs3).
  exists nB', sB. do 3 eexists. exists (with_progress StateEnqueued None (clock (S (S n))) rB).
  split; [exact HrB|]. split; [exact HvB|]. split; [by unfold CurrentState; simpl; rewrite current_snoc|]. split.
  - unfold Requeue, in_tx. rewrite no_fault.
    erewrite mbind_ok by (apply (check_begun id r); [by intros; apply Hcalm; lia|done|done|by rewrite <- Hc]). erewrite mbind_ok by reflexivity.
    erewrite reverse_met; [|done|by intros; apply Hcalm; lia|].
    + fold s1. rewrite Hm, H2. erewrite wrap_err_ok by exact H3. rewrite Hs3. reflexivity.
    + intros s4. unfold wrap_err. by rewrite Commit_calm by (intros; apply Hcalm; lia).
  - split; [|done]. simpl. by rewrite put_row_insert, lookup_insert_eq.
Qed.
End Race.

(** ** The theorems on a concrete server *)
Section Witnesses.
#[local] Instance E4 : Env := env_at 0.
#[local] Existing Instance plain_postgres.
#[local] Existing Instance bits_data.
#[local] Existing Instance tree_Json.

Definition ticks (n : nat) : Time := Z.of_nat n * Second.

#[local] Hint Extern 0 Network => exact (quiet ticks) : typeclass_instances.

Lemma ticking n : clock n <= clock (S n).
Proof. simpl. unfold Second. lia. Qed.

Lemma numbered n : uuid_in (uuid n) = Some (uuid n).
Proof. done. Qed.

Definition no_jobs : Storage := New (mkDb no_rows (mkSeqs 1 1 1)).

Lemma no_jobs_inv n : pg_inv n no_jobs.
Proof. by split. Qed.

Definition mailing : Job := mkJob "" "mail" (Some "[1]") "default" 0 (1500 * Microsecond) "" 0 None.

Lemma mailing_ok : job_ok mailing.
Proof. split; vm_compute; try done. by eexists. Qed.

(** A server with one job that waits. *)
Definition one_waits : Storage := st_of (Enqueue Live "default" mailing 0%nat no_jobs).

Definition its_job : JobWithStates :=
  match view_job (tables (pool one_waits)) "id-0" with Some jw => jw | None => mkJobWithStates mailing [] end.

Lemma one_waits_inv : pg_inv 20 one_waits.
Proof.
  destruct (pg_Enqueue ticks ticking numbered "default" mailing 0 no_jobs (no_jobs_inv 0)) as
    (n' & s' & id & j' & st & Hr & HI & _); [done..|apply mailing_ok|].
  assert (n' = 7%nat) as ->.
  { transitivity (tick_of (Enqueue Live "default" mailing 0%nat no_jobs)); [by rewrite Hr|]. vm_compute. reflexivity. }
  unfold one_waits. rewrite Hr. apply (pg_inv_le ticking 7); [lia|done].
Qed.

Lemma one_waits_view : view_job (tables (pool one_waits)) "id-0" = Some its_job.
Proof. vm_compute. reflexivity. Qed.

Lemma pg_job_roundtrip_witness : exists n1 s1 id n2 jw,
  Enqueue Live "default" mailing 0%nat no_jobs = (n1, s1, Ok id) /\
  GetJob Live id n1 s1 = (n2, s1, Ok jw) /\
  Args (jw_Job jw) = Some "[1]" /\ Timeout (jw_Job jw) = Millisecond /\ RetryMax (jw_Job jw) = 10.
Proof.
  destruct (pg_job_roundtrip ticks ticking numbered "default" mailing 0%nat no_jobs)
    as (n1 & s1 & id & n2 & jw & H1 & H2 & _ & _ & _ & Ha & Ht & Hr & _).
  - apply no_jobs_inv.
  - done.
  - done.
  - done.
  - exact mailing_ok.
  - exists n1, s1, id, n2, jw. split; [exact H1|]. split; [exact H2|].
    split; [exact Ha|]. split; [exact Ht|exact Hr].
Defined.

Lemma pg_timeout_truncated_witness : stored_timeout (1500 * Microsecond) = Millisecond /\ stored_timeout 999999 = 0.
Proof.
  split; [|apply (pg_timeout_truncated 999999); by vm_compute].
  destruct (pg_timeout_truncated (1500 * Microsecond)) as (_ & _ & _ & _); [by vm_compute|]. reflexivity.
Defined.

Definition pg_engine (s : Storage) : Engine Storage := mkEngine s None ∅ ∅ ∅ [] true false.


(** The job has failed and waits for its retry, due at [late]. *)
Definition late : Time := 100 * Second.

Definition retrying : Storage :=
  st_of (ScheduleRetry Live "id-0" late 30%nat
    (st_of (ApplyState Live "id-0" StateEnqueued (newJobState StateFailed "" None) 20%nat one_waits))).

Definition its_retry : JobWithStates :=
  match view_job (tables (pool retrying)) "id-0" with Some jw => jw | None => its_job end.

Lemma retrying_inv : pg_inv 50 retrying.
Proof.
  pose proof (pg_ApplyState ticks ticking "id-0" StateEnqueued StateFailed "" None its_job 20%nat one_waits
    one_waits_inv one_waits_view) as H1.
  assert (CurrentState its_job = StateEnqueued) as Hc by (vm_compute; reflexivity). rewrite decide_True in H1 by exact Hc.
  destruct H1 as (n1 & s1 & t & Hr1 & HI1 & Ho1); [unfold known_state; rewrite !elem_of_cons; tauto|done|done|].
  assert (n1 = 27%nat) as ->.
  { transitivity (tick_of (ApplyState Live "id-0" StateEnqueued (newJobState StateFailed "" None) 20%nat one_waits));
      [by rewrite Hr1|]. vm_compute. reflexivity. }
  pose proof (oj_job _ _ _ _ Ho1 : view_job (tables (pool s1)) "id-0" = _) as Hv1.
  destruct (pg_ScheduleRetry ticks ticking "id-0" late _ 30%nat s1 (pg_inv_le ticking 27 30 _ ltac:(lia) HI1) Hv1)
    as (n2 & s2 & st & Hr2 & HI2 & _); [unfold CurrentState; simpl; by rewrite current_snoc|].
  assert (ScheduleRetry Live "id-0" late 30%nat
    (st_of (ApplyState Live "id-0" StateEnqueued (newJobState StateFailed "" None) 20%nat one_waits))
    = (n2, s2, Ok tt)) as Hr by (rewrite Hr1; exact Hr2).
  unfold retrying. rewrite Hr. apply (pg_inv_le ticking n2); [|done]. apply Nat.leb_le.
  change n2 with (tick_of (n2, s2, Ok tt)). rewrite <- Hr. vm_compute. reflexivity.
Qed.

Lemma retrying_view : view_job (tables (pool retrying)) "id-0" = Some its_retry.
Proof. vm_compute. reflexivity. Qed.

Definition its_row : scheduled_row := mkScheduledRow "id-0" "id-0" late (32 * Second).

Lemma retry_due : due (tables (pool retrying)) late "id-0" its_row.
Proof. split; vm_compute; done. Qed.

Lemma pg_promotes_due_witness : exists n' s',
  GetDueScheduled Live late 0 50%nat retrying = (n', s', Ok [mkJobTicket "id-0" "sched-id-0"]) /\
  counter_value (tables (pool s')) "scheduled" = counter_value (tables (pool retrying)) "scheduled" - 1.
Proof.
  destruct (pg_promotes_due ticks ticking late 0 50%nat retrying retrying_inv)
    as (n' & s' & ids & t & Hr & _ & _ & _ & [_ _ _ _ _ _ _ _ Hc _ _] & _).
  assert ((fun id => mkJobTicket id ("sched-" +:+ id)) <$> ids = [mkJobTicket "id-0" "sched-id-0"]) as Hids.
  { transitivity (match res_of (GetDueScheduled Live late 0 50%nat retrying) with Ok l => l | _ => [] end);
      [by rewrite Hr|]. vm_compute. reflexivity. }
  exists n', s'. split; [rewrite Hr; by rewrite Hids|]. rewrite Hc. apply (f_equal length) in Hids.
  rewrite length_fmap in Hids. by rewrite Hids.
Defined.

Lemma pg_deleted_still_promoted_witness : exists n1 s1 n2 s2 tickets,
  DeleteJob Live "id-0" 50%nat retrying = (n1, s1, Ok tt) /\
  GetDueScheduled Live late 10 n1 s1 = (n2, s2, Ok tickets) /\ mkJobTicket "id-0" "sched-id-0" ∈ tickets.
Proof.
  destruct (pg_deleted_still_promoted ticks ticking "id-0" its_retry its_row late 10 50%nat retrying
    retrying_inv retrying_view) as (n1 & s1 & n2 & s2 & tickets & t1 & t2 & H1 & H2 & H3 & _).
  - vm_compute. reflexivity.
  - exact retry_due.
  - vm_compute. discriminate.
  - exists n1, s1, n2, s2, tickets. split; [exact H1|]. split; [exact H2|exact H3].
Defined.

(** A long object: cut, it has lost its last brace. *)
Definition long_object : string := "{" +:+ Pos.iter (String "a"%char) "}" 70000.

Lemma pg_long_result_lost_witness : exists n' s',
  settle Live mailing 1 (Some long_object, None) 20%nat (pg_engine one_waits)
    = (n', set_storage s' (pg_engine one_waits), Ok tt).
Proof.
  destruct (pg_long_result_lost ticks mailing 1 (Some long_object) 20%nat (pg_engine one_waits)) as (n' & s' & Hr & _).
  - vm_compute. reflexivity.
  - vm_compute. reflexivity.
  - exists n', s'. exact Hr.
Defined.

Lemma pg_queue_order_ignored_witness :
  Dequeue Live ["urgent"; "default"] 0 [] 20%nat one_waits = Dequeue Live ["default"; "urgent"] 0 [] 20%nat one_waits.
Proof. apply pg_queue_order_ignored. constructor. Defined.
End Witnesses.

(** ** ... and among other sessions *)
Section Busy.
#[local] Existing Instance E4.
#[local] Existing Instance plain_postgres.
#[local] Existing Instance bits_data.

(** Another session enqueues a job of its own. *)
Definition other_id (n : nat) : string := "other-" +:+ pretty n.

Definition other_row (n : nat) (q : Seqs) : job_row :=
  mkJobRow (other_id n) (next_token q) "mail" "[]" "default" StateEnqueued 10 0 None (ticks n) (ticks n) None None.

Definition other_state (n : nat) (q : Seqs) : state_row :=
  mkStateRow (next_state q) (other_id n) StateEnqueued None "{}" (ticks n).

Definition other_enqueue (n : nat) (L : list lockkey) (d : Db) : Db :=
  if decide (t_jobs (tables d) !! other_id n = None /\ t_states (tables d) !! next_state (seqs d) = None /\
             KJob (other_id n) ∉ L /\ KState (next_state (seqs d)) ∉ L)
  then mkDb (apply_writes [WJob (other_id n) (Some (other_row n (seqs d)));
                           WState (next_state (seqs d)) (Some (other_state n (seqs d)))] (tables d))
         (mkSeqs (next_token (seqs d)) (next_state (seqs d) + 1) (next_cont (seqs d)))
  else d.

Lemma other_enqueue_locked n L d k : k ∈ L -> same_at k (tables d) (tables (other_enqueue n L d)).
Proof.
  intros Hk. unfold other_enqueue. destruct (decide _) as [(H1 & H2 & H3 & H4)|]; [|by destruct k].
  destruct k as [id|z| | | | | | |key]; simpl; rewrite ?put_row_insert, ?lookup_insert_ne by congruence; try done.
  unfold has_key. simpl. split; intros (i & r & Hr & Hkey); exists i, r; (split; [|done]).
  - rewrite lookup_insert_ne by congruence. done.
  - rewrite lookup_insert in Hr. by case_decide; simplify_eq.
Qed.

(** Everybody enqueues between two of our statements, and the connection breaks at the
    27th call, after the statement. *)
#[local] Instance busy : Network := {|
  fault_at n := if (n =? 26)%nat then Some (true, ErrText "EOF") else None;
  db_clock := ticks; skip_at _ := []; others_at := other_enqueue; others_locked := other_enqueue_locked
|}.

Lemma busy_polite : polite.
Proof.
  intros n L d Hd. change (others_at n L d) with (other_enqueue n L d). unfold other_enqueue.
  destruct (decide _) as [(H1 & H2 & H3 & H4)|]; [|split; [done|split; [split; lia|done]]]. split_and!.
  - apply (tables_put_state _ (seqs d) (other_id n)).
    apply (tables_new_job _ (seqs d) (seqs d) (other_id n) (other_row n (seqs d)) Hd); done.
  - split; simpl; lia.
  - intros id Hid z x Hx. simpl. rewrite put_row_insert. destruct (decide (z = next_state (seqs d))) as [->|Hz].
    + rewrite lookup_insert_eq, H2. split; [done|]. intros [= <-]. simpl in Hx. congruence.
    + by rewrite lookup_insert_ne.
Qed.

Lemma busy_keys : stable [] keys_ok.
Proof.
  intros n L d _ Hd. change (others_at n L d) with (other_enqueue n L d). unfold other_enqueue.
  destruct (decide _); [|done]. intros id r. simpl. rewrite put_row_insert, lookup_insert.
  case_decide; [|apply Hd]. by subst id.
Qed.

Lemma pg_consistent_witness : db_ok (pool (st_of (Dequeue Live ["default"] 0 [] 20%nat no_jobs))).
Proof.
  apply (pg_consistent (Dequeue Live ["default"] 0 [])).
  - exact busy_polite.
  - apply op_Dequeue. constructor.
  - by split.
Defined.

(** The first of the others' jobs is dispatched, although the answer of the commit is lost. *)
Lemma pg_dispatch_exclusive_witness :
  let r := tryDequeue Live ["default"] 20%nat no_jobs in
  atomically (dispatched ["default"]) no_jobs (st_of r) (res_of r) /\ (exists err, res_of r = Err err) /\
  (jr_state <$> (t_jobs (tables (pool (st_of r))) !! "other-21")) = Some StateProcessing.
Proof.
  split; [|split; [eexists; vm_compute; reflexivity|vm_compute; reflexivity]].
  apply (pg_dispatch_exclusive Live ["default"] 20%nat no_jobs busy_keys). intros id r Hr. done.
Defined.
End Busy.

(** ** ... and in a race *)
Section Racing.
#[local] Existing Instance E4.
#[local] Existing Instance plain_postgres.
#[local] Existing Instance bits_data.

(** The job is being processed. *)
Definition one_runs : Storage := st_of (tryDequeue (NW := quiet ticks) Live ["default"] 20%nat one_waits).

Definition its_run : JobWithStates :=
  match view_job (tables (pool one_runs)) "id-0" with Some jw => jw | None => its_job end.

(** A worker of another process reports that the job succeeded. *)
Definition its_worker (d : Db) : Db :=
  pool (st_of (ApplyState (NW := quiet ticks) Live "id-0" StateProcessing (newJobState StateSucceeded "" None) 40%nat
    (mkStorage d "other"))).

(** It gets in at the fourth call, unless the rows it writes are locked. *)
Definition its_worker_at (n : nat) (L : list lockkey) (d : Db) : Db :=
  if decide (n = 33%nat /\ L = []) then its_worker d else d.

Lemma its_worker_locked n L d k : k ∈ L -> same_at k (tables d) (tables (its_worker_at n L d)).
Proof.
  intros Hk. unfold its_worker_at. destruct (decide _) as [[_ ->]|]; [by apply not_elem_of_nil in Hk|by destruct k].
Qed.

#[local] Instance racing_worker : Network := {|
  fault_at _ := None; db_clock := ticks; skip_at _ := []; others_at := its_worker_at; others_locked := its_worker_locked
|}.

Lemma one_runs_inv : pg_inv 30 one_runs.
Proof.
  destruct (tryDequeue_run ticks ticking ["default"] 20%nat one_waits one_waits_inv) as
    (n1 & s1 & id & r & tok & t & jw & Hd & _ & _ & _ & HI & _).
  - done.
  - eexists "id-0", _. split; [vm_compute; reflexivity|]. split; [done|by left].
  - unfold one_runs. rewrite Hd. apply (pg_inv_le ticking n1); [|exact HI]. apply Nat.leb_le.
    change n1 with (tick_of (n1, s1, Ok (mkJobTicket id tok))). rewrite <- Hd. vm_compute. reflexivity.
Qed.

Lemma pg_requeue_revives_witness : exists n' s' r,
  Requeue Live "id-0" "again" 30%nat one_runs = (n', s', Ok tt) /\
  t_jobs (tables (pool s')) !! "id-0" = Some r /\ jr_state r = StateEnqueued.
Proof.
  destruct (pg_requeue_revives (NW := racing_worker) ticking (fun _ => eq_refl) (fun _ => eq_refl) "id-0" its_run "again" 40%nat 30%nat one_runs)
    as (nB' & sB & jwB & n' & s' & r & _ & _ & _ & H1 & H2 & H3).
  - exact one_runs_inv.
  - vm_compute. reflexivity.
  - vm_compute. reflexivity.
  - done.
  - lia.
  - intros m L d Hm. change (others_at m L d) with (its_worker_at m L d). unfold its_worker_at.
    destruct (decide _) as [[Hm' _]|]; [lia|done].
  - reflexivity.
  - exists n', s', r. split; [exact H1|]. split; [exact H2|exact H3].
Defined.
End Racing.
